(* ===== verification/_CoqProject ===== *)
-Q . S2P
Prelude.v
JsText.v
Wire.v
Driver.v
Env.v
Store.v
Model.v
Instance.v
Encryption.v
Processor.v
ProcessorFacts.v
Auth.v
AuthFacts.v
AuthController.v
Chat.v
ChatSend.v
ChatFacts.v
Members.v
Attachment.v
Ai.v
AiFacts.v
Gateway.v
ChatController.v
Invariants.v
UnreadFacts.v
StoreFacts.v
AttachmentFacts.v
GatewayFacts.v
Browser.v
BrowserFacts.v
View.v
ViewFacts.v
Page.v
PageFacts.v
Upload.v
SocketClient.v
SocketFacts.v
AiSocket.v
Api.v
Access.v
Scroll.v
ThreadScroll.v
Reconnect.v
Delivery.v
SocketContract.v
Search.v
SearchFacts.v
Media.v
Render.v
RenderFacts.v
SignIn.v
SignInFacts.v
