(* ===== verification/Prelude.v ===== *)
(** * chatsc: a verification library of the chat application

    The repository is a chat application: a NestJS backend over MongoDB
    ([src/backend/src]), a React client ([src/frontend/src]), and a processor in C that
    enciphers messages and hashes passwords behind a TCP port ([src/app], [src/driver]).
    This library translates the logic of the three into Rocq and proves what they promise
    to each other.

    ** How the parts interact

    A browser holds a session ([http.ts], [auth.store.ts]) and a realtime connection
    ([chat-socket.service.ts]); the chat page ([chat.page.tsx]) uses both.  The backend's
    controllers and gateways check the access token, then call [ChatService],
    [ChatAttachmentService] and the assistant services, which read and write the store;
    [ChatService] enciphers what it stores through the processor.  A message that is sent
    is stored, then delivered over the gateways to the pages, which merge it into what they
    show.

    ** Files

    Common ground.  [Prelude]: JavaScript strings as lists of code units, exceptions, the
    effect monad [M World] (a handler resolves, throws keeping its writes, or never
    settles), and the rules [preserves] and [throws_only] with their hint databases.
    [JsText]: the string functions of the language, UTF-8, numbers.  [Store]: collections as
    finite maps, queries, and the class [Mongo] for what the database decides.  [Model]: the
    documents of the schemas, the payload types, the class [Host] for everything outside
    the repository, and the state [World].  [Instance]: one concrete host and database that
    satisfy the hypotheses, used by the witnesses.

    The processor.  [Wire]: the frames ([app/shared/protocol.h] and the two clients).
    [Driver]: request validation ([app/processor]) and the driver's substitution and SHA-1
    ([driver/module]); a string of a request is read up to the next NUL, also past its own
    field, and what has none is a read without a meaning in C, [None].  [Encryption]: [chat-encryption.service.ts] and
    [auth-processing.service.ts]; a TCP exchange is a fold over the events Node delivers.
    [Processor]: the threads of [app/processor/processor_server.c] and the driver they share;
    a step is a system call or a statement of the driver, and a schedule is a list of steps.

    The backend.  [Env]: [config/env.config.ts].  [Auth], [AuthController]: accounts, tokens
    and refresh sessions; endpoints and guards.  [Chat]: [chat.service.ts], a definition
    per method.  [Attachment]: [chat-attachment.service.ts].  [Ai]: the [ai] module.
    [Gateway]: the two gateways; the sockets and what was emitted are part of the world, and
    the promises a handler does not await are tasks run later.  [ChatController]: the
    endpoints.

    The client.  [Browser]: the token, the interceptors of [http.ts] with the refresh that
    expired calls share, and the session store; a step per user action or reply.
    [SocketClient]: [chat-socket.service.ts]; a step per method call, event of the socket,
    timer or acknowledgement.  [View]: the data of the chat page and the functions that
    update and present it.  [Page]: the handlers of [chat.page.tsx] and of its composer, cut
    at each [await], with the effects of a render.  [Search]: the dialogs that search users and
    messages; each delayed request is a run of an effect with its clean-up.  [Media]: the
    image viewer, the picture of a message and the file card.  [ThreadScroll]: the position
    of the thread, on top of the page's steps.  [Render]: the data that the markup gives to
    its elements.  [SignIn]: the sign-in page, its forms and the route, on top of [Browser].
    [AiSocket]: [ai.service.ts], with the token that each connection presents.  [Upload]: the
    upload of [chat-attachment.service.ts] and the texts of its failures.

    The three together.  [Api]: the requests of the client's services against the routes of
    the controllers.  [Scroll]: the page's loads against the backend's [getMessages].
    [Delivery]: a message from the composer through gateway, processor and rooms to the pages.
    [SocketContract]: the events of the sockets, from each [emit] to the handler or listener
    of its name.  [Reconnect]: a connection that breaks and comes back, from the socket to
    the page.
    [Access]: what a user outside a conversation can do, over every call and event.

    ** Theorems

    [ChatSend], [ChatFacts], [UnreadFacts]: a sent message is stored enciphered exactly if
    encryption is on and displayed as what the frame carried of it ([survives]); what a send
    does to counters, previews and attachments; a direct conversation exists once; pages and
    searches; what a departure does to the participants.  [Invariants]: [Op] is what a client can trigger; the invariants of
    every reachable state (one message per attachment, unread counters bounded by the
    messages that others sent), when each operation runs to its end.  [StoreFacts]: in every reachable state the references between documents
    resolve, by an abstraction of the store to what refers to what.  [AttachmentFacts]: the life of an attachment, the checks of
    uploads and downloads, and a race between two sends.  [AuthFacts], [AuthController]: what
    a token needs to be accepted, that a revocation is final, that a registration can sign
    in, that refusals are recorded, that the username loop ends.  [AiFacts]: the loops over keys and
    models follow a plan that is computed from the replies alone, which also says where the
    indices and the states of the keys end.  [Members]: a member with
    two active documents, whom leaving no longer ends.  [Encryption]: the round
    trip through the processor of what the frame carries of a text ([carries]; all of it up
    to 511 bytes), independence from how TCP splits the data, that an exchange
    settles once, and does once the connection ends, and the bounds of its fields.
    [ProcessorFacts]: the threads refine the reply of [Driver] under the schedules where the
    exchanges with the device do not overlap, for requests that have a defined reply; two
    that overlap are answered alike; no thread waits for ever at the lock.  [GatewayFacts]: rooms agree with the
    bookkeeping, an acknowledgement agrees with the store, a send that fails leaves no trace,
    and a removed member's socket goes on hearing.  [Access]: an outsider is refused by every
    call and event but leave_conversation, without a trace, and a departed member is one, if
    they had one active document.

    [BrowserFacts]: every call ends (a measure bounds the replies it needs), refreshes are
    shared, the session agrees with itself; two ways in which it ends up where the user did
    not put it.  [SocketFacts]: the state the page is told is the socket's, every call ends,
    the open conversation is joined again; [Reconnect]: exactly what the client sends after an
    outage, and that what was delivered in the meantime is not fetched.  [ViewFacts], [PageFacts]: the timeline on screen
    stays sorted and without duplicates while answers come for the conversation on screen
    and older pages for the oldest message (and what other answers do), notifications, the lock of the composer,
    the title.  [Upload]: a failed upload says why, and the regular expressions that read
    R2's XML find the leftmost and shortest match.
    [SearchFacts]: what a dialog shows answers the query and the conversation it shows, by a
    machine that both dialogs refine.  [SignInFacts]: a button loads only while a submission
    waits; a refusal says why; what the registration form lets through.  [RenderFacts]: the
    badges sum to the title, the marked parts of a result are its text, and which results
    can be highlighted.  [Media]: the scale is bounded; a late link.  [ThreadScroll]: what the
    second delivery of an own message and a read receipt do to the reader's place.  [AiSocket]: calls settle once; when the
    token of a reconnection is the session's and when it is frozen.  [Scroll]: scrolling up
    reconstructs the stored history.  [Delivery]: what was typed is what the members see.
    [Api]: every request of the client reaches the endpoint it is meant for.
    [SocketContract]: every event of the clients reaches its handler, and every event of the
    gateways that reaches a socket has a listener there.

    ** Choices and bounds

    - A backend handler runs to its end without interleaving; where two of them interleave
      (the attachment race, the race for a direct conversation, the tasks of a gateway) the
      parts are separate definitions.  The processor's threads interleave at every step.  The
      bodies of a [Promise.all] run in the order of the list.
    - In the client a step is one turn of the event loop: everything a reply resumes runs
      before the next event, and the page renders between two events.
    - [resolveUsernameCollision] has one unit of fuel per user and one more, and is proved to
      end with a free name within it.  The other loops are structural.
    - Times are integers in milliseconds; the numbers of the wire frames keep their 32 bits;
      counters are unbounded, as JavaScript's are below 2^53.
    - In [Api] the query and the JSON body are lists of fields; the identifiers in a path are
      words of unreserved characters, as object ids are, so that no encoding intervenes.
    - Hypotheses on the outside are named classes ([OidLaws], [MongoLaws], [WireLaws],
      [RouterLaws]) or explicit premises, and each has an instance in [Instance], [Store] or a
      witness.

    ** Not modelled

    The framework: the matching of routes, dependency injection, [main.ts] beyond the prefix
    of the routes and the module files; the schema of assistant user settings, which
    nothing uses.  MongoDB, socket.io, axios, Express, Gemini, R2 and the JWT library are
    parameters.  Of the client: layout and styles, the React root, the home page that no route
    shows, the URLs of the sockets, and the browser's locale, which is a parameter.  In C: the
    set-up of the processor's listening socket and of the kernel module, the terminal client
    and the earlier chat server, which the web application does not use.  And the deployment
    scripts. *)

From stdpp Require Export prelude gmap strings list sorting.
From Stdlib Require Export ZArith Lia.

#[global] Set Default Goal Selector "!".

(** ** JavaScript strings

    A JavaScript string is a sequence of UTF-16 code units, so it is modelled as
    the list of its code units.  [js] turns a literal of this development (whose
    bytes are UTF-8, as in the TypeScript source) into its code units. *)

Abbreviation jsstring := (list Z).

Definition is_high (u : Z) : bool := (0xD800 <=? u)%Z && (u <=? 0xDBFF)%Z.
Definition is_low (u : Z) : bool := (0xDC00 <=? u)%Z && (u <=? 0xDFFF)%Z.

(** Literals use the one, two and three byte forms of UTF-8 only: every literal
    of the source lies in the basic multilingual plane. *)
Fixpoint js_literal (s : string) : jsstring :=
  match s with
  | EmptyString => []
  | String a s1 =>
      let b0 := Z.of_nat (Ascii.nat_of_ascii a) in
      if (b0 <? 0x80)%Z then b0 :: js_literal s1
      else match s1 with
           | EmptyString => [0xFFFD%Z]
           | String a1 s2 =>
               let b1 := Z.of_nat (Ascii.nat_of_ascii a1) in
               if (b0 <? 0xE0)%Z
               then ((b0 - 0xC0) * 64 + (b1 - 0x80))%Z :: js_literal s2
               else match s2 with
                    | EmptyString => [0xFFFD%Z]
                    | String a2 s3 =>
                        let b2 := Z.of_nat (Ascii.nat_of_ascii a2) in
                        ((b0 - 0xE0) * 4096 + (b1 - 0x80) * 64 + (b2 - 0x80))%Z
                          :: js_literal s3
                    end
           end
  end.

#[global] Arguments js_literal s : simpl never.

Notation "'js' s" := (js_literal s%string)
  (at level 9, s at level 8, only parsing) : stdpp_scope.

(** ** Exceptions

    The exceptions the services throw, with the part of each that other code
    inspects: the Nest exception class, the [error], [code] and [message] fields of
    its response, the [code] and [message] of the two processing errors, and the
    message of any other JavaScript error (BSONError, MongoServerError, TypeError). *)

Inductive HttpKind :=
  | BadRequest | Unauthorized | Forbidden | NotFound | Conflict | ServiceUnavailable.

#[export] Instance HttpKind_eq_dec : EqDecision HttpKind.
Proof. solve_decision. Defined.

Record ErrorBody := mkBody {
  body_error : option jsstring;
  body_code : option jsstring;
  body_message : option jsstring;
}.

Inductive Exn :=
  | HttpException (k : HttpKind) (body : ErrorBody)
  | ChatProcessingError (code message : jsstring)
  | AuthProcessingError (code message : jsstring)
  | ChatDecodeError (code message : jsstring)
  | PlainError (message : jsstring).

(** [new XException({ error, message })], [new XException({ code, message })] and
    [new XException('message')]. *)
Definition exn_error (k : HttpKind) (error message : jsstring) : Exn :=
  HttpException k (mkBody (Some error) None (Some message)).
Definition exn_code (k : HttpKind) (code message : jsstring) : Exn :=
  HttpException k (mkBody None (Some code) (Some message)).
Definition exn_text (k : HttpKind) (message : jsstring) : Exn :=
  HttpException k (mkBody None None (Some message)).

(** ** The effect monad

    An asynchronous function of the source is a state transformer that resolves,
    throws, or never settles.  A throw keeps the writes made before it, since
    nothing in the source rolls a write back. *)

Inductive outcome (A : Type) :=
  | Ok (a : A)
  | Throw (e : Exn)
  | Hang.
Arguments Ok {A} _.
Arguments Throw {A} _.
Arguments Hang {A}.

Definition M (S A : Type) : Type := S → outcome A * S.

Section monad.
Context {S : Type}.

#[export] Instance M_ret : MRet (M S) := λ A a w, (Ok a, w).
#[export] Instance M_bind : MBind (M S) := λ A B k m w,
  match m w with
  | (Ok a, w') => k a w'
  | (Throw e, w') => (Throw e, w')
  | (Hang, w') => (Hang, w')
  end.

Definition throw {A} (e : Exn) : M S A := λ w, (Throw e, w).
(** A promise that never settles. *)
Definition hang {A} : M S A := λ w, (Hang, w).
Definition get : M S S := λ w, (Ok w, w).
Definition gets {A} (f : S → A) : M S A := λ w, (Ok (f w), w).
Definition modify (f : S → S) : M S () := λ w, (Ok tt, f w).

(** [try { m } catch (error) { h error }]; a promise that never settles is not
    caught. *)
Definition try_catch {A} (m : M S A) (h : Exn → M S A) : M S A := λ w,
  match m w with
  | (Throw e, w') => h e w'
  | r => r
  end.

(** [if (c) throw e] and the [?? throw] shape. *)
Definition throw_if (c : bool) (e : Exn) : M S () := if c then throw e else mret tt.
Definition or_throw {A} (o : option A) (e : Exn) : M S A :=
  match o with Some a => mret a | None => throw e end.

(** A sequential [for ... of] with an awaited body, and [Promise.all] over a map
    whose bodies are independent. *)
Fixpoint forM {A B} (l : list A) (f : A → M S B) : M S (list B) :=
  match l with
  | [] => mret []
  | a :: l => b ← f a; bs ← forM l f; mret (b :: bs)
  end.

Fixpoint forM_ {A} (l : list A) (f : A → M S ()) : M S () :=
  match l with
  | [] => mret tt
  | a :: l => f a ;; forM_ l f
  end.
End monad.

(** ** Reasoning about handlers

    [preserves I m]: whatever [m] does, it keeps [I].  The rules below are the hint
    database [inv], so a handler's invariant is proved by [inv_solve] from the
    lemmas of the operations it calls. *)

Definition preserves {S A} (I : S → Prop) (m : M S A) : Prop :=
  ∀ w, I w → I (m w).2.

Create HintDb inv discriminated.

Section preserves.
Context {S : Type} (I : S → Prop).

Lemma preserves_ret {A} (a : A) : preserves I (mret a).
Proof. by intros w. Qed.

Lemma preserves_throw {A} e : preserves I (throw (A:=A) e).
Proof. by intros w. Qed.

Lemma preserves_hang {A} : preserves I (hang (A:=A)).
Proof. by intros w. Qed.

Lemma preserves_gets {A} (f : S → A) : preserves I (gets f).
Proof. by intros w. Qed.

Lemma preserves_get : preserves I get.
Proof. by intros w. Qed.

Lemma preserves_modify f : (∀ w, I w → I (f w)) → preserves I (modify f).
Proof. intros Hf w Hw. by apply Hf. Qed.

Lemma preserves_bind {A B} (m : M S A) (k : A → M S B) :
  preserves I m → (∀ a, preserves I (k a)) → preserves I (m ≫= k).
Proof.
  intros Hm Hk w Hw. specialize (Hm w Hw). unfold mbind, M_bind.
  destruct (m w) as [[a|e|] w']; [by apply Hk|done|done].
Qed.

(** The rest of a bind may use what is known of the value. *)
Lemma preserves_bind_value {A B} (Q : A → Prop) (m : M S A) (k : A → M S B) :
  preserves I m → (∀ w a w', m w = (Ok a, w') → Q a) → (∀ a, Q a → preserves I (k a)) →
  preserves I (m ≫= k).
Proof.
  intros Hm HQ Hk w Hw. specialize (Hm w Hw). unfold mbind, M_bind.
  destruct (m w) as [[a|e|] w'] eqn:E; [|done|done]. by apply Hk; [eapply HQ|].
Qed.

Lemma preserves_try {A} (m : M S A) h :
  preserves I m → (∀ e, preserves I (h e)) → preserves I (try_catch m h).
Proof.
  intros Hm Hh w Hw. specialize (Hm w Hw). unfold try_catch.
  destruct (m w) as [[a|e|] w']; [done|by apply Hh|done].
Qed.

Lemma preserves_throw_if c e : preserves I (throw_if c e).
Proof. by destruct c; intros w. Qed.

Lemma preserves_or_throw {A} (o : option A) e : preserves I (or_throw o e).
Proof. by destruct o; intros w. Qed.

Lemma preserves_forM {A B} (l : list A) (f : A → M S B) :
  (∀ a, preserves I (f a)) → preserves I (forM l f).
Proof.
  intros Hf. induction l as [|a l IH]; simpl; [apply preserves_ret|].
  apply preserves_bind; [done|intros b].
  apply preserves_bind; [done|intros bs]. apply preserves_ret.
Qed.

Lemma preserves_forM_ {A} (l : list A) (f : A → M S ()) :
  (∀ a, preserves I (f a)) → preserves I (forM_ l f).
Proof.
  intros Hf. induction l as [|a l IH]; simpl; [apply preserves_ret|].
  apply preserves_bind; [done|by intros _].
Qed.
End preserves.

#[export] Hint Resolve preserves_ret preserves_throw preserves_hang preserves_gets preserves_get
  preserves_throw_if preserves_or_throw preserves_forM preserves_forM_ : inv.

(** Walks down a handler: binds, branches and catches, then the database. *)
Ltac inv_step :=
  match goal with
  | |- preserves _ (mbind _ _) => apply preserves_bind; [|intros ?]
  | |- preserves _ (try_catch _ _) => apply preserves_try; [|intros ?]
  | |- preserves _ (forM _ _) => apply preserves_forM; intros ?
  | |- preserves _ (forM_ _ _) => apply preserves_forM_; intros ?
  | |- preserves _ (match ?x with _ => _ end) => destruct x
  | |- preserves _ _ => solve [eauto with inv nocore]
  | |- preserves _ _ => progress cbv zeta
  end.
Ltac inv_solve := repeat inv_step.

(** [throws_only P m]: every exception [m] throws satisfies [P]; the rules are the
    hint database [exn]. *)
Definition throws_only {S A} (P : Exn → Prop) (m : M S A) : Prop :=
  ∀ w e w', m w = (Throw e, w') → P e.

Create HintDb exn discriminated.

Section throws_only.
Context {S : Type} (P : Exn → Prop).

Lemma throws_ret {A} (a : A) : throws_only (S:=S) P (mret a).
Proof. by intros w e w' E. Qed.
Lemma throws_throw {A} e : P e → throws_only (S:=S) P (throw (A:=A) e).
Proof. intros He w e' w' E. unfold throw in E. by simplify_eq. Qed.
Lemma throws_gets {A} (f : S → A) : throws_only P (gets f).
Proof. by intros w e w' E. Qed.
Lemma throws_modify f : throws_only (S:=S) P (modify f).
Proof. by intros w e w' E. Qed.
Lemma throws_hang {A} : throws_only (S:=S) P (hang (A:=A)).
Proof. by intros w e w' E. Qed.
Lemma throws_throw_if c e : P e → throws_only (S:=S) P (throw_if c e).
Proof. intros He. destruct c; [by apply throws_throw|by intros w e' w' E]. Qed.
Lemma throws_or_throw {A} (o : option A) e : P e → throws_only (S:=S) P (or_throw o e).
Proof. intros He. destruct o; [by intros w e' w' E|by apply throws_throw]. Qed.

Lemma throws_bind {A B} (m : M S A) (k : A → M S B) :
  throws_only P m → (∀ a, throws_only P (k a)) → throws_only P (m ≫= k).
Proof.
  intros Hm Hk w e w' E. unfold mbind, M_bind in E.
  destruct (m w) as [[a|e'|] w''] eqn:Em; simplify_eq; [by eapply Hk|by eapply Hm].
Qed.

(** A handler that catches everything throws what its [catch] throws. *)
Lemma throws_try {A} (m : M S A) h : (∀ e, throws_only P (h e)) → throws_only P (try_catch m h).
Proof.
  intros Hh w e w' E. unfold try_catch in E.
  destruct (m w) as [[a|e'|] w''] eqn:Em; simplify_eq. by eapply Hh.
Qed.
End throws_only.

#[export] Hint Resolve throws_ret throws_throw throws_gets throws_modify throws_hang
  throws_throw_if throws_or_throw : exn.

Ltac exn_step :=
  match goal with
  | |- throws_only _ (mbind _ _) => apply throws_bind; [|intros ?]
  | |- throws_only _ (try_catch _ _) => apply throws_try; intros ?
  | |- throws_only _ (match ?x with _ => _ end) => destruct x
  | |- throws_only _ _ => solve [eauto with exn nocore]
  | |- throws_only _ _ => progress cbv zeta
  end.
Ltac exn_solve := repeat exn_step.

(** Running a handler: one step of the monad on a known world. *)
Lemma run_bind {S A B} (m : M S A) (k : A → M S B) w :
  (m ≫= k) w = match m w with
               | (Ok a, w') => k a w'
               | (Throw e, w') => (Throw e, w')
               | (Hang, w') => (Hang, w')
               end.
Proof. done. Qed.

Lemma run_bind_Ok {S A B} (m : M S A) (k : A → M S B) w a w' :
  m w = (Ok a, w') → (m ≫= k) w = k a w'.
Proof. intros E. by rewrite run_bind, E. Qed.

Lemma run_bind_Throw {S A B} (m : M S A) (k : A → M S B) w e w' :
  m w = (Throw e, w') → (m ≫= k) w = (Throw e, w').
Proof. intros E. by rewrite run_bind, E. Qed.

Lemma bind_Ok_inv {S A B} (m : M S A) (k : A → M S B) w b w'' :
  (m ≫= k) w = (Ok b, w'') →
  ∃ a w', m w = (Ok a, w') ∧ k a w' = (Ok b, w'').
Proof. rewrite run_bind. destruct (m w) as [[a|e|] w']; naive_solver. Qed.

Lemma try_Ok_inv {S A} (m : M S A) h w a w' :
  try_catch m h w = (Ok a, w') →
  m w = (Ok a, w') ∨ ∃ e w1, m w = (Throw e, w1) ∧ h e w1 = (Ok a, w').
Proof. unfold try_catch. destruct (m w) as [[b|e|] w1]; naive_solver. Qed.

(** The values of a loop. *)
Lemma forM_values {S A B} (Q : B → Prop) (f : A → M S B) l w bs w' :
  (∀ a w b w', f a w = (Ok b, w') → Q b) → forM l f w = (Ok bs, w') → Forall Q bs.
Proof.
  intros Hf. revert w bs w'. induction l as [|a l IH]; intros w bs w' E; cbn [forM] in E.
  { injection E as <- <-. constructor. }
  apply bind_Ok_inv in E as (b & w1 & Eb & E). apply bind_Ok_inv in E as (bs' & w2 & Es & E).
  injection E as <- <-. constructor; eauto.
Qed.

(** Runs a handler symbolically: unfolds the monad, not the operations. *)
Ltac run_simpl :=
  unfold mbind, M_bind, mret, M_ret, throw, get, gets, modify, try_catch, throw_if, or_throw;
  cbn beta iota.
Ltac run_simpl_in H :=
  unfold mbind, M_bind, mret, M_ret, throw, get, gets, modify, try_catch, throw_if, or_throw in H;
  cbn beta iota in H.
