(* ===== verification/JsText.v ===== *)
(** * The string functions of the language that the sources use

    [trim], [includes], [startsWith], [slice], [split], [replace] and the UTF-8
    conversions of Node's [Buffer] and of [TextDecoder], on code-unit lists; and the
    comparisons of JavaScript numbers. *)

From S2P Require Import Prelude.
From Stdlib Require Import QArith.
Open Scope Z_scope.

(** ** Searching and cutting *)

(** WhiteSpace and LineTerminator of ECMAScript: what [trim] removes. *)
Definition is_space (u : Z) : bool :=
  (9 <=? u) && (u <=? 13) || (u =? 32) || (u =? 0xA0) || (u =? 0xFEFF)
  || (u =? 0x1680) || (0x2000 <=? u) && (u <=? 0x200A)
  || (u =? 0x2028) || (u =? 0x2029) || (u =? 0x202F) || (u =? 0x205F) || (u =? 0x3000).

Fixpoint trim_start (s : jsstring) : jsstring :=
  match s with
  | u :: r => if is_space u then trim_start r else s
  | [] => []
  end.

Definition trim (s : jsstring) : jsstring :=
  reverse (trim_start (reverse (trim_start s))).

(** JavaScript truthiness of a string. *)
Definition truthy (s : jsstring) : bool := match s with [] => false | _ => true end.

Fixpoint startsWith (s pat : jsstring) : bool :=
  match pat, s with
  | [], _ => true
  | p :: pat', u :: s' => (p =? u) && startsWith s' pat'
  | _ :: _, [] => false
  end.

Fixpoint includes (s pat : jsstring) : bool :=
  startsWith s pat || match s with [] => false | _ :: s' => includes s' pat end.

(** [s.replace(pat, '')] with a string pattern: the first occurrence only. *)
Fixpoint remove_first (s pat : jsstring) : jsstring :=
  if startsWith s pat then drop (length pat) s
  else match s with [] => [] | u :: s' => u :: remove_first s' pat end.

(** [s.split(c)] for a one-unit separator: always at least one part. *)
Fixpoint split_on (c : Z) (s : jsstring) : list jsstring :=
  match s with
  | [] => [[]]
  | u :: s' =>
      let parts := split_on c s' in
      if u =? c then [] :: parts
      else match parts with
           | p :: ps => (u :: p) :: ps
           | [] => [[u]]
           end
  end.

(** [parts.join(sep)]. *)
Fixpoint join (sep : jsstring) (parts : list jsstring) : jsstring :=
  match parts with
  | [] => []
  | [p] => p
  | p :: ps => p ++ sep ++ join sep ps
  end.

Lemma startsWith_app pre s : startsWith (pre ++ s) pre = true.
Proof. induction pre as [|u pre IH]; simpl; [by destruct s|]. by rewrite Z.eqb_refl. Qed.

Lemma startsWith_inv s pre : startsWith s pre = true → ∃ rest, s = pre ++ rest.
Proof.
  revert s. induction pre as [|u pre IH]; intros s; [by exists s|].
  destruct s as [|v s]; [done|]. simpl. intros [->%Z.eqb_eq H]%andb_true_iff.
  destruct (IH s H) as [rest ->]. by exists rest.
Qed.

Lemma startsWith_spec s pat : startsWith s pat = true ↔ ∃ t, s = pat ++ t.
Proof. split; [apply startsWith_inv|]. intros [t ->]. apply startsWith_app. Qed.

Lemma split_on_none c s : c ∉ s → split_on c s = [s].
Proof.
  induction s as [|u s IH]; [done|]. intros [Hu Hs]%not_elem_of_cons. simpl.
  rewrite IH by done. by rewrite (proj2 (Z.eqb_neq _ _)).
Qed.

Lemma split_on_app c s t : c ∉ s → split_on c (s ++ c :: t) = s :: split_on c t.
Proof.
  induction s as [|u s IH]; intros Hs; simpl.
  - by rewrite Z.eqb_refl.
  - apply not_elem_of_cons in Hs as [Hu Hs]. rewrite IH by done.
    by rewrite (proj2 (Z.eqb_neq _ _)).
Qed.

(** Decimal rendering of a natural number, as in a template literal. *)
Fixpoint dec_digits (fuel : nat) (n : Z) (acc : jsstring) : jsstring :=
  match fuel with
  | O => acc
  | S f => let acc' := (48 + n mod 10) :: acc in
           if n <? 10 then acc' else dec_digits f (n / 10) acc'
  end.
Definition show_nat (n : nat) : jsstring := dec_digits (S n) (Z.of_nat n) [].

Definition digits_value (acc : Z) (ds : jsstring) : Z := foldl (λ a d, a * 10 + (d - 48)) acc ds.

Lemma digits_value_dec fuel n acc :
  0 <= n < 10 ^ Z.of_nat fuel → digits_value 0 (dec_digits fuel n acc) = digits_value n acc.
Proof.
  revert n acc. induction fuel as [|f IH]; intros n acc Hn; cbn [dec_digits].
  { simpl in Hn. by replace n with 0 by lia. }
  pose proof (Z.div_mod n 10 ltac:(lia)) as Hd.
  pose proof (Z.mod_pos_bound n 10 ltac:(lia)) as Hm.
  destruct (Z.ltb_spec n 10).
  - unfold digits_value. simpl. f_equal. rewrite Z.mod_small by lia. lia.
  - rewrite IH.
    + unfold digits_value. simpl. f_equal. lia.
    + rewrite Nat2Z.inj_succ, Z.pow_succ_r in Hn by lia.
      split; [apply Z.div_pos; lia|apply Z.div_lt_upper_bound; lia].
Qed.

Lemma show_nat_inj m n : show_nat m = show_nat n → m = n.
Proof.
  assert (∀ k, digits_value 0 (show_nat k) = Z.of_nat k) as Hv.
  { intros k. unfold show_nat. rewrite digits_value_dec; [done|]. split; [lia|].
    pose proof (Z.pow_gt_lin_r 10 (Z.of_nat (S k)) ltac:(lia)). lia. }
  intros E. apply (f_equal (digits_value 0)) in E. rewrite !Hv in E. lia.
Qed.

(** ** Regular-expression escaping

    [s.replace(/[.*+?^${}()|[\]\\]/g, '\\$&')]: every syntax character gets a
    backslash before it. *)
Definition is_regex_syntax (u : Z) : bool :=
  existsb (Z.eqb u) [46; 42; 43; 63; 94; 36; 123; 125; 40; 41; 124; 91; 93; 92].

Definition escape_regex (s : jsstring) : jsstring :=
  flat_map (λ u, if is_regex_syntax u then [92; u] else [u]) s.

(** The literal a pattern without active syntax denotes: an escaped syntax
    character stands for itself, an unescaped one has a meaning of its own (so the
    pattern is no literal). *)
Fixpoint pattern_literal (p : jsstring) : option jsstring :=
  match p with
  | [] => Some []
  | u :: r =>
      if u =? 92 then
        match r with
        | v :: r' => if is_regex_syntax v then (cons v) <$> pattern_literal r' else None
        | [] => None
        end
      else if is_regex_syntax u then None
      else (cons u) <$> pattern_literal r
  end.

Lemma pattern_literal_escape s : pattern_literal (escape_regex s) = Some s.
Proof.
  induction s as [|u s IH]; [done|]. unfold escape_regex in *; simpl.
  destruct (is_regex_syntax u) eqn:E; simpl.
  - by rewrite E, IH.
  - assert ((u =? 92) = false) as Hu.
    { apply Z.eqb_neq. intros ->. by vm_compute in E. }
    by rewrite Hu, E, IH.
Qed.

(** ** UTF-8 *)

(** Code points of a string; a lone surrogate encodes as U+FFFD. *)
Fixpoint code_points (s : jsstring) : list Z :=
  match s with
  | [] => []
  | u :: r =>
      if is_high u then
        match r with
        | v :: r' =>
            if is_low v
            then (0x10000 + (u - 0xD800) * 1024 + (v - 0xDC00)) :: code_points r'
            else 0xFFFD :: code_points r
        | [] => [0xFFFD]
        end
      else if is_low u then 0xFFFD :: code_points r
      else u :: code_points r
  end.

Definition utf8_of_cp (c : Z) : list Z :=
  if c <? 0x80 then [c]
  else if c <? 0x800 then [0xC0 + c / 64; 0x80 + c mod 64]
  else if c <? 0x10000 then
    [0xE0 + c / 4096; 0x80 + (c / 64) mod 64; 0x80 + c mod 64]
  else
    [0xF0 + c / 262144; 0x80 + (c / 4096) mod 64; 0x80 + (c / 64) mod 64; 0x80 + c mod 64].

(** [Buffer.from(value, 'utf8')]. *)
Definition utf8_encode (s : jsstring) : list Z := flat_map utf8_of_cp (code_points s).

Definition units_of_cp (c : Z) : jsstring :=
  if c <? 0x10000 then [c]
  else [0xD800 + (c - 0x10000) / 1024; 0xDC00 + (c - 0x10000) mod 1024].

Definition in_range (lo hi b : Z) : bool := (lo <=? b) && (b <=? hi).
Definition cont (b : Z) : bool := in_range 0x80 0xBF b.

(** The decoder of the WHATWG encoding standard: [Some c] is a decoded code point,
    [None] one maximal ill-formed part. *)
Definition scan_body (utf8_scan : list Z → list (option Z)) (l : list Z) : list (option Z) :=
  match l with
  | [] => []
  | b0 :: r0 =>
      if b0 <? 0x80 then Some b0 :: utf8_scan r0
      else if in_range 0xC2 0xDF b0 then
        match r0 with
        | b1 :: r1 =>
            if cont b1 then Some ((b0 - 0xC0) * 64 + (b1 - 0x80)) :: utf8_scan r1
            else None :: utf8_scan r0
        | [] => [None]
        end
      else if in_range 0xE0 0xEF b0 then
        match r0 with
        | b1 :: r1 =>
            if in_range (if b0 =? 0xE0 then 0xA0 else 0x80)
                        (if b0 =? 0xED then 0x9F else 0xBF) b1 then
              match r1 with
              | b2 :: r2 =>
                  if cont b2
                  then Some ((b0 - 0xE0) * 4096 + (b1 - 0x80) * 64 + (b2 - 0x80)) :: utf8_scan r2
                  else None :: utf8_scan r1
              | [] => [None]
              end
            else None :: utf8_scan r0
        | [] => [None]
        end
      else if in_range 0xF0 0xF4 b0 then
        match r0 with
        | b1 :: r1 =>
            if in_range (if b0 =? 0xF0 then 0x90 else 0x80)
                        (if b0 =? 0xF4 then 0x8F else 0xBF) b1 then
              match r1 with
              | b2 :: r2 =>
                  if cont b2 then
                    match r2 with
                    | b3 :: r3 =>
                        if cont b3
                        then Some ((b0 - 0xF0) * 262144 + (b1 - 0x80) * 4096
                                   + (b2 - 0x80) * 64 + (b3 - 0x80)) :: utf8_scan r3
                        else None :: utf8_scan r2
                    | [] => [None]
                    end
                  else None :: utf8_scan r1
              | [] => [None]
              end
            else None :: utf8_scan r0
        | [] => [None]
        end
      else None :: utf8_scan r0
  end.

Fixpoint utf8_scan (l : list Z) : list (option Z) := scan_body utf8_scan l.

(** [buffer.toString('utf8')]. *)
Definition utf8_decode (l : list Z) : jsstring :=
  flat_map (λ o, match o with Some c => units_of_cp c | None => [0xFFFD] end) (utf8_scan l).

(** [new TextDecoder('utf-8', { fatal: true }).decode(buffer)]: fails on an
    ill-formed part, and drops one leading byte-order mark. *)
Definition utf8_decode_fatal (l : list Z) : option jsstring :=
  cps ← mapM id (utf8_scan l);
  Some (flat_map units_of_cp (match cps with 0xFEFF :: r => r | _ => cps end)).

(** ** Well-formed strings survive the conversion *)

Fixpoint well_formed (s : jsstring) : bool :=
  match s with
  | [] => true
  | u :: r =>
      in_range 0 0xFFFF u &&
      if is_high u then match r with v :: r' => is_low v && well_formed r' | [] => false end
      else negb (is_low u) && well_formed r
  end.

Definition scalar (c : Z) : Prop := 0 <= c < 0xD800 ∨ 0xE000 <= c < 0x110000.

(** The 6-bit digits of a code point. *)
Lemma cp_digits c :
  0 ≤ c →
  ∃ t h m l, c / 262144 = t ∧ (c / 4096) mod 64 = h ∧ (c / 64) mod 64 = m ∧ c mod 64 = l ∧
    c / 64 = 4096 * t + 64 * h + m ∧ c / 4096 = 64 * t + h ∧
    c = 262144 * t + 4096 * h + 64 * m + l ∧
    0 ≤ t ∧ 0 ≤ h < 64 ∧ 0 ≤ m < 64 ∧ 0 ≤ l < 64.
Proof.
  intros Hc. eexists _, _, _, _. do 4 (split; [reflexivity|]).
  assert (c / 4096 = c / 64 / 64) as E1 by by rewrite Z.div_div.
  assert (c / 262144 = c / 4096 / 64) as E2 by by rewrite Z.div_div.
  pose proof (Z.div_mod c 64 ltac:(lia)). pose proof (Z.mod_pos_bound c 64 ltac:(lia)).
  pose proof (Z.div_mod (c / 64) 64 ltac:(lia)).
  pose proof (Z.mod_pos_bound (c / 64) 64 ltac:(lia)).
  pose proof (Z.div_mod (c / 4096) 64 ltac:(lia)).
  pose proof (Z.mod_pos_bound (c / 4096) 64 ltac:(lia)).
  pose proof (Z.div_pos c 262144 Hc ltac:(lia)).
  rewrite E1, E2 in *. lia.
Qed.

(** Decides the interval tests of the coder by linear arithmetic. *)
Ltac decide_tests :=
  repeat match goal with
  | |- context [?a <? ?b] =>
      first [ replace (a <? b) with true by lia | replace (a <? b) with false by lia ]
  | |- context [?a <=? ?b] =>
      first [ replace (a <=? b) with true by lia | replace (a <=? b) with false by lia ]
  | |- context [?a =? ?b] =>
      first [ replace (a =? b) with true by lia | replace (a =? b) with false by lia ]
  end.

Lemma scan_body_cp f c rest :
  scalar c → scan_body f (utf8_of_cp c ++ rest) = Some c :: f rest.
Proof.
  intros Hc. unfold scalar in Hc. unfold utf8_of_cp.
  destruct (cp_digits c) as (t & h & m & l & -> & -> & -> & -> & -> & -> & E & ?); [lia|].
  destruct (Z.ltb_spec c 0x80); [|destruct (Z.ltb_spec c 0x800);
    [|destruct (Z.ltb_spec c 0x10000)]]; simpl; unfold cont, in_range.
  - decide_tests. done.
  - decide_tests. simpl. do 2 f_equal. lia.
  - destruct (Z.eqb_spec (224 + (64 * t + h)) 0xE0), (Z.eqb_spec (224 + (64 * t + h)) 0xED);
      try lia; decide_tests; simpl; do 2 f_equal; lia.
  - destruct (Z.eqb_spec (240 + t) 0xF0), (Z.eqb_spec (240 + t) 0xF4);
      try lia; decide_tests; simpl; do 2 f_equal; lia.
Qed.

Lemma utf8_scan_unfold l : utf8_scan l = scan_body utf8_scan l.
Proof. by destruct l. Qed.

Lemma utf8_scan_cps cps :
  Forall scalar cps → utf8_scan (flat_map utf8_of_cp cps) = Some <$> cps.
Proof.
  induction 1 as [|c cps Hc _ IH]; [done|].
  cbn [flat_map]. by rewrite utf8_scan_unfold, scan_body_cp, IH.
Qed.

(** Induction over a string one code point at a time. *)
Lemma well_formed_ind (P : jsstring → Prop) :
  P [] →
  (∀ u r, in_range 0 0xFFFF u → is_high u = false → is_low u = false →
          well_formed r → P r → P (u :: r)) →
  (∀ u v r, is_high u → is_low v → well_formed r → P r → P (u :: v :: r)) →
  ∀ s, well_formed s → P s.
Proof.
  intros H0 H1 H2 s. remember (length s) as n eqn:Hn. revert s Hn.
  induction (lt_wf n) as [n _ IH]; intros [|u r] -> Hwf; [done|].
  simpl in Hwf. destruct (is_high u) eqn:Hu.
  - destruct r as [|v r']; [by apply andb_True in Hwf as [_ []]|].
    apply andb_True in Hwf as [_ [Hv Hwf]%andb_True].
    apply H2; [by rewrite Hu|done|done|]. eapply IH; [|done|done]. simpl; lia.
  - apply andb_True in Hwf as [Hr [Hl%negb_True Hwf]%andb_True].
    apply H1; [done|done|by destruct (is_low u)|done|].
    eapply IH; [|done|done]. simpl; lia.
Qed.

Lemma code_points_spec s :
  well_formed s → Forall scalar (code_points s) ∧ flat_map units_of_cp (code_points s) = s.
Proof.
  revert s. apply well_formed_ind; simpl; [done| |].
  - intros u r Hr%Is_true_true Hh Hl _ [IH1 IH2]. rewrite Hh, Hl. simpl. split.
    + constructor; [|done]. unfold scalar, in_range, is_high, is_low in *. lia.
    + rewrite IH2. unfold units_of_cp, in_range in *. by replace (u <? 65536) with true by lia.
  - intros u v r Hu Hv _ [IH1 IH2].
    destruct (is_high u) eqn:Eu; [|done]. destruct (is_low v) eqn:Ev; [|done].
    unfold is_high, is_low in *. simpl. rewrite IH2.
    set (c := 0x10000 + (u - 0xD800) * 1024 + (v - 0xDC00)).
    assert ((c - 0x10000) / 1024 = u - 0xD800) as E1.
    { symmetry. apply (Z.div_unique _ _ _ (v - 0xDC00)); [lia|]. unfold c. lia. }
    assert ((c - 0x10000) mod 1024 = v - 0xDC00) as E2.
    { symmetry. apply (Z.mod_unique _ _ (u - 0xD800)); [lia|]. unfold c. lia. }
    split; [constructor; [unfold scalar, c; lia|done]|].
    unfold units_of_cp. rewrite E1, E2.
    replace (c <? 65536) with false by (unfold c; lia). simpl.
    do 2 f_equal; [lia|]. f_equal. lia.
Qed.

(** Decoding the encoding of a well-formed string gives the string back. *)
Lemma utf8_roundtrip s : well_formed s → utf8_decode (utf8_encode s) = s.
Proof.
  intros [Hsc Hu]%code_points_spec. unfold utf8_decode, utf8_encode.
  rewrite utf8_scan_cps by done. rewrite <-Hu at 2. clear Hu Hsc.
  induction (code_points s) as [|c cps IH]; [done|]. simpl. f_equal. exact IH.
Qed.

(** ** Numbers

    A JavaScript number as the sources use them (comparisons, [Math.min] and
    [Math.max], [Number.isFinite]): a finite number is the rational it denotes. *)

Inductive number := NaN | PInf | NInf | Fin (q : Q).

Definition num (z : Z) : number := Fin (inject_Z z).

Definition isFinite (n : number) : bool := match n with Fin _ => true | _ => false end.

(** [a <= b] and [a < b]: false when either is NaN. *)
Definition num_le (a b : number) : bool :=
  match a, b with
  | NaN, _ | _, NaN => false
  | NInf, _ | _, PInf => true
  | Fin p, Fin q => Qle_bool p q
  | _, _ => false
  end.
Definition num_lt (a b : number) : bool :=
  match a, b with NaN, _ | _, NaN => false | _, _ => negb (num_le b a) end.

Definition Math_min (a b : number) : number :=
  match a, b with NaN, _ | _, NaN => NaN | _, _ => if num_le a b then a else b end.
Definition Math_max (a b : number) : number :=
  match a, b with NaN, _ | _, NaN => NaN | _, _ => if num_le a b then b else a end.

(** [n || d] for a number: zero and NaN are falsy. *)
Definition num_or (n d : number) : number :=
  match n with
  | NaN => d
  | Fin q => if Qeq_bool q 0 then d else n
  | _ => n
  end.

(** The integer a number denotes, when it is one. *)
Definition as_integer (n : number) : option Z :=
  match n with
  | Fin q => if (Qnum q mod Zpos (Qden q) =? 0) then Some (Qnum q / Zpos (Qden q)) else None
  | _ => None
  end.

Lemma as_integer_num z : as_integer (num z) = Some z.
Proof. unfold as_integer, num. simpl. by rewrite Z.mod_1_r, Z.div_1_r. Qed.

Lemma num_le_num a b : num_le (num a) (num b) = (a <=? b).
Proof. unfold num_le, num, Qle_bool. simpl. by rewrite !Z.mul_1_r. Qed.

Lemma num_lt_num a b : num_lt (num a) (num b) = (a <? b).
Proof.
  unfold num_lt. change (negb (num_le (num b) (num a)) = (a <? b)).
  rewrite num_le_num. lia.
Qed.

Lemma Math_min_num a b : Math_min (num a) (num b) = num (Z.min a b).
Proof.
  unfold Math_min. change ((if num_le (num a) (num b) then num a else num b) = num (Z.min a b)).
  rewrite num_le_num. case_match; f_equal; f_equal; lia.
Qed.

Lemma Math_max_num a b : Math_max (num a) (num b) = num (Z.max a b).
Proof.
  unfold Math_max. change ((if num_le (num a) (num b) then num b else num a) = num (Z.max a b)).
  rewrite num_le_num. case_match; f_equal; f_equal; lia.
Qed.

(** The first entry of a key: a property of an object, a field of a query. *)
Definition field {A} (k : jsstring) (l : list (jsstring * A)) : option A :=
  snd <$> head (filter (λ kv : jsstring * A, kv.1 = k) l).
