(* ===== verification/Wire.v ===== *)
(** * The processor's wire format

    Node's [Buffer] operations the two processor clients use, on lists of bytes,
    and the frame layout both ends share ([app/shared/protocol.h]): a request of
    1164 bytes and a response of 588 bytes made of little-endian words and
    NUL-terminated fields. *)

From S2P Require Import Prelude JsText.
Open Scope Z_scope.

Abbreviation buffer := (list Z).

Definition CHAT_REQUEST_SIZE : nat := 1164.
Definition CHAT_RESPONSE_SIZE : nat := 588.
Definition CHAT_MAX_USERNAME : nat := 32.
Definition CHAT_MAX_PASSWORD : nat := 64.
Definition CHAT_MAX_MESSAGE : nat := 512.
Definition CHAT_MAX_RESULT : nat := 512.

(** ** Buffers *)

(** [Buffer.alloc(size)]. *)
Definition alloc (size : nat) : buffer := replicate size 0.

(** [buffer.subarray(off, off + n)]. *)
Definition read_at (off n : nat) (b : buffer) : buffer := take n (drop off b).

(** Copies [bs] into the buffer at [off]; what runs past the end is dropped. *)
Definition write_at (off : nat) (bs b : buffer) : buffer :=
  take (length b) (take off b ++ bs ++ drop (off + length bs) b).

Definition le32 (v : Z) : buffer :=
  [v mod 256; (v / 256) mod 256; (v / 65536) mod 256; (v / 16777216) mod 256].

Definition of_le (bs : buffer) : Z := foldr (λ b acc, b + 256 * acc) 0 bs.

(** [buffer.writeUInt32LE(v, off)]: a RangeError outside the 32-bit range. *)
Definition writeUInt32LE (v : Z) (off : nat) (b : buffer) : option buffer :=
  if (0 <=? v) && (v <=? 0xFFFFFFFF) then Some (write_at off (le32 v) b) else None.

Definition readUInt32LE (off : nat) (b : buffer) : Z := of_le (read_at off 4 b).
Definition readInt32LE (off : nat) (b : buffer) : Z :=
  let v := readUInt32LE off b in if v <? 0x80000000 then v else v - 0x100000000.

(** The bytes before the first NUL. *)
Fixpoint cstr (bs : buffer) : buffer :=
  match bs with
  | [] => []
  | b :: r => if b =? 0 then [] else b :: cstr r
  end.

(** [writeCString]: at most [size - 1] bytes of the value and a NUL. *)
Definition writeCString (b : buffer) (off size : nat) (value : jsstring) : buffer :=
  let encoded := take (size - 1) (utf8_encode value) in
  write_at (off + length encoded) [0] (write_at off encoded b).

(** [readCString]: up to the first NUL of the field, or all of it. *)
Definition readCString (b : buffer) (off size : nat) : jsstring :=
  utf8_decode (cstr (read_at off size b)).

(** ** Lemmas *)

Lemma length_write_at off bs b :
  (off + length bs ≤ length b)%nat → length (write_at off bs b) = length b.
Proof.
  intros. unfold write_at. rewrite length_take, !length_app, length_take, length_drop. lia.
Qed.

Lemma write_at_eq off bs b :
  (off + length bs ≤ length b)%nat →
  write_at off bs b = take off b ++ bs ++ drop (off + length bs) b.
Proof.
  intros. unfold write_at. apply take_ge.
  rewrite !length_app, length_take, length_drop. lia.
Qed.

Lemma lookup_read_at o n b i :
  read_at o n b !! i = if decide (i < n)%nat then b !! (o + i)%nat else None.
Proof.
  unfold read_at. case_decide.
  - by rewrite lookup_take_lt, lookup_drop.
  - by rewrite lookup_take_ge by lia.
Qed.

Lemma lookup_write_at off bs b i :
  (off + length bs ≤ length b)%nat →
  write_at off bs b !! i =
    if decide (off ≤ i < off + length bs)%nat then bs !! (i - off)%nat else b !! i.
Proof.
  intros Hl. rewrite write_at_eq by done.
  destruct (decide (i < off)%nat).
  - rewrite lookup_app_l by (rewrite length_take; lia).
    rewrite lookup_take_lt by done. by rewrite decide_False by lia.
  - rewrite lookup_app_r by (rewrite length_take; lia).
    rewrite length_take, Nat.min_l by lia. case_decide.
    + rewrite lookup_app_l by lia. done.
    + rewrite lookup_app_r, lookup_drop by lia. f_equal. lia.
Qed.

Lemma lookup_zeros (n i : nat) : (i < n)%nat → replicate n 0 !! i = Some 0.
Proof. intros. by apply lookup_replicate_2. Qed.

(** Pointwise comparison of two field contents. *)
Ltac bytewise :=
  apply list_eq; intros ?;
  repeat first
    [ rewrite lookup_read_at | rewrite lookup_write_at by (rewrite ?length_write_at; simpl; lia) ];
  repeat case_decide; try lia; try done.

Lemma read_write_same off bs b :
  (off + length bs ≤ length b)%nat → read_at off (length bs) (write_at off bs b) = bs.
Proof.
  intros. bytewise.
  - f_equal. lia.
  - symmetry. apply lookup_ge_None. lia.
Qed.

(** A field that ends before the write is unchanged, and so is one that starts
    after it. *)
Lemma read_write_other o n off bs b :
  (o + n ≤ off ∨ off + length bs ≤ o)%nat → (off + length bs ≤ length b)%nat →
  read_at o n (write_at off bs b) = read_at o n b.
Proof. intros. bytewise. Qed.

Lemma read_at_alloc o n size :
  (o + n ≤ size)%nat → read_at o n (alloc size) = replicate n 0.
Proof.
  intros. unfold read_at, alloc. rewrite drop_replicate, take_replicate. f_equal. lia.
Qed.

Lemma length_read_at o n b : (o + n ≤ length b)%nat → length (read_at o n b) = n.
Proof. intros. unfold read_at. rewrite length_take, length_drop. lia. Qed.

Lemma length_alloc n : length (alloc n) = n.
Proof. apply length_replicate. Qed.

Lemma cstr_app_zeros bs n : 0 ∉ bs → cstr (bs ++ replicate n 0) = bs.
Proof.
  induction bs as [|b bs IH]; intros Hn; simpl.
  - by destruct n.
  - apply not_elem_of_cons in Hn as [Hb Hn]. rewrite IH by done.
    by replace (b =? 0) with false by lia.
Qed.

Lemma of_le_le32 v : 0 ≤ v ≤ 0xFFFFFFFF → of_le (le32 v) = v.
Proof.
  intros Hv. unfold of_le, le32. cbn [foldr].
  pose proof (Z.div_mod v 256 ltac:(lia)).
  pose proof (Z.div_mod (v / 256) 256 ltac:(lia)).
  pose proof (Z.div_mod (v / 65536) 256 ltac:(lia)).
  assert (v / 65536 = v / 256 / 256) as E1 by by rewrite Z.div_div.
  assert (v / 16777216 = v / 65536 / 256) as E2 by by rewrite Z.div_div.
  rewrite (Z.mod_small (v / 16777216)).
  - rewrite E1, E2 in *. lia.
  - split; [apply Z.div_pos; lia|]. apply Z.div_lt_upper_bound; lia.
Qed.

(** Every [writeCString] touches only its own field: the length stays, other
    fields stay, and in a zeroed field the value is followed by zeros. *)
Section writeCString.
Context (b : buffer) (off size : nat) (value : jsstring).
Context (Hsize : (0 < size)%nat) (Hfits : (off + size ≤ length b)%nat).

Let e := take (size - 1) (utf8_encode value).

Local Lemma length_encoded : (length e ≤ size - 1)%nat.
Proof. unfold e. rewrite length_take. lia. Qed.

Lemma length_writeCString : length (writeCString b off size value) = length b.
Proof.
  pose proof length_encoded. unfold writeCString. fold e.
  rewrite !length_write_at; simpl; rewrite ?length_write_at; lia.
Qed.

Lemma read_writeCString_other o n :
  (o + n ≤ off ∨ off + size ≤ o)%nat →
  read_at o n (writeCString b off size value) = read_at o n b.
Proof.
  pose proof length_encoded. intros. unfold writeCString. fold e.
  rewrite !read_write_other; rewrite ?length_write_at; simpl; lia || done.
Qed.

Lemma read_writeCString :
  read_at off size b = replicate size 0 →
  read_at off size (writeCString b off size value) = e ++ replicate (size - length e) 0.
Proof.
  intros Hz. pose proof length_encoded. unfold writeCString. fold e.
  apply list_eq; intros i. rewrite lookup_read_at. case_decide.
  - rewrite !lookup_write_at by (rewrite ?length_write_at; simpl; lia). simpl.
    assert (b !! (off + i)%nat = Some 0) as Hb.
    { apply (f_equal (.!! i)) in Hz. rewrite lookup_read_at, decide_True in Hz by done.
      by rewrite Hz, lookup_zeros. }
    destruct (decide (i < length e)%nat).
    + rewrite decide_False, decide_True, lookup_app_l by lia. f_equal. lia.
    + rewrite lookup_app_r, lookup_zeros by lia.
      case_decide; [by replace (off + i - (off + length e))%nat with 0%nat by lia|].
      by rewrite decide_False by lia.
  - symmetry. apply lookup_ge_None. rewrite length_app, length_replicate. lia.
Qed.
End writeCString.
