(* ===== verification/Driver.v ===== *)
(** * The remote processor

    The other end of the processor connection, which the backend reaches over TCP:
    the request validation of [app/processor], and the character-device driver of
    [driver/module] with its substitution cipher and its SHA-1.  The backend's
    client code is in [Encryption.v]. *)

From S2P Require Import Prelude JsText Wire.
Open Scope Z_scope.

Definition PROCESS_SUBSTITUTION : Z := 1.
Definition PROCESS_SHA1 : Z := 2.
Definition PROCESS_SUBSTITUTION_DECRYPT : Z := 3.
Definition REQUEST_AUTH_LOGIN : Z := 1.
Definition REQUEST_CHAT_MESSAGE : Z := 2.
Definition REQUEST_LOGOUT : Z := 3.
Definition REQUEST_AUTH_REGISTER : Z := 4.
Definition REQUEST_CHAT_SELECT_PEER : Z := 5.
Definition RESPONSE_ACK : Z := 1.
Definition STATUS_OK : Z := 0.
Definition STATUS_DRIVER_ERROR : Z := 3.
Definition STATUS_INVALID_REQUEST : Z := 4.

(** ** Frames *)

Record chat_request := mkRequest {
  rq_message_id : Z;
  rq_request_type : Z;
  rq_mode : Z;
  rq_username : buffer;
  rq_peer_username : buffer;
  rq_auth_payload : buffer;
  rq_payload : buffer;
  rq_plaintext_payload : buffer;
}.

Definition parse_request (b : buffer) : chat_request := {|
  rq_message_id := readUInt32LE 0 b;
  rq_request_type := readUInt32LE 4 b;
  rq_mode := readUInt32LE 8 b;
  rq_username := read_at 12 32 b;
  rq_peer_username := read_at 44 32 b;
  rq_auth_payload := read_at 76 64 b;
  rq_payload := read_at 140 512 b;
  rq_plaintext_payload := read_at 652 512 b;
|}.

Record chat_response := mkResponse {
  rs_message_id : Z;
  rs_response_type : Z;
  rs_status : Z;
  rs_from_username : buffer;
  rs_peer_username : buffer;
  rs_payload : buffer;
}.

(** A C string in a zeroed array of [n] bytes: what [snprintf(dst, n, "%s", src)]
    leaves after the [memset]. *)
Definition c_field (n : nat) (src : buffer) : buffer :=
  let s := take (n - 1) (cstr src) in s ++ replicate (n - length s) 0.

Definition response_bytes (r : chat_response) : buffer :=
  le32 (rs_message_id r) ++ le32 (rs_response_type r) ++ le32 (rs_status r)
  ++ rs_from_username r ++ rs_peer_username r ++ rs_payload r.

(** An error response: the arrays are zeroed except for the payload. *)
Definition error_response (id status : Z) (text : jsstring) : chat_response :=
  mkResponse id RESPONSE_ACK status (alloc 32) (alloc 32) (c_field 512 text).

(** The first byte of a field is not NUL. *)
Definition nonempty (f : buffer) : bool := match f with b :: _ => negb (b =? 0) | [] => false end.

(** ** [processor_validate_request]: [None] lets the request through. *)
Definition processor_validate_request (r : chat_request) : option chat_response :=
  let fail text := Some (error_response (rq_message_id r) STATUS_INVALID_REQUEST text) in
  let supported := (rq_mode r =? PROCESS_SUBSTITUTION) || (rq_mode r =? PROCESS_SHA1)
                   || (rq_mode r =? PROCESS_SUBSTITUTION_DECRYPT) in
  let auth := (rq_request_type r =? REQUEST_AUTH_LOGIN)
              || (rq_request_type r =? REQUEST_AUTH_REGISTER) in
  if negb supported then fail (js "unsupported-mode")
  else if auth && (nonempty (rq_username r) && nonempty (rq_auth_payload r)) then None
  else if (rq_request_type r =? REQUEST_CHAT_SELECT_PEER) && nonempty (rq_peer_username r)
  then None
  else if (rq_request_type r =? REQUEST_CHAT_MESSAGE)
          && (nonempty (rq_peer_username r) && nonempty (rq_payload r)) then None
  else if rq_request_type r =? REQUEST_LOGOUT then None
  else if auth && (negb (nonempty (rq_username r)) || negb (nonempty (rq_auth_payload r)))
  then fail (js "missing-auth-payload")
  else if (rq_request_type r =? REQUEST_CHAT_SELECT_PEER) && negb (nonempty (rq_peer_username r))
  then fail (js "missing-peer")
  else if (rq_request_type r =? REQUEST_CHAT_MESSAGE)
          && (negb (nonempty (rq_peer_username r)) || negb (nonempty (rq_payload r)))
  then fail (js "missing-message-payload")
  else fail (js "invalid-request").

(** ** The substitution cipher *)

Definition k_lower_alphabet : buffer := js "abcdefghijklmnopqrstuvwxyz".
Definition k_lower_cipher : buffer := js "qazwsxedcrfvtgbyhnujmikolp".
Definition k_upper_alphabet : buffer := js "ABCDEFGHIJKLMNOPQRSTUVWXYZ".
Definition k_upper_cipher : buffer := js "QAZWSXEDCRFVTGBYHNUJMIKOLP".
Definition k_digits : buffer := js "0123456789".
Definition k_digit_cipher : buffer := js "7319058246".

(** The loop over [source]: the first position holding [ch] decides. *)
Fixpoint map_char (ch : Z) (source target : buffer) : Z :=
  match source, target with
  | s :: source', t :: target' => if s =? ch then t else map_char ch source' target'
  | _, _ => ch
  end.

Definition map_forward (ch : Z) : Z :=
  if (97 <=? ch) && (ch <=? 122) then map_char ch k_lower_alphabet k_lower_cipher
  else if (65 <=? ch) && (ch <=? 90) then map_char ch k_upper_alphabet k_upper_cipher
  else if (48 <=? ch) && (ch <=? 57) then map_char ch k_digits k_digit_cipher
  else ch.

Definition map_reverse (ch : Z) : Z :=
  if (97 <=? ch) && (ch <=? 122) then map_char ch k_lower_cipher k_lower_alphabet
  else if (65 <=? ch) && (ch <=? 90) then map_char ch k_upper_cipher k_upper_alphabet
  else if (48 <=? ch) && (ch <=? 57) then map_char ch k_digit_cipher k_digits
  else ch.

(** Up to the NUL of the input and at most [size - 1] bytes, then a NUL; the rest
    of the zeroed output stays zero. *)
Definition substitution_transform (input : buffer) (size : nat) : buffer :=
  let out := map_forward <$> take (size - 1) (cstr input) in
  out ++ replicate (size - length out) 0.

Definition substitution_reverse_transform (input : buffer) (size : nat) : buffer :=
  let out := map_reverse <$> take (size - 1) (cstr input) in
  out ++ replicate (size - length out) 0.

(** ** SHA-1 *)

Definition u32 (v : Z) : Z := v mod 0x100000000.
Definition rol32 (v : Z) (n : Z) : Z := u32 (Z.lor (Z.shiftl v n) (Z.shiftr v (32 - n))).
Definition not32 (v : Z) : Z := 0xFFFFFFFF - v.

(** The message schedule: the last sixteen words, newest first, produce the next. *)
Fixpoint sha1_schedule (n : nat) (w : list Z) : list Z :=
  match n with
  | O => reverse w
  | S n' =>
      let x := Z.lxor (Z.lxor (nth 2 w 0) (nth 7 w 0)) (Z.lxor (nth 13 w 0) (nth 15 w 0)) in
      sha1_schedule n' (rol32 x 1 :: w)
  end.

Definition sha1_round (i : nat) (st : Z * Z * Z * Z * Z) (w : Z) : Z * Z * Z * Z * Z :=
  let '(a, b, c, d, e) := st in
  let '(f, k) :=
    if (i <? 20)%nat then (Z.lor (Z.land b c) (Z.land (not32 b) d), 0x5A827999)
    else if (i <? 40)%nat then (Z.lxor (Z.lxor b c) d, 0x6ED9EBA1)
    else if (i <? 60)%nat
         then (Z.lor (Z.lor (Z.land b c) (Z.land b d)) (Z.land c d), 0x8F1BBCDC)
    else (Z.lxor (Z.lxor b c) d, 0xCA62C1D6) in
  (u32 (rol32 a 5 + f + e + k + w), a, rol32 b 30, c, d).

Fixpoint sha1_rounds (i : nat) (st : Z * Z * Z * Z * Z) (ws : list Z) :=
  match ws with [] => st | w :: ws' => sha1_rounds (S i) (sha1_round i st w) ws' end.

Definition be32 (bs : buffer) : Z := foldl (λ acc b, acc * 256 + b) 0 bs.

Fixpoint chunks (fuel n : nat) (bs : buffer) : list buffer :=
  match fuel, bs with
  | O, _ | _, [] => []
  | S f, _ => take n bs :: chunks f n (drop n bs)
  end.

Definition sha1_transform (st : Z * Z * Z * Z * Z) (block : buffer) : Z * Z * Z * Z * Z :=
  let w := sha1_schedule 64 (reverse (be32 <$> chunks 16 4 block)) in
  let '(a, b, c, d, e) := st in
  let '(a', b', c', d', e') := sha1_rounds 0 st w in
  (u32 (a + a'), u32 (b + b'), u32 (c + c'), u32 (d + d'), u32 (e + e')).

(** Padding: 0x80, zeros to 56 modulo 64, the 64-bit big-endian bit count. *)
Definition sha1_pad (bs : buffer) : buffer :=
  let n := length bs in
  bs ++ [0x80] ++ replicate (Z.to_nat ((55 - Z.of_nat n) mod 64)) 0
  ++ ((λ i, Z.shiftr (8 * Z.of_nat n) (8 * i) mod 256) <$> [7; 6; 5; 4; 3; 2; 1; 0]).

Definition sha1 (bs : buffer) : Z * Z * Z * Z * Z :=
  let p := sha1_pad bs in
  foldl sha1_transform (0x67452301, 0xEFCDAB89, 0x98BADCFE, 0x10325476, 0xC3D2E1F0)
        (chunks (length p) 64 p).

Definition hex_digit (v : Z) : Z := if v <? 10 then 48 + v else 87 + v.
Definition hex32 (v : Z) : buffer :=
  (λ i, hex_digit (Z.shiftr v (4 * i) mod 16)) <$> [7; 6; 5; 4; 3; 2; 1; 0].

(** The digest as it leaves the zeroed output: forty digits, then NULs. *)
Definition sha1_output (s : buffer) (size : nat) : buffer :=
  let '(a, b, c, d, e) := sha1 s in
  (hex32 a ++ hex32 b ++ hex32 c ++ hex32 d ++ hex32 e) ++ replicate (size - 40) 0.

(** The C string at the start of [mem], the memory of one object from a pointer on.  [None]
    when no NUL follows there: looking for it, [strlen] and the [%s] of [snprintf] then read
    past the object, which C gives no meaning. *)
Definition c_string (mem : buffer) : option buffer :=
  if bool_decide (0 ∈ mem) then Some (cstr mem) else None.

Definition kernel_sha1_transform (input : buffer) (size : nat) : option buffer :=
  if (size <? 41)%nat then Some (alloc size)
  else s ← c_string input; Some (sha1_output s size).

(** [snprintf(dst, n, "%s", src)] into a zeroed array. *)
Definition snprintf (n : nat) (mem : buffer) : option buffer := c_field n <$> c_string mem.

(** ** The device: one write of a request, one read of the response *)

(** The memory of [last_request] from one of its arrays on: the arrays follow each other
    without padding, so a string without a NUL of its own goes on in the next one. *)
Definition from_payload (r : chat_request) : buffer := rq_payload r ++ rq_plaintext_payload r.
Definition from_auth_payload (r : chat_request) : buffer := rq_auth_payload r ++ from_payload r.
Definition from_peer_username (r : chat_request) : buffer :=
  rq_peer_username r ++ from_auth_payload r.
Definition from_username (r : chat_request) : buffer := rq_username r ++ from_peer_username r.

(** The substitutions look at no more than the 512 bytes of [payload]; the digest and the
    names are read up to the next NUL of the request, [None] when there is none. *)
Definition chat_write (r : chat_request) : option chat_response :=
  username ← snprintf 32 (from_username r);
  peer ← snprintf 32 (from_peer_username r);
  let answer status payload :=
    Some (mkResponse (rq_message_id r) RESPONSE_ACK status username peer payload) in
  if rq_mode r =? PROCESS_SHA1 then
    payload ← kernel_sha1_transform
      (if nonempty (rq_auth_payload r) then from_auth_payload r else from_payload r) 512;
    answer STATUS_OK payload
  else if rq_mode r =? PROCESS_SUBSTITUTION
  then answer STATUS_OK (substitution_transform (rq_payload r) 512)
  else if rq_mode r =? PROCESS_SUBSTITUTION_DECRYPT
  then answer STATUS_OK (substitution_reverse_transform (rq_payload r) 512)
  else answer STATUS_INVALID_REQUEST (c_field 512 (js "unsupported-mode")).

(** One iteration of [processor_client_main], with the device reachable or not. *)
Definition processor_reply (device_ok : bool) (request : buffer) : option buffer :=
  let r := parse_request request in
  response_bytes <$>
    match processor_validate_request r with
    | Some resp => Some resp
    | None =>
        if device_ok then chat_write r
        else Some (error_response (rq_message_id r) STATUS_DRIVER_ERROR
                     (js "device-processing-failed"))
    end.

(** ** Strings that end *)

Lemma cstr_app (l l' : buffer) : 0 ∈ l → cstr (l ++ l') = cstr l.
Proof.
  induction l as [|b l IH]; [by intros ?%elem_of_nil|].
  intros Hin. cbn. destruct (b =? 0) eqn:E; [done|]. f_equal. apply IH.
  apply elem_of_cons in Hin as [<-|Hin]; done.
Qed.
Lemma c_string_end (mem : buffer) : 0 ∈ mem → c_string mem = Some (cstr mem).
Proof. intros. unfold c_string. by rewrite bool_decide_eq_true_2. Qed.
Lemma cstr_cstr (mem : buffer) : cstr (cstr mem) = cstr mem.
Proof. induction mem as [|b mem IH]; [done|]. cbn. destruct (b =? 0) eqn:E; [done|]. cbn. by rewrite E, IH. Qed.
Lemma snprintf_end n mem : 0 ∈ mem → snprintf n mem = Some (c_field n mem).
Proof. intros. unfold snprintf. rewrite c_string_end by done. cbn. unfold c_field. by rewrite cstr_cstr. Qed.
Lemma c_field_app n l l' : 0 ∈ l → c_field n (l ++ l') = c_field n l.
Proof. intros. unfold c_field. by rewrite cstr_app. Qed.

(** A request whose last array is zeroed, as those of the backend, has an end for all. *)
Lemma request_strings_end r n :
  rq_plaintext_payload r = replicate (S n) 0 →
  0 ∈ from_payload r ∧ 0 ∈ from_auth_payload r ∧ 0 ∈ from_peer_username r ∧ 0 ∈ from_username r.
Proof.
  intros E. assert (0 ∈ from_payload r) as H0.
  { unfold from_payload. rewrite E. apply elem_of_app. right. by left. }
  unfold from_username, from_peer_username, from_auth_payload.
  split_and!; rewrite ?elem_of_app; auto.
Qed.

(** What the response of such a request is. *)
Lemma chat_write_end r n :
  rq_plaintext_payload r = replicate (S n) 0 →
  chat_write r =
  let answer status payload :=
    Some (mkResponse (rq_message_id r) RESPONSE_ACK status
      (c_field 32 (from_username r)) (c_field 32 (from_peer_username r)) payload) in
  if rq_mode r =? PROCESS_SHA1
  then answer STATUS_OK (sha1_output
         (cstr (if nonempty (rq_auth_payload r) then from_auth_payload r else from_payload r)) 512)
  else if rq_mode r =? PROCESS_SUBSTITUTION
  then answer STATUS_OK (substitution_transform (rq_payload r) 512)
  else if rq_mode r =? PROCESS_SUBSTITUTION_DECRYPT
  then answer STATUS_OK (substitution_reverse_transform (rq_payload r) 512)
  else answer STATUS_INVALID_REQUEST (c_field 512 (js "unsupported-mode")).
Proof.
  intros (Hp & Ha & Hpeer & Hu)%request_strings_end. unfold chat_write, kernel_sha1_transform.
  rewrite !snprintf_end by done. rewrite c_string_end by by case_match. done.
Qed.

(** A password field without a NUL is digested together with what follows it. *)
Lemma cstr_run_on (l l' : buffer) : 0 ∉ l → cstr (l ++ l') = l ++ cstr l'.
Proof.
  induction l as [|b l IH]; [done|]. intros [Hb Hl]%not_elem_of_cons. cbn.
  rewrite (proj2 (Z.eqb_neq b 0)) by done. by rewrite IH.
Qed.

Lemma unterminated_password_run_on r n :
  rq_mode r = PROCESS_SHA1 → nonempty (rq_auth_payload r) = true → 0 ∉ rq_auth_payload r →
  rq_plaintext_payload r = replicate (S n) 0 →
  rs_payload <$> chat_write r
  = Some (sha1_output (rq_auth_payload r ++ cstr (rq_payload r ++ rq_plaintext_payload r)) 512).
Proof.
  intros Hm Hne H0 Hp. erewrite chat_write_end by exact Hp. rewrite Hm, Hne. cbn.
  unfold from_auth_payload. by rewrite cstr_run_on.
Qed.

(** A request without a NUL has no defined response. *)
Lemma endless_request_undefined r : 0 ∉ from_username r → chat_write r = None.
Proof.
  intros H0. assert (c_string (from_username r) = None) as E by (unfold c_string; by case_bool_decide).
  unfold chat_write, snprintf. by rewrite E.
Qed.

(** ** Properties of the cipher *)

(** What a byte permutation must satisfy to act on UTF-8 text one character at a
    time: it fixes NUL and everything outside ASCII, and stays inside ASCII. *)
Definition ascii_permutation (f g : Z → Z) : Prop :=
  ∀ ch, g (f ch) = ch ∧ (ch = 0 ↔ f ch = 0)
        ∧ (0 ≤ ch < 128 → 0 ≤ f ch < 128) ∧ (¬ 0 ≤ ch < 128 → f ch = ch).

Lemma ascii_permutation_check f g :
  forallb (λ c, (g (f c) =? c) && Bool.eqb (c =? 0) (f c =? 0)
                && ((0 <=? f c) && (f c <? 128))) (seqZ 0 128) = true →
  (∀ ch, ¬ 0 ≤ ch < 128 → f ch = ch) → (∀ ch, ¬ 0 ≤ ch < 128 → g ch = ch) →
  ascii_permutation f g.
Proof.
  intros Hall Hf Hg ch. destruct (decide (0 ≤ ch < 128)) as [Hin|Hout].
  - rewrite forallb_forall in Hall.
    specialize (Hall ch). rewrite <-list_elem_of_In, elem_of_seqZ in Hall.
    specialize (Hall ltac:(lia)).
    destruct (Z.eqb_spec ch 0), (Z.eqb_spec (f ch) 0); simpl in Hall; lia.
  - rewrite (Hf ch), (Hg ch) by done. lia.
Qed.

Lemma map_forward_reverse : ascii_permutation map_forward map_reverse.
Proof.
  apply ascii_permutation_check; [by vm_compute| |];
    intros ch Hch; unfold map_forward, map_reverse;
    repeat (case_match; [lia|]); done.
Qed.

Lemma map_reverse_forward : ascii_permutation map_reverse map_forward.
Proof.
  apply ascii_permutation_check; [by vm_compute| |];
    intros ch Hch; unfold map_forward, map_reverse;
    repeat (case_match; [lia|]); done.
Qed.

(** A permutation of ASCII commutes with the UTF-8 encoding, and keeps strings
    well formed and free of NUL. *)
Section ascii.
Context (f g : Z → Z) (Hfg : ascii_permutation f g).

Local Lemma f_ascii ch : 0 ≤ ch < 128 → 0 ≤ f ch < 128.
Proof. apply Hfg. Qed.
Local Lemma f_other ch : ¬ 0 ≤ ch < 128 → f ch = ch.
Proof. apply Hfg. Qed.

(** A test that holds of no ASCII unit is not changed by [f]. *)
Local Lemma f_test (t : Z → bool) ch :
  (∀ c, 0 ≤ c < 128 → t c = false) → t (f ch) = t ch.
Proof.
  intros Ht. destruct (decide (0 ≤ ch < 128)).
  - by rewrite !Ht by (done || by apply f_ascii).
  - by rewrite f_other.
Qed.

Lemma is_high_f ch : is_high (f ch) = is_high ch.
Proof. apply f_test. intros c Hc. unfold is_high. lia. Qed.
Lemma is_low_f ch : is_low (f ch) = is_low ch.
Proof. apply f_test. intros c Hc. unfold is_low. lia. Qed.
Lemma f_surrogate ch : is_high ch ∨ is_low ch → f ch = ch.
Proof. intros Hc. apply f_other. unfold is_high, is_low in Hc. intros ?.
  destruct Hc as [Hc|Hc]; apply Is_true_true in Hc; lia. Qed.

Lemma well_formed_fmap s : well_formed s → well_formed (f <$> s).
Proof.
  revert s. apply well_formed_ind; [done| |].
  - intros u r Hr Hh Hl _ IH. simpl. rewrite is_high_f, is_low_f, Hh, Hl. simpl.
    apply andb_True. split; [|done].
    unfold in_range in *. apply Is_true_true in Hr. apply Is_true_true.
    destruct (decide (0 ≤ u < 128)) as [Ha|Ha];
      [pose proof (f_ascii u Ha)|rewrite (f_other u Ha)]; lia.
  - intros u v r Hu Hv _ IH. simpl. rewrite (f_surrogate u), (f_surrogate v) by auto.
    destruct (is_high u) eqn:Eu; [|done]. destruct (is_low v) eqn:Ev; [|done].
    unfold is_high in Eu. apply andb_True. split; [|done].
    apply Is_true_true. unfold in_range. lia.
Qed.

Lemma code_points_fmap s : well_formed s → code_points (f <$> s) = f <$> code_points s.
Proof.
  revert s. apply well_formed_ind; [done| |].
  - intros u r _ Hh Hl _ IH. simpl. rewrite is_high_f, is_low_f, Hh, Hl. simpl.
    f_equal. exact IH.
  - intros u v r Hu Hv _ IH. simpl. rewrite (f_surrogate u), (f_surrogate v) by auto.
    destruct (is_high u) eqn:Eu; [|done]. destruct (is_low v) eqn:Ev; [|done].
    simpl. f_equal; [|exact IH]. symmetry. apply f_other.
    unfold is_high, is_low in *. lia.
Qed.

Lemma utf8_of_cp_f c : scalar c → utf8_of_cp (f c) = f <$> utf8_of_cp c.
Proof.
  intros Hc. destruct (decide (0 ≤ c < 128)) as [Ha|Ha].
  - pose proof (f_ascii c Ha). unfold utf8_of_cp. by decide_tests.
  - rewrite (f_other c Ha). unfold scalar in Hc. unfold utf8_of_cp.
    destruct (cp_digits c) as (t & h & m & l & -> & -> & -> & -> & -> & -> & E & ?); [lia|].
    repeat case_match; simpl; rewrite !f_other by lia; done.
Qed.

Lemma utf8_encode_fmap s : well_formed s → utf8_encode (f <$> s) = f <$> utf8_encode s.
Proof.
  intros Hs. unfold utf8_encode. rewrite code_points_fmap by done.
  apply code_points_spec in Hs as [Hsc _].
  induction Hsc as [|c cps Hc _ IH]; [done|]. simpl.
  rewrite fmap_app, utf8_of_cp_f by done. f_equal. exact IH.
Qed.

Lemma fmap_inverse (s : jsstring) : g <$> (f <$> s) = s.
Proof.
  rewrite <-list_fmap_compose. rewrite <-(list_fmap_id s) at 2.
  apply list_fmap_ext. intros i c _. apply Hfg.
Qed.

Lemma fmap_no_nul (s : jsstring) : 0 ∉ s → 0 ∉ f <$> s.
Proof.
  intros Hs (c & Hc & Hin)%list_elem_of_fmap. symmetry in Hc.
  apply Hfg in Hc. by subst.
Qed.
End ascii.

Lemma utf8_of_cp_no_nul c : scalar c → c ≠ 0 → 0 ∉ utf8_of_cp c.
Proof.
  intros Hc H0. unfold scalar in Hc. unfold utf8_of_cp.
  destruct (cp_digits c) as (t & h & m & l & -> & -> & -> & -> & -> & -> & E & ?); [lia|].
  repeat case_match; intros Hin; repeat (apply elem_of_cons in Hin as [Hin|Hin]); try lia;
    by apply elem_of_nil in Hin.
Qed.

Lemma code_points_no_nul s : well_formed s → 0 ∉ s → 0 ∉ code_points s.
Proof.
  revert s. apply (well_formed_ind (λ s, 0 ∉ s → 0 ∉ code_points s)); [done| |].
  - intros u r _ Hh Hl _ IH [Hu Hr]%not_elem_of_cons. simpl. rewrite Hh, Hl.
    apply not_elem_of_cons. auto.
  - intros u v r Hu Hv _ IH [_ [_ Hr]%not_elem_of_cons]%not_elem_of_cons. simpl.
    destruct (is_high u) eqn:Eu; [|done]. destruct (is_low v) eqn:Ev; [|done].
    apply not_elem_of_cons. split; [|auto]. unfold is_high, is_low in *. lia.
Qed.

Lemma utf8_encode_no_nul s : well_formed s → 0 ∉ s → 0 ∉ utf8_encode s.
Proof.
  intros Hs H0. pose proof (code_points_no_nul s Hs H0) as Hc.
  apply code_points_spec in Hs as [Hsc _]. unfold utf8_encode.
  induction Hsc as [|c cps Hc' _ IH]; [by intros ?%elem_of_nil|].
  apply not_elem_of_cons in Hc as [Hc0 Hc]. simpl. rewrite elem_of_app. intros [Hin|Hin].
  - by apply (utf8_of_cp_no_nul c).
  - by apply IH.
Qed.
