(* ===== verification/Env.v ===== *)
(** * Configuration: [backend/src/config/env.config.ts]

    [backendEnv] reads the process environment, applies the defaults, and refuses an
    inconsistent configuration. *)

From S2P Require Import Prelude JsText.
Open Scope Z_scope.

Record BackendEnv := mkEnv {
  PORT : number;
  MONGODB_URI : jsstring;
  API_PREFIX : jsstring;
  ACCESS_TOKEN_SECRET : jsstring;
  ACCESS_TOKEN_TTL_SECONDS : number;
  REFRESH_TOKEN_SECRET : jsstring;
  REFRESH_TOKEN_TTL_SECONDS : number;
  REFRESH_COOKIE_NAME : jsstring;
  AUTH_LOCAL_ENABLED : bool;
  PROCESSOR_REMOTE_HOST : jsstring;
  PROCESSOR_REMOTE_PORT : number;
  PROCESSOR_REMOTE_TIMEOUT_MS : number;
  CHAT_REVERSE_ENCRYPTION_ENABLED : bool;
  CHAT_REVERSE_ENCRYPTION_SHARED_KEY : jsstring;
  R2_ACCOUNT_ID : jsstring;
  R2_ACCESS_KEY_ID : jsstring;
  R2_SECRET_ACCESS_KEY : jsstring;
  R2_BUCKET_NAME : jsstring;
  R2_PUBLIC_URL : jsstring;
  GEMINI_API_KEYS : jsstring;
  GEMINI_MODELS : jsstring;
  GEMINI_REQUEST_TIMEOUT_MS : number;
  GEMINI_MODERATION_TIMEOUT_MS : number;
  GEMINI_SUGGESTION_TIMEOUT_MS : number;
  GEMINI_MAX_CONTEXT_MESSAGES : number;
  AI_CHATBOT_ENABLED : bool;
  AI_SUGGESTIONS_ENABLED : bool;
  AI_MODERATION_ENABLED : bool;
}.

Section env.
(** [process.env], and the conversion [Number(string)] of the language. *)
Context (process_env : string → option jsstring) (to_number : jsstring → number).

Definition env_string (key : string) (default : jsstring) : jsstring :=
  from_option id default (process_env key).

Definition env_number (key : string) (default : Z) : number :=
  from_option to_number (num default) (process_env key).

(** [process.env.KEY === 'true'] and [process.env.KEY !== 'false']. *)
Definition env_is_true (key : string) : bool := bool_decide (process_env key = Some (js "true")).
Definition env_not_false (key : string) : bool :=
  bool_decide (process_env key ≠ Some (js "false")).

(** [a ?? b]. *)
Definition nullish {A} (a b : option A) : option A :=
  match a with Some x => Some x | None => b end.

Definition read_env : BackendEnv := {|
  PORT := env_number "PORT" 3000;
  MONGODB_URI := env_string "MONGODB_URI" (js "mongodb://127.0.0.1:27017/chatsc");
  API_PREFIX := env_string "API_PREFIX" (js "api");
  ACCESS_TOKEN_SECRET :=
    env_string "ACCESS_TOKEN_SECRET" (js "replace-with-access-token-secret");
  ACCESS_TOKEN_TTL_SECONDS := env_number "ACCESS_TOKEN_TTL_SECONDS" 1800;
  REFRESH_TOKEN_SECRET :=
    env_string "REFRESH_TOKEN_SECRET" (js "replace-with-refresh-token-secret");
  REFRESH_TOKEN_TTL_SECONDS := env_number "REFRESH_TOKEN_TTL_SECONDS" 604800;
  REFRESH_COOKIE_NAME := env_string "REFRESH_COOKIE_NAME" (js "refresh_token");
  AUTH_LOCAL_ENABLED := env_is_true "AUTH_LOCAL_ENABLED";
  PROCESSOR_REMOTE_HOST :=
    from_option id []
      (nullish (process_env "PROCESSOR_REMOTE_HOST")
               (process_env "CHAT_REVERSE_ENCRYPTION_HOST"));
  PROCESSOR_REMOTE_PORT :=
    from_option to_number (num 9191)
      (nullish (process_env "PROCESSOR_REMOTE_PORT")
               (process_env "CHAT_REVERSE_ENCRYPTION_PORT"));
  PROCESSOR_REMOTE_TIMEOUT_MS :=
    from_option to_number (num 5000)
      (nullish (process_env "PROCESSOR_REMOTE_TIMEOUT_MS")
               (process_env "CHAT_REVERSE_ENCRYPTION_TIMEOUT_MS"));
  CHAT_REVERSE_ENCRYPTION_ENABLED := env_is_true "CHAT_REVERSE_ENCRYPTION_ENABLED";
  CHAT_REVERSE_ENCRYPTION_SHARED_KEY := env_string "CHAT_REVERSE_ENCRYPTION_SHARED_KEY" [];
  R2_ACCOUNT_ID := env_string "R2_ACCOUNT_ID" [];
  R2_ACCESS_KEY_ID := env_string "R2_ACCESS_KEY_ID" [];
  R2_SECRET_ACCESS_KEY := env_string "R2_SECRET_ACCESS_KEY" [];
  R2_BUCKET_NAME := env_string "R2_BUCKET_NAME" [];
  R2_PUBLIC_URL := env_string "R2_PUBLIC_URL" [];
  GEMINI_API_KEYS := env_string "GEMINI_API_KEYS" [];
  GEMINI_MODELS := env_string "GEMINI_MODELS" (js "gemini-1.5-flash");
  GEMINI_REQUEST_TIMEOUT_MS := env_number "GEMINI_REQUEST_TIMEOUT_MS" 30000;
  GEMINI_MODERATION_TIMEOUT_MS := env_number "GEMINI_MODERATION_TIMEOUT_MS" 5000;
  GEMINI_SUGGESTION_TIMEOUT_MS := env_number "GEMINI_SUGGESTION_TIMEOUT_MS" 10000;
  GEMINI_MAX_CONTEXT_MESSAGES := env_number "GEMINI_MAX_CONTEXT_MESSAGES" 10;
  AI_CHATBOT_ENABLED := env_not_false "AI_CHATBOT_ENABLED";
  AI_SUGGESTIONS_ENABLED := env_not_false "AI_SUGGESTIONS_ENABLED";
  AI_MODERATION_ENABLED := env_not_false "AI_MODERATION_ENABLED";
|}.

(** [!Number.isFinite(n) || n <= 0]: what the checks refuse. *)
Definition not_positive (n : number) : bool := negb (isFinite n) || num_le n (num 0).

(** The checks, in the order of the code, each with the error it throws. *)
Definition env_checks (e : BackendEnv) : list (bool * jsstring) :=
  let remote := AUTH_LOCAL_ENABLED e || CHAT_REVERSE_ENCRYPTION_ENABLED e in
  [ (remote && negb (truthy (PROCESSOR_REMOTE_HOST e)),
     js "PROCESSOR_REMOTE_HOST is required when remote processor features are enabled");
    (remote && not_positive (PROCESSOR_REMOTE_PORT e),
     js "PROCESSOR_REMOTE_PORT must be a positive number when remote processor features are enabled");
    (remote && not_positive (PROCESSOR_REMOTE_TIMEOUT_MS e),
     js "PROCESSOR_REMOTE_TIMEOUT_MS must be a positive number when remote processor features are enabled");
    (CHAT_REVERSE_ENCRYPTION_ENABLED e && negb (truthy (CHAT_REVERSE_ENCRYPTION_SHARED_KEY e)),
     js "CHAT_REVERSE_ENCRYPTION_SHARED_KEY is required when reverse encryption is enabled");
    (not_positive (GEMINI_REQUEST_TIMEOUT_MS e),
     js "GEMINI_REQUEST_TIMEOUT_MS must be a positive number");
    (not_positive (GEMINI_MODERATION_TIMEOUT_MS e),
     js "GEMINI_MODERATION_TIMEOUT_MS must be a positive number");
    (not_positive (GEMINI_SUGGESTION_TIMEOUT_MS e),
     js "GEMINI_SUGGESTION_TIMEOUT_MS must be a positive number");
    (not_positive (GEMINI_MAX_CONTEXT_MESSAGES e),
     js "GEMINI_MAX_CONTEXT_MESSAGES must be a positive number") ].

(** The first check that fails throws; otherwise the environment is returned. *)
Fixpoint run_checks (cs : list (bool * jsstring)) (e : BackendEnv) : outcome BackendEnv :=
  match cs with
  | [] => Ok e
  | (failed, message) :: cs' => if failed then Throw (PlainError message) else run_checks cs' e
  end.

Definition check_env (e : BackendEnv) : outcome BackendEnv := run_checks (env_checks e) e.

Definition backendEnv : outcome BackendEnv := check_env read_env.
End env.

(** ** What a running backend may rely on *)

Definition positive (n : number) : Prop := ∃ q, n = Fin q ∧ num_lt (num 0) n = true.

Lemma not_positive_false n : not_positive n = false → positive n.
Proof.
  unfold not_positive. intros [H1 H2]%orb_false_iff.
  destruct n as [| | |q]; try done. exists q. split; [done|].
  unfold num_lt. by rewrite H2.
Qed.

Record valid_env (e : BackendEnv) : Prop := {
  valid_remote :
    AUTH_LOCAL_ENABLED e = true ∨ CHAT_REVERSE_ENCRYPTION_ENABLED e = true →
    PROCESSOR_REMOTE_HOST e ≠ [] ∧ positive (PROCESSOR_REMOTE_PORT e)
    ∧ positive (PROCESSOR_REMOTE_TIMEOUT_MS e);
  valid_shared_key :
    CHAT_REVERSE_ENCRYPTION_ENABLED e = true → CHAT_REVERSE_ENCRYPTION_SHARED_KEY e ≠ [];
  valid_timeouts :
    positive (GEMINI_REQUEST_TIMEOUT_MS e) ∧ positive (GEMINI_MODERATION_TIMEOUT_MS e)
    ∧ positive (GEMINI_SUGGESTION_TIMEOUT_MS e) ∧ positive (GEMINI_MAX_CONTEXT_MESSAGES e);
}.

Lemma run_checks_Ok cs e e' :
  run_checks cs e = Ok e' → e' = e ∧ Forall (λ c, c.1 = false) cs.
Proof.
  induction cs as [|[[] m] cs IH]; simpl; intros H; simplify_eq; [done|].
  destruct (IH H). by auto.
Qed.

Lemma run_checks_pass cs e : Forall (λ c, c.1 = false) cs → run_checks cs e = Ok e.
Proof. induction 1 as [|[f m] cs Hf _ IH]; simpl in *; [done|]. by rewrite Hf. Qed.

Lemma check_env_valid e e' : check_env e = Ok e' → e' = e ∧ valid_env e.
Proof.
  intros [-> H]%run_checks_Ok. split; [done|]. unfold env_checks in H.
  repeat match goal with H : Forall _ (_ :: _) |- _ => apply Forall_cons in H as [? H] end.
  simpl in *. split.
  - intros Hr. assert (AUTH_LOCAL_ENABLED e || CHAT_REVERSE_ENCRYPTION_ENABLED e = true) as Er
      by (apply orb_true_iff; tauto).
    rewrite Er in *. simpl in *. repeat split; try by apply not_positive_false.
    by intros Hh; rewrite Hh in *.
  - intros Hr Hk. by rewrite Hr, Hk in *.
  - auto using not_positive_false.
Qed.

Lemma positive_num_le n : positive n → num_le n (num 0) = false.
Proof. intros (q & -> & Hq). unfold num_lt in Hq. by destruct (num_le (Fin q) (num 0)). Qed.
