(* ===== verification/Store.v ===== *)
(** * The document store

    A collection is a finite map from object ids to documents.  The query engine
    (MongoDB behind Mongoose) is not code of this repository: which of several
    matching documents comes first, and how ties of a sort are broken, is a
    parameter, the class [Mongo].  [MongoLaws] states the documented behaviour the
    services rely on; [list_mongo] is a concrete engine that satisfies it. *)

From S2P Require Import Prelude JsText.
Open Scope Z_scope.

(** ** Object ids *)

Record oid := Oid { oid_num : N }.

#[export] Instance oid_eq_dec : EqDecision oid.
Proof. solve_decision. Defined.

#[export] Instance oid_countable : Countable oid.
Proof. apply (inj_countable' oid_num Oid). by intros []. Defined.

#[export] Instance oid_inhabited : Inhabited oid := populate (Oid 0).

(** ** Queries *)

Abbreviation collection D := (gmap oid D).
Abbreviation doc D := (oid * D)%type.

Class Mongo := {
  (** [Model.find(q)] and [Model.findOne(q)]. *)
  mg_find {D} (q : doc D → bool) (c : collection D) : list (doc D);
  mg_findOne {D} (q : doc D → bool) (c : collection D) : option (doc D);
  (** [.sort(key)], for the order [le] the key and its direction define. *)
  mg_sort {D} (le : D → D → bool) (l : list (doc D)) : list (doc D);
  (** [.limit(n)]. *)
  mg_limit {D} (n : number) (l : list (doc D)) : list (doc D);
}.

(** [Model.findById(id)], [Model.create] and [Model.insertMany] with the ids chosen
    by the caller, [document.save()]. *)
Definition findById {D} (i : oid) (c : collection D) : option (doc D) := pair i <$> c !! i.
Definition insert_doc {D} (p : doc D) (c : collection D) : collection D := <[p.1 := p.2]> c.
Definition insertMany {D} (ps : list (doc D)) (c : collection D) : collection D :=
  foldr insert_doc c ps.

(** [Model.updateMany(q, u)] and [Model.updateOne(q, u)]. *)
Definition updateMany {D} (q : doc D → bool) (u : D → D) (c : collection D) : collection D :=
  map_imap (λ i d, Some (if q (i, d) then u d else d)) c.
Definition updateOne `{Mongo} {D} (q : doc D → bool) (u : D → D) (c : collection D)
    : collection D :=
  match mg_findOne q c with Some (i, _) => alter u i c | None => c end.

(** [Model.exists(q)]. *)
Definition mg_exists `{Mongo} {D} (q : doc D → bool) (c : collection D) : bool :=
  match mg_findOne q c with Some _ => true | None => false end.

(** The query [{ _id }]. *)
Definition has_id {D} (i : oid) (p : doc D) : bool := bool_decide (p.1 = i).

(** Orders given by an integer key: ascending, descending, and descending with the
    absent keys last. *)
Definition asc {D} (key : D → Z) (a b : D) : bool := key a <=? key b.
Definition desc {D} (key : D → Z) (a b : D) : bool := key b <=? key a.
Definition desc_opt {D} (key : D → option Z) (a b : D) : bool :=
  match key a, key b with
  | _, None => true
  | None, Some _ => false
  | Some x, Some y => y <=? x
  end.

Class MongoLaws `{Mongo} : Prop := {
  find_perm {D} (q : doc D → bool) (c : collection D) :
    mg_find q c ≡ₚ filter (λ p, q p = true) (map_to_list c);
  findOne_spec {D} (q : doc D → bool) (c : collection D) :
    match mg_findOne q c with
    | Some (i, d) => c !! i = Some d ∧ q (i, d) = true
    | None => ∀ i d, c !! i = Some d → q (i, d) = false
    end;
  sort_perm {D} (le : D → D → bool) (l : list (doc D)) : mg_sort le l ≡ₚ l;
  sort_sorted {D} (le : D → D → bool) (l : list (doc D)) :
    (∀ a b, le a b = true ∨ le b a = true) →
    (∀ a b c, le a b = true → le b c = true → le a c = true) →
    StronglySorted (λ a b, le a.2 b.2 = true) (mg_sort le l);
  limit_zero {D} (l : list (doc D)) : mg_limit (num 0) l = l;
  limit_pos {D} n (l : list (doc D)) : 0 < n → mg_limit (num n) l = take (Z.to_nat n) l;
  limit_neg {D} n (l : list (doc D)) : n < 0 → mg_limit (num n) l = take (Z.to_nat (- n)) l;
}.

(** ** Consequences of the laws *)

Lemma StronglySorted_weaken {A} (R1 R2 : A → A → Prop) l :
  (∀ a b, R1 a b → R2 a b) → StronglySorted R1 l → StronglySorted R2 l.
Proof.
  intros HR. induction 1 as [|a l _ IH Ha]; constructor; [done|].
  eapply Forall_impl; [done|]. auto.
Qed.

Section laws.
Context `{MongoLaws}.
Context {D : Type}.
Implicit Types (q : doc D → bool) (c : collection D) (i : oid) (d : D).

Lemma elem_of_find q c i d : (i, d) ∈ mg_find q c ↔ c !! i = Some d ∧ q (i, d) = true.
Proof.
  rewrite find_perm, list_elem_of_filter, elem_of_map_to_list. simpl. tauto.
Qed.

Lemma find_nodup q c : NoDup (mg_find q c).*1.
Proof.
  rewrite find_perm.
  apply (sublist_NoDup _ (map_to_list c).*1); [apply NoDup_fst_map_to_list|].
  apply (fmap_sublist fst). apply sublist_filter.
Qed.

Lemma find_ext q1 q2 c :
  (∀ i d, c !! i = Some d → q1 (i, d) = q2 (i, d)) → mg_find q1 c ≡ₚ mg_find q2 c.
Proof.
  intros Hq. apply NoDup_Permutation.
  - eapply NoDup_fmap_1, find_nodup.
  - eapply NoDup_fmap_1, find_nodup.
  - intros [i d]. rewrite !elem_of_find. split; intros [Hl Hb]; split; try done.
    + by rewrite <-(Hq i d).
    + by rewrite (Hq i d).
Qed.

(** A new document adds itself to what a query finds, when it matches. *)
Lemma find_insert q c i d :
  c !! i = None →
  mg_find q (<[i:=d]> c) ≡ₚ (if q (i, d) then [(i, d)] else []) ++ mg_find q c.
Proof.
  intros Hi. rewrite !find_perm, map_to_list_insert by done.
  rewrite filter_cons. by destruct (q (i, d)).
Qed.

Lemma findOne_Some q c i d : mg_findOne q c = Some (i, d) → c !! i = Some d ∧ q (i, d) = true.
Proof. intros E. pose proof (findOne_spec q c) as Hs. by rewrite E in Hs. Qed.

Lemma findOne_None q c :
  mg_findOne q c = None ↔ ∀ i d, c !! i = Some d → q (i, d) = false.
Proof.
  pose proof (findOne_spec q c) as Hs. split.
  - intros E. by rewrite E in Hs.
  - destruct (mg_findOne q c) as [[i d]|] eqn:E; [|done].
    intros Hn. destruct Hs as [Hl Hb]. by rewrite (Hn i d) in Hb.
Qed.

Lemma findOne_Some_1 q c i d :
  c !! i = Some d → q (i, d) = true → ∃ i' d', mg_findOne q c = Some (i', d').
Proof.
  intros Hl Hb. destruct (mg_findOne q c) as [[i' d']|] eqn:E; [eauto|].
  by rewrite (proj1 (findOne_None q c) E i d) in Hb.
Qed.

(** A query that at most one document matches. *)
Lemma findOne_unique q c i d :
  c !! i = Some d → q (i, d) = true →
  (∀ i' d', c !! i' = Some d' → q (i', d') = true → i' = i) →
  mg_findOne q c = Some (i, d).
Proof.
  intros Hl Hb Hu. destruct (findOne_Some_1 q c i d) as (i' & d' & E); [done..|].
  rewrite E. apply findOne_Some in E as [Hl' Hb'].
  assert (i' = i) by eauto. by simplify_eq.
Qed.

Lemma findOne_has_id c i : mg_findOne (has_id i) c = findById i c.
Proof.
  unfold findById. destruct (c !! i) as [d|] eqn:E; simpl.
  - apply findOne_unique; [done|by apply bool_decide_eq_true|].
    intros i' d' _. by intros ?%bool_decide_eq_true.
  - apply findOne_None. intros i' d' Hl. apply bool_decide_eq_false. simpl.
    intros ->. congruence.
Qed.

Lemma updateOne_has_id (u : D → D) c i : updateOne (has_id i) u c = alter u i c.
Proof.
  unfold updateOne. rewrite findOne_has_id. unfold findById.
  destruct (c !! i) eqn:E; simpl; [done|].
  apply map_eq. intros j. rewrite lookup_alter. case_decide; [by subst; rewrite E|done].
Qed.

Lemma lookup_updateMany q (u : D → D) c i :
  updateMany q u c !! i = (λ d, if q (i, d) then u d else d) <$> c !! i.
Proof. unfold updateMany. rewrite map_lookup_imap. by destruct (c !! i). Qed.

Lemma mg_exists_false q c :
  mg_exists q c = false ↔ ∀ i d, c !! i = Some d → q (i, d) = false.
Proof.
  unfold mg_exists. rewrite <-findOne_None. by destruct (mg_findOne q c).
Qed.

Lemma length_limit n (l : list (doc D)) :
  0 < n → (length (mg_limit (num n) l) ≤ Z.to_nat n)%nat.
Proof. intros Hn. rewrite limit_pos by done. rewrite length_take. lia. Qed.

Lemma elem_of_limit n (l : list (doc D)) p : p ∈ mg_limit (num n) l → p ∈ l.
Proof.
  destruct (Z.lt_trichotomy n 0) as [Hn|[->|Hn]].
  - rewrite limit_neg by done. intros Hp. eapply elem_of_submseteq; [done|].
    apply sublist_submseteq, sublist_take.
  - by rewrite limit_zero.
  - rewrite limit_pos by done. intros Hp. eapply elem_of_submseteq; [done|].
    apply sublist_submseteq, sublist_take.
Qed.

(** Every keyed order is total and transitive, so its sort is sorted. *)
Lemma sorted_asc key (l : list (doc D)) :
  StronglySorted (λ a b, key a.2 <= key b.2) (mg_sort (asc key) l).
Proof.
  eapply StronglySorted_weaken; [|apply (sort_sorted (asc key))];
    unfold asc; simpl; intros; lia.
Qed.

Lemma sorted_desc key (l : list (doc D)) :
  StronglySorted (λ a b, key b.2 <= key a.2) (mg_sort (desc key) l).
Proof.
  eapply StronglySorted_weaken; [|apply (sort_sorted (desc key))];
    unfold desc; simpl; intros; lia.
Qed.

Lemma elem_of_sorted_find le q c i d :
  (i, d) ∈ mg_sort le (mg_find q c) ↔ c !! i = Some d ∧ q (i, d) = true.
Proof. by rewrite sort_perm, elem_of_find. Qed.

Lemma sorted_find_nodup le q c : NoDup (mg_sort le (mg_find q c)).*1.
Proof.
  assert ((mg_sort le (mg_find q c)).*1 ≡ₚ (mg_find q c).*1) as ->
    by apply Permutation_map, sort_perm.
  apply find_nodup.
Qed.

(** The head of a descending sort is a latest document. *)
Lemma head_desc_latest key q c i d :
  head (mg_sort (desc key) (mg_find q c)) = Some (i, d) →
  (c !! i = Some d ∧ q (i, d) = true)
  ∧ ∀ i' d', c !! i' = Some d' → q (i', d') = true → key d' <= key d.
Proof.
  intros Hh. pose proof (sorted_desc key (mg_find q c)) as Hs.
  pose proof (elem_of_sorted_find (desc key) q c) as He.
  destruct (mg_sort (desc key) (mg_find q c)) as [|p l]; [done|].
  simpl in Hh. simplify_eq. split; [apply He; by left|].
  intros i' d' Hl Hb.
  pose proof (proj2 (He i' d') (conj Hl Hb)) as Hin.
  apply elem_of_cons in Hin as [Hin|Hin]; [by simplify_eq|].
  apply StronglySorted_inv in Hs as [_ Hs].
  rewrite Forall_forall in Hs. apply (Hs (i', d') Hin).
Qed.

Lemma head_sort_None le q c :
  head (mg_sort le (mg_find q c)) = None ↔ ∀ i d, c !! i = Some d → q (i, d) = false.
Proof.
  rewrite head_None. split.
  - intros E i d Hl. apply not_true_iff_false. intros Hb.
    pose proof (proj2 (elem_of_sorted_find le q c i d) (conj Hl Hb)) as Hin.
    rewrite E in Hin. by apply elem_of_nil in Hin.
  - intros Hn. destruct (mg_sort le (mg_find q c)) as [|[i d] l] eqn:E; [done|].
    destruct (proj1 (elem_of_sorted_find le q c i d)) as [Hl Hb]; [rewrite E; by left|].
    by rewrite (Hn i d) in Hb.
Qed.
End laws.

Lemma lookup_insertMany {D} (ps : list (doc D)) (c : collection D) i :
  insertMany ps c !! i = match list_to_map (M:=gmap oid D) ps !! i with
                         | Some d => Some d | None => c !! i end.
Proof.
  induction ps as [|[j d] ps IH]; simpl; [by rewrite lookup_empty|].
  unfold insert_doc at 1. simpl. destruct (decide (j = i)) as [->|Hne].
  - by rewrite !lookup_insert_eq.
  - by rewrite !lookup_insert_ne by done.
Qed.

Lemma lookup_insertMany_fresh {D} (ps : list (doc D)) (c : collection D) i :
  i ∉ ps.*1 → insertMany ps c !! i = c !! i.
Proof.
  induction ps as [|[j d] ps IH]; [done|].
  simpl. intros [Hne Hni]%not_elem_of_cons. unfold insert_doc at 1. simpl.
  rewrite lookup_insert_ne by done. auto.
Qed.

(** ** A concrete engine: the order of [map_to_list], merge sort *)

Definition number_limit {A} (n : number) (l : list A) : list A :=
  match as_integer n with
  | Some z => if z =? 0 then l else take (Z.to_nat (Z.abs z)) l
  | None => l
  end.

#[export] Instance bool_rel_dec {A} (f : A → A → bool) : RelDecision (λ a b, f a b = true) :=
  λ a b, bool_eq_dec (f a b) true.

Definition list_mongo : Mongo := {|
  mg_find D q c := filter (λ p, q p = true) (map_to_list c);
  mg_findOne D q c := head (filter (λ p, q p = true) (map_to_list c));
  mg_sort D le l := merge_sort (λ a b : doc D, le a.2 b.2 = true) l;
  mg_limit D n l := number_limit n l;
|}.

Lemma list_mongo_laws : @MongoLaws list_mongo.
Proof.
  split; intros D.
  - done.
  - intros q c. simpl. destruct (head _) as [[i d]|] eqn:E.
    + apply head_Some_elem_of in E. rewrite list_elem_of_filter, elem_of_map_to_list in E. tauto.
    + apply head_None in E. intros i d Hl. apply not_true_iff_false. intros Hb.
      assert ((i, d) ∈ filter (λ p, q p = true) (map_to_list c)) as Hin
        by by rewrite list_elem_of_filter, elem_of_map_to_list.
      rewrite E in Hin. by apply elem_of_nil in Hin.
  - intros le l. apply merge_sort_Permutation.
  - intros le l Htot Htrans.
    assert (Transitive (λ a b : doc D, le a.2 b.2 = true)) by (intros a b c; apply Htrans).
    assert (Total (λ a b : doc D, le a.2 b.2 = true)) by (intros a b; apply Htot).
    by apply (StronglySorted_merge_sort _).
  - intros l. simpl. unfold number_limit. by rewrite as_integer_num.
  - intros n l Hn. simpl. unfold number_limit. rewrite as_integer_num.
    destruct (Z.eqb_spec n 0); [lia|]. by rewrite Z.abs_eq by lia.
  - intros n l Hn. simpl. unfold number_limit. rewrite as_integer_num.
    destruct (Z.eqb_spec n 0); [lia|]. by rewrite Z.abs_neq by lia.
Qed.
