(* ===== verification/Model.v ===== *)
(** * Data model, host environment and world

    The documents of [backend/src/modules/*/schemas], the payload types of
    [chat.service.ts] and [auth/types], the interface to everything outside the
    repository (class [Host]) and the state all handlers share (record [World]).

    Times are milliseconds since the epoch.  The [createdAt]/[updatedAt] fields that
    Mongoose maintains are kept where the code reads them (conversations). *)

From S2P Require Import Prelude JsText Env Store.
Open Scope Z_scope.

(** ** Authentication *)

Record SessionUser := mkSessionUser {
  su_id : jsstring;
  su_email : jsstring;
  su_username : jsstring;
  su_displayName : jsstring;
  su_avatarUrl : option jsstring;
}.

Record LocalAuthMetadata := mkLocalAuth {
  la_enabled : bool;
  la_passwordSha1 : option jsstring;
  la_passwordUpdatedAt : option Z;
  la_createdVia : option jsstring;
}.

Record User := mkUser {
  u_googleId : option jsstring;
  u_email : jsstring;
  u_username : jsstring;
  u_displayName : jsstring;
  u_avatarUrl : option jsstring;
  u_status : jsstring;
  u_localAuth : option LocalAuthMetadata;
}.

Inductive AuthProvider := google | local_register | local_login | refresh_token.
Inductive AttemptResult := started | succeeded | failed | cancelled | issued | renewed | revoked_.

Record AuthAttempt := mkAttempt {
  at_provider : AuthProvider;
  at_emailCandidate : option jsstring;
  at_result : AttemptResult;
  at_failureReason : option jsstring;
  at_userId : option jsstring;
  at_sessionId : option jsstring;
}.

Inductive SessionStatus := session_active | session_expired | session_revoked.
#[export] Instance SessionStatus_eq_dec : EqDecision SessionStatus.
Proof. solve_decision. Defined.

Record RefreshSession := mkSession {
  se_userId : oid;
  se_tokenHash : jsstring;
  se_issuedAt : Z;
  se_expiresAt : Z;
  se_lastUsedAt : option Z;
  se_revokedAt : option Z;
  se_status : SessionStatus;
  se_createdBy : jsstring;
}.

(** The claims of the two tokens ([AccessTokenPayload], [RefreshTokenPayload]). *)
Record Claims := mkClaims {
  cl_type : jsstring;
  cl_sub : jsstring;
  cl_sid : jsstring;
  cl_jti : option jsstring;
}.

Inductive Verified := TokenValid (c : Claims) | TokenExpired | TokenInvalid.

(** ** Chat *)

Inductive ConversationType := direct | group.
#[export] Instance ConversationType_eq_dec : EqDecision ConversationType.
Proof. solve_decision. Defined.

Record Conversation := mkConversation {
  cv_type : ConversationType;
  cv_title : option jsstring;
  cv_createdBy : oid;
  cv_lastMessageAt : option Z;
  cv_createdAt : Z;
  cv_updatedAt : Z;
}.

Inductive ParticipantRole := member | admin | owner.
#[export] Instance ParticipantRole_eq_dec : EqDecision ParticipantRole.
Proof. solve_decision. Defined.

Inductive ParticipantStatus := active | left_ | removed.
#[export] Instance ParticipantStatus_eq_dec : EqDecision ParticipantStatus.
Proof. solve_decision. Defined.

Record Participant := mkParticipant {
  p_conversationId : oid;
  p_userId : oid;
  p_role : ParticipantRole;
  p_status : ParticipantStatus;
  p_addedBy : option oid;
  p_joinedAt : Z;
  p_leftAt : option Z;
  p_lastReadMessageId : option oid;
  p_lastReadAt : option Z;
  p_unreadCount : Z;
}.

Inductive MembershipEventType := ev_added | ev_joined | ev_left | ev_removed.

Record MembershipEvent := mkEvent {
  me_conversationId : oid;
  me_type : MembershipEventType;
  me_targetUserId : oid;
  me_actorUserId : option oid;
  me_occurredAt : Z;
}.

Inductive AttachmentStatus := draft | uploaded | attached.
#[export] Instance AttachmentStatus_eq_dec : EqDecision AttachmentStatus.
Proof. solve_decision. Defined.

Record ChatAttachment := mkAttachment {
  ca_conversationId : oid;
  ca_messageId : option oid;
  ca_uploaderId : oid;
  ca_r2Key : jsstring;
  ca_originalName : jsstring;
  ca_mimeType : jsstring;
  ca_sizeBytes : number;
  ca_isImage : bool;
  ca_status : AttachmentStatus;
  ca_createdAt : Z;
  ca_uploadedAt : option Z;
  ca_confirmedAt : option Z;
}.

Inductive DeliveryStatus := delivery_sent | delivery_failed.
Inductive SeenState := seen_sent | seen_seen.
Inductive ReverseEncryptionState := legacy | encrypted | decode_failed.
Inductive MessageDisplayState := display_ready | display_decode_failed.

(** A JSON value, as [JSON.parse] returns it. *)
#[warnings="-register-all"]
Inductive Json :=
  | JNull
  | JBool (b : bool)
  | JNum (n : number)
  | JStr (s : jsstring)
  | JArr (l : list Json)
  | JObj (fields : list (jsstring * Json)).

(** The code casts Gemini's JSON without checking it, so [sentiment] can be any value. *)
Record MessageModeration := mkModeration {
  mo_sentiment : Json;
  mo_sentimentScore : number;
  mo_toxicityScore : number;
  mo_isToxic : bool;
  mo_warningMessage : option jsstring;
}.

Record MessageAttachment := mkMessageAttachment {
  ma_attachmentId : oid;
  ma_fileName : jsstring;
  ma_mimeType : jsstring;
  ma_sizeBytes : number;
  ma_isImage : bool;
}.

Record Message := mkMessage {
  m_conversationId : oid;
  m_senderId : oid;
  m_content : jsstring;
  m_reverseEncryptionState : ReverseEncryptionState;
  m_encryptedContentVersion : option jsstring;
  m_sentAt : Z;
  m_deliveryStatus : DeliveryStatus;
  m_seenState : SeenState;
  m_decodeErrorCode : option jsstring;
  m_isAIBotMessage : bool;
  m_isAICommand : bool;
  m_moderationResult : option MessageModeration;
  m_attachment : option MessageAttachment;
}.

(** ** Payloads *)

Record ChatAttachmentPayload := mkAttachmentPayload {
  ap_attachmentId : jsstring;
  ap_fileName : jsstring;
  ap_mimeType : jsstring;
  ap_sizeBytes : number;
  ap_isImage : bool;
  ap_uploaderId : option jsstring;
  ap_conversationId : option jsstring;
  ap_messageId : option jsstring;
}.

Record RealtimeMessagePayload := mkRealtime {
  rt_messageId : jsstring;
  rt_conversationId : jsstring;
  rt_senderId : jsstring;
  rt_senderDisplayName : option jsstring;
  rt_senderAvatarUrl : option jsstring;
  rt_content : jsstring;
  rt_sentAt : jsstring;
  rt_seenState : SeenState;
  rt_attachment : option ChatAttachmentPayload;
  rt_isTailOfSenderGroup : bool;
  rt_decodeErrorCode : option jsstring;
  rt_displayState : MessageDisplayState;
  rt_isAIBotMessage : bool;
  rt_isAICommand : bool;
  rt_moderationResult : option MessageModeration;
}.

Record ConversationPreviewPayload := mkPreview {
  pv_conversationId : jsstring;
  pv_lastMessagePreview : jsstring;
  pv_lastMessageAt : jsstring;
  pv_unreadCount : Z;
  pv_hasUnread : bool;
}.

Record MarkConversationReadPayload := mkReadPayload {
  mr_conversationId : jsstring;
  mr_unreadCount : Z;
  mr_lastReadMessageId : option jsstring;
}.

Record RealtimeErrorPayload := mkRealtimeError {
  re_code : jsstring;
  re_message : jsstring;
  re_conversationId : option jsstring;
}.

(** ** The host *)

(** One event of a TCP client socket, in the order Node delivers them. *)
Inductive SocketEvent :=
  | Connect
  | Data (chunk : list Z)
  | Timeout
  | SocketError
  | Close.

(** The errors of the host libraries whose text reaches the client. *)
Inductive HostError :=
  | BSONError | CastError | ValidationError | DuplicateKeyError | RangeError
  | JwtSignError | PresignError | UriError | SessionStoreError | UrlError.

Inductive PresignRequest :=
  | PutObject (bucket key contentType : jsstring)
  | GetObject (bucket key contentType contentDisposition : jsstring).

(** [GeminiRequestMessageDto]. *)
Inductive GeminiRole := role_user | role_model.
Record GeminiMessage := mkGeminiMessage { gm_role : GeminiRole; gm_text : jsstring }.

(** What a race between a Gemini request and its timer gives: the text of the
    response, the timer, or an error with its message. *)
Inductive GeminiOutcome :=
  | GeminiText (text : jsstring)
  | GeminiTimeout
  | GeminiError (message : jsstring).

(** Everything outside the repository.  What the outside decides anew each time it
    is consulted (clock, id generators, network, storage signer, Gemini) is indexed
    by the number of the consultation, so no two consultations are related. *)
Class Host := {
  clock : nat → Z;
  fresh_oid : nat → oid;
  random_uuid : nat → jsstring;
  network : nat → jsstring → number → number → list Z → list SocketEvent;
  presign : nat → PresignRequest → option jsstring;
  (** By API key, model, messages, whether JSON is asked for, and time limit. *)
  gemini : nat → jsstring → jsstring → list GeminiMessage → bool → number → GeminiOutcome;

  oid_parse : jsstring → option oid;
  oid_show : oid → jsstring;
  error_text : HostError → jsstring;
  (** The [code] property Node gives to some of its errors, by their message. *)
  error_code : jsstring → option jsstring;
  toLowerCase : jsstring → jsstring;
  canonicalize : Z → Z;
  normalize_NFKD : jsstring → jsstring;
  mongo_regex_i : jsstring → jsstring → bool;
  toISOString : Z → jsstring;
  date_parse : jsstring → option Z;
  to_number : jsstring → number;
  json_parse : jsstring → option Json;
  (** [Number(value)]. *)
  json_number : Json → number;
  (** What [socket.setTimeout]/[socket.connect] throw for arguments they refuse. *)
  socket_refuses : number → number → option jsstring;
  sha256_hex : jsstring → jsstring;
  jwt_sign : jsstring → Claims → number → Z → option jsstring;
  jwt_verify : jsstring → jsstring → Z → Verified;
  url_set_param : jsstring → jsstring → jsstring → option jsstring;
  frontend_url : jsstring;
  (** The environment the process was started with. *)
  env : BackendEnv;
}.

(** ObjectId's documented behaviour: the 24-digit form it prints parses back. *)
Class OidLaws `{Host} : Prop := {
  oid_parse_show i : oid_parse (oid_show i) = Some i;
}.

Lemma oid_show_inj `{OidLaws} i j : oid_show i = oid_show j → i = j.
Proof.
  intros E. apply (f_equal oid_parse) in E. rewrite !oid_parse_show in E. by simplify_eq.
Qed.

(** ** Sockets *)

Inductive Namespace := ns_chat | ns_ai.
#[export] Instance Namespace_eq_dec : EqDecision Namespace.
Proof. solve_decision. Defined.

(** [client.data] of a socket.io client and the rooms it is in. *)
Record Client := mkClient {
  c_namespace : Namespace;
  c_user : option SessionUser;
  c_joinedConversationIds : option (list jsstring);
  c_rooms : list jsstring;
}.

(** [server.to(room)], [client.to(room)] (everyone in it but the client), [client]. *)
Inductive Target :=
  | ToRoom (ns : Namespace) (room : jsstring)
  | ToRoomExcept (client : nat) (room : jsstring)
  | ToClient (client : nat).

Inductive Event :=
  | connection_status_changed
  | conversation_preview_updated (p : ConversationPreviewPayload)
  | message_delivered (m : RealtimeMessagePayload)
  | conversation_read_updated (r : MarkConversationReadPayload)
  | typing_presence_updated (conversationId userId : jsstring) (isTyping : bool)
      (expiresAt : jsstring)
  | ai_moderation_result (conversationId : jsstring) (m : MessageModeration)
      (messageId : jsstring)
  | ai_response (conversationId content : jsstring)
  | ai_error (code message : jsstring).

Record Emission := mkEmission { em_to : Target; em_event : Event }.

(** ** The world *)

Record AiKeyState := mkKeyState {
  ks_apiKey : jsstring;
  ks_consecutiveFailures : Z;
  ks_isRateLimited : bool;
  ks_lastErrorAt : option Z;
}.

(** The HTTP response under construction and the request's session. *)
Inductive CookieOp :=
  | SetCookie (name value : jsstring) (maxAge : number)
  | ClearCookie (name : jsstring).

Record Http := mkHttp {
  h_cookies : list CookieOp;
  h_redirect : option jsstring;
  h_session_user : option SessionUser;
}.

Record World := mkWorld {
  w_step : nat;
  w_users : collection User;
  w_attempts : list AuthAttempt;
  w_sessions : collection RefreshSession;
  w_conversations : collection Conversation;
  w_participants : collection Participant;
  w_messages : collection Message;
  w_events : collection MembershipEvent;
  w_attachments : collection ChatAttachment;
  w_chat_next_id : Z;
  w_auth_next_id : Z;
  w_clients : gmap nat Client;
  w_emitted : list Emission;
  w_keyIndex : nat;
  w_modelIndex : nat;
  w_keyStates : list AiKeyState;
  w_http : Http;
}.

(** Functional update of one field. *)
Definition upd_step f (w : World) : World :=
  mkWorld (f (w_step w)) (w_users w) (w_attempts w) (w_sessions w) (w_conversations
    w) (w_participants w) (w_messages w) (w_events w) (w_attachments w)
    (w_chat_next_id w) (w_auth_next_id w) (w_clients w) (w_emitted w) (w_keyIndex w)
    (w_modelIndex w) (w_keyStates w) (w_http w).
Definition upd_users f (w : World) : World :=
  mkWorld (w_step w) (f (w_users w)) (w_attempts w) (w_sessions w) (w_conversations
    w) (w_participants w) (w_messages w) (w_events w) (w_attachments w)
    (w_chat_next_id w) (w_auth_next_id w) (w_clients w) (w_emitted w) (w_keyIndex w)
    (w_modelIndex w) (w_keyStates w) (w_http w).
Definition upd_attempts f (w : World) : World :=
  mkWorld (w_step w) (w_users w) (f (w_attempts w)) (w_sessions w) (w_conversations
    w) (w_participants w) (w_messages w) (w_events w) (w_attachments w)
    (w_chat_next_id w) (w_auth_next_id w) (w_clients w) (w_emitted w) (w_keyIndex w)
    (w_modelIndex w) (w_keyStates w) (w_http w).
Definition upd_sessions f (w : World) : World :=
  mkWorld (w_step w) (w_users w) (w_attempts w) (f (w_sessions w)) (w_conversations
    w) (w_participants w) (w_messages w) (w_events w) (w_attachments w)
    (w_chat_next_id w) (w_auth_next_id w) (w_clients w) (w_emitted w) (w_keyIndex w)
    (w_modelIndex w) (w_keyStates w) (w_http w).
Definition upd_conversations f (w : World) : World :=
  mkWorld (w_step w) (w_users w) (w_attempts w) (w_sessions w) (f (w_conversations
    w)) (w_participants w) (w_messages w) (w_events w) (w_attachments w)
    (w_chat_next_id w) (w_auth_next_id w) (w_clients w) (w_emitted w) (w_keyIndex w)
    (w_modelIndex w) (w_keyStates w) (w_http w).
Definition upd_participants f (w : World) : World :=
  mkWorld (w_step w) (w_users w) (w_attempts w) (w_sessions w) (w_conversations w)
    (f (w_participants w)) (w_messages w) (w_events w) (w_attachments w)
    (w_chat_next_id w) (w_auth_next_id w) (w_clients w) (w_emitted w) (w_keyIndex w)
    (w_modelIndex w) (w_keyStates w) (w_http w).
Definition upd_messages f (w : World) : World :=
  mkWorld (w_step w) (w_users w) (w_attempts w) (w_sessions w) (w_conversations w)
    (w_participants w) (f (w_messages w)) (w_events w) (w_attachments w)
    (w_chat_next_id w) (w_auth_next_id w) (w_clients w) (w_emitted w) (w_keyIndex w)
    (w_modelIndex w) (w_keyStates w) (w_http w).
Definition upd_events f (w : World) : World :=
  mkWorld (w_step w) (w_users w) (w_attempts w) (w_sessions w) (w_conversations w)
    (w_participants w) (w_messages w) (f (w_events w)) (w_attachments w)
    (w_chat_next_id w) (w_auth_next_id w) (w_clients w) (w_emitted w) (w_keyIndex w)
    (w_modelIndex w) (w_keyStates w) (w_http w).
Definition upd_attachments f (w : World) : World :=
  mkWorld (w_step w) (w_users w) (w_attempts w) (w_sessions w) (w_conversations w)
    (w_participants w) (w_messages w) (w_events w) (f (w_attachments w))
    (w_chat_next_id w) (w_auth_next_id w) (w_clients w) (w_emitted w) (w_keyIndex w)
    (w_modelIndex w) (w_keyStates w) (w_http w).
Definition upd_chat_next_id f (w : World) : World :=
  mkWorld (w_step w) (w_users w) (w_attempts w) (w_sessions w) (w_conversations w)
    (w_participants w) (w_messages w) (w_events w) (w_attachments w) (f
    (w_chat_next_id w)) (w_auth_next_id w) (w_clients w) (w_emitted w) (w_keyIndex
    w) (w_modelIndex w) (w_keyStates w) (w_http w).
Definition upd_auth_next_id f (w : World) : World :=
  mkWorld (w_step w) (w_users w) (w_attempts w) (w_sessions w) (w_conversations w)
    (w_participants w) (w_messages w) (w_events w) (w_attachments w) (w_chat_next_id
    w) (f (w_auth_next_id w)) (w_clients w) (w_emitted w) (w_keyIndex w)
    (w_modelIndex w) (w_keyStates w) (w_http w).
Definition upd_clients f (w : World) : World :=
  mkWorld (w_step w) (w_users w) (w_attempts w) (w_sessions w) (w_conversations w)
    (w_participants w) (w_messages w) (w_events w) (w_attachments w) (w_chat_next_id
    w) (w_auth_next_id w) (f (w_clients w)) (w_emitted w) (w_keyIndex w)
    (w_modelIndex w) (w_keyStates w) (w_http w).
Definition upd_emitted f (w : World) : World :=
  mkWorld (w_step w) (w_users w) (w_attempts w) (w_sessions w) (w_conversations w)
    (w_participants w) (w_messages w) (w_events w) (w_attachments w) (w_chat_next_id
    w) (w_auth_next_id w) (w_clients w) (f (w_emitted w)) (w_keyIndex w)
    (w_modelIndex w) (w_keyStates w) (w_http w).
Definition upd_keyIndex f (w : World) : World :=
  mkWorld (w_step w) (w_users w) (w_attempts w) (w_sessions w) (w_conversations w)
    (w_participants w) (w_messages w) (w_events w) (w_attachments w) (w_chat_next_id
    w) (w_auth_next_id w) (w_clients w) (w_emitted w) (f (w_keyIndex w))
    (w_modelIndex w) (w_keyStates w) (w_http w).
Definition upd_modelIndex f (w : World) : World :=
  mkWorld (w_step w) (w_users w) (w_attempts w) (w_sessions w) (w_conversations w)
    (w_participants w) (w_messages w) (w_events w) (w_attachments w) (w_chat_next_id
    w) (w_auth_next_id w) (w_clients w) (w_emitted w) (w_keyIndex w) (f
    (w_modelIndex w)) (w_keyStates w) (w_http w).
Definition upd_keyStates f (w : World) : World :=
  mkWorld (w_step w) (w_users w) (w_attempts w) (w_sessions w) (w_conversations w)
    (w_participants w) (w_messages w) (w_events w) (w_attachments w) (w_chat_next_id
    w) (w_auth_next_id w) (w_clients w) (w_emitted w) (w_keyIndex w) (w_modelIndex
    w) (f (w_keyStates w)) (w_http w).
Definition upd_http f (w : World) : World :=
  mkWorld (w_step w) (w_users w) (w_attempts w) (w_sessions w) (w_conversations w)
    (w_participants w) (w_messages w) (w_events w) (w_attachments w) (w_chat_next_id
    w) (w_auth_next_id w) (w_clients w) (w_emitted w) (w_keyIndex w) (w_modelIndex
    w) (w_keyStates w) (f (w_http w)).

(** ** Base operations *)

Section operations.
Context `{Host}.

Definition tick : M World nat := λ w, (Ok (w_step w), upd_step S w).

(** [new Date()] and [Date.now()], [new Types.ObjectId()], [randomUUID()]. *)
Definition now : M World Z := n ← tick; mret (clock n).
Definition new_oid : M World oid := n ← tick; mret (fresh_oid n).
Definition randomUUID : M World jsstring := n ← tick; mret (random_uuid n).

Definition host_error (e : HostError) : Exn := PlainError (error_text e).

(** [new Types.ObjectId(s)] throws a BSONError; a string given to Mongoose where an
    id is expected is cast, and fails with a CastError. *)
Definition parse_oid (s : jsstring) : M World oid := or_throw (oid_parse s) (host_error BSONError).
Definition cast_oid (s : jsstring) : M World oid := or_throw (oid_parse s) (host_error CastError).
Definition oid_isValid (s : jsstring) : bool := bool_decide (is_Some (oid_parse s)).

Definition emit (to : Target) (e : Event) : M World () :=
  modify (upd_emitted (λ l, l ++ [mkEmission to e])).
End operations.

(** The collections, and the operations that leave them alone. *)
Abbreviation Database :=
  (collection User * list AuthAttempt * collection RefreshSession * collection Conversation
   * collection Participant * collection Message * collection MembershipEvent
   * collection ChatAttachment)%type.
Definition database (w : World) : Database :=
  (w_users w, w_attempts w, w_sessions w, w_conversations w, w_participants w,
   w_messages w, w_events w, w_attachments w).

Definition read_only {A} (m : M World A) : Prop := ∀ d, preserves (λ w, database w = d) m.

Lemma read_only_run {A} (m : M World A) w : read_only m → database (m w).2 = database w.
Proof. intros Hm. by apply (Hm (database w)). Qed.

(** An invariant that does not look at the consultation counter nor at the message
    counters of the processor clients. *)
Class Stepless (I : World → Prop) : Prop := {
  stepless f w : I w → I (upd_step f w);
  idless_chat f w : I w → I (upd_chat_next_id f w);
  idless_auth f w : I w → I (upd_auth_next_id f w);
}.

#[export] Instance stepless_database d : Stepless (λ w, database w = d).
Proof. by split. Qed.

Section operations_inv.
Context `{Host} (I : World → Prop) `{!Stepless I}.

Lemma preserves_tick : preserves I tick.
Proof. intros w Hw. by apply stepless. Qed.
Lemma preserves_now : preserves I now.
Proof. apply preserves_bind; [apply preserves_tick|by intros ? ?]. Qed.
Lemma preserves_new_oid : preserves I new_oid.
Proof. apply preserves_bind; [apply preserves_tick|by intros ? ?]. Qed.
Lemma preserves_randomUUID : preserves I randomUUID.
Proof. apply preserves_bind; [apply preserves_tick|by intros ? ?]. Qed.
End operations_inv.

#[export] Hint Resolve preserves_tick preserves_now preserves_new_oid preserves_randomUUID : inv.
#[export] Hint Unfold parse_oid cast_oid : inv.
#[export] Hint Extern 0 (Stepless _) => typeclasses eauto : inv.

(** ** Mongoose models

    A model is a collection of the world; its operations are those of [Store.v] in
    the monad.  A new document gets a fresh id, and Mongo refuses an id that is
    taken. *)

Record Model (D : Type) := mkModel {
  m_get : World → collection D;
  m_upd : (collection D → collection D) → World → World;
}.
Arguments mkModel {D} _ _.
Arguments m_get {D} _ _.
Arguments m_upd {D} _ _ _.

Definition userModel : Model User := mkModel w_users upd_users.
Definition refreshSessionModel : Model RefreshSession := mkModel w_sessions upd_sessions.
Definition conversationModel : Model Conversation := mkModel w_conversations upd_conversations.
Definition participantModel : Model Participant := mkModel w_participants upd_participants.
Definition messageModel : Model Message := mkModel w_messages upd_messages.
Definition membershipEventModel : Model MembershipEvent := mkModel w_events upd_events.
Definition attachmentModel : Model ChatAttachment := mkModel w_attachments upd_attachments.

Section models.
Context `{Host} `{Mongo} {D : Type} (m : Model D).

Definition model_find (q : doc D → bool) : M World (list (doc D)) :=
  gets (λ w, mg_find q (m_get m w)).
Definition model_find_sort (q : doc D → bool) (le : D → D → bool) : M World (list (doc D)) :=
  gets (λ w, mg_sort le (mg_find q (m_get m w))).
Definition model_find_sort_limit (q : doc D → bool) (le : D → D → bool) (n : number)
    : M World (list (doc D)) :=
  gets (λ w, mg_limit n (mg_sort le (mg_find q (m_get m w)))).
Definition model_findOne (q : doc D → bool) : M World (option (doc D)) :=
  gets (λ w, mg_findOne q (m_get m w)).
Definition model_findOne_sort (q : doc D → bool) (le : D → D → bool) : M World (option (doc D)) :=
  gets (λ w, head (mg_sort le (mg_find q (m_get m w)))).
Definition model_findById (i : oid) : M World (option (doc D)) :=
  gets (λ w, findById i (m_get m w)).
Definition model_exists (q : doc D → bool) : M World bool :=
  gets (λ w, mg_exists q (m_get m w)).

Definition model_updateOne (q : doc D → bool) (u : D → D) : M World () :=
  modify (m_upd m (updateOne q u)).
Definition model_updateMany (q : doc D → bool) (u : D → D) : M World () :=
  modify (m_upd m (updateMany q u)).
(** [document.save()] of a document that exists: writes the modified fields. *)
Definition model_save (i : oid) (u : D → D) : M World () := modify (m_upd m (alter u i)).

Definition model_insert (i : oid) (d : D) : M World () :=
  c ← gets (m_get m);
  throw_if (bool_decide (is_Some (c !! i))) (host_error DuplicateKeyError) ;;
  modify (m_upd m <[i:=d]>).
Definition model_create (d : D) : M World (doc D) :=
  i ← new_oid; model_insert i d ;; mret (i, d).
Definition model_insertMany (ds : list D) : M World (list (doc D)) := forM ds model_create.
End models.

#[export] Hint Unfold model_find model_find_sort model_find_sort_limit model_findOne
  model_findOne_sort model_findById model_exists : inv.

(** An invariant under the writes of one model. *)
Section models_inv.
Context `{Host} `{Mongo} {D : Type} (m : Model D) (I : World → Prop).

Lemma preserves_find q : preserves I (model_find m q).
Proof. by intros w. Qed.
Lemma preserves_find_sort q le : preserves I (model_find_sort m q le).
Proof. by intros w. Qed.
Lemma preserves_find_sort_limit q le n : preserves I (model_find_sort_limit m q le n).
Proof. by intros w. Qed.
Lemma preserves_findOne q : preserves I (model_findOne m q).
Proof. by intros w. Qed.
Lemma preserves_findOne_sort q le : preserves I (model_findOne_sort m q le).
Proof. by intros w. Qed.
Lemma preserves_findById i : preserves I (model_findById m i).
Proof. by intros w. Qed.
Lemma preserves_exists q : preserves I (model_exists m q).
Proof. by intros w. Qed.

Lemma preserves_insert i d :
  (∀ w, I w → m_get m w !! i = None → I (m_upd m <[i:=d]> w)) → preserves I (model_insert m i d).
Proof.
  intros Hi w Hw. unfold model_insert. rewrite run_bind. simpl.
  rewrite run_bind. case_bool_decide as Hd; simpl; [done|].
  apply Hi; [done|]. by apply eq_None_not_Some.
Qed.

Lemma preserves_create `{!Stepless I} d :
  (∀ w i, I w → m_get m w !! i = None → I (m_upd m <[i:=d]> w)) → preserves I (model_create m d).
Proof.
  intros Hi. apply preserves_bind; [by apply preserves_new_oid|intros i].
  apply preserves_bind; [apply preserves_insert; eauto|intros ?]. apply preserves_ret.
Qed.
End models_inv.

#[export] Hint Resolve preserves_find preserves_find_sort preserves_find_sort_limit
  preserves_findOne preserves_findOne_sort preserves_findById preserves_exists : inv.

(** The host's and Mongo's errors are plain errors. *)
Definition plain (e : Exn) : Prop := ∃ message, e = PlainError message.

Lemma plain_host_error `{Host} e : plain (host_error e).
Proof. by eexists. Qed.
#[export] Hint Resolve plain_host_error : exn.

Section operations_exn.
Context `{Host} (P : Exn → Prop).

Lemma throws_now : throws_only P now.
Proof. by intros w e w' E. Qed.
Lemma throws_new_oid : throws_only P new_oid.
Proof. by intros w e w' E. Qed.
Lemma throws_randomUUID : throws_only P randomUUID.
Proof. by intros w e w' E. Qed.
Lemma throws_tick : throws_only P tick.
Proof. by intros w e w' E. Qed.

Lemma throws_insert {D} (m : Model D) i d : (∀ h, P (host_error h)) →
  throws_only P (model_insert m i d).
Proof. intros Hp. unfold model_insert. exn_solve. Qed.
End operations_exn.

#[export] Hint Resolve throws_now throws_new_oid throws_randomUUID throws_tick throws_insert : exn.
#[export] Hint Unfold model_save model_updateOne model_updateMany : exn.
