(* ===== verification/Instance.v ===== *)
(** * A concrete host

    One host that satisfies the hypotheses the theorems put on the outside of the
    repository, and one world, used by the witnesses: a network with the modelled
    processor at the other end, a clock that ticks, an id generator that counts, a
    token format that carries its claims, ASCII case mapping. *)

From S2P Require Import Prelude JsText Wire Driver Env Store Model.
Open Scope Z_scope.

(** A configuration, with and without reverse encryption. *)
Definition demo_env_on (reverse_encryption : bool) : BackendEnv := {|
  PORT := num 3000; MONGODB_URI := []; API_PREFIX := js "api";
  ACCESS_TOKEN_SECRET := js "access"; ACCESS_TOKEN_TTL_SECONDS := num 1800;
  REFRESH_TOKEN_SECRET := js "refresh"; REFRESH_TOKEN_TTL_SECONDS := num 604800;
  REFRESH_COOKIE_NAME := js "refresh_token"; AUTH_LOCAL_ENABLED := true;
  PROCESSOR_REMOTE_HOST := js "127.0.0.1"; PROCESSOR_REMOTE_PORT := num 9191;
  PROCESSOR_REMOTE_TIMEOUT_MS := num 5000;
  CHAT_REVERSE_ENCRYPTION_ENABLED := reverse_encryption; CHAT_REVERSE_ENCRYPTION_SHARED_KEY := js "k";
  R2_ACCOUNT_ID := js "a"; R2_ACCESS_KEY_ID := js "b"; R2_SECRET_ACCESS_KEY := js "c";
  R2_BUCKET_NAME := js "d"; R2_PUBLIC_URL := [];
  GEMINI_API_KEYS := js "key-1, key-2"; GEMINI_MODELS := js "gemini-1.5-flash";
  GEMINI_REQUEST_TIMEOUT_MS := num 30000; GEMINI_MODERATION_TIMEOUT_MS := num 5000;
  GEMINI_SUGGESTION_TIMEOUT_MS := num 10000; GEMINI_MAX_CONTEXT_MESSAGES := num 10;
  AI_CHATBOT_ENABLED := true; AI_SUGGESTIONS_ENABLED := true; AI_MODERATION_ENABLED := true;
|}.
Definition demo_env : BackendEnv := demo_env_on true.

Lemma demo_env_valid : valid_env demo_env.
Proof. apply (check_env_valid demo_env demo_env). by vm_compute. Qed.

(** The token: secret, expiry in seconds and the claims, each string with its length. *)
Definition put (s rest : jsstring) : jsstring := Z.of_nat (length s) :: s ++ rest.
Definition take_string (l : jsstring) : option (jsstring * jsstring) :=
  match l with
  | n :: r => if Z.of_nat (length r) <? n then None
              else Some (take (Z.to_nat n) r, drop (Z.to_nat n) r)
  | [] => None
  end.

Definition demo_sign (secret : jsstring) (c : Claims) (ttl : number) (t : Z) : option jsstring :=
  s ← as_integer ttl;
  Some (put secret ((t / 1000 + s) :: put (cl_type c) (put (cl_sub c) (put (cl_sid c)
    (match cl_jti c with Some j => put j [] | None => [] end))))).

Definition demo_verify (secret token : jsstring) (t : Z) : Verified :=
  match take_string token with
  | Some (secret', exp :: r) =>
      if negb (bool_decide (secret' = secret)) then TokenInvalid
      else match (x ← take_string r; y ← take_string x.2; z ← take_string y.2;
                  Some (mkClaims x.1 y.1 z.1 (fst <$> take_string z.2))) with
           | Some c => if exp <=? t / 1000 then TokenExpired else TokenValid c
           | None => TokenInvalid
           end
  | _ => TokenInvalid
  end.

Definition ascii_lower (u : Z) : Z := if (65 <=? u) && (u <=? 90) then u + 32 else u.
Definition ascii_upper (u : Z) : Z := if (97 <=? u) && (u <=? 122) then u - 32 else u.

Definition demo_number (s : jsstring) : number :=
  num (foldl (λ acc u, acc * 10 + (u - 48)) 0 s).

Section demo.
Context (e : BackendEnv).

(** The network is given: by default every connection reaches a processor of its own. *)
Definition demo_host_on (answer : list Z → list SocketEvent) : Host := {|
  clock n := 1700000000000 + Z.of_nat n;
  fresh_oid n := Oid (1000 + N.of_nat n);
  random_uuid n := show_nat n;
  network _ _ _ _ request := answer request;
  presign _ _ := Some (js "https://signed.example");
  gemini _ _ _ _ _ _ := GeminiText (js "ok");
  oid_parse s :=
    match s with [u] => if 0 <=? u then Some (Oid (Z.to_N u)) else None | _ => None end;
  oid_show i := [Z.of_N (oid_num i)];
  error_text _ := js "host error";
  error_code _ := None;
  toLowerCase s := ascii_lower <$> s;
  canonicalize := ascii_upper;
  normalize_NFKD s := s;
  mongo_regex_i p s :=
    match pattern_literal p with
    | Some lit => includes (ascii_lower <$> s) (ascii_lower <$> lit)
    | None => false
    end;
  toISOString t := [t];
  date_parse s := match s with [t] => Some t | _ => None end;
  to_number := demo_number;
  json_parse _ := Some (JObj [(js "isToxic", JBool true)]);
  json_number _ := num 0;
  socket_refuses _ _ := None;
  sha256_hex s := s;
  jwt_sign := demo_sign;
  jwt_verify := demo_verify;
  url_set_param u k v := Some (u ++ js "?" ++ k ++ js "=" ++ v);
  frontend_url := js "http://localhost:5173";
  env := e;
|}.
Definition demo_host : Host := demo_host_on (λ request,
  let reply := default [] (processor_reply true request) in
  [Connect; Data (take 100 reply); Data (drop 100 reply); Close]).

Lemma demo_oid_laws : @OidLaws demo_host.
Proof.
  split. intros [n]. simpl. rewrite (proj2 (Z.leb_le _ _)) by lia. by rewrite N2Z.id.
Qed.
End demo.

Definition empty_world : World := {|
  w_step := 0; w_users := ∅; w_attempts := []; w_sessions := ∅; w_conversations := ∅;
  w_participants := ∅; w_messages := ∅; w_events := ∅; w_attachments := ∅;
  w_chat_next_id := 1; w_auth_next_id := 1; w_clients := ∅; w_emitted := [];
  w_keyIndex := 0; w_modelIndex := 0; w_keyStates := [];
  w_http := mkHttp [] None None;
|}.
