(* ===== verification/Encryption.v ===== *)
(** * The processor clients

    [backend/src/modules/chat/chat-encryption.service.ts] and
    [backend/src/modules/auth/auth-processing.service.ts]: the TCP exchange with the
    remote processor, the request and response frames, and the operations built on
    them.  A TCP connection is the list of events Node delivers on the socket. *)

From S2P Require Import Prelude JsText Wire Driver Env Store Model Instance.
Open Scope Z_scope.

(** ** The exchange *)

Record RemoteResponse := mkRemoteResponse {
  rr_messageId : Z;
  rr_responseType : Z;
  rr_status : Z;
  rr_payload : jsstring;
}.

Definition parseResponse (b : buffer) : RemoteResponse := {|
  rr_messageId := readUInt32LE 0 b;
  rr_responseType :=
    let t := readUInt32LE 4 b in if t =? 0 then RESPONSE_ACK else t;
  rr_status := readInt32LE 8 b;
  rr_payload := readCString b 76 CHAT_MAX_RESULT;
|}.

(** The variables of the promise's executor; [x_listening] is false once [cleanup]
    has removed the listeners, [x_result] is what the promise settled with, and
    [x_settlements] counts the calls of [resolve] and [reject]. *)
Record Exchange := mkExchange {
  x_chunks : list buffer;
  x_settled : bool;
  x_listening : bool;
  x_result : option (RemoteResponse + Exn);
  x_settlements : nat;
}.

Definition exchange_start : Exchange := mkExchange [] false true None 0.

Definition received (x : Exchange) : nat := length (concat (x_chunks x)).

Definition settle (r : RemoteResponse + Exn) (x : Exchange) : Exchange :=
  mkExchange (x_chunks x) true false
    (match x_result x with Some r0 => Some r0 | None => Some r end) (S (x_settlements x)).

Definition fail (e : Exn) (x : Exchange) : Exchange :=
  if x_settled x then x else settle (inr e) x.

(** The errors the two services reject with. *)
Record ExchangeErrors := mkErrors {
  on_timeout : Exn;
  on_error : Exn;
  on_close : Exn;
}.

Section exchange.
Context (errors : ExchangeErrors).

(** The listeners.  [connect] writes the request, which the [network] has seen. *)
Definition on_event (x : Exchange) (ev : SocketEvent) : Exchange :=
  if negb (x_listening x) then x
  else match ev with
       | Connect => x
       | Data chunk =>
           let x := mkExchange (x_chunks x ++ [chunk]) (x_settled x) (x_listening x)
                      (x_result x) (x_settlements x) in
           if (received x <? CHAT_RESPONSE_SIZE)%nat || x_settled x then x
           else settle (inl (parseResponse (read_at 0 CHAT_RESPONSE_SIZE
                                              (concat (x_chunks x))))) x
       | Timeout => fail (on_timeout errors) x
       | SocketError => fail (on_error errors) x
       | Close =>
           if negb (x_settled x) && (received x <? CHAT_RESPONSE_SIZE)%nat
           then fail (on_close errors) x else x
       end.

Definition run_events (evs : list SocketEvent) : Exchange := foldl on_event exchange_start evs.

Context `{Host}.

Definition exchange (request : buffer) (host : jsstring) (port timeoutMs : number)
    : M World RemoteResponse :=
  match socket_refuses port timeoutMs with
  | Some message => throw (PlainError message)
  | None =>
      n ← tick;
      match x_result (run_events (network n host port timeoutMs request)) with
      | Some (inl r) => mret r
      | Some (inr e) => throw e
      | None => hang
      end
  end.
End exchange.

(** ** [ChatEncryptionService] *)

Record EncryptionContext := mkContext { ctx_senderId : jsstring; ctx_conversationId : jsstring }.

Record StoredContent := mkStored {
  st_content : jsstring;
  st_reverseEncryptionState : ReverseEncryptionState;
  st_decodeErrorCode : option jsstring;
}.

Record DisplayContent := mkDisplay {
  ds_content : jsstring;
  ds_displayState : MessageDisplayState;
  ds_decodeErrorCode : option jsstring;
}.

Definition chat_exchange_errors : ExchangeErrors := {|
  on_timeout := ChatProcessingError (js "REVERSE_ENCRYPTION_TIMEOUT")
    (js "Hết thời gian chờ dịch vụ mã hoá ngược phản hồi");
  on_error := ChatProcessingError (js "REVERSE_ENCRYPTION_CONNECTION_FAILED")
    (js "Không kết nối được tới dịch vụ mã hoá ngược");
  on_close := ChatProcessingError (js "REVERSE_ENCRYPTION_IO_FAILED")
    (js "Kết nối tới dịch vụ mã hoá ngược bị đóng sớm");
|}.

(** [Buffer.alloc] and the three header words of a request. *)
Definition request_header (messageId requestType mode : Z) : option buffer :=
  b ← writeUInt32LE messageId 0 (alloc CHAT_REQUEST_SIZE);
  b ← writeUInt32LE requestType 4 b;
  writeUInt32LE mode 8 b.

Section chat_encryption.
Context `{Host}.

Definition isEnabled : bool := CHAT_REVERSE_ENCRYPTION_ENABLED env.

Definition nextId : M World Z := λ w,
  (Ok (w_chat_next_id w), upd_chat_next_id (λ n, n + 1) w).

Definition buildRequest (mode : Z) (content : jsstring) (context : EncryptionContext)
    : M World buffer :=
  messageId ← nextId;
  b ← or_throw (request_header messageId REQUEST_CHAT_MESSAGE mode) (host_error RangeError);
  let b := writeCString b 12 CHAT_MAX_USERNAME (ctx_senderId context) in
  let b := writeCString b (12 + CHAT_MAX_USERNAME) CHAT_MAX_USERNAME
             (ctx_conversationId context) in
  mret (writeCString b (12 + CHAT_MAX_USERNAME + CHAT_MAX_USERNAME + CHAT_MAX_PASSWORD)
          CHAT_MAX_MESSAGE content).

(** [response.payload || 'processor-error']. *)
Definition failure_detail (payload : jsstring) : jsstring :=
  if truthy payload then payload else js "processor-error".

Definition processRemote (mode : Z) (content : jsstring) (context : EncryptionContext)
    (failureCode failureMessage : jsstring) : M World jsstring :=
  throw_if (negb (truthy (PROCESSOR_REMOTE_HOST env)))
    (ChatProcessingError (js "REVERSE_ENCRYPTION_CONFIG_MISSING")
       (js "Thiếu cấu hình host của remote processor dùng chung")) ;;
  throw_if (num_le (PROCESSOR_REMOTE_PORT env) (num 0))
    (ChatProcessingError (js "REVERSE_ENCRYPTION_CONFIG_INVALID")
       (js "Cấu hình cổng remote processor dùng chung không hợp lệ")) ;;
  request ← buildRequest mode content context;
  response ← exchange chat_exchange_errors request (PROCESSOR_REMOTE_HOST env)
               (PROCESSOR_REMOTE_PORT env) (PROCESSOR_REMOTE_TIMEOUT_MS env);
  throw_if (negb (rr_status response =? STATUS_OK))
    (ChatProcessingError failureCode
       (failureMessage ++ js ": " ++ failure_detail (rr_payload response))) ;;
  mret (rr_payload response).

Definition encryptForStorage (content : jsstring) (context : EncryptionContext)
    : M World StoredContent :=
  if negb isEnabled then mret (mkStored content legacy None)
  else
    payload ← processRemote PROCESS_SUBSTITUTION content context
      (js "REVERSE_ENCRYPTION_UNAVAILABLE") (js "Không thể mã hoá ngược tin nhắn để lưu trữ");
    mret (mkStored payload encrypted None).

Definition decryptForDisplay (content : jsstring) (state : ReverseEncryptionState)
    (context : EncryptionContext) : M World DisplayContent :=
  match state with
  | encrypted =>
      payload ← processRemote PROCESS_SUBSTITUTION_DECRYPT content context
        (js "REVERSE_DECRYPTION_UNAVAILABLE")
        (js "Không thể khôi phục nội dung tin nhắn để hiển thị");
      mret (mkDisplay payload display_ready None)
  | _ => mret (mkDisplay content display_ready None)
  end.
End chat_encryption.

(** ** [AuthProcessingService] *)

Definition auth_exchange_errors : ExchangeErrors := {|
  on_timeout := AuthProcessingError (js "LOCAL_AUTH_SHA1_TIMEOUT")
    (js "Hết thời gian chờ dịch vụ SHA1 cho local auth phản hồi");
  on_error := AuthProcessingError (js "LOCAL_AUTH_SHA1_CONNECTION_FAILED")
    (js "Không kết nối được tới dịch vụ SHA1 cho local auth");
  on_close := AuthProcessingError (js "LOCAL_AUTH_SHA1_IO_FAILED")
    (js "Kết nối tới dịch vụ SHA1 cho local auth bị đóng sớm");
|}.

Section auth_processing.
Context `{Host}.

Definition isLocalAuthEnabled : bool := AUTH_LOCAL_ENABLED env.

Definition auth_nextId : M World Z := λ w,
  (Ok (w_auth_next_id w), upd_auth_next_id (λ n, n + 1) w).

Definition buildSha1Request (email password : jsstring) : M World buffer :=
  messageId ← auth_nextId;
  b ← or_throw (request_header messageId REQUEST_AUTH_LOGIN PROCESS_SHA1)
        (host_error RangeError);
  let b := writeCString b 12 CHAT_MAX_USERNAME email in
  mret (writeCString b (12 + CHAT_MAX_USERNAME + CHAT_MAX_USERNAME) CHAT_MAX_PASSWORD password).

Definition auth_exchange := exchange auth_exchange_errors.

Definition hashPasswordWithSha1 (email password : jsstring) : M World jsstring :=
  throw_if (negb (truthy (PROCESSOR_REMOTE_HOST env)))
    (AuthProcessingError (js "LOCAL_AUTH_SHA1_CONFIG_MISSING")
       (js "Thiếu cấu hình host của remote processor dùng chung")) ;;
  request ← buildSha1Request email password;
  response ← auth_exchange request (PROCESSOR_REMOTE_HOST env)
               (PROCESSOR_REMOTE_PORT env) (PROCESSOR_REMOTE_TIMEOUT_MS env);
  throw_if (negb (rr_status response =? STATUS_OK))
    (AuthProcessingError (js "LOCAL_AUTH_SHA1_UNAVAILABLE")
       (js "Không thể xử lý SHA1 cho local auth: " ++ failure_detail (rr_payload response))) ;;
  mret (rr_payload response).
End auth_processing.

(** ** The clients write nothing but their counters *)

Section clients_inv.
Context `{Host} (I : World → Prop) `{!Stepless I}.

Lemma preserves_exchange errors request host port timeoutMs :
  preserves I (exchange errors request host port timeoutMs).
Proof.
  unfold exchange. destruct (socket_refuses _ _); [apply preserves_throw|].
  apply preserves_bind; [by apply preserves_tick|intros n].
  by destruct (x_result _) as [[]|]; intros w Hw.
Qed.

Lemma preserves_processRemote mode content context fc fm :
  preserves I (processRemote mode content context fc fm).
Proof.
  unfold processRemote, buildRequest, nextId. inv_solve; auto using preserves_exchange.
  intros w Hw. by apply idless_chat.
Qed.

Lemma preserves_encryptForStorage content context : preserves I (encryptForStorage content context).
Proof. unfold encryptForStorage. inv_solve. apply preserves_processRemote. Qed.

Lemma preserves_decryptForDisplay content state context :
  preserves I (decryptForDisplay content state context).
Proof. unfold decryptForDisplay. inv_solve. apply preserves_processRemote. Qed.

Lemma preserves_hashPasswordWithSha1 email password :
  preserves I (hashPasswordWithSha1 email password).
Proof.
  unfold hashPasswordWithSha1, buildSha1Request, auth_nextId, auth_exchange.
  inv_solve; auto using preserves_exchange. intros w Hw. by apply idless_auth.
Qed.
End clients_inv.

#[export] Hint Resolve preserves_exchange preserves_encryptForStorage preserves_decryptForDisplay
  preserves_hashPasswordWithSha1 : inv.

(** ** The exchange settles once *)

(** Nothing listens, and nothing changes, after the promise has settled. *)
Record exchange_ok (x : Exchange) : Prop := {
  ok_listening : x_listening x = negb (x_settled x);
  ok_settlements : x_settlements x = if x_settled x then 1%nat else 0%nat;
  ok_result : is_Some (x_result x) ↔ x_settled x = true;
  ok_received : x_settled x = false → (received x < CHAT_RESPONSE_SIZE)%nat;
}.

Lemma exchange_start_ok : exchange_ok exchange_start.
Proof. split; try done; simpl; [|unfold received, CHAT_RESPONSE_SIZE; simpl; lia].
  split; [intros [? ?]|]; done. Qed.

Lemma settle_ok r x : exchange_ok x → x_settled x = false → exchange_ok (settle r x).
Proof.
  intros [? Hn ? ?] E. rewrite E in Hn. split; simpl; try done; [by rewrite Hn|].
  by destruct (x_result x).
Qed.

Lemma fail_ok e x : exchange_ok x → exchange_ok (fail e x).
Proof. unfold fail. destruct (x_settled x) eqn:E; [done|]. intros. by apply settle_ok. Qed.

Section exchange_props.
Context (errors : ExchangeErrors).

Lemma on_event_ok x ev : exchange_ok x → exchange_ok (on_event errors x ev).
Proof.
  intros Hx. unfold on_event. destruct (x_listening x) eqn:El; simpl; [|done].
  pose proof (ok_listening x Hx) as Hl. rewrite El in Hl.
  assert (x_settled x = false) as Es by by destruct (x_settled x).
  destruct ev as [|chunk| | |]; try (by apply fail_ok); [done| |].
  - rewrite Es, orb_false_r.
    set (x' := mkExchange _ _ _ _ _).
    assert (x_settled x' = false) as Es' by done.
    destruct (received x' <? CHAT_RESPONSE_SIZE)%nat eqn:Er.
    + apply Nat.ltb_lt in Er. destruct Hx as [? Hn ? ?]. rewrite Es in *.
      split; simpl; rewrite ?El, ?Es; done.
    + destruct Hx as [? Hn Hr ?]. rewrite Es in *. split; simpl; rewrite ?Hn; try done.
      by destruct (x_result x).
  - rewrite Es. simpl. pose proof (ok_received x Hx Es).
    rewrite (proj2 (Nat.ltb_lt _ _)) by done. by apply fail_ok.
Qed.

Lemma run_events_ok evs : exchange_ok (run_events errors evs).
Proof.
  unfold run_events.
  assert (∀ x, exchange_ok x → exchange_ok (foldl (on_event errors) x evs)) as Hf.
  { induction evs as [|ev evs IH]; intros x Hx; simpl; [done|].
    by apply IH, on_event_ok. }
  apply Hf, exchange_start_ok.
Qed.

Lemma on_event_settled x ev : exchange_ok x → x_settled x = true → on_event errors x ev = x.
Proof. intros Hx Es. unfold on_event. by rewrite (ok_listening x Hx), Es. Qed.

Lemma foldl_settled x evs :
  exchange_ok x → x_settled x = true → foldl (on_event errors) x evs = x.
Proof.
  intros Hx Es. induction evs as [|ev evs IH]; simpl; [done|]. by rewrite on_event_settled.
Qed.

(** While the response is incomplete, only the bytes received matter. *)
Lemma run_chunks chunks x :
  exchange_ok x → x_settled x = false →
  (length (concat (x_chunks x ++ chunks)) < CHAT_RESPONSE_SIZE)%nat →
  let x' := foldl (on_event errors) x (Data <$> chunks) in
  exchange_ok x' ∧ x_settled x' = false ∧ x_chunks x' = x_chunks x ++ chunks.
Proof.
  revert x. induction chunks as [|c chunks IH]; intros x Hx Es Hlen.
  { simpl. by rewrite app_nil_r. }
  pose proof (on_event_ok x (Data c) Hx) as Hx'.
  assert (on_event errors x (Data c)
          = mkExchange (x_chunks x ++ [c]) (x_settled x) (x_listening x) (x_result x)
              (x_settlements x)) as E.
  { unfold on_event. rewrite (ok_listening x Hx), Es. simpl.
    rewrite orb_false_r. rewrite (proj2 (Nat.ltb_lt _ _)); [by destruct x|].
    unfold received. simpl. rewrite cons_middle, app_assoc, concat_app in Hlen.
    rewrite length_app in Hlen. simpl in *. lia. }
  change (foldl (on_event errors) x (Data <$> c :: chunks))
    with (foldl (on_event errors) (on_event errors x (Data c)) (Data <$> chunks)).
  destruct (IH (on_event errors x (Data c))) as (H1 & H2 & H3);
    [done|by rewrite E|rewrite E; simpl; by rewrite <-app_assoc|].
  split_and!; try done. rewrite H3, E. simpl. by rewrite <-app_assoc.
Qed.

Lemma on_event_complete x c :
  exchange_ok x → x_settled x = false →
  (CHAT_RESPONSE_SIZE ≤ length (concat (x_chunks x ++ [c])))%nat →
  on_event errors x (Data c)
  = settle (inl (parseResponse (read_at 0 CHAT_RESPONSE_SIZE (concat (x_chunks x ++ [c])))))
      (mkExchange (x_chunks x ++ [c]) false true (x_result x) (x_settlements x)).
Proof.
  intros Hx Es Hl. unfold on_event. rewrite (ok_listening x Hx), Es. simpl.
  rewrite orb_false_r. unfold received. simpl. by rewrite (proj2 (Nat.ltb_ge _ _) Hl).
Qed.

Lemma ok_unsettled x : exchange_ok x → x_settled x = false → x_result x = None.
Proof.
  intros Hx Es. destruct (x_result x) as [r|] eqn:Er; [|done].
  assert (x_settled x = true) by (apply (ok_result x Hx); by rewrite Er). congruence.
Qed.

(** The response is parsed from the first bytes of the stream, wherever TCP cuts it. *)
Lemma run_events_data pre chunks rest :
  Forall (λ ev, ev = Connect) pre →
  (CHAT_RESPONSE_SIZE ≤ length (concat chunks))%nat →
  x_result (run_events errors (pre ++ (Data <$> chunks) ++ rest))
  = Some (inl (parseResponse (read_at 0 CHAT_RESPONSE_SIZE (concat chunks)))).
Proof.
  intros Hpre Hlen. unfold run_events. rewrite foldl_app.
  assert (foldl (on_event errors) exchange_start pre = exchange_start) as ->.
  { induction Hpre as [|ev pre -> _ IH]; done. }
  rewrite foldl_app.
  (* split at the chunk that completes the response *)
  assert (∃ l1 c l2, chunks = l1 ++ c :: l2
            ∧ (length (concat l1) < CHAT_RESPONSE_SIZE)%nat
            ∧ (CHAT_RESPONSE_SIZE ≤ length (concat (l1 ++ [c])))%nat)
    as (l1 & c & l2 & -> & Hl1 & Hl2).
  { clear Hpre pre rest. induction chunks as [|c chunks IH] using rev_ind.
    - unfold CHAT_RESPONSE_SIZE in Hlen. simpl in Hlen. lia.
    - destruct (decide (CHAT_RESPONSE_SIZE ≤ length (concat chunks))%nat) as [Hd|Hd].
      + destruct (IH Hd) as (l1 & c' & l2 & -> & ? & ?).
        exists l1, c', (l2 ++ [c]). split_and!; [|done..]. by rewrite <-app_assoc.
      + exists chunks, c, []. split_and!; [done|lia|done]. }
  rewrite fmap_app, fmap_cons, foldl_app. simpl.
  destruct (run_chunks l1 exchange_start exchange_start_ok) as (H1 & H2 & H3);
    [done|done|].
  set (x := foldl _ _ (Data <$> l1)) in *.
  pose proof (on_event_ok x (Data c) H1) as Hy.
  simpl in H3. rewrite <-H3 in Hl2. rewrite (on_event_complete x c H1 H2 Hl2) in Hy |- *.
  rewrite (foldl_settled _ (Data <$> l2) Hy eq_refl), (foldl_settled _ rest Hy eq_refl).
  simpl. rewrite (ok_unsettled x), H3 in * by done. do 3 f_equal.
  rewrite (cons_middle c l1 l2), app_assoc, (concat_app (_ ++ _) l2).
  unfold read_at. by rewrite !drop_0, take_app_le.
Qed.
End exchange_props.

(** ** Frames *)

Definition word (v : Z) : Prop := 0 <= v <= 0xFFFFFFFF.

#[global] Arguments request_header : simpl never.
#[global] Arguments writeCString : simpl never.
#[global] Arguments parseResponse : simpl never.

(** A field as [writeCString] leaves it in a zeroed buffer. *)
Definition field_bytes (size : nat) (value : jsstring) : buffer :=
  let e := take (size - 1) (utf8_encode value) in e ++ replicate (size - length e) 0.

Lemma writeUInt32LE_word v off b : word v → writeUInt32LE v off b = Some (write_at off (le32 v) b).
Proof. unfold word, writeUInt32LE. intros. by rewrite (proj2 (andb_true_iff _ _)) by lia. Qed.

(** Writing one word of a buffer that has room for it. *)
Section write_word.
Context (off : nat) (v : Z) (b : buffer) (Hfits : (off + 4 ≤ length b)%nat).

Lemma length_write_word : length (write_at off (le32 v) b) = length b.
Proof. by apply length_write_at. Qed.

Lemma read_write_word : word v → readUInt32LE off (write_at off (le32 v) b) = v.
Proof.
  intros Hv. unfold readUInt32LE. change 4%nat with (length (le32 v)).
  rewrite read_write_same by done. by apply of_le_le32.
Qed.

Lemma read_write_word_other o n :
  (o + n ≤ off ∨ off + 4 ≤ o)%nat → read_at o n (write_at off (le32 v) b) = read_at o n b.
Proof. intros. by apply read_write_other. Qed.
End write_word.

Ltac frame_side := rewrite ?length_write_word, ?length_alloc by (rewrite ?length_write_word;
  rewrite ?length_alloc; unfold CHAT_REQUEST_SIZE; lia); unfold CHAT_REQUEST_SIZE in *; lia || done.

Lemma request_header_spec id ty mode :
  word id → word ty → word mode →
  ∃ b, request_header id ty mode = Some b ∧ length b = CHAT_REQUEST_SIZE
       ∧ readUInt32LE 0 b = id ∧ readUInt32LE 4 b = ty ∧ readUInt32LE 8 b = mode
       ∧ ∀ o n, (12 ≤ o)%nat → (o + n ≤ CHAT_REQUEST_SIZE)%nat → read_at o n b = replicate n 0.
Proof.
  intros Hid Hty Hmode. unfold request_header.
  rewrite writeUInt32LE_word by done. simpl. rewrite writeUInt32LE_word by done. simpl.
  rewrite writeUInt32LE_word by done. eexists. split; [done|]. split_and!.
  - frame_side.
  - unfold readUInt32LE. rewrite !read_write_word_other by frame_side.
    apply read_write_word; frame_side.
  - unfold readUInt32LE. rewrite read_write_word_other by frame_side.
    apply read_write_word; frame_side.
  - apply read_write_word; frame_side.
  - intros o n Hlo Hhi. rewrite !read_write_word_other by frame_side. by apply read_at_alloc.
Qed.

Lemma request_header_overflow id ty mode : 0xFFFFFFFF < id → request_header id ty mode = None.
Proof.
  intros. unfold request_header.
  assert (writeUInt32LE id 0 (alloc CHAT_REQUEST_SIZE) = None) as ->; [|done].
  unfold writeUInt32LE. by rewrite (proj2 (Z.leb_gt id _)), andb_false_r by lia.
Qed.

Lemma length_field_bytes size value : (0 < size)%nat → length (field_bytes size value) = size.
Proof.
  intros. unfold field_bytes. rewrite length_app, length_replicate, length_take. lia.
Qed.

(** Reads a field through a series of [writeCString]s to other fields. *)
Ltac fits := lia || (rewrite length_writeCString; fits).
Ltac read_fields :=
  repeat first
    [ rewrite read_writeCString_other by fits
    | rewrite read_writeCString;
      [ | fits | fits | solve [ rewrite ?read_writeCString_other by fits; auto with lia ] ] ].

(** What the processor's [parse_request] reads from the frames of the two clients. *)
Lemma parse_chat_frame id mode content context b :
  request_header id REQUEST_CHAT_MESSAGE mode = Some b → word id → word mode →
  parse_request
    (writeCString (writeCString (writeCString b 12 32 (ctx_senderId context))
                     44 32 (ctx_conversationId context)) 140 512 content)
  = mkRequest id REQUEST_CHAT_MESSAGE mode
      (field_bytes 32 (ctx_senderId context)) (field_bytes 32 (ctx_conversationId context))
      (replicate 64 0) (field_bytes 512 content) (replicate 512 0).
Proof.
  intros Eb Hid Hmode.
  destruct (request_header_spec id REQUEST_CHAT_MESSAGE mode) as (b' & Eb' & Hl & H0 & H4 & H8 & Hz);
    [done|by unfold word|done|].
  assert (b' = b) as -> by congruence. clear Eb Eb'.
  assert (CHAT_REQUEST_SIZE = 1164%nat) as Hs by done. rewrite Hs in *.
  unfold parse_request. unfold readUInt32LE in *.
  f_equal; read_fields; done || (apply Hz; lia).
Qed.

Lemma parse_auth_frame id email password b :
  request_header id REQUEST_AUTH_LOGIN PROCESS_SHA1 = Some b → word id →
  parse_request (writeCString (writeCString b 12 32 email) 76 64 password)
  = mkRequest id REQUEST_AUTH_LOGIN PROCESS_SHA1
      (field_bytes 32 email) (replicate 32 0)
      (field_bytes 64 password) (replicate 512 0) (replicate 512 0).
Proof.
  intros Eb Hid.
  destruct (request_header_spec id REQUEST_AUTH_LOGIN PROCESS_SHA1)
    as (b' & Eb' & Hl & H0 & H4 & H8 & Hz); [done|by unfold word|by unfold word|].
  assert (b' = b) as -> by congruence. clear Eb Eb'.
  assert (CHAT_REQUEST_SIZE = 1164%nat) as Hs by done. rewrite Hs in *.
  unfold parse_request. unfold readUInt32LE in *.
  f_equal; read_fields; done || (apply Hz; lia).
Qed.

(** What [parseResponse] reads from the processor's response. *)
Lemma read_at_app (l1 l2 l3 : buffer) o n :
  length l1 = o → length l2 = n → read_at o n (l1 ++ l2 ++ l3) = l2.
Proof. intros <- <-. unfold read_at. by rewrite drop_app_length, take_app_length. Qed.

Lemma parse_response_bytes r :
  word (rs_message_id r) → 0 <= rs_status r < 0x80000000 → rs_response_type r = RESPONSE_ACK →
  length (rs_from_username r) = 32%nat → length (rs_peer_username r) = 32%nat →
  length (rs_payload r) = 512%nat →
  length (response_bytes r) = CHAT_RESPONSE_SIZE
  ∧ parseResponse (response_bytes r)
    = mkRemoteResponse (rs_message_id r) RESPONSE_ACK (rs_status r)
        (utf8_decode (cstr (rs_payload r))).
Proof.
  intros Hid Hst Hty Hf Hp Hpay. unfold response_bytes.
  assert (∀ v, length (le32 v) = 4%nat) as H4 by done.
  split; [rewrite !length_app, !H4, Hf, Hp, Hpay; done|].
  assert (∀ o n l1 l2 l3, length l1 = o → length l2 = n →
            read_at o n (l1 ++ l2 ++ l3) = l2) as Hr by (intros; by apply read_at_app).
  set (b := le32 (rs_message_id r) ++ _).
  assert (read_at 0 4 b = le32 (rs_message_id r)) as E0 by by apply (Hr _ _ []).
  assert (read_at 4 4 b = le32 (rs_response_type r)) as E4 by by apply (Hr _ _ (le32 _)).
  assert (read_at 8 4 b = le32 (rs_status r)) as E8
    by by apply (Hr _ _ (le32 (rs_message_id r) ++ le32 (rs_response_type r))).
  assert (read_at 76 512 b = rs_payload r) as Ep.
  { unfold b. rewrite <-(app_nil_r (rs_payload r)) at 1.
    rewrite !app_assoc, <-(app_assoc _ (rs_payload r) []).
    apply Hr; [|done]. by rewrite !length_app, !H4, Hf, Hp. }
  unfold parseResponse, readInt32LE, readUInt32LE, readCString, CHAT_MAX_RESULT.
  rewrite E0, E4, E8, Ep, !of_le_le32 by (rewrite ?Hty; unfold word in *; lia || done).
  rewrite Hty, (proj2 (Z.ltb_lt _ _)) by lia. done.
Qed.

(** ** The exchange with the processor of this repository *)

(** Text that survives the frame: well-formed UTF-16 without NUL, not empty. *)
Record plain_text (s : jsstring) : Prop := {
  text_well_formed : well_formed s;
  text_no_nul : 0 ∉ s;
  text_nonempty : s ≠ [];
}.

Lemma utf8_encode_nonempty s : s ≠ [] → utf8_encode s ≠ [].
Proof.
  destruct s as [|u s]; [done|]. intros _. unfold utf8_encode. simpl.
  assert (∀ c l, utf8_of_cp c ++ l ≠ []) as Hne.
  { intros c l. unfold utf8_of_cp. by repeat case_match. }
  repeat case_match; apply Hne.
Qed.

Lemma nonempty_field size s : plain_text s → (1 < size)%nat → nonempty (field_bytes size s) = true.
Proof.
  intros [Hwf H0 Hne] Hs. unfold field_bytes.
  pose proof (utf8_encode_nonempty s Hne) as He. pose proof (utf8_encode_no_nul s Hwf H0) as Hn.
  destruct (utf8_encode s) as [|b e]; [done|].
  destruct (size - 1)%nat as [|k] eqn:E; [lia|]. simpl.
  apply not_elem_of_cons in Hn as [Hb _]. by rewrite (proj2 (Z.eqb_neq _ _)).
Qed.

(** A field ends: there is a NUL in it. *)
Lemma field_end size value : (0 < size)%nat → 0 ∈ field_bytes size value.
Proof.
  intros. unfold field_bytes. apply elem_of_app. right.
  destruct (size - length (take (size - 1) (utf8_encode value)))%nat as [|n] eqn:E; [|by left].
  rewrite length_take in E. lia.
Qed.

Lemma cstr_field size value :
  cstr (field_bytes size value) = cstr (take (size - 1) (utf8_encode value)).
Proof.
  unfold field_bytes. induction (take _ _) as [|b l IH] in |-*.
  - cbn. by destruct (size - 0)%nat.
  - generalize dependent (size - length (b :: l))%nat. intros n.
    enough (∀ l n, cstr (l ++ replicate n 0) = cstr l) as Hc by apply Hc.
    clear. intros l n. induction l as [|b l IH]; [by destruct n|]. cbn. by destruct (b =? 0); [|rewrite IH].
Qed.

Lemma length_c_field n src : (0 < n)%nat → length (c_field n src) = n.
Proof.
  intros. unfold c_field. rewrite length_app, length_replicate, length_take. lia.
Qed.

Section substitution.
Context (f g : Z → Z) (Hfg : ascii_permutation f g).
Context (content : jsstring) (Hcontent : plain_text content).

(** The cipher keeps text plain and of the same length. *)
Lemma plain_text_cipher : plain_text (f <$> content).
Proof.
  destruct Hcontent as [Hwf H0 Hne]. split.
  - by apply (well_formed_fmap f g).
  - by apply (fmap_no_nul f g).
  - by destruct content.
Qed.

Lemma length_cipher :
  length (utf8_encode (f <$> content)) = length (utf8_encode content).
Proof.
  rewrite (utf8_encode_fmap f g) by (done || apply Hcontent). apply length_fmap.
Qed.
End substitution.

(** What the frame carries of a text: the characters of [kept], which are those of its first
    511 bytes of UTF-8 up to the first NUL.  The cut splits no character, and leaves
    something. *)
Record carries (content kept : jsstring) : Prop := {
  kept_plain : plain_text kept;
  kept_bytes : cstr (take (CHAT_MAX_MESSAGE - 1) (utf8_encode content)) = utf8_encode kept;
}.

Lemma cstr_no_nul (l : buffer) : 0 ∉ l → cstr l = l.
Proof. intros H0. pose proof (cstr_app_zeros l 0 H0) as E. cbn in E. by rewrite app_nil_r in E. Qed.

Lemma carries_self content :
  plain_text content → (length (utf8_encode content) <= 511)%nat → carries content content.
Proof.
  intros Hc Hl. split; [done|]. rewrite take_ge by (unfold CHAT_MAX_MESSAGE; lia).
  apply cstr_no_nul, utf8_encode_no_nul; apply Hc.
Qed.

Lemma length_cstr (l : buffer) : (length (cstr l) <= length l)%nat.
Proof. induction l as [|b l IH]; [done|]. cbn. destruct (b =? 0); cbn; lia. Qed.

Lemma carries_length content kept :
  carries content kept → (length (utf8_encode kept) <= 511)%nat.
Proof.
  intros [_ <-]. etrans; [apply length_cstr|]. rewrite length_take. unfold CHAT_MAX_MESSAGE. lia.
Qed.

(** A text that fits is carried whole. *)
Lemma carries_whole content kept :
  carries content kept → plain_text content → (length (utf8_encode content) <= 511)%nat →
  kept = content.
Proof.
  intros [Hk Hb] Hc Hl. destruct (carries_self content Hc Hl) as [_ Hs].
  rewrite <-(utf8_roundtrip kept (text_well_formed _ Hk)).
  rewrite <-(utf8_roundtrip content (text_well_formed _ Hc)). congruence.
Qed.

Lemma carries_cipher content kept f g :
  ascii_permutation f g → carries content kept → carries (f <$> kept) (f <$> kept).
Proof.
  intros Hfg Hk. apply carries_self; [by apply (plain_text_cipher f g Hfg), Hk|].
  rewrite (length_cipher f g Hfg) by apply Hk. by eapply carries_length.
Qed.

Lemma nonempty_carried content kept :
  carries content kept → nonempty (field_bytes CHAT_MAX_MESSAGE content) = true.
Proof.
  intros [Hk Hb]. pose proof (utf8_encode_nonempty kept (text_nonempty _ Hk)) as Hne.
  rewrite <-Hb, <-cstr_field in Hne. destruct (field_bytes _ _) as [|b l]; [done|].
  cbn in Hne |- *. by destruct (b =? 0).
Qed.

(** The driver's output field, decoded, is the cipher applied to the characters. *)
Lemma decode_transformed f g content kept :
  ascii_permutation f g → carries content kept →
  let out := f <$> take (512 - 1) (cstr (field_bytes CHAT_MAX_MESSAGE content)) in
  length (out ++ replicate (512 - length out) 0) = 512%nat
  ∧ utf8_decode (cstr (out ++ replicate (512 - length out) 0)) = f <$> kept.
Proof.
  intros Hfg Hk. pose proof (carries_length _ _ Hk) as Hl. destruct Hk as [Hk Hb].
  rewrite cstr_field, Hb, take_ge by lia. simpl.
  rewrite <-(utf8_encode_fmap f g) by (done || apply Hk).
  pose proof (length_cipher f g Hfg kept Hk) as Hl'.
  destruct (plain_text_cipher f g Hfg kept Hk) as [Hwf H0 _]. split.
  - rewrite length_app, length_replicate. lia.
  - rewrite cstr_app_zeros by by apply utf8_encode_no_nul. by apply utf8_roundtrip.
Qed.

(** The two modes the chat service uses, with the byte map of each. *)
Definition chat_mode (mode : Z) (f g : Z → Z) : Prop :=
  (mode = PROCESS_SUBSTITUTION ∧ f = map_forward ∧ g = map_reverse)
  ∨ (mode = PROCESS_SUBSTITUTION_DECRYPT ∧ f = map_reverse ∧ g = map_forward).

Lemma chat_mode_permutation mode f g : chat_mode mode f g → ascii_permutation f g.
Proof.
  intros [(_ & -> & ->)|(_ & -> & ->)];
    [apply map_forward_reverse|apply map_reverse_forward].
Qed.

Lemma chat_mode_word mode f g : chat_mode mode f g → word mode.
Proof. unfold word. by intros [(-> & _)|(-> & _)]. Qed.

Lemma processor_reply_chat mode f g id content kept context b :
  chat_mode mode f g → word id → carries content kept → plain_text (ctx_conversationId context) →
  request_header id REQUEST_CHAT_MESSAGE mode = Some b →
  ∃ reply, processor_reply true
    (writeCString (writeCString (writeCString b 12 32 (ctx_senderId context))
                     44 32 (ctx_conversationId context)) 140 512 content) = Some reply
  ∧ length reply = CHAT_RESPONSE_SIZE
  ∧ parseResponse reply = mkRemoteResponse id RESPONSE_ACK STATUS_OK (f <$> kept).
Proof.
  intros Hm Hid Hc Hconv Eb. unfold processor_reply. cbv zeta.
  rewrite (parse_chat_frame id mode) by eauto using chat_mode_word.
  destruct (decode_transformed f g content kept (chat_mode_permutation _ _ _ Hm) Hc) as [Hol Hod].
  unfold processor_validate_request. cbn [rq_mode rq_request_type rq_username rq_auth_payload
    rq_peer_username rq_payload].
  rewrite (nonempty_field 32 (ctx_conversationId context)) by (done || lia).
  change 512%nat with CHAT_MAX_MESSAGE. rewrite (nonempty_carried content kept) by done.
  assert (∀ p from peer, utf8_decode (cstr p) = f <$> kept → length p = 512%nat →
    let r := response_bytes (mkResponse id RESPONSE_ACK STATUS_OK
      (c_field 32 from) (c_field 32 peer) p) in
    length r = CHAT_RESPONSE_SIZE
    ∧ parseResponse r = mkRemoteResponse id RESPONSE_ACK STATUS_OK (f <$> kept)) as Hp.
  { intros p from peer <- Hp. apply parse_response_bytes; simpl; rewrite ?length_c_field; try done; lia. }
  destruct Hm as [(-> & -> & _)|(-> & -> & _)]; cbn [Z.eqb orb andb negb Pos.eqb];
    (erewrite chat_write_end by reflexivity; eexists; split; [reflexivity|by apply Hp]).
Qed.

(** The stored form of a password: the driver's SHA-1 of its field, in hexadecimal. *)
Definition sha1_hex (password : jsstring) : jsstring :=
  utf8_decode (cstr (sha1_output (cstr (field_bytes CHAT_MAX_PASSWORD password)) 512)).

Lemma length_sha1_output s : length (sha1_output s 512) = 512%nat.
Proof.
  unfold sha1_output. destruct (sha1 _) as [[[[a b] c] d] e].
  rewrite !length_app, length_replicate. done.
Qed.

Lemma sha1_hex_truthy password : truthy (sha1_hex password) = true.
Proof.
  unfold sha1_hex, sha1_output. destruct (sha1 _) as [[[[a b] c] d] e].
  unfold hex32 at 1. cbn [fmap list_fmap app].
  set (x := Z.shiftr a _ mod 16). set (rest := _ ++ replicate _ 0).
  assert (0 <= x < 16) as Hx by (apply Z.mod_pos_bound; lia).
  assert (48 <= hex_digit x < 128) as Hh by (unfold hex_digit; case_match; lia).
  cbn [cstr]. rewrite (proj2 (Z.eqb_neq _ _)) by lia.
  unfold utf8_decode. rewrite utf8_scan_unfold. cbn [scan_body].
  rewrite (proj2 (Z.ltb_lt _ _)) by lia. cbn [flat_map].
  unfold units_of_cp. by rewrite (proj2 (Z.ltb_lt _ _)) by lia.
Qed.

Lemma processor_reply_auth id email password b :
  word id → plain_text email → plain_text password →
  request_header id REQUEST_AUTH_LOGIN PROCESS_SHA1 = Some b →
  ∃ reply, processor_reply true (writeCString (writeCString b 12 32 email) 76 64 password) = Some reply
  ∧ length reply = CHAT_RESPONSE_SIZE
  ∧ parseResponse reply = mkRemoteResponse id RESPONSE_ACK STATUS_OK (sha1_hex password).
Proof.
  intros Hid He Hp Eb. unfold processor_reply. cbv zeta.
  rewrite (parse_auth_frame id) by done.
  unfold processor_validate_request. cbn [rq_mode rq_request_type rq_username rq_auth_payload
    rq_peer_username rq_payload].
  rewrite (nonempty_field 32 email), (nonempty_field 64 password) by (done || lia).
  cbn [Z.eqb orb andb negb Pos.eqb]. erewrite chat_write_end by reflexivity.
  cbn [rq_mode rq_auth_payload rq_message_id Z.eqb Pos.eqb].
  rewrite (nonempty_field 64 password) by (done || lia). eexists. split; [reflexivity|].
  unfold from_auth_payload. cbn [rq_auth_payload]. rewrite cstr_app by (apply field_end; lia).
  apply parse_response_bytes; simpl; rewrite ?length_c_field, ?length_sha1_output; done || lia.
Qed.

(** ** What the services promise *)

Section services.
Context `{Host}.

(** The network leads to a running processor of this repository: the connection is
    accepted and the reply to a full request arrives, cut into any chunks.  Nothing is said
    of a request that the driver has no defined answer to. *)
Definition serves_processor : Prop :=
  ∀ n host port timeout request reply, length request = CHAT_REQUEST_SIZE →
    processor_reply true request = Some reply →
    ∃ pre chunks rest,
      network n host port timeout request = pre ++ (Data <$> chunks) ++ rest
      ∧ Forall (λ ev, ev = Connect) pre ∧ concat chunks = reply.

(** The configuration [backendEnv] accepts, with a port and a timeout Node accepts. *)
Record remote_ready : Prop := {
  ready_env : valid_env env;
  ready_enabled : CHAT_REVERSE_ENCRYPTION_ENABLED env = true;
  ready_socket : socket_refuses (PROCESSOR_REMOTE_PORT env) (PROCESSOR_REMOTE_TIMEOUT_MS env) = None;
}.

Lemma run_exchange errors request host port timeout w reply :
  socket_refuses port timeout = None →
  (∃ pre chunks rest,
      network (w_step w) host port timeout request = pre ++ (Data <$> chunks) ++ rest
      ∧ Forall (λ ev, ev = Connect) pre ∧ concat chunks = reply) →
  length reply = CHAT_RESPONSE_SIZE →
  exchange errors request host port timeout w = (Ok (parseResponse reply), upd_step S w).
Proof.
  intros Hs (pre & chunks & rest & Hn & Hpre & Hc) Hl. unfold exchange. rewrite Hs.
  rewrite run_bind. simpl. rewrite Hn, run_events_data by (rewrite ?Hc, ?Hl; done).
  simpl. rewrite Hc. do 3 f_equal. unfold read_at. by rewrite drop_0, take_ge by lia.
Qed.

Lemma run_buildRequest mode content context w b :
  request_header (w_chat_next_id w) REQUEST_CHAT_MESSAGE mode = Some b →
  buildRequest mode content context w
  = (Ok (writeCString (writeCString (writeCString b 12 32 (ctx_senderId context))
                         44 32 (ctx_conversationId context)) 140 512 content),
     upd_chat_next_id (λ n, n + 1) w).
Proof. intros E. unfold buildRequest. rewrite run_bind. simpl. by rewrite run_bind, E. Qed.

Lemma run_buildRequest_overflow mode content context w :
  0xFFFFFFFF < w_chat_next_id w →
  buildRequest mode content context w
  = (Throw (host_error RangeError), upd_chat_next_id (λ n, n + 1) w).
Proof.
  intros Hid. unfold buildRequest. rewrite run_bind. simpl.
  by rewrite run_bind, request_header_overflow by done.
Qed.

(** The request of a chat text, and the processor's reply to it. *)
Lemma chat_request_reply mode f g content kept context w :
  chat_mode mode f g → word (w_chat_next_id w) →
  carries content kept → plain_text (ctx_conversationId context) →
  ∃ b reply, buildRequest mode content context w = (Ok b, upd_chat_next_id (λ n, n + 1) w) ∧
    length b = CHAT_REQUEST_SIZE ∧ processor_validate_request (parse_request b) = None ∧
    processor_reply true b = Some reply ∧ length reply = CHAT_RESPONSE_SIZE ∧
    parseResponse reply
    = mkRemoteResponse (w_chat_next_id w) RESPONSE_ACK STATUS_OK (f <$> kept).
Proof.
  intros Hm Hid Hc Hconv.
  destruct (request_header_spec (w_chat_next_id w) REQUEST_CHAT_MESSAGE mode)
    as (b & Eb & Hb & _); [done|by unfold word|by eapply chat_mode_word|].
  destruct (processor_reply_chat mode f g (w_chat_next_id w) content kept context b)
    as (reply & Er & Hl & Hp); [done..|].
  eexists _, reply. split; [by apply run_buildRequest|]. split_and!; [| |done..].
  - unfold CHAT_REQUEST_SIZE in *. by rewrite !length_writeCString by fits.
  - rewrite (parse_chat_frame (w_chat_next_id w) mode) by eauto using chat_mode_word.
    unfold processor_validate_request. cbn [rq_mode rq_request_type rq_username rq_auth_payload
      rq_peer_username rq_payload].
    rewrite (nonempty_field 32 (ctx_conversationId context)) by (done || lia).
    change 512%nat with CHAT_MAX_MESSAGE. rewrite (nonempty_carried content kept) by done.
    by destruct Hm as [(-> & _)|(-> & _)].
Qed.

(** Whatever full reply with an OK status arrives decides, whichever request it answers. *)
Lemma run_processRemote_reply mode content context fc fm w b reply id ty payload :
  remote_ready → buildRequest mode content context w = (Ok b, upd_chat_next_id (λ n, n + 1) w) →
  (∃ pre chunks rest,
      network (w_step w) (PROCESSOR_REMOTE_HOST env) (PROCESSOR_REMOTE_PORT env)
        (PROCESSOR_REMOTE_TIMEOUT_MS env) b = pre ++ (Data <$> chunks) ++ rest
      ∧ Forall (λ ev, ev = Connect) pre ∧ concat chunks = reply) →
  length reply = CHAT_RESPONSE_SIZE →
  parseResponse reply = mkRemoteResponse id ty STATUS_OK payload →
  processRemote mode content context fc fm w
  = (Ok payload, upd_step S (upd_chat_next_id (λ n, n + 1) w)).
Proof.
  intros [Henv Hen Hs] Eb Hn Hl Hp. unfold processRemote.
  destruct (valid_remote _ Henv) as (Hh & Hq & _); [auto|].
  destruct (PROCESSOR_REMOTE_HOST env) eqn:Eh; [done|]. simpl.
  rewrite run_bind. simpl. rewrite run_bind. rewrite positive_num_le by done. simpl.
  rewrite run_bind, Eb, run_bind. erewrite run_exchange; [|done|exact Hn|exact Hl].
  rewrite Hp. by rewrite run_bind.
Qed.

Lemma run_processRemote mode f g content kept context fc fm w :
  serves_processor → remote_ready → chat_mode mode f g →
  word (w_chat_next_id w) → carries content kept → plain_text (ctx_conversationId context) →
  processRemote mode content context fc fm w
  = (Ok (f <$> kept), upd_step S (upd_chat_next_id (λ n, n + 1) w)).
Proof.
  intros Hn Hr Hm Hid Hc Hconv.
  destruct (chat_request_reply mode f g content kept context w)
    as (b & reply & Eb & Hb & _ & Er & Hl & Hp); [done..|].
  eapply run_processRemote_reply; [done|exact Eb| |exact Hl|exact Hp]. by eapply Hn.
Qed.

Lemma run_hashPasswordWithSha1 email password w :
  serves_processor → valid_env env → AUTH_LOCAL_ENABLED env = true →
  socket_refuses (PROCESSOR_REMOTE_PORT env) (PROCESSOR_REMOTE_TIMEOUT_MS env) = None →
  word (w_auth_next_id w) → plain_text email → plain_text password →
  hashPasswordWithSha1 email password w
  = (Ok (sha1_hex password), upd_step S (upd_auth_next_id (λ n, n + 1) w)).
Proof.
  intros Hn Henv Hen Hs Hid He Hp. unfold hashPasswordWithSha1.
  destruct (valid_remote _ Henv) as (Hh & _ & _); [auto|].
  destruct (PROCESSOR_REMOTE_HOST env) eqn:Eh; [done|]. simpl.
  destruct (request_header_spec (w_auth_next_id w) REQUEST_AUTH_LOGIN PROCESS_SHA1)
    as (b & Eb & Hb & _); [done|by unfold word|by unfold word|].
  rewrite !run_bind. simpl. unfold buildSha1Request, auth_nextId. rewrite !run_bind, Eb. simpl.
  destruct (processor_reply_auth (w_auth_next_id w) email password b) as (reply & Er & Hl & Hr); [done..|].
  rewrite run_bind. unfold auth_exchange. erewrite run_exchange; [|done| |exact Hl].
  - rewrite Hr. by rewrite run_bind.
  - refine (Hn _ _ _ _ _ reply _ Er). unfold CHAT_REQUEST_SIZE in *. by rewrite !length_writeCString by fits.
Qed.

(** What comes back of a text that the service stores: without reverse encryption all of it,
    with it what the frame carries, when the processor answers and the counter fits its
    word. *)
Definition survives (content conversationId kept : jsstring) (w : World) : Prop :=
  if isEnabled
  then serves_processor ∧ remote_ready ∧ word (w_chat_next_id w) ∧ carries content kept
       ∧ plain_text conversationId
  else kept = content.

Definition stored_form (kept : jsstring) : StoredContent :=
  if isEnabled then mkStored (map_forward <$> kept) encrypted None else mkStored kept legacy None.

Lemma survives_whole content conversationId kept w :
  survives content conversationId kept w → plain_text content →
  (length (utf8_encode content) <= 511)%nat → kept = content.
Proof.
  unfold survives. destruct isEnabled; [|done]. intros (_ & _ & _ & Hc & _). by apply carries_whole.
Qed.

(** The world after one use of the service. *)
Definition consulted (w : World) : World :=
  if isEnabled then upd_step S (upd_chat_next_id (λ n, n + 1) w) else w.

(** What the two operations of the service give. *)
Context (content kept : jsstring) (context : EncryptionContext) (w : World).

Lemma run_encryptForStorage :
  survives content (ctx_conversationId context) kept w →
  encryptForStorage content context w = (Ok (stored_form kept), consulted w).
Proof.
  unfold survives, encryptForStorage, stored_form, consulted. destruct isEnabled; cbn [negb].
  - intros (Hn & Hr & Hid & Hc & Hconv).
    by rewrite run_bind, (run_processRemote _ map_forward map_reverse _ kept) by (done || by left).
  - by intros ->.
Qed.

Lemma run_decryptForDisplay :
  survives content (ctx_conversationId context) kept w →
  decryptForDisplay (st_content (stored_form kept)) (st_reverseEncryptionState (stored_form kept))
    context w
  = (Ok (mkDisplay kept display_ready None), consulted w).
Proof.
  unfold survives, decryptForDisplay, stored_form, consulted. destruct isEnabled; [|done].
  intros (Hn & Hr & Hid & Hc & Hconv). cbn [st_content st_reverseEncryptionState].
  pose proof (carries_cipher _ _ _ _ map_forward_reverse Hc) as Hc'.
  rewrite run_bind, (run_processRemote _ map_reverse map_forward _ (map_forward <$> kept))
    by (done || by right).
  by rewrite (fmap_inverse _ _ map_forward_reverse).
Qed.
End services.

(** C2: with reverse encryption on and the processor reachable, what the frame carries of a
    text, its first 511 bytes of UTF-8 up to the first NUL, is stored enciphered, and
    displaying what was stored gives exactly that back, however TCP cuts the two replies,
    when the cut splits no character and leaves something.  A well-formed text without NUL
    of at most 511 bytes comes back whole. *)
Theorem reverse_encryption_roundtrip `{Host} content kept context w :
  serves_processor → remote_ready →
  carries content kept → plain_text (ctx_conversationId context) →
  0 <= w_chat_next_id w < 0xFFFFFFFF →
  (∃ w' w'',
    encryptForStorage content context w
    = (Ok (mkStored (map_forward <$> kept) encrypted None), w')
    ∧ decryptForDisplay (map_forward <$> kept) encrypted context w'
      = (Ok (mkDisplay kept display_ready None), w'')) ∧
  (plain_text content → (length (utf8_encode content) <= 511)%nat → kept = content).
Proof.
  intros Hn Hr Hc Hconv Hid. split; [|by apply carries_whole].
  assert (isEnabled = true) as Hen by apply Hr.
  pose proof (run_encryptForStorage content kept context w) as He. unfold survives, stored_form in He.
  pose proof (run_decryptForDisplay content kept context (consulted w)) as Hd.
  unfold survives, stored_form, consulted in Hd. rewrite Hen in He, Hd.
  do 2 eexists. split; [apply He|unfold consulted; rewrite Hen; apply Hd];
    split_and!; try done; unfold word; cbn; lia.
Qed.

(** The promise of an exchange settles at most once: [resolve] or [reject] is called
    at most once, and no later socket event changes what it settled with. *)
Theorem exchange_settles_once errors evs more :
  (x_settlements (run_events errors (evs ++ more)) <= 1)%nat
  ∧ (is_Some (x_result (run_events errors evs)) →
     run_events errors (evs ++ more) = run_events errors evs).
Proof.
  split.
  - rewrite (ok_settlements _ (run_events_ok _ _)). case_match; lia.
  - intros Hs. unfold run_events at 1. rewrite foldl_app.
    apply foldl_settled; [apply run_events_ok|]. by apply (ok_result _ (run_events_ok _ _)).
Qed.

(** ... and it does settle: once the idle timeout, an error or the end of the connection has
    been reported, exactly one call has been made. *)
Lemma exchange_ends errors evs ev :
  ev ∈ evs → ev = Timeout ∨ ev = SocketError ∨ ev = Close →
  x_settlements (run_events errors evs) = 1%nat ∧ is_Some (x_result (run_events errors evs)).
Proof.
  intros Hin Hev. apply list_elem_of_split in Hin as (before & after & ->).
  assert (x_settled (run_events errors (before ++ ev :: after)) = true) as Hs.
  { unfold run_events. rewrite foldl_app. cbn [foldl]. fold (run_events errors before).
    pose proof (run_events_ok errors before) as Hx. set (x := run_events errors before) in *.
    pose proof (on_event_ok errors x ev Hx) as Hy.
    assert (x_settled (on_event errors x ev) = true) as Hy1; [|by rewrite foldl_settled].
    destruct (x_settled x) eqn:E; [by rewrite on_event_settled|].
    unfold on_event. rewrite (ok_listening x Hx), E. cbn [negb].
    assert ((received x <? CHAT_RESPONSE_SIZE)%nat = true) as Hlt
      by (apply Nat.ltb_lt; by apply ok_received).
    destruct Hev as [->|[->| ->]]; rewrite ?Hlt; unfold fail; by rewrite E. }
  pose proof (run_events_ok errors (before ++ ev :: after)) as Hx. split.
  - by rewrite (ok_settlements _ Hx), Hs.
  - by apply (ok_result _ Hx).
Qed.

(** Two exchanges that differ in how what they received is cut. *)
Record same_stream (x y : Exchange) : Prop := {
  ss_bytes : concat (x_chunks x) = concat (x_chunks y);
  ss_settled : x_settled x = x_settled y;
  ss_listening : x_listening x = x_listening y;
  ss_result : x_result x = x_result y;
  ss_settlements : x_settlements x = x_settlements y;
}.

Lemma same_stream_settle r x y : same_stream x y → same_stream (settle r x) (settle r y).
Proof. intros [Hb Hs Hl Hr Hn]. split; cbn; by rewrite ?Hr, ?Hn. Qed.
Lemma same_stream_fail e x y : same_stream x y → same_stream (fail e x) (fail e y).
Proof.
  intros Hxy. unfold fail. rewrite (ss_settled _ _ Hxy). case_match; [done|].
  by apply same_stream_settle.
Qed.

Lemma same_stream_event errors x y ev :
  same_stream x y → same_stream (on_event errors x ev) (on_event errors y ev).
Proof.
  intros Hxy. pose proof Hxy as [Hb Hs Hl Hr Hn]. unfold on_event, received. rewrite Hl.
  destruct (x_listening y); cbn [negb]; [|done].
  destruct ev as [|chunk| | |]; try done; try by apply same_stream_fail.
  - cbn [x_chunks x_settled]. rewrite !concat_app, Hb, Hs.
    assert (same_stream (mkExchange (x_chunks x ++ [chunk]) (x_settled y) true (x_result x)
                           (x_settlements x))
              (mkExchange (x_chunks y ++ [chunk]) (x_settled y) true (x_result y)
                 (x_settlements y))) as Hd
      by (split; [cbn [x_chunks]; by rewrite !concat_app, Hb|done..]).
    case_match; [done|]. by apply same_stream_settle.
  - rewrite Hb, Hs. case_match; [by apply same_stream_fail|done].
Qed.

Lemma same_stream_run errors evs x y :
  same_stream x y → same_stream (foldl (on_event errors) x evs) (foldl (on_event errors) y evs).
Proof.
  revert x y. induction evs as [|ev evs IH]; intros x y Hxy; [done|].
  by apply IH, same_stream_event.
Qed.

(** C37: how TCP cuts what the processor sends makes no difference to an exchange, whether
    the response becomes complete, the connection ends early or the timer fires; and once
    the 588 bytes of a response are there, nothing that follows makes one either. *)
Theorem exchange_segmentation errors chunks1 chunks2 rest1 rest2 :
  concat chunks1 = concat chunks2 →
  rest1 = rest2 ∨ (CHAT_RESPONSE_SIZE <= length (concat chunks1))%nat →
  x_result (run_events errors (Connect :: (Data <$> chunks1) ++ rest1))
  = x_result (run_events errors (Connect :: (Data <$> chunks2) ++ rest2)).
Proof.
  intros Hc Hl. destruct (decide (CHAT_RESPONSE_SIZE <= length (concat chunks1))%nat) as [Hfull|Hpart].
  - assert (Forall (λ ev, ev = Connect) [Connect]) by by constructor.
    trans (Some (inl (B:=Exn) (parseResponse (read_at 0 CHAT_RESPONSE_SIZE (concat chunks1))))).
    + by apply (run_events_data errors [Connect]).
    + rewrite Hc in *. symmetry. by apply (run_events_data errors [Connect]).
  - destruct Hl as [<-|]; [|done]. apply Nat.nle_gt in Hpart.
    unfold run_events. cbn [foldl].
    change (on_event errors exchange_start Connect) with exchange_start. rewrite !foldl_app. apply ss_result, same_stream_run.
    destruct (run_chunks errors chunks1 exchange_start exchange_start_ok) as (O1 & S1 & C1); [done..|].
    destruct (run_chunks errors chunks2 exchange_start exchange_start_ok) as (O2 & S2 & C2);
      [done|cbn; by rewrite <-Hc|].
    split.
    + by rewrite C1, C2.
    + by rewrite S1, S2.
    + by rewrite (ok_listening _ O1), (ok_listening _ O2), S1, S2.
    + by rewrite (ok_unsettled _ O1 S1), (ok_unsettled _ O2 S2).
    + by rewrite (ok_settlements _ O1), (ok_settlements _ O2), S1, S2.
Qed.

(** The request that the chat service writes is, for the C program that reads it, a
    chat-message request with the id, the mode and the three fields in place. *)
Theorem buildRequest_layout `{Host} mode content context w :
  word (w_chat_next_id w) → word mode →
  ∃ b, buildRequest mode content context w = (Ok b, upd_chat_next_id (λ n, n + 1) w)
       ∧ length b = CHAT_REQUEST_SIZE
       ∧ parse_request b
         = mkRequest (w_chat_next_id w) REQUEST_CHAT_MESSAGE mode
             (field_bytes 32 (ctx_senderId context)) (field_bytes 32 (ctx_conversationId context))
             (replicate 64 0) (field_bytes 512 content) (replicate 512 0).
Proof.
  intros Hid Hmode.
  destruct (request_header_spec (w_chat_next_id w) REQUEST_CHAT_MESSAGE mode)
    as (b & Eb & Hb & _); [done|by unfold word|done|].
  eexists. split; [by apply run_buildRequest|]. split.
  - unfold CHAT_REQUEST_SIZE in *. by rewrite !length_writeCString by fits.
  - by eapply parse_chat_frame.
Qed.

(** C40: once the message counter has passed 2^32 - 1, reverse encryption fails with a
    RangeError for every message: the counter never wraps. *)
Theorem message_id_overflow `{Host} content context w :
  remote_ready → 0xFFFFFFFF < w_chat_next_id w →
  (encryptForStorage content context w).1 = Throw (host_error RangeError)
  ∧ 0xFFFFFFFF < w_chat_next_id (encryptForStorage content context w).2.
Proof.
  intros [Henv Hen _] Hid. unfold encryptForStorage, isEnabled. rewrite Hen. simpl.
  destruct (valid_remote _ Henv) as (Hh & Hq & _); [auto|].
  unfold processRemote. rewrite !run_bind.
  destruct (PROCESSOR_REMOTE_HOST env) eqn:Eh; [done|]. simpl.
  rewrite !run_bind, positive_num_le by done.
  simpl. rewrite run_bind, run_buildRequest_overflow by done. simpl.
  split; [done|lia].
Qed.

(** A password counts only up to its first 63 bytes: two passwords with the same 63
    first bytes of UTF-8 produce the same request, hence the same hash. *)
Theorem password_truncated `{Host} email password1 password2 w :
  take 63 (utf8_encode password1) = take 63 (utf8_encode password2) →
  hashPasswordWithSha1 email password1 w = hashPasswordWithSha1 email password2 w.
Proof.
  intros Hp. unfold hashPasswordWithSha1. rewrite !run_bind.
  destruct (throw_if _ _ w) as [[[]| |] w1]; try done. rewrite !run_bind.
  assert (buildSha1Request email password1 = buildSha1Request email password2) as ->; [|done].
  unfold buildSha1Request, writeCString, CHAT_MAX_PASSWORD. simpl. by rewrite Hp.
Qed.

(** ** Witnesses *)

Lemma demo_serves_processor : @serves_processor (demo_host demo_env).
Proof.
  intros n host port timeout request reply _ Er. simpl. rewrite Er.
  exists [Connect], [take 100 reply; drop 100 reply], [Close].
  split_and!; [done|by constructor|]. simpl. by rewrite app_nil_r, take_drop.
Qed.

Lemma demo_remote_ready : @remote_ready (demo_host demo_env).
Proof. split; [apply demo_env_valid|done|done]. Qed.

Lemma plain_text_check s :
  well_formed s && bool_decide (0 ∉ s) && bool_decide (s ≠ []) = true → plain_text s.
Proof.
  intros [[Hw Hn]%andb_true_iff He]%andb_true_iff.
  apply bool_decide_eq_true in Hn, He. split; [by rewrite Hw|done|done].
Qed.

Definition demo_text : jsstring := js "Chào bạn, hẹn 9h30".
Definition demo_context : EncryptionContext := mkContext (js "alice") (js "room").

Lemma demo_text_plain : plain_text demo_text.
Proof. apply plain_text_check. by vm_compute. Qed.

(** A text of 513 bytes: three are cut off. *)
Definition demo_long : jsstring := concat (replicate 170 (js "ẩ")) ++ js "abc".
Definition demo_long_kept : jsstring := concat (replicate 170 (js "ẩ")) ++ js "a".

Lemma demo_long_carried : carries demo_long demo_long_kept.
Proof. split; [apply plain_text_check; by vm_compute|by vm_compute]. Qed.

Lemma reverse_encryption_roundtrip_witness :
  (∃ w' w'',
    @encryptForStorage (demo_host demo_env) demo_long demo_context empty_world
    = (Ok (mkStored (map_forward <$> demo_long_kept) encrypted None), w')
    ∧ @decryptForDisplay (demo_host demo_env) (map_forward <$> demo_long_kept) encrypted demo_context w'
      = (Ok (mkDisplay demo_long_kept display_ready None), w'')) ∧
  ∃ w' w'',
    @encryptForStorage (demo_host demo_env) demo_text demo_context empty_world
    = (Ok (mkStored (map_forward <$> demo_text) encrypted None), w')
    ∧ @decryptForDisplay (demo_host demo_env) (map_forward <$> demo_text) encrypted demo_context w'
      = (Ok (mkDisplay demo_text display_ready None), w'').
Proof.
  assert (∀ content kept, carries content kept → ∃ w' w'',
    @encryptForStorage (demo_host demo_env) content demo_context empty_world
    = (Ok (mkStored (map_forward <$> kept) encrypted None), w')
    ∧ @decryptForDisplay (demo_host demo_env) (map_forward <$> kept) encrypted demo_context w'
      = (Ok (mkDisplay kept display_ready None), w'')) as Hdemo.
  { intros content kept Hc.
    apply (@reverse_encryption_roundtrip (demo_host demo_env) content kept demo_context empty_world).
    - exact demo_serves_processor.
    - exact demo_remote_ready.
    - exact Hc.
    - apply plain_text_check. by vm_compute.
    - vm_compute. split; [discriminate|reflexivity]. }
  split; [exact (Hdemo _ _ demo_long_carried)|]. apply Hdemo, carries_self; [exact demo_text_plain|].
  vm_compute. lia.
Defined.

(** A connection that closes after 100 bytes, and a whole response. *)
Lemma exchange_segmentation_witness :
  x_result (run_events chat_exchange_errors (Connect :: (Data <$> [alloc 100]) ++ [Close]))
  = x_result (run_events chat_exchange_errors
                (Connect :: (Data <$> [alloc 50; []; alloc 50]) ++ [Close])) ∧
  x_result (run_events chat_exchange_errors (Connect :: (Data <$> [alloc 588]) ++ []))
  = x_result (run_events chat_exchange_errors
                (Connect :: (Data <$> [alloc 500; alloc 88]) ++ [Close; Timeout])).
Proof.
  split; apply exchange_segmentation; [by vm_compute|by left|by vm_compute|right; vm_compute; lia].
Defined.

Lemma buildRequest_layout_witness :
  ∃ b, @buildRequest (demo_host demo_env) PROCESS_SUBSTITUTION demo_text demo_context empty_world
       = (Ok b, upd_chat_next_id (λ n, n + 1) empty_world)
       ∧ length b = CHAT_REQUEST_SIZE
       ∧ parse_request b
         = mkRequest 1 REQUEST_CHAT_MESSAGE PROCESS_SUBSTITUTION
             (field_bytes 32 (js "alice")) (field_bytes 32 (js "room"))
             (replicate 64 0) (field_bytes 512 demo_text) (replicate 512 0).
Proof.
  apply (@buildRequest_layout (demo_host demo_env) PROCESS_SUBSTITUTION demo_text demo_context
           empty_world); unfold word; vm_compute; by split.
Defined.

Lemma message_id_overflow_witness :
  (@encryptForStorage (demo_host demo_env) demo_text demo_context
     (upd_chat_next_id (λ _, 0x100000000) empty_world)).1
  = Throw (@host_error (demo_host demo_env) RangeError)
  ∧ 0xFFFFFFFF < w_chat_next_id
      (@encryptForStorage (demo_host demo_env) demo_text demo_context
         (upd_chat_next_id (λ _, 0x100000000) empty_world)).2.
Proof.
  apply (@message_id_overflow (demo_host demo_env)); [exact demo_remote_ready|by vm_compute].
Defined.

Lemma password_truncated_witness :
  @hashPasswordWithSha1 (demo_host demo_env) (js "a@b") (replicate 63 97) empty_world
  = @hashPasswordWithSha1 (demo_host demo_env) (js "a@b") (replicate 64 97) empty_world.
Proof. apply (@password_truncated (demo_host demo_env)). by vm_compute. Defined.
