(* ===== verification/Processor.v ===== *)
(** * The processor's threads and the driver they share

    [app/processor/processor_server.c] serves every connection in a thread of its own; each
    thread opens the character device for every request ([app/client/device_client.c]),
    writes the request and reads the response, and the driver
    ([driver/module/chat_driver_main.c]) keeps one request and one response for all of them.
    A system is the driver's state with the state of every thread; a step is one system call
    or one statement of the driver, by one thread, so that a schedule is a list of steps.

    What the system calls return is part of the step.  [copy_to_user] is one step, and so is
    each assignment to the shared response, the memory model being sequential; a call that
    fails copies nothing.  A thread always writes a whole request, so that the check of the
    length in [chat_write] passes.  A statement that looks for the end of a string beyond the
    request has no defined effect, and no step: a schedule ends there. *)

From S2P Require Import Prelude JsText Wire Driver.
Open Scope Z_scope.

(** ** The driver *)

Definition zero_request : chat_request :=
  mkRequest 0 0 0 (alloc 32) (alloc 32) (alloc 64) (alloc 512) (alloc 512).
Definition zero_response : chat_response := mkResponse 0 0 0 (alloc 32) (alloc 32) (alloc 512).

(** The static variables: who holds [chat_lock], [last_request] and [last_response]. *)
Record DriverState := mkDriver {
  chat_lock : option nat;
  last_request : chat_request;
  last_response : chat_response;
}.
Definition driver_loaded : DriverState := mkDriver None zero_request zero_response.

Inductive Errno := EINVAL | EFAULT.

(** [chat_read]: it takes no lock.  [copied] is the outcome of [copy_to_user]. *)
Definition chat_read (len offset : nat) (copied : bool) (d : DriverState) : Errno + buffer :=
  if (len <? CHAT_RESPONSE_SIZE)%nat then inl EINVAL
  else if negb (offset =? 0)%nat then inr []
  else if negb copied then inl EFAULT
  else inr (response_bytes (last_response d)).

(** The assignments to [last_response]. *)
Definition set_message_id (v : Z) (r : chat_response) : chat_response :=
  mkResponse v (rs_response_type r) (rs_status r) (rs_from_username r) (rs_peer_username r)
    (rs_payload r).
Definition set_response_type (v : Z) (r : chat_response) : chat_response :=
  mkResponse (rs_message_id r) v (rs_status r) (rs_from_username r) (rs_peer_username r)
    (rs_payload r).
Definition set_status (v : Z) (r : chat_response) : chat_response :=
  mkResponse (rs_message_id r) (rs_response_type r) v (rs_from_username r) (rs_peer_username r)
    (rs_payload r).
Definition set_from_username (v : buffer) (r : chat_response) : chat_response :=
  mkResponse (rs_message_id r) (rs_response_type r) (rs_status r) v (rs_peer_username r)
    (rs_payload r).
Definition set_peer_username (v : buffer) (r : chat_response) : chat_response :=
  mkResponse (rs_message_id r) (rs_response_type r) (rs_status r) (rs_from_username r) v
    (rs_payload r).
Definition set_payload (v : buffer) (r : chat_response) : chat_response :=
  mkResponse (rs_message_id r) (rs_response_type r) (rs_status r) (rs_from_username r)
    (rs_peer_username r) v.

(** A statement on the response; [None] where C gives it no meaning. *)
Definition Statement := chat_response → option chat_response.

Definition assign (f : chat_response → chat_response) : Statement := λ r, Some (f r).
(** The assignment of what a function writes to one of the arrays. *)
Definition write_array (f : buffer → chat_response → chat_response) (written : option buffer)
    : Statement := λ r, v ← written; Some (f v r).

(** The branches on the mode. *)
Definition process_mode (r : chat_request) : list Statement :=
  if rq_mode r =? PROCESS_SHA1 then
    [write_array set_payload (kernel_sha1_transform
       (if nonempty (rq_auth_payload r) then from_auth_payload r else from_payload r)
       CHAT_MAX_RESULT)]
  else if rq_mode r =? PROCESS_SUBSTITUTION then
    [assign (set_payload (substitution_transform (rq_payload r) CHAT_MAX_RESULT))]
  else if rq_mode r =? PROCESS_SUBSTITUTION_DECRYPT then
    [assign (set_payload (substitution_reverse_transform (rq_payload r) CHAT_MAX_RESULT))]
  else
    [assign (set_status STATUS_INVALID_REQUEST);
     assign (set_payload (c_field CHAT_MAX_RESULT (js "unsupported-mode")))].

(** [chat_write] after [copy_from_user]: the statements, in order, up to [mutex_unlock]. *)
Definition write_statements (r : chat_request) : list Statement :=
  [assign (set_message_id (rq_message_id r)); assign (set_response_type RESPONSE_ACK);
   assign (set_status STATUS_OK);
   write_array set_from_username (snprintf CHAT_MAX_USERNAME (from_username r));
   write_array set_peer_username (snprintf CHAT_MAX_USERNAME (from_peer_username r))]
  ++ process_mode r.

Fixpoint run_statements (l : list Statement) (r : chat_response) : option chat_response :=
  match l with
  | [] => Some r
  | s :: l => r ← s r; run_statements l r
  end.

(** ** Threads *)

(** Where [processor_client_main] is: in [read_full] with the bytes read so far; with a valid
    request before [open], before [write], inside [chat_write] (before the [memset]s, then
    with the statements left), before [read]; in [write_full] with the bytes left to write;
    or ended. *)
Inductive ThreadState :=
  | Receiving (got : buffer)
  | Opening (r : chat_request)
  | Entering (r : chat_request)
  | Clearing (r : chat_request)
  | Filling (r : chat_request) (rest : list Statement)
  | ReadingBack (r : chat_request)
  | Replying (unsent : buffer)
  | Ended.

(** A thread, with the bytes that its connection has brought and taken. *)
Record Thread := mkThread {
  th_state : ThreadState;
  th_received : buffer;
  th_sent : buffer;
}.
Definition accepted : Thread := mkThread (Receiving []) [] [].

Record Processor := mkProcessor {
  pr_driver : DriverState;
  pr_threads : gmap nat Thread;
}.

(** What a thread does next, with what the system call returns. *)
Inductive Action :=
  | Receive (chunk : buffer)
  | HangUp
  | Open (opened : bool)
  | Lock
  | Copy (copied : bool)
  | Execute
  | ReadBack (copied : bool)
  | Send (count : nat)
  | SendFails.

(** [device_process_message] failed. *)
Definition device_failed (r : chat_request) : ThreadState :=
  Replying (response_bytes
    (error_response (rq_message_id r) STATUS_DRIVER_ERROR (js "device-processing-failed"))).

(** The reply that [read] gave. *)
Definition read_back (copied : bool) (d : DriverState) (r : chat_request) : ThreadState :=
  match chat_read CHAT_RESPONSE_SIZE 0 copied d with
  | inr reply =>
      if (length reply =? CHAT_RESPONSE_SIZE)%nat then Replying reply else device_failed r
  | inl _ => device_failed r
  end.

(** The body of the loop, once [read_full] has filled the request. *)
Definition process_request (b : buffer) : ThreadState :=
  let r := parse_request b in
  match processor_validate_request r with
  | Some response => Replying (response_bytes response)
  | None => Opening r
  end.

Definition go (st : ThreadState) (th : Thread) : Thread :=
  mkThread st (th_received th) (th_sent th).

(** One iteration of [read_full]: [read] gives at most the bytes that are missing. *)
Definition receive (got chunk : buffer) (th : Thread) : option Thread :=
  let got' := got ++ chunk in
  if negb (truthy chunk) || (CHAT_REQUEST_SIZE <? length got')%nat then None
  else Some (mkThread
    (if (length got' =? CHAT_REQUEST_SIZE)%nat then process_request got' else Receiving got')
    (th_received th ++ chunk) (th_sent th)).

(** One iteration of [write_full]; after the last the thread reads the next request. *)
Definition send (unsent : buffer) (count : nat) (th : Thread) : option Thread :=
  if (count =? 0)%nat || (length unsent <? count)%nat then None
  else Some (mkThread
    (if (count =? length unsent)%nat then Receiving [] else Replying (drop count unsent))
    (th_received th) (th_sent th ++ take count unsent)).

(** A step of thread [t]: [None] when the thread cannot do that now. *)
Definition thread_step (t : nat) (a : Action) (d : DriverState) (th : Thread)
    : option (DriverState * Thread) :=
  match th_state th, a with
  | Receiving got, Receive chunk => th' ← receive got chunk th; Some (d, th')
  | Receiving _, HangUp => Some (d, go Ended th)
  | Opening r, Open opened => Some (d, go (if opened then Entering r else device_failed r) th)
  | Entering r, Lock =>
      match chat_lock d with
      | None => Some (mkDriver (Some t) (last_request d) (last_response d), go (Clearing r) th)
      | Some _ => None
      end
  | Clearing r, Copy true =>
      Some (mkDriver (chat_lock d) r zero_response, go (Filling r (write_statements r)) th)
  | Clearing r, Copy false =>
      Some (mkDriver None zero_request zero_response, go (device_failed r) th)
  | Filling r (s :: rest), Execute =>
      response ← s (last_response d);
      Some (mkDriver (chat_lock d) (last_request d) response, go (Filling r rest) th)
  | Filling r [], Execute =>
      Some (mkDriver None (last_request d) (last_response d), go (ReadingBack r) th)
  | ReadingBack r, ReadBack copied => Some (d, go (read_back copied d r) th)
  | Replying unsent, Send count => th' ← send unsent count th; Some (d, th')
  | Replying _, SendFails => Some (d, go Ended th)
  | _, _ => None
  end.

Definition processor_step (s : Processor) (t : nat) (a : Action) : option Processor :=
  th ← pr_threads s !! t;
  '(d, th') ← thread_step t a (pr_driver s) th;
  Some (mkProcessor d (<[t := th']> (pr_threads s))).

Fixpoint run_schedule (schedule : list (nat * Action)) (s : Processor) : option Processor :=
  match schedule with
  | [] => Some s
  | (t, a) :: schedule => s' ← processor_step s t a; run_schedule schedule s'
  end.

(** The listening thread has accepted the connections [ts]. *)
Definition listening (ts : list nat) : Processor :=
  mkProcessor driver_loaded (list_to_map ((λ t, (t, accepted)) <$> ts)).

(** ** The statements of [chat_write] compute [Driver.chat_write] *)

Lemma write_statements_run r : run_statements (write_statements r) zero_response = chat_write r.
Proof.
  unfold write_statements, process_mode, chat_write, assign, write_array, CHAT_MAX_USERNAME.
  cbn [app run_statements]. change CHAT_MAX_RESULT with 512%nat.
  destruct (snprintf 32 (from_username r)) as [username|]; [|done].
  destruct (snprintf 32 (from_peer_username r)) as [peer|]; [|done].
  cbn. repeat case_match; try done; by destruct (c_string _).
Qed.

(** ** Steps *)

Definition in_lock (st : ThreadState) : bool :=
  match st with Clearing _ | Filling _ _ => true | _ => false end.
Definition in_device (st : ThreadState) : bool :=
  match st with Clearing _ | Filling _ _ | ReadingBack _ => true | _ => false end.

Lemma in_lock_device st : in_lock st = true → in_device st = true.
Proof. by destruct st. Qed.

Lemma thread_step_inv t a d th d' th' :
  thread_step t a d th = Some (d', th') →
  match th_state th, a with
  | Receiving got, Receive chunk => d' = d ∧ receive got chunk th = Some th'
  | Receiving _, HangUp => d' = d ∧ th' = go Ended th
  | Opening r, Open opened =>
      d' = d ∧ th' = go (if opened then Entering r else device_failed r) th
  | Entering r, Lock =>
      chat_lock d = None ∧ d' = mkDriver (Some t) (last_request d) (last_response d)
      ∧ th' = go (Clearing r) th
  | Clearing r, Copy true =>
      d' = mkDriver (chat_lock d) r zero_response ∧ th' = go (Filling r (write_statements r)) th
  | Clearing r, Copy false =>
      d' = mkDriver None zero_request zero_response ∧ th' = go (device_failed r) th
  | Filling r (s :: rest), Execute =>
      ∃ response, s (last_response d) = Some response ∧
        d' = mkDriver (chat_lock d) (last_request d) response ∧ th' = go (Filling r rest) th
  | Filling r [], Execute =>
      d' = mkDriver None (last_request d) (last_response d) ∧ th' = go (ReadingBack r) th
  | ReadingBack r, ReadBack copied => d' = d ∧ th' = go (read_back copied d r) th
  | Replying unsent, Send count => d' = d ∧ send unsent count th = Some th'
  | Replying _, SendFails => d' = d ∧ th' = go Ended th
  | _, _ => False
  end.
Proof.
  unfold thread_step. intros E.
  destruct (th_state th) as [got|r|r|r|r [|s rest]|r|unsent|], a as [chunk| |opened| |[]| |copied|count|];
    try done; try by injection E as <- <-.
  - destruct (receive got chunk th); [|done]. by injection E as <- <-.
  - destruct (chat_lock d); [done|]. by injection E as <- <-.
  - destruct (s (last_response d)) as [response|]; [|done]. injection E as <- <-. by exists response.
  - destruct (send unsent count th); [|done]. by injection E as <- <-.
Qed.

Lemma processor_step_inv s t a s' :
  processor_step s t a = Some s' →
  ∃ th d th', pr_threads s !! t = Some th ∧ thread_step t a (pr_driver s) th = Some (d, th') ∧
    s' = mkProcessor d (<[t := th']> (pr_threads s)).
Proof.
  unfold processor_step. intros E. destruct (pr_threads s !! t) as [th|]; [|done]. cbn in E.
  destruct (thread_step t a (pr_driver s) th) as [[d th']|] eqn:Es; [|done].
  injection E as <-. by exists th, d, th'.
Qed.

(** The states that steps allowed by [P] lead to. *)
Inductive reached (P : Processor → nat → Action → Prop) (s0 : Processor) : Processor → Prop :=
  | reached_start : reached P s0 s0
  | reached_step s t a s' :
      reached P s0 s → P s t a → processor_step s t a = Some s' → reached P s0 s'.

Lemma reached_invariant P (I : Processor → Prop) s0 s :
  I s0 → (∀ s t a s', I s → P s t a → processor_step s t a = Some s' → I s') →
  reached P s0 s → I s.
Proof. intros H0 Hs. induction 1; eauto. Qed.

Lemma listening_lookup ts t th : pr_threads (listening ts) !! t = Some th → th = accepted.
Proof.
  cbn. intros E. apply elem_of_list_to_map_2, list_elem_of_fmap in E as (u & E & _). congruence.
Qed.

(** Reading a request and writing a reply stay outside the device. *)
Lemma receive_inv got chunk th th' :
  receive got chunk th = Some th' →
  chunk ≠ [] ∧ (length (got ++ chunk) <= CHAT_REQUEST_SIZE)%nat ∧
  th' = mkThread (if (length (got ++ chunk) =? CHAT_REQUEST_SIZE)%nat
                  then process_request (got ++ chunk) else Receiving (got ++ chunk))
          (th_received th ++ chunk) (th_sent th).
Proof.
  unfold receive. intros E. destruct (negb (truthy chunk) || _) eqn:Eb; [done|].
  apply orb_false_elim in Eb as [Ec Hl%Nat.ltb_ge]. injection E as <-.
  split_and!; [by destruct chunk|done|done].
Qed.

Lemma send_inv unsent count th th' :
  send unsent count th = Some th' →
  (0 < count <= length unsent)%nat ∧
  th' = mkThread (if (count =? length unsent)%nat then Receiving [] else Replying (drop count unsent))
          (th_received th) (th_sent th ++ take count unsent).
Proof.
  unfold send. intros E. destruct ((count =? 0)%nat || _) eqn:Eb; [done|].
  apply orb_false_elim in Eb as [Hc%Nat.eqb_neq Hl%Nat.ltb_ge]. injection E as <-.
  split; [lia|done].
Qed.

Lemma process_request_outside b : in_device (process_request b) = false.
Proof. unfold process_request. by destruct (processor_validate_request _). Qed.

Lemma receive_outside got chunk th th' :
  receive got chunk th = Some th' → in_device (th_state th') = false.
Proof.
  intros (_ & _ & ->)%receive_inv. cbn [th_state].
  destruct (_ =? _)%nat; [apply process_request_outside|done].
Qed.
Lemma send_outside unsent count th th' :
  send unsent count th = Some th' → in_device (th_state th') = false.
Proof. intros (_ & ->)%send_inv. cbn [th_state]. by destruct (_ =? _)%nat. Qed.

Lemma read_back_outside copied d r : in_device (read_back copied d r) = false.
Proof. unfold read_back. destruct (chat_read _ _ _ _); [done|]. by destruct (_ =? _)%nat. Qed.
Lemma outside_lock st : in_device st = false → in_lock st = false.
Proof. by destruct st. Qed.

(** ** The lock

    Under any schedule, [chat_lock] is held by exactly the thread that is inside
    [chat_write], which finds the response as its own statements left it. *)

Definition mid_write (d : DriverState) (th : Thread) : Prop :=
  match th_state th with
  | Filling r rest => last_request d = r ∧ run_statements rest (last_response d) = chat_write r
  | _ => True
  end.

Lemma outside_mid d th : in_device (th_state th) = false → mid_write d th.
Proof. unfold mid_write. by destruct (th_state th). Qed.

Record locked_ok (s : Processor) : Prop := {
  lo_holder t : chat_lock (pr_driver s) = Some t ↔
    ∃ th, pr_threads s !! t = Some th ∧ in_lock (th_state th) = true;
  lo_mid t th : pr_threads s !! t = Some th → mid_write (pr_driver s) th;
}.

Lemma locked_alone s t u th th' :
  locked_ok s → pr_threads s !! t = Some th → pr_threads s !! u = Some th' →
  in_lock (th_state th) = true → in_lock (th_state th') = true → t = u.
Proof.
  intros [Hl _] Ht Hu Lt Lu.
  assert (chat_lock (pr_driver s) = Some t) as E1 by (apply Hl; eauto).
  assert (chat_lock (pr_driver s) = Some u) as E2 by (apply Hl; eauto). congruence.
Qed.

(** Only a thread inside [chat_write] changes the request and the response. *)
Lemma thread_step_frame t a d th d' th' :
  thread_step t a d th = Some (d', th') → in_lock (th_state th) = false →
  last_request d' = last_request d ∧ last_response d' = last_response d.
Proof.
  intros E%thread_step_inv Hl.
  destruct (th_state th), a; try done; try by destruct E as [-> _]. by destruct E as (_ & -> & _).
Qed.

(** What a step does to the lock: it is taken, kept or given back by its holder. *)
Lemma thread_step_lock t a d th d' th' :
  thread_step t a d th = Some (d', th') →
  (in_lock (th_state th) = true → chat_lock d = Some t) →
  chat_lock d' = (if in_lock (th_state th') then Some t
                  else if in_lock (th_state th) then None else chat_lock d)
  ∧ (in_lock (th_state th') = true → in_lock (th_state th) = false → chat_lock d = None).
Proof.
  intros E%thread_step_inv Hl.
  destruct (th_state th) as [got|r|r|r|r [|s rest]|r|unsent|] eqn:Est, a as [chunk| |opened| |[]| |copied|count|];
    try done; try (destruct E as [-> ->]); cbn in *;
    try (by rewrite ?Hl); try by split.
  - destruct E as [-> E]. by rewrite (outside_lock _ (receive_outside _ _ _ _ E)).
  - by destruct opened.
  - by destruct E as (Hn & -> & ->).
  - destruct E as (response & _ & -> & ->). cbn. by rewrite ?Hl.
  - by rewrite (outside_lock _ (read_back_outside _ _ _)).
  - destruct E as [-> E]. by rewrite (outside_lock _ (send_outside _ _ _ _ E)).
Qed.

Lemma locked_step s t a s' : locked_ok s → processor_step s t a = Some s' → locked_ok s'.
Proof.
  intros Hok (th & d & th' & Ht & E & ->)%processor_step_inv. pose proof Hok as [Hl Hm].
  destruct (thread_step_lock t a _ th d th' E) as [Hlock Hnone]; [intros ?; apply Hl; eauto|].
  split; cbn.
  - intros u. rewrite Hlock. setoid_rewrite lookup_insert_Some.
    destruct (in_lock (th_state th')) eqn:L'; [|destruct (in_lock (th_state th)) eqn:L].
    + split; [intros [= <-]; eauto|]. intros (x & [[-> _]|[Hne Hx]] & Lx); [done|]. exfalso.
      destruct (in_lock (th_state th)) eqn:L; [by apply Hne, (locked_alone s t u th x)|].
      assert (chat_lock (pr_driver s) = Some u) as Eu by (apply Hl; eauto).
      rewrite Hnone in Eu; done.
    + split; [done|]. intros (x & [[_ <-]|[Hne Hx]] & Lx); [congruence|].
      by destruct Hne; apply (locked_alone s t u th x).
    + rewrite Hl. split; intros (x & Hx & Lx).
      * exists x. split; [|done]. right. split; [|done]. intros ->. congruence.
      * destruct Hx as [[_ <-]|[_ Hx]]; [congruence|eauto].
  - intros u x [[<- <-]|[Hne Hx]]%lookup_insert_Some.
    + specialize (Hm t th Ht). pose proof E as E'%thread_step_inv. unfold mid_write in *.
      destruct (th_state th) as [got|r|r|r|r [|st rest]|r|unsent|], a as [chunk| |opened| |[]| |copied|count|];
        try done; try (destruct E' as [-> ->]); cbn; try done.
      * destruct E' as [_ E']. by apply outside_mid, (receive_outside got chunk th).
      * by destruct opened.
      * by destruct E' as (_ & -> & ->).
      * split; [done|apply write_statements_run].
      * destruct E' as (response & Er & -> & ->), Hm as [Hm Hrun]. cbn in Hrun |- *.
        rewrite Er in Hrun. by split.
      * apply (outside_mid (pr_driver s) (go (read_back copied (pr_driver s) r) th)), read_back_outside.
      * destruct E' as [_ E']. by apply outside_mid, (send_outside unsent count th).
    + specialize (Hm u x Hx). unfold mid_write in *. destruct (th_state x) eqn:Ex; try done.
      destruct (in_lock (th_state th)) eqn:L.
      * destruct Hne. apply (locked_alone s t u th x); [done..|]. by rewrite Ex.
      * by destruct (thread_step_frame t a _ th d th' E L) as [-> ->].
Qed.

Lemma locked_listening ts : locked_ok (listening ts).
Proof.
  split.
  - intros t. split; [done|]. intros (th & ->%listening_lookup & L). done.
  - intros t th ->%listening_lookup. done.
Qed.

(** ** One exchange with the device at a time

    [device_process_message] writes and reads in two system calls, and the lock is free
    between them.  Where nothing else enters the device in between, what a thread reads back
    is the response to what it wrote. *)

Definition exclusive (s : Processor) (t : nat) (a : Action) : Prop :=
  a = Lock → ∀ u th, u ≠ t → pr_threads s !! u = Some th → in_device (th_state th) = false.

Record alone_ok (s : Processor) : Prop := {
  ao_locked : locked_ok s;
  ao_alone t u th th' : pr_threads s !! t = Some th → pr_threads s !! u = Some th' →
    in_device (th_state th) = true → in_device (th_state th') = true → t = u;
  ao_written t th r : pr_threads s !! t = Some th → th_state th = ReadingBack r →
    chat_write r = Some (last_response (pr_driver s));
}.

(** A thread enters the device by taking the lock. *)
Lemma thread_step_enters t a d th d' th' :
  thread_step t a d th = Some (d', th') →
  in_device (th_state th) = false → in_device (th_state th') = true → a = Lock.
Proof.
  intros E%thread_step_inv Hd Hd'. destruct (th_state th), a; try done.
  - destruct E as [_ E]. by rewrite (receive_outside _ _ _ _ E) in Hd'.
  - by destruct E as [_ ->].
  - destruct E as [_ ->]. by destruct opened.
  - destruct E as [_ E]. by rewrite (send_outside _ _ _ _ E) in Hd'.
  - by destruct E as [_ ->].
Qed.

(** What the thread that leaves [chat_write] leaves behind. *)
Lemma thread_step_written t a d th d' th' r :
  thread_step t a d th = Some (d', th') → mid_write d th → th_state th' = ReadingBack r →
  chat_write r = Some (last_response d').
Proof.
  intros E%thread_step_inv Hm Hr. unfold mid_write in Hm.
  destruct (th_state th) as [got|r0|r0|r0|r0 [|s rest]|r0|unsent|], a as [chunk| |opened| |[]| |copied|count|];
    try done; try (destruct E as [-> ->]; cbn in Hr; try done).
  - destruct E as [_ E%receive_outside]. by rewrite Hr in E.
  - by destruct opened.
  - by destruct E as (_ & _ & ->).
  - injection Hr as <-. symmetry. apply Hm.
  - by destruct E as (response & _ & -> & ->).
  - pose proof (read_back_outside copied d r0) as E. by rewrite Hr in E.
  - destruct E as [_ E%send_outside]. by rewrite Hr in E.
Qed.

Lemma alone_step s t a s' :
  alone_ok s → exclusive s t a → processor_step s t a = Some s' → alone_ok s'.
Proof.
  intros [Hlk Ha Hw] Hx Hs. pose proof Hs as (th & d & th' & Ht & E & ->)%processor_step_inv.
  assert (∀ u x, u ≠ t → pr_threads s !! u = Some x → in_device (th_state x) = true →
    in_device (th_state th') = false) as Hout.
  { intros u x Hne Hu Hd. destruct (in_device (th_state th')) eqn:D'; [|done].
    destruct (in_device (th_state th)) eqn:D; [by destruct Hne; apply (Ha u t x th)|].
    rewrite (Hx (thread_step_enters _ _ _ _ _ _ E D D') u x) in Hd; done. }
  split; [by eapply locked_step|..]; cbn.
  - intros u v x y [[<- <-]|[Hu Hxu]]%lookup_insert_Some [[<- <-]|[Hv Hyv]]%lookup_insert_Some Dx Dy;
      [done| | |by apply (Ha u v x y)].
    + by rewrite (Hout v y) in Dx.
    + by rewrite (Hout u x) in Dy.
  - intros u x r [[<- <-]|[Hu Hxu]]%lookup_insert_Some Hr.
    + eapply thread_step_written; [done|by apply (lo_mid _ Hlk t)|done].
    + destruct (in_lock (th_state th)) eqn:L.
      * destruct Hu. apply (Ha t u th x); [done..|by apply in_lock_device|by rewrite Hr].
      * destruct (thread_step_frame t a _ th d th' E L) as [_ ->]. by apply (Hw u x).
Qed.

Lemma alone_listening ts : alone_ok (listening ts).
Proof.
  split; [apply locked_listening|..].
  - by intros t u th th' ->%listening_lookup.
  - by intros t th r ->%listening_lookup.
Qed.
