(* ===== verification/ProcessorFacts.v ===== *)
(** * What the processor's threads answer

    Where the exchanges with the device do not overlap, the threads of [Processor] refine
    the function [Driver.processor_reply], which the backend's clients rely on
    ([Encryption.serves_processor]); where two overlap, a thread answers with the response
    to the other's request, and the backend shows the text of another message. *)

From S2P Require Import Prelude JsText Wire Driver Env Store Model Instance Encryption Processor.
Open Scope Z_scope.

(** ** One reply *)

Lemma length_substitution f input :
  length ((f <$> take 511 (cstr input)) ++ replicate (512 - length (f <$> take 511 (cstr input))) 0)
  = 512%nat.
Proof. rewrite length_app, length_replicate, length_fmap, length_take. lia. Qed.

Lemma length_response r :
  length (rs_from_username r) = 32%nat → length (rs_peer_username r) = 32%nat →
  length (rs_payload r) = 512%nat → length (response_bytes r) = CHAT_RESPONSE_SIZE.
Proof. intros H1 H2 H3. unfold response_bytes. rewrite !length_app, H1, H2, H3. done. Qed.

Lemma length_kernel_sha1 input v : kernel_sha1_transform input 512 = Some v → length v = 512%nat.
Proof. unfold kernel_sha1_transform. destruct (c_string input); [|done]. intros [= <-]. apply length_sha1_output. Qed.
Lemma length_snprintf n mem v : (0 < n)%nat → snprintf n mem = Some v → length v = n.
Proof. unfold snprintf. destruct (c_string mem); [|done]. intros Hn [= <-]. by apply length_c_field. Qed.

Lemma length_chat_write r response :
  chat_write r = Some response → length (response_bytes response) = CHAT_RESPONSE_SIZE.
Proof.
  unfold chat_write. destruct (snprintf 32 (from_username r)) as [from|] eqn:Ef; [|done].
  destruct (snprintf 32 (from_peer_username r)) as [peer|] eqn:Ep; [|done]. cbn [mbind option_bind].
  apply length_snprintf in Ef, Ep; [|lia..].
  assert (∀ id st p, length p = 512%nat →
    length (response_bytes (mkResponse id RESPONSE_ACK st from peer p)) = CHAT_RESPONSE_SIZE) as Hl
    by (intros; by apply length_response).
  destruct (rq_mode r =? PROCESS_SHA1).
  { destruct (kernel_sha1_transform _ 512) as [p|] eqn:E; [|done]. intros [= <-].
    apply Hl. by eapply length_kernel_sha1. }
  repeat case_match; intros [= <-]; apply Hl;
    try apply length_substitution. apply length_c_field. lia.
Qed.

Lemma length_error_response id status text :
  length (response_bytes (error_response id status text)) = CHAT_RESPONSE_SIZE.
Proof. apply length_response; [done..|]. apply length_c_field. lia. Qed.

Lemma processor_reply_invalid ok b response :
  processor_validate_request (parse_request b) = Some response →
  processor_reply ok b = Some (response_bytes response).
Proof. unfold processor_reply. by intros ->. Qed.
Lemma processor_reply_valid ok b :
  processor_validate_request (parse_request b) = None →
  processor_reply ok b = response_bytes <$> (if ok then chat_write (parse_request b)
    else Some (error_response (rq_message_id (parse_request b)) STATUS_DRIVER_ERROR
           (js "device-processing-failed"))).
Proof. unfold processor_reply. by intros ->. Qed.

Lemma read_back_any d r r' :
  chat_write r' = Some (last_response d) →
  read_back true d r = Replying (response_bytes (last_response d)).
Proof.
  intros Hd. unfold read_back, chat_read. rewrite Nat.ltb_irrefl. cbn [Nat.eqb negb].
  by rewrite (length_chat_write r' _ Hd), Nat.eqb_refl.
Qed.
Lemma read_back_reply copied d r b :
  chat_write r = Some (last_response d) → parse_request b = r → processor_validate_request r = None →
  ∃ reply, processor_reply copied b = Some reply ∧ read_back copied d r = Replying reply.
Proof.
  intros Hd <- Hv. rewrite processor_reply_valid by done. destruct copied.
  - rewrite Hd. eexists. split; [done|]. by eapply read_back_any.
  - eexists. split; [done|]. unfold read_back, chat_read. by rewrite Nat.ltb_irrefl.
Qed.

(** ** A connection *)

(** The steps where no system call of the device fails. *)
Definition faultless (a : Action) : bool :=
  match a with Open b | Copy b | ReadBack b => b | _ => true end.

(** The request that a thread is dealing with. *)
Definition in_flight (st : ThreadState) : option chat_request :=
  match st with
  | Opening r | Entering r | Clearing r | Filling r _ | ReadingBack r => Some r
  | _ => None
  end.

(** A whole request and its reply, without [faults] that of a device that works. *)
Definition answered (faults : bool) (b reply : buffer) : Prop :=
  length b = CHAT_REQUEST_SIZE ∧
  ∃ ok, (faults = false → ok = true) ∧ processor_reply ok b = Some reply.

(** What a connection has brought are whole requests and the rest, and what it takes are the
    replies to the requests, in order. *)
Definition conversation_ok (faults : bool) (th : Thread) : Prop :=
  ∃ requests replies, Forall2 (answered faults) requests replies ∧
    match th_state th with
    | Receiving got =>
        th_received th = concat requests ++ got ∧ (length got < CHAT_REQUEST_SIZE)%nat ∧
        th_sent th = concat replies
    | Replying unsent =>
        th_received th = concat requests ∧ th_sent th ++ unsent = concat replies
    | Ended =>
        ∃ rest, th_received th = concat requests ++ rest ∧ th_sent th `prefix_of` concat replies
    | st =>
        ∃ b, in_flight st = Some (parse_request b) ∧ length b = CHAT_REQUEST_SIZE ∧
          processor_validate_request (parse_request b) = None ∧
          th_received th = concat requests ++ b ∧ th_sent th = concat replies
    end.

(** A request whose reply is known. *)
Lemma conversation_reply faults th requests replies b ok reply :
  Forall2 (answered faults) requests replies → length b = CHAT_REQUEST_SIZE →
  (faults = false → ok = true) → processor_reply ok b = Some reply →
  th_received th = concat requests ++ b → th_sent th = concat replies →
  conversation_ok faults (go (Replying reply) th).
Proof.
  intros Hs Hb Hok Hreply Hr Hsent. exists (requests ++ [b]), (replies ++ [reply]). split.
  - apply Forall2_app; [done|]. constructor; [|constructor]. split; [done|]. by exists ok.
  - cbn. by rewrite !concat_app, Hr, Hsent; cbn; rewrite !app_nil_r.
Qed.

Lemma conversation_receive faults got chunk th th' :
  conversation_ok faults th → th_state th = Receiving got → receive got chunk th = Some th' →
  conversation_ok faults th'.
Proof.
  intros (requests & replies & Hs & Hth) Est (_ & Hl & ->)%receive_inv. rewrite Est in Hth.
  destruct Hth as (Hr & _ & Hsent).
  destruct (Nat.eqb_spec (length (got ++ chunk)) CHAT_REQUEST_SIZE) as [Hfull|Hpart].
  - unfold process_request.
    destruct (processor_validate_request (parse_request (got ++ chunk))) as [resp|] eqn:Ev.
    + apply (conversation_reply faults (mkThread (Receiving got) (th_received th ++ chunk) (th_sent th))
        requests replies (got ++ chunk) true); try done; [by apply processor_reply_invalid|].
      cbn. by rewrite Hr, app_assoc.
    + exists requests, replies. split; [done|]. exists (got ++ chunk). cbn.
      by rewrite Hr, app_assoc.
  - exists requests, replies. split; [done|]. cbn. rewrite Hr, app_assoc. split_and!; [done|lia|done].
Qed.

Lemma conversation_send faults unsent count th th' :
  conversation_ok faults th → th_state th = Replying unsent → send unsent count th = Some th' →
  conversation_ok faults th'.
Proof.
  intros (requests & replies & Hs & Hth) Est (Hc & ->)%send_inv. rewrite Est in Hth.
  destruct Hth as [Hr Hsent]. exists requests, replies. split; [done|]. cbn.
  destruct (Nat.eqb_spec count (length unsent)) as [->|Hne].
  - rewrite firstn_all, app_nil_r. split_and!; [done|unfold CHAT_REQUEST_SIZE; cbn; lia|done].
  - split; [done|]. by rewrite <-app_assoc, take_drop.
Qed.

(** A thread that deals with a request goes on, fails, or reads its reply back. *)
Lemma conversation_in_flight faults th r :
  conversation_ok faults th → in_flight (th_state th) = Some r →
  ∃ requests replies b, Forall2 (answered faults) requests replies ∧ parse_request b = r ∧
    length b = CHAT_REQUEST_SIZE ∧ processor_validate_request r = None ∧
    th_received th = concat requests ++ b ∧ th_sent th = concat replies.
Proof.
  intros (requests & replies & Hs & Hth) Hr. destruct (th_state th); try done;
    destruct Hth as (b & E & ?); rewrite E in Hr; injection Hr as <-; by exists requests, replies, b.
Qed.

Lemma conversation_go faults th r st :
  conversation_ok faults th → in_flight (th_state th) = Some r → in_flight st = Some r →
  conversation_ok faults (go st th).
Proof.
  intros Hok Hr Hst.
  destruct (conversation_in_flight faults th r Hok Hr) as (requests & replies & b & Hs & <- & Hb).
  exists requests, replies. split; [done|]. destruct st; try done; by exists b.
Qed.

Lemma conversation_failed faults th r :
  conversation_ok faults th → in_flight (th_state th) = Some r → (faults = false → false = true) →
  conversation_ok faults (go (device_failed r) th).
Proof.
  intros Hok Hr Hf.
  destruct (conversation_in_flight faults th r Hok Hr) as (requests & replies & b & Hs & <- & Hb & Hv & Hrest).
  destruct Hrest. eapply (conversation_reply faults th requests replies b false); try done.
  by rewrite processor_reply_valid.
Qed.

Lemma conversation_read_back faults th r copied d :
  conversation_ok faults th → in_flight (th_state th) = Some r →
  chat_write r = Some (last_response d) →
  (faults = false → copied = true) →
  conversation_ok faults (go (read_back copied d r) th).
Proof.
  intros Hok Hr Hd Hf.
  destruct (conversation_in_flight faults th r Hok Hr) as (requests & replies & b & Hs & <- & Hb & Hv & Hrest).
  destruct (read_back_reply copied d _ b Hd eq_refl Hv) as (reply & Er & ->), Hrest.
  by eapply conversation_reply.
Qed.

Lemma conversation_end faults th :
  conversation_ok faults th → in_flight (th_state th) = None → conversation_ok faults (go Ended th).
Proof.
  intros (requests & replies & Hs & Hth) Hn. exists requests, replies. split; [done|]. cbn.
  destruct (th_state th) as [got| | | | | |unsent|]; try (by destruct Hth as (b & E & _); rewrite E in Hn).
  - destruct Hth as (-> & _ & ->). by exists got.
  - destruct Hth as (-> & <-). exists []. rewrite app_nil_r. split; [done|]. by exists unsent.
  - done.
Qed.

(** A thread keeps its conversation, whatever the others do, when what it reads back is the
    response to its own request. *)
Lemma conversation_step faults t a d th d' th' :
  thread_step t a d th = Some (d', th') → conversation_ok faults th →
  (faults = false → faultless a = true) →
  (∀ r, th_state th = ReadingBack r → chat_write r = Some (last_response d)) →
  conversation_ok faults th'.
Proof.
  intros E%thread_step_inv Hok Hf Hw.
  destruct (th_state th) as [got|r|r|r|r [|s rest]|r|unsent|] eqn:Est, a as [chunk| |opened| |[]| |copied|count|];
    try done; try (destruct E as [_ E]).
  - by apply (conversation_receive faults got chunk th).
  - rewrite E. apply conversation_end; [done|]. by rewrite Est.
  - rewrite E. destruct opened; [apply (conversation_go faults th r)|apply conversation_failed];
      try done; by rewrite Est.
  - destruct E as [_ ->]. apply (conversation_go faults th r); [done| |done]. by rewrite Est.
  - rewrite E. apply (conversation_go faults th r); [done| |done]. by rewrite Est.
  - rewrite E. apply conversation_failed; [done|by rewrite Est|done].
  - rewrite E. apply (conversation_go faults th r); [done| |done]. by rewrite Est.
  - destruct E as (_ & _ & _ & ->). apply (conversation_go faults th r); [done| |done]. by rewrite Est.
  - rewrite E. apply conversation_read_back; [done|by rewrite Est|by apply Hw|done].
  - by apply (conversation_send faults unsent count th).
  - rewrite E. apply conversation_end; [done|]. by rewrite Est.
Qed.

(** ** The threads refine [processor_reply] *)

(** The schedules where a thread enters the device only when no other is between its write
    and its read; without [faults], the system calls of the device succeed. *)
Definition orderly (faults : bool) (s : Processor) (t : nat) (a : Action) : Prop :=
  exclusive s t a ∧ (faults = false → faultless a = true).

Lemma orderly_reached faults ts s :
  reached (orderly faults) (listening ts) s →
  alone_ok s ∧ map_Forall (λ _, conversation_ok faults) (pr_threads s).
Proof.
  apply (reached_invariant _
    (λ s, alone_ok s ∧ map_Forall (λ _, conversation_ok faults) (pr_threads s))).
  - split; [apply alone_listening|]. intros t th ->%listening_lookup.
    exists [], []. split; [constructor|]. by split_and!; [|unfold CHAT_REQUEST_SIZE; cbn; lia|].
  - intros s1 t a s' [Ha Hc] [Hx Hf] Hs. split; [by eapply alone_step|].
    apply processor_step_inv in Hs as (th & d & th' & Ht & E & ->).
    apply map_Forall_insert_2; [|done].
    eapply conversation_step; [exact E|by apply (Hc t)|done|].
    intros r Hr. by eapply (ao_written _ Ha).
Qed.

Lemma length_requests (requests : list buffer) :
  Forall (λ b, length b = CHAT_REQUEST_SIZE) requests →
  length (concat requests) = (length requests * CHAT_REQUEST_SIZE)%nat.
Proof. induction 1 as [|b l Hb _ IH]; [done|]. cbn [concat length]. rewrite length_app, Hb, IH. lia. Qed.

Lemma answered_whole faults requests replies :
  Forall2 (answered faults) requests replies → Forall (λ b, length b = CHAT_REQUEST_SIZE) requests.
Proof. induction 1 as [|b reply l l' [Hb _] _ IH]; by constructor. Qed.

(** A connection that brings one request, as those of the backend do, takes its reply. *)
Lemma orderly_answer ts s t th b :
  reached (orderly false) (listening ts) s → pr_threads s !! t = Some th →
  th_state th = Receiving [] → th_received th = b → length b = CHAT_REQUEST_SIZE →
  processor_reply true b = Some (th_sent th).
Proof.
  intros [_ Hc]%orderly_reached Ht Est Hb Hl.
  destruct (Hc t th Ht) as (requests & replies & Hs & Hth). rewrite Est in Hth.
  destruct Hth as (Hr & _ & ->). rewrite app_nil_r, Hb in Hr. subst b.
  pose proof (length_requests requests (answered_whole _ _ _ Hs)) as Hn.
  rewrite <-Hr, Hl in Hn. rewrite Hr in Hl |- *.
  assert (0 < CHAT_REQUEST_SIZE)%nat as Hpos by by apply Nat.ltb_lt.
  revert Hn Hpos. generalize CHAT_REQUEST_SIZE. intros size Hn Hpos.
  destruct Hs as [|b reply requests replies [_ (ok & Hok & Hreply)] [|]];
    cbn [length] in Hn; [lia| |nia].
  cbn. rewrite !app_nil_r. by rewrite Hok in Hreply.
Qed.

(** C4: under any schedule of the processor's threads where no two exchanges with the device
    overlap, and however TCP cuts what a connection brings, a thread answers every request
    with [processor_reply]: what it has sent is a beginning of the replies to the requests
    it has received, in their order, and all of them once it waits for the next request.
    Without failures of the device every reply is one with the device there, which is what
    the backend's clients take a processor for ([serves_processor]).  A request whose strings
    run past its end has no reply: C gives the driver no meaning on it, and a schedule goes
    no further than the statement that reads it. *)
Theorem threads_refine_processor_reply faults ts s t th :
  reached (orderly faults) (listening ts) s → pr_threads s !! t = Some th →
  ∃ requests replies rest,
    Forall2 (λ b reply, length b = CHAT_REQUEST_SIZE ∧
      ∃ ok, (faults = false → ok = true) ∧ processor_reply ok b = Some reply) requests replies ∧
    th_received th = concat requests ++ rest ∧
    th_sent th `prefix_of` concat replies ∧
    (∀ got, th_state th = Receiving got →
       (length rest < CHAT_REQUEST_SIZE)%nat ∧ th_sent th = concat replies).
Proof.
  intros [_ Hc]%orderly_reached Ht. destruct (Hc t th Ht) as (requests & replies & Hs & Hth).
  destruct (th_state th) as [got|r|r|r|r left|r|unsent|];
    [exists requests, replies, got|..|exists requests, replies, []|exists requests, replies].
  2-6: destruct Hth as (b & _ & _ & _ & Hr & ->); by exists requests, replies, b.
  - destruct Hth as (Hr & Hg & ->). by split_and!; try done; intros g [= <-].
  - destruct Hth as [Hr Hsent]. rewrite app_nil_r. split_and!; try done. by exists unsent.
  - destruct Hth as (rest & Hr & Hsent). by exists rest.
Qed.

(** ** Two exchanges that overlap *)

Lemma run_schedule_app l1 l2 s :
  run_schedule (l1 ++ l2) s = (s' ← run_schedule l1 s; run_schedule l2 s').
Proof.
  revert s. induction l1 as [|[t a] l1 IH]; intros s; [done|]. cbn.
  destruct (processor_step s t a); [apply IH|done].
Qed.

Lemma run_step t a schedule d ths th d' th' :
  ths !! t = Some th → thread_step t a d th = Some (d', th') →
  run_schedule ((t, a) :: schedule) (mkProcessor d ths)
  = run_schedule schedule (mkProcessor d' (<[t := th']> ths)).
Proof.
  intros Ht E. cbn [run_schedule]. unfold processor_step. cbn [pr_threads pr_driver].
  rewrite Ht. cbn [mbind option_bind]. rewrite E. done.
Qed.

(** A thread runs the rest of [chat_write]. *)
Lemma run_fill t r rest schedule d ths th response :
  ths !! t = Some th → th_state th = Filling r rest →
  run_statements rest (last_response d) = Some response →
  run_schedule (replicate (S (length rest)) (t, Execute) ++ schedule) (mkProcessor d ths)
  = run_schedule schedule
      (mkProcessor (mkDriver None (last_request d) response)
         (<[t := go (ReadingBack r) th]> ths)).
Proof.
  revert d ths th. induction rest as [|s rest IH]; intros d ths th Ht Est Hrun;
    cbn [length replicate app].
  - injection Hrun as Hrun. erewrite run_step; [|exact Ht|unfold thread_step; by rewrite Est].
    by rewrite Hrun.
  - cbn in Hrun. destruct (s (last_response d)) as [resp|] eqn:Es; [|done].
    erewrite run_step; [|exact Ht|unfold thread_step; by rewrite Est, Es].
    etrans; [eapply (IH _ _ (go (Filling r rest) th)); [by rewrite lookup_insert_eq|done|exact Hrun]|].
    cbn. by rewrite insert_insert_eq.
Qed.

(** Threads 1 and 2 have read a request each; both enter the device, and then both read. *)
Definition crossing (b1 b2 : buffer) : list (nat * Action) :=
  [(1%nat, Receive b1); (2%nat, Receive b2); (1%nat, Open true); (2%nat, Open true);
   (1%nat, Lock); (1%nat, Copy true)]
  ++ replicate (S (length (write_statements (parse_request b1)))) (1%nat, Execute)
  ++ [(2%nat, Lock); (2%nat, Copy true)]
  ++ replicate (S (length (write_statements (parse_request b2)))) (2%nat, Execute)
  ++ [(1%nat, ReadBack true); (2%nat, ReadBack true);
      (1%nat, Send CHAT_RESPONSE_SIZE); (2%nat, Send CHAT_RESPONSE_SIZE)].

(** Two threads. *)
Definition two (th1 th2 : Thread) : gmap nat Thread := <[2%nat := th2]> {[1%nat := th1]}.

Lemma two_first th1 th2 : two th1 th2 !! 1%nat = Some th1.
Proof. unfold two. by simplify_map_eq. Qed.
Lemma two_second th1 th2 : two th1 th2 !! 2%nat = Some th2.
Proof. unfold two. by simplify_map_eq. Qed.
Lemma two_set_first th1 th2 th : <[1%nat := th]> (two th1 th2) = two th th2.
Proof. unfold two. rewrite insert_insert_ne by done. by rewrite insert_singleton_eq. Qed.
Lemma two_set_second th1 th2 th : <[2%nat := th]> (two th1 th2) = two th1 th.
Proof. unfold two. by rewrite insert_insert_eq. Qed.

Lemma receive_all b th :
  length b = CHAT_REQUEST_SIZE → processor_validate_request (parse_request b) = None →
  receive [] b th = Some (mkThread (Opening (parse_request b)) (th_received th ++ b) (th_sent th)).
Proof.
  intros Hb Hv. unfold receive. cbn [app].
  rewrite Hb, Nat.ltb_irrefl, Nat.eqb_refl. destruct b; [done|]. cbn [truthy negb orb].
  unfold process_request. by rewrite Hv.
Qed.
Lemma send_all b th :
  length b = CHAT_RESPONSE_SIZE →
  send b CHAT_RESPONSE_SIZE th = Some (mkThread (Receiving []) (th_received th) (th_sent th ++ b)).
Proof.
  intros Hb. unfold send. rewrite Hb, Nat.ltb_irrefl, Nat.eqb_refl.
  cbn [orb Nat.eqb CHAT_RESPONSE_SIZE]. by rewrite take_ge by lia.
Qed.

#[local] Ltac two_step :=
  erewrite run_step;
  [ rewrite ?two_set_first, ?two_set_second
  | first [apply two_first|apply two_second]
  | unfold thread_step; cbn [th_state go accepted chat_lock driver_loaded];
    first [ rewrite receive_all by done; reflexivity
          | rewrite send_all by done; reflexivity
          | reflexivity ] ].
#[local] Ltac two_fill :=
  erewrite run_fill;
  [ rewrite ?two_set_first, ?two_set_second
  | first [apply two_first|apply two_second]
  | reflexivity
  | cbn [last_response]; rewrite write_statements_run; done ].

Lemma crossing_runs b1 b2 reply1 reply2 :
  length b1 = CHAT_REQUEST_SIZE → length b2 = CHAT_REQUEST_SIZE →
  processor_validate_request (parse_request b1) = None →
  processor_validate_request (parse_request b2) = None →
  processor_reply true b1 = Some reply1 → processor_reply true b2 = Some reply2 →
  ∃ d, run_schedule (crossing b1 b2) (listening [1; 2]%nat)
       = Some (mkProcessor d (two (mkThread (Receiving []) b1 reply2)
                                  (mkThread (Receiving []) b2 reply2))).
Proof.
  intros H1 H2 V1 V2. rewrite !processor_reply_valid by done. cbv iota.
  destruct (chat_write (parse_request b1)) as [r1|] eqn:E1; [intros _|done].
  destruct (chat_write (parse_request b2)) as [r2|] eqn:E2; [intros [= <-]|done].
  pose proof (length_chat_write _ _ E2) as L2. unfold crossing. cbn [app].
  assert (listening [1; 2]%nat = mkProcessor driver_loaded (two accepted accepted)) as ->.
  { unfold listening, two. f_equal. }
  do 6 two_step. two_fill. do 2 two_step. two_fill.
  do 2 (two_step; rewrite (read_back_any _ _ (parse_request b2)) by done). do 2 two_step.
  by eexists.
Qed.

Lemma crossing_faultless b1 b2 : Forall (λ x, faultless x.2 = true) (crossing b1 b2).
Proof.
  unfold crossing. rewrite !Forall_app. split_and!; repeat (constructor; [done|]);
    try constructor; by apply Forall_replicate.
Qed.

(** C21: nothing in the processor keeps two exchanges apart.  For any two texts of stored
    messages, of any conversations, whose display is asked for at the same time, there is a
    schedule of the two threads, without any failure, where the first connection is answered
    with the response to the second one's request; the backend does not compare the ids of
    the frames, and shows the second text in the place of the first. *)
Theorem overlapping_exchanges_cross `{Host} content1 context1 content2 context2 w1 w2 :
  remote_ready → word (w_chat_next_id w1) → word (w_chat_next_id w2) →
  plain_text content1 → plain_text (ctx_conversationId context1) →
  (length (utf8_encode content1) <= 511)%nat →
  plain_text content2 → plain_text (ctx_conversationId context2) →
  (length (utf8_encode content2) <= 511)%nat →
  ∃ b1 b2 w1' w2' schedule s th1 th2,
    buildRequest PROCESS_SUBSTITUTION_DECRYPT (map_forward <$> content1) context1 w1 = (Ok b1, w1') ∧
    buildRequest PROCESS_SUBSTITUTION_DECRYPT (map_forward <$> content2) context2 w2 = (Ok b2, w2') ∧
    run_schedule schedule (listening [1; 2]%nat) = Some s ∧
    Forall (λ x, faultless x.2 = true) schedule ∧
    pr_threads s !! 1%nat = Some th1 ∧ th_received th1 = b1 ∧ Some (th_sent th1) = processor_reply true b2 ∧
    pr_threads s !! 2%nat = Some th2 ∧ th_received th2 = b2 ∧
    ((∃ pre chunks rest,
        network (w_step w1) (PROCESSOR_REMOTE_HOST env) (PROCESSOR_REMOTE_PORT env)
          (PROCESSOR_REMOTE_TIMEOUT_MS env) b1 = pre ++ (Data <$> chunks) ++ rest
        ∧ Forall (λ ev, ev = Connect) pre ∧ concat chunks = th_sent th1) →
     (decryptForDisplay (map_forward <$> content1) encrypted context1 w1).1
     = Ok (mkDisplay content2 display_ready None)).
Proof.
  intros Hr Hid1 Hid2 Hc1 Hv1 Hl1 Hc2 Hv2 Hl2.
  assert (∀ content, plain_text content → (length (utf8_encode content) <= 511)%nat →
    carries (map_forward <$> content) (map_forward <$> content)) as Hcipher.
  { intros content Hc Hl. apply (carries_cipher content _ _ map_reverse map_forward_reverse).
    by apply carries_self. }
  pose proof (Hcipher content1 Hc1 Hl1) as Hp1. pose proof (Hcipher content2 Hc2 Hl2) as Hp2.
  assert (chat_mode PROCESS_SUBSTITUTION_DECRYPT map_reverse map_forward) as Hm by by right.
  destruct (chat_request_reply _ _ _ _ _ context1 w1 Hm Hid1 Hp1 Hv1)
    as (b1 & reply1 & E1 & L1 & V1 & A1 & _).
  destruct (chat_request_reply _ _ _ _ _ context2 w2 Hm Hid2 Hp2 Hv2)
    as (b2 & reply2 & E2 & L2 & V2 & A2 & R2 & P2).
  destruct (crossing_runs b1 b2 reply1 reply2 L1 L2 V1 V2 A1 A2) as [d Hrun].
  do 4 eexists. exists (crossing b1 b2). do 3 eexists. split; [exact E1|]. split; [exact E2|].
  split; [exact Hrun|]. split; [apply crossing_faultless|].
  split; [apply two_first|]. do 2 (split; [done|]). split; [apply two_second|]. split; [done|].
  cbn [th_sent]. intros Hn. unfold decryptForDisplay. rewrite run_bind.
  rewrite (run_processRemote_reply _ _ _ _ _ _ b1 reply2 _ _ _ Hr E1 Hn R2 P2).
  cbn. by rewrite (fmap_inverse _ _ map_forward_reverse).
Qed.

(** ** No thread waits for ever at the lock *)

Lemma locked_reached P ts s : reached P (listening ts) s → locked_ok s.
Proof.
  apply (reached_invariant _ locked_ok); [apply locked_listening|].
  intros s1 t a s' Hok _. by apply locked_step.
Qed.

(** Under any schedule, when a thread waits for the lock then either it can take it or the
    thread that holds it can take a step, which brings it nearer to giving it back, unless
    the driver has no defined answer to the holder's request. *)
Definition statements_left (st : ThreadState) : nat :=
  match st with Clearing r => 2 + length (write_statements r) | Filling _ rest => S (length rest) | _ => 0 end.

Lemma lock_progress P ts s t th r :
  reached P (listening ts) s → pr_threads s !! t = Some th → th_state th = Entering r →
  is_Some (processor_step s t Lock) ∨
  (∃ u x left r', chat_lock (pr_driver s) = Some u ∧ pr_threads s !! u = Some x ∧
    th_state x = Filling r' left ∧ chat_write r' = None) ∨
  ∃ u x a s' x', chat_lock (pr_driver s) = Some u ∧ pr_threads s !! u = Some x ∧
    processor_step s u a = Some s' ∧ pr_threads s' !! u = Some x' ∧
    (statements_left (th_state x') < statements_left (th_state x))%nat ∧
    (in_lock (th_state x') = false → chat_lock (pr_driver s') = None).
Proof.
  intros [Hl Hmid]%locked_reached Ht Est.
  destruct (chat_lock (pr_driver s)) as [u|] eqn:El; [right|left].
  - destruct (proj1 (Hl u)) as (x & Hx & Lx); [done|]. specialize (Hmid u x Hx).
    assert ((∃ left r', th_state x = Filling r' left ∧ chat_write r' = None) ∨
      ∃ a d x', thread_step u a (pr_driver s) x = Some (d, x') ∧
      (statements_left (th_state x') < statements_left (th_state x))%nat ∧
      (in_lock (th_state x') = false → chat_lock d = None)) as [(more & r' & ?)|(a & d & x' & E & Hlt & Hn)];
      [|left; by exists u, x, more, r'|right; exists u, x].
    { destruct (th_state x) as [| | |r'|r' [|st rest]| | |] eqn:Ex; try done.
      - right. exists (Copy true). do 2 eexists. unfold thread_step. rewrite Ex. split; [done|]. cbn. split; [lia|done].
      - right. exists Execute. do 2 eexists. unfold thread_step. rewrite Ex. split; [done|]. cbn. split; [lia|done].
      - unfold mid_write in Hmid. rewrite Ex in Hmid. destruct Hmid as [_ Hrun]. cbn in Hrun.
        destruct (st (last_response (pr_driver s))) as [resp|] eqn:Es; [right|left; by exists (st :: rest), r'].
        exists Execute. do 2 eexists. unfold thread_step. rewrite Ex, Es. split; [done|]. cbn. split; [lia|done]. }
    exists a. do 2 eexists. unfold processor_step. rewrite Hx. cbn [mbind option_bind]. rewrite E.
    split_and!; [done..| | |].
    + cbn. by rewrite lookup_insert_eq.
    + done.
    + done.
  - unfold processor_step. rewrite Ht. cbn [mbind option_bind]. unfold thread_step. rewrite Est, El.
    by eexists.
Qed.

(** One connection alone is orderly. *)
Lemma single_orderly t s :
  reached (λ _ _ a, faultless a = true) (listening [t]) s → reached (orderly false) (listening [t]) s.
Proof.
  intros Hr. assert (∀ s, reached (λ _ _ a, faultless a = true) (listening [t]) s →
    ∀ u x, pr_threads s !! u = Some x → u = t) as Hone.
  { clear. intros s Hr. induction Hr as [|s u a s' _ IH _ Hs]; intros v x.
    - cbn. rewrite lookup_insert_Some, lookup_empty. naive_solver.
    - apply processor_step_inv in Hs as (th & d & th' & Ht & _ & ->). cbn.
      intros [[<- _]|[_ Hx]]%lookup_insert_Some; eauto. }
  induction Hr as [|s u a s' Hr IH Ha Hs]; [constructor|]. eapply reached_step; [exact IH| |exact Hs].
  split; [|done]. intros _ v x Hne Hv. destruct Hne. rewrite (Hone s Hr v x Hv).
  apply processor_step_inv in Hs as (th & _ & _ & Ht & _). symmetry. by apply (Hone s Hr u th).
Qed.

(** ** Witnesses *)

Definition exclusiveb (s : Processor) (t : nat) (a : Action) : bool :=
  match a with
  | Lock => bool_decide (map_Forall (λ u th, u = t ∨ in_device (th_state th) = false) (pr_threads s))
  | _ => true
  end.

Fixpoint run_orderly (schedule : list (nat * Action)) (s : Processor) : option Processor :=
  match schedule with
  | [] => Some s
  | (t, a) :: schedule =>
      if exclusiveb s t a && faultless a
      then s' ← processor_step s t a; run_orderly schedule s' else None
  end.

Lemma run_orderly_reached schedule s0 s s' :
  reached (orderly false) s0 s → run_orderly schedule s = Some s' → reached (orderly false) s0 s'.
Proof.
  revert s. induction schedule as [|[t a] schedule IH]; intros s Hs E; [by injection E as <-|].
  cbn in E. destruct (exclusiveb s t a && faultless a) eqn:Eb; [|done].
  apply andb_prop in Eb as [Hx Hf]. destruct (processor_step s t a) as [s1|] eqn:E1; [|done].
  apply (IH s1); [|exact E]. eapply reached_step; [exact Hs| |exact E1]. split; [|done].
  intros -> u th Hne Hu. apply bool_decide_eq_true in Hx. by destruct (Hx u th Hu).
Qed.

(** Two members' texts, as the backend asks for their display. *)
Definition demo_cipher (content : jsstring) : jsstring := map_forward <$> content.
Definition demo_secret : jsstring := js "mat khau: 1234".
Definition demo_context2 : EncryptionContext := mkContext (js "bob") (js "other").
Definition demo_request (content : jsstring) (context : EncryptionContext) : buffer :=
  match (@buildRequest (demo_host demo_env) PROCESS_SUBSTITUTION_DECRYPT (demo_cipher content) context
           empty_world).1 with
  | Ok b => b
  | _ => []
  end.
Definition demo_b1 : buffer := demo_request demo_text demo_context.
Definition demo_b2 : buffer := demo_request demo_secret demo_context2.

(** The second request arrives in two parts while the first one is in the device. *)
Definition demo_orderly : list (nat * Action) :=
  [(1%nat, Receive demo_b1); (2%nat, Receive (take 1000 demo_b2)); (1%nat, Open true); (1%nat, Lock);
   (2%nat, Receive (drop 1000 demo_b2)); (1%nat, Copy true); (2%nat, Open true)]
  ++ replicate (S (length (write_statements (parse_request demo_b1)))) (1%nat, Execute)
  ++ [(1%nat, ReadBack true); (2%nat, Lock); (1%nat, Send 500); (2%nat, Copy true); (1%nat, Send 88)].
Definition demo_served : option Processor := run_orderly demo_orderly (listening [1; 2]%nat).

Lemma threads_refine_processor_reply_witness :
  ∃ s th requests replies rest, demo_served = Some s ∧ pr_threads s !! 1%nat = Some th ∧
    th_state th = Receiving [] ∧ th_received th = concat requests ++ rest ∧
    Forall2 (λ b reply, length b = CHAT_REQUEST_SIZE ∧
      ∃ ok, (false = false → ok = true) ∧ processor_reply ok b = Some reply) requests replies ∧
    th_sent th = concat replies ∧ length (th_sent th) = CHAT_RESPONSE_SIZE.
Proof.
  assert (match demo_served with
          | Some s => match pr_threads s !! 1%nat with
                      | Some (mkThread (Receiving []) _ sent) => (length sent =? CHAT_RESPONSE_SIZE)%nat
                      | _ => false end
          | None => false end = true) as Hrun by (vm_compute; reflexivity).
  destruct demo_served as [s|] eqn:Es; [|discriminate Hrun].
  destruct (pr_threads s !! 1%nat) as [th|] eqn:Et; [|discriminate Hrun].
  pose proof (run_orderly_reached _ _ _ _ (reached_start _ _) Es) as Hr.
  destruct (threads_refine_processor_reply false [1; 2]%nat s 1 th Hr Et)
    as (requests & replies & rest & Hs & Hrec & _ & Hwait).
  destruct th as [[[]| | | | | | |] received sent]; try discriminate Hrun.
  destruct (Hwait [] eq_refl) as [_ Hsent].
  exists s, (mkThread (Receiving []) received sent), requests, replies, rest.
  repeat (split; [reflexivity || assumption|]).
  by apply Nat.eqb_eq.
Defined.

(** A network where the first connection is answered with the second one's response. *)
Definition crossing_host : Host :=
  demo_host_on demo_env (λ _, [Connect; Data (default [] (processor_reply true demo_b2)); Close]).

Lemma overlapping_exchanges_cross_witness :
  (@decryptForDisplay crossing_host (demo_cipher demo_text) encrypted demo_context empty_world).1
  = Ok (mkDisplay demo_secret display_ready None).
Proof.
  destruct (@overlapping_exchanges_cross crossing_host demo_text demo_context demo_secret demo_context2
    empty_world empty_world) as (b1 & b2 & w1' & w2' & schedule & s & th1 & th2 & E1 & E2 & _ & _ & _ &
      _ & Hsent & _ & _ & Hshow).
  - split; [apply demo_env_valid|reflexivity|reflexivity].
  - vm_compute. split; discriminate.
  - vm_compute. split; discriminate.
  - exact demo_text_plain.
  - apply plain_text_check. vm_compute. reflexivity.
  - apply (bool_decide_unpack _). vm_compute. exact I.
  - apply plain_text_check. vm_compute. reflexivity.
  - apply plain_text_check. vm_compute. reflexivity.
  - apply (bool_decide_unpack _). vm_compute. exact I.
  - apply Hshow. exists [Connect], [default [] (processor_reply true demo_b2)], [Close].
    assert (demo_b2 = b2) as Eb.
    { assert (@buildRequest crossing_host PROCESS_SUBSTITUTION_DECRYPT (demo_cipher demo_secret)
        demo_context2 empty_world = (Ok demo_b2, upd_chat_next_id (λ n, n + 1) empty_world)) as E
        by (vm_compute; reflexivity).
      unfold demo_cipher in E. rewrite E2 in E. injection E as E _. by symmetry. }
    split; [reflexivity|]. split; [repeat constructor|]. cbn [concat]. rewrite app_nil_r, Eb, <-Hsent.
    reflexivity.
Defined.
