(* ===== verification/Auth.v ===== *)
(** * Authentication

    [backend/src/modules/auth]: the DTO validation, the username collision loop, and
    [AuthService] — accounts, token pairs and refresh sessions.  The controller and
    the guards are in [AuthController.v]. *)

From Stdlib Require Import QArith_base.
From S2P Require Import Prelude JsText Wire Driver Env Store Model Instance Encryption.
Open Scope Z_scope.

(** ** [dto/local-auth.dto.ts] *)

Record RegisterLocalAuthDto := mkRegisterDto {
  rg_email : jsstring;
  rg_username : jsstring;
  rg_displayName : jsstring;
  rg_password : jsstring;
  rg_confirmPassword : jsstring;
}.

Record LoginLocalAuthDto := mkLoginDto { lg_email : jsstring; lg_password : jsstring }.

(** [{ ok: false, code, message }] or [{ ok: true, value }]. *)
Inductive Validated (A : Type) :=
  | Invalid (code message : jsstring)
  | Valid (value : A).
Arguments Invalid {A} _ _.
Arguments Valid {A} _.

Section dto.
Context `{Host}.

Definition normalizeEmail (value : jsstring) : jsstring := toLowerCase (trim value).
Definition normalizeTextField (value : jsstring) : jsstring := trim value.

Definition validateRegisterLocalAuthDto (payload : RegisterLocalAuthDto)
    : Validated RegisterLocalAuthDto :=
  let email := normalizeEmail (rg_email payload) in
  let username := normalizeTextField (rg_username payload) in
  let displayName := normalizeTextField (rg_displayName payload) in
  let password := rg_password payload in
  let confirmPassword := rg_confirmPassword payload in
  if negb (truthy email) || negb (truthy username) || negb (truthy displayName)
     || negb (truthy password) || negb (truthy confirmPassword)
  then Invalid (js "local_auth_invalid_payload") (js "Missing required local registration fields")
  else if negb (includes email (js "@"))
  then Invalid (js "local_auth_invalid_email") (js "Email is invalid")
  else if bool_decide (password ≠ confirmPassword)
  then Invalid (js "local_auth_password_confirm_mismatch")
         (js "Password confirmation does not match")
  else Valid (mkRegisterDto email username displayName password confirmPassword).

Definition validateLoginLocalAuthDto (payload : LoginLocalAuthDto) : Validated LoginLocalAuthDto :=
  let email := normalizeEmail (lg_email payload) in
  let password := lg_password payload in
  if negb (truthy email) || negb (truthy password)
  then Invalid (js "local_auth_invalid_payload") (js "Missing local login credentials")
  else if negb (includes email (js "@"))
  then Invalid (js "local_auth_invalid_email") (js "Email is invalid")
  else Valid (mkLoginDto email password).
End dto.

(** ** [utils/username.util.ts] *)

Definition deriveBaseUsername (email : jsstring) : jsstring :=
  match split_on 64 email with base :: _ => base | [] => [] end.

(** The [while] loop, with fuel; [None] when it runs out. *)
Fixpoint collision_loop (fuel : nat) (base : jsstring) (taken : jsstring → bool) (suffix : nat)
    : option jsstring :=
  match fuel with
  | O => None
  | S f =>
      let candidate := base ++ js "-" ++ show_nat suffix in
      if taken candidate then collision_loop f base taken (S suffix) else Some candidate
  end.

Definition resolveUsernameCollision (fuel : nat) (base : jsstring) (taken : jsstring → bool)
    : option jsstring :=
  if negb (taken base) then Some base else collision_loop fuel base taken 1.

(** ** [AuthService] *)

Record GoogleAuthUser := mkGoogleUser {
  gu_googleId : jsstring;
  gu_email : jsstring;
  gu_displayName : jsstring;
  gu_avatarUrl : option jsstring;
}.

Record RefreshSessionResponse := mkRefreshResponse {
  rsp_accessToken : jsstring;
  rsp_user : SessionUser;
  rsp_expiresInSeconds : number;
}.

Record IssuedSession := mkIssued {
  is_refreshToken : jsstring;
  is_sessionId : jsstring;
  is_response : RefreshSessionResponse;
}.

(** [new Date(t + seconds * 1000)]: [None] is an Invalid Date. *)
Definition date_after (t : Z) (seconds : number) : option Z :=
  match seconds with
  | Fin q =>
      let ms := Z.quot (Qnum q * 1000 + t * Zpos (Qden q)) (Zpos (Qden q)) in
      if Z.abs ms <=? 8640000000000000 then Some ms else None
  | _ => None
  end.

(** The order of Mongo on strings: that of their UTF-8 bytes. *)
Fixpoint bytes_le (a b : list Z) : bool :=
  match a, b with
  | [], _ => true
  | _, [] => false
  | x :: a', y :: b' => if x =? y then bytes_le a' b' else x <? y
  end.
Definition asc_string {D} (key : D → jsstring) (a b : D) : bool :=
  bytes_le (utf8_encode (key a)) (utf8_encode (key b)).

(** The changes of the documents that are saved. *)
Definition set_google (p : GoogleAuthUser) (displayName : jsstring) (u : User) : User :=
  mkUser (Some (gu_googleId p)) (u_email u) (u_username u) displayName (gu_avatarUrl p)
    (u_status u) (u_localAuth u).
Definition set_expired (s : RefreshSession) : RefreshSession :=
  mkSession (se_userId s) (se_tokenHash s) (se_issuedAt s) (se_expiresAt s) (se_lastUsedAt s)
    (se_revokedAt s) session_expired (se_createdBy s).
Definition set_lastUsedAt (t : Z) (s : RefreshSession) : RefreshSession :=
  mkSession (se_userId s) (se_tokenHash s) (se_issuedAt s) (se_expiresAt s) (Some t)
    (se_revokedAt s) (se_status s) (se_createdBy s).
Definition set_revoked (t : Z) (s : RefreshSession) : RefreshSession :=
  mkSession (se_userId s) (se_tokenHash s) (se_issuedAt s) (se_expiresAt s) (se_lastUsedAt s)
    (Some t) session_revoked (se_createdBy s).

(** The [required] paths of the user schema, and its unique indexes. *)
Definition user_complete (u : User) : bool :=
  truthy (u_email u) && truthy (u_username u) && truthy (u_displayName u).
Definition same_google (a b : User) : bool :=
  match u_googleId a, u_googleId b with
  | Some x, Some y => bool_decide (x = y)
  | _, _ => false
  end.
Definition user_clash (a b : User) : bool :=
  bool_decide (u_email a = u_email b) || bool_decide (u_username a = u_username b)
  || same_google a b.

Section auth_service.
Context `{Host} `{Mongo}.

Definition toSessionUser (p : doc User) : SessionUser :=
  mkSessionUser (oid_show p.1) (u_email p.2) (u_username p.2) (u_displayName p.2)
    (u_avatarUrl p.2).

Definition auth_findById (id : jsstring) : M World (option SessionUser) :=
  i ← cast_oid id;
  user ← model_findById userModel i;
  mret (toSessionUser <$> user).

Definition email_is (email : jsstring) (p : doc User) : bool := bool_decide (u_email p.2 = email).
Definition username_is (name : jsstring) (p : doc User) : bool :=
  bool_decide (u_username p.2 = name).

Definition findByEmail (email : jsstring) : M World (option (doc User)) :=
  model_findOne userModel (email_is (normalizeEmail email)).

Definition searchUsers (query currentUserId : jsstring) : M World (list SessionUser) :=
  let trimmedQuery := trim query in
  if (length trimmedQuery <? 2)%nat then mret []
  else
    let escapedQuery := escape_regex trimmedQuery in
    me ← parse_oid currentUserId;
    users ← model_find_sort_limit userModel
      (λ p, negb (has_id me p)
            && (mongo_regex_i escapedQuery (u_email p.2)
                || mongo_regex_i escapedQuery (u_username p.2)
                || mongo_regex_i escapedQuery (u_displayName p.2)))
      (asc_string u_username) (num 10);
    mret (toSessionUser <$> users).

(** [userModel.create]: validation, then the unique indexes. *)
Definition user_create (u : User) : M World (doc User) :=
  i ← new_oid;
  throw_if (negb (user_complete u)) (host_error ValidationError) ;;
  clash ← model_exists userModel (λ p, user_clash u p.2);
  throw_if clash (host_error DuplicateKeyError) ;;
  model_insert userModel i u ;;
  mret (i, u).

Definition recordAttempt (provider : option AuthProvider) (emailCandidate : option jsstring)
    (result : AttemptResult) (failureReason userId sessionId : option jsstring) : M World () :=
  modify (upd_attempts (λ l, l ++ [mkAttempt (default google provider) emailCandidate result
                                      failureReason userId sessionId])).

Definition upsertGoogleUser (payload : GoogleAuthUser) : M World SessionUser :=
  let normalizedEmail := normalizeEmail (gu_email payload) in
  let displayName := normalizeTextField (gu_displayName payload) in
  existing ← model_findOne userModel (email_is normalizedEmail);
  match existing with
  | Some (i, u) =>
      let u' := set_google payload displayName u in
      throw_if (negb (user_complete u')) (host_error ValidationError) ;;
      clash ← model_exists userModel (λ p, negb (has_id i p) && same_google u' p.2);
      throw_if clash (host_error DuplicateKeyError) ;;
      model_save userModel i (set_google payload displayName) ;;
      mret (toSessionUser (i, u'))
  | None =>
      let baseUsername := deriveBaseUsername normalizedEmail in
      users ← gets w_users;
      match resolveUsernameCollision (S (size users)) baseUsername
              (λ candidate, mg_exists (username_is candidate) users) with
      | None => hang
      | Some username =>
          created ← user_create
            (mkUser (Some (gu_googleId payload)) normalizedEmail username displayName
               (gu_avatarUrl payload) (js "active") (Some (mkLocalAuth false None None None)));
          mret (toSessionUser created)
      end
  end.
End auth_service.

(** Tokens and sessions. *)
Section tokens.
Context `{Host}.

Definition hashToken (token : jsstring) : jsstring := sha256_hex token.

Definition sign (secret : jsstring) (claims : Claims) (ttl : number) : M World jsstring :=
  t ← now;
  or_throw (jwt_sign secret claims ttl t) (host_error JwtSignError).

Definition signAccessToken (payload : Claims) : M World jsstring :=
  sign (ACCESS_TOKEN_SECRET env) payload (ACCESS_TOKEN_TTL_SECONDS env).
Definition signRefreshToken (payload : Claims) : M World jsstring :=
  sign (REFRESH_TOKEN_SECRET env) payload (REFRESH_TOKEN_TTL_SECONDS env).

Definition buildRefreshSessionResponse (user : SessionUser) (sessionId : jsstring)
    : M World RefreshSessionResponse :=
  accessToken ← signAccessToken (mkClaims (js "access") (su_id user) sessionId None);
  mret (mkRefreshResponse accessToken user (ACCESS_TOKEN_TTL_SECONDS env)).

(** [catch { return null }]: only a valid token has a payload. *)
Definition verifyAccessToken (token : jsstring) : M World (option Claims) :=
  t ← now;
  mret match jwt_verify (ACCESS_TOKEN_SECRET env) token t with
       | TokenValid c => Some c
       | _ => None
       end.

Definition refresh_token_expired : Exn :=
  exn_code Unauthorized (js "refresh_token_expired") (js "Refresh token has expired").
Definition refresh_token_invalid : Exn :=
  exn_code Unauthorized (js "refresh_token_invalid") (js "Refresh token is invalid").
Definition refresh_token_revoked : Exn :=
  exn_code Unauthorized (js "refresh_token_revoked") (js "Refresh token has been revoked").
Definition refresh_user_missing : Exn :=
  exn_code Unauthorized (js "refresh_user_missing") (js "User is no longer available").

Definition verifyRefreshToken (token : jsstring) : M World Claims :=
  t ← now;
  match jwt_verify (REFRESH_TOKEN_SECRET env) token t with
  | TokenValid c => mret c
  | TokenExpired => throw refresh_token_expired
  | TokenInvalid => throw refresh_token_invalid
  end.

Definition mapAuthProcessingError (e : Exn) : Exn :=
  match e with
  | AuthProcessingError _ message =>
      exn_code ServiceUnavailable (js "local_auth_sha1_unavailable") message
  | _ => exn_code ServiceUnavailable (js "local_auth_processing_failed")
           (js "Local authentication processing is unavailable")
  end.
End tokens.

Section sessions.
Context `{Host} `{Mongo}.

(** [refreshSession.save()] of the new session: the required [expiresAt] must be a
    date, and [tokenHash] is unique. *)
Definition session_save_new (i : oid) (s : RefreshSession) (expiresAt : option Z) : M World () :=
  throw_if (bool_decide (expiresAt = None) || negb (truthy (se_tokenHash s)))
    (host_error ValidationError) ;;
  clash ← model_exists refreshSessionModel
            (λ p, bool_decide (se_tokenHash p.2 = se_tokenHash s));
  throw_if clash (host_error DuplicateKeyError) ;;
  model_insert refreshSessionModel i s.

Definition issueTokenPair (user : SessionUser) (createdBy : jsstring) : M World IssuedSession :=
  issuedAt ← now;
  let expiresAt := date_after issuedAt (REFRESH_TOKEN_TTL_SECONDS env) in
  userId ← parse_oid (su_id user);
  id ← new_oid;
  jti ← randomUUID;
  refreshToken ← signRefreshToken
    (mkClaims (js "refresh") (su_id user) (oid_show id) (Some jti));
  session_save_new id
    (mkSession userId (hashToken refreshToken) issuedAt (default 0 expiresAt) None None
       session_active createdBy) expiresAt ;;
  recordAttempt (Some refresh_token) None issued None (Some (su_id user)) (Some (oid_show id)) ;;
  response ← buildRefreshSessionResponse user (oid_show id);
  mret (mkIssued refreshToken (oid_show id) response).

(** A failed attempt of the refresh-token provider. *)
Definition refresh_failed (reason : jsstring) (payload : Claims) : M World () :=
  recordAttempt (Some refresh_token) None failed (Some reason) (Some (cl_sub payload))
    (Some (cl_sid payload)).

Definition is_revoked (s : RefreshSession) : bool :=
  bool_decide (is_Some (se_revokedAt s)) || bool_decide (se_status s = session_revoked).

Definition refreshAccessToken (refreshToken : jsstring) : M World RefreshSessionResponse :=
  payload ← verifyRefreshToken refreshToken;
  sid ← cast_oid (cl_sid payload);
  refreshSession ← model_findById refreshSessionModel sid;
  match refreshSession with
  | None =>
      refresh_failed (js "refresh-session-missing") payload ;;
      throw refresh_token_invalid
  | Some (_, s) =>
      t ← now;
      if bool_decide (se_tokenHash s ≠ hashToken refreshToken) then
        refresh_failed (js "refresh-token-mismatch") payload ;;
        throw refresh_token_invalid
      else if is_revoked s then
        refresh_failed (js "refresh-token-revoked") payload ;;
        throw refresh_token_revoked
      else if se_expiresAt s <=? t then
        model_save refreshSessionModel sid set_expired ;;
        refresh_failed (js "refresh-token-expired") payload ;;
        throw refresh_token_expired
      else
        user ← auth_findById (cl_sub payload);
        match user with
        | None =>
            refresh_failed (js "refresh-user-missing") payload ;;
            throw refresh_user_missing
        | Some user =>
            model_save refreshSessionModel sid (set_lastUsedAt t) ;;
            recordAttempt (Some refresh_token) None renewed None (Some (su_id user))
              (Some (oid_show sid)) ;;
            buildRefreshSessionResponse user (oid_show sid)
        end
  end.

Definition revokeRefreshToken (refreshToken : jsstring) : M World () :=
  payload ← try_catch (c ← verifyRefreshToken refreshToken; mret (Some c)) (λ _, mret None);
  match payload with
  | None => mret tt
  | Some payload =>
      sid ← cast_oid (cl_sid payload);
      refreshSession ← model_findById refreshSessionModel sid;
      match refreshSession with
      | None => mret tt
      | Some _ =>
          t ← now;
          model_save refreshSessionModel sid (set_revoked t) ;;
          recordAttempt (Some refresh_token) None revoked_ None (Some (cl_sub payload))
            (Some (cl_sid payload))
      end
  end.

Definition authenticateAccessToken (token : jsstring) : M World (option SessionUser) :=
  payload ← verifyAccessToken token;
  match payload with
  | None => mret None
  | Some payload =>
      sid ← cast_oid (cl_sid payload);
      refreshSession ← model_findById refreshSessionModel sid;
      match refreshSession with
      | None => mret None
      | Some (_, s) =>
          if bool_decide (se_status s ≠ session_active)
             || bool_decide (is_Some (se_revokedAt s))
          then mret None
          else
            t ← now;
            if se_expiresAt s <=? t then mret None else auth_findById (cl_sub payload)
      end
  end.
End sessions.

(** Local accounts. *)
Section local_accounts.
Context `{Host} `{Mongo}.

Definition local_auth_disabled (k : HttpKind) : Exn :=
  exn_code k (js "local_auth_disabled") (js "Local authentication is disabled").
Definition email_already_exists : Exn :=
  exn_code Conflict (js "email_already_exists") (js "Email already exists").
Definition username_already_exists : Exn :=
  exn_code Conflict (js "username_already_exists") (js "Username already exists").
Definition local_auth_invalid_credentials : Exn :=
  exn_code Unauthorized (js "local_auth_invalid_credentials")
    (js "Email or password is incorrect").
Definition local_auth_account_disabled : Exn :=
  exn_code Unauthorized (js "local_auth_account_disabled")
    (js "Account is not allowed to sign in").
Definition local_auth_not_enabled : Exn :=
  exn_code Unauthorized (js "local_auth_not_enabled")
    (js "Local sign-in is not available for this account").

(** An attempt at local registration or sign-in. *)
Definition local_attempt (provider : AuthProvider) (email : jsstring) (result : AttemptResult)
    (reason userId sessionId : option jsstring) : M World () :=
  recordAttempt (Some provider) (Some email) result reason userId sessionId.

Definition registerLocalAccount (payload : RegisterLocalAuthDto) : M World IssuedSession :=
  throw_if (negb isLocalAuthEnabled) (local_auth_disabled BadRequest) ;;
  let email := normalizeEmail (rg_email payload) in
  let username := normalizeTextField (rg_username payload) in
  let displayName := normalizeTextField (rg_displayName payload) in
  let attempt := local_attempt local_register email in
  attempt started None None None ;;
  existingEmail ← model_exists userModel (email_is email);
  if (existingEmail : bool) then
    attempt failed (Some (js "email-already-exists")) None None ;;
    throw email_already_exists
  else
  existingUsername ← model_exists userModel (username_is username);
  if (existingUsername : bool) then
    attempt failed (Some (js "username-already-exists")) None None ;;
    throw username_already_exists
  else
  passwordSha1 ←
    try_catch (hashPasswordWithSha1 email (rg_password payload)) (λ error,
      attempt failed (Some (js "sha1-processing-unavailable")) None None ;;
      throw (mapAuthProcessingError error));
  t ← now;
  createdUser ← user_create
    (mkUser None email username displayName None (js "active")
       (Some (mkLocalAuth true (Some passwordSha1) (Some t) (Some (js "register")))));
  let sessionUser := toSessionUser createdUser in
  issuedSession ← issueTokenPair sessionUser (js "local-register");
  attempt succeeded None (Some (su_id sessionUser)) (Some (is_sessionId issuedSession)) ;;
  mret issuedSession.

(** [user.localAuth?.enabled] with a truthy [passwordSha1]: the stored hash. *)
Definition local_password (u : User) : option jsstring :=
  match u_localAuth u with
  | Some la => if la_enabled la then
                 match la_passwordSha1 la with
                 | Some h => if truthy h then Some h else None
                 | None => None
                 end
               else None
  | None => None
  end.

Definition loginLocalAccount (payload : LoginLocalAuthDto) : M World IssuedSession :=
  throw_if (negb isLocalAuthEnabled) (local_auth_disabled Unauthorized) ;;
  let email := normalizeEmail (lg_email payload) in
  let attempt := local_attempt local_login email in
  attempt started None None None ;;
  user ← model_findOne userModel (email_is email);
  match user with
  | None =>
      attempt failed (Some (js "invalid-local-credentials")) None None ;;
      throw local_auth_invalid_credentials
  | Some (i, u) =>
      let id := Some (oid_show i) in
      if bool_decide (u_status u ≠ js "active") then
        attempt failed (Some (js "account-disabled")) id None ;;
        throw local_auth_account_disabled
      else match local_password u with
      | None =>
          attempt failed (Some (js "local-auth-not-enabled")) id None ;;
          throw local_auth_not_enabled
      | Some stored =>
          passwordSha1 ←
            try_catch (hashPasswordWithSha1 email (lg_password payload)) (λ error,
              attempt failed (Some (js "sha1-processing-unavailable")) id None ;;
              throw (mapAuthProcessingError error));
          if bool_decide (passwordSha1 ≠ stored) then
            attempt failed (Some (js "invalid-local-credentials")) id None ;;
            throw local_auth_invalid_credentials
          else
            let sessionUser := toSessionUser (i, u) in
            issuedSession ← issueTokenPair sessionUser (js "local-login");
            attempt succeeded None (Some (su_id sessionUser))
              (Some (is_sessionId issuedSession)) ;;
            mret issuedSession
      end
  end.
End local_accounts.

(** ** [strategies/google.strategy.ts] *)

Record GoogleProfile := mkProfile {
  gp_id : jsstring;
  gp_displayName : jsstring;
  gp_emails : list jsstring;
  gp_photos : list jsstring;
}.

(** [validate] calls [done(null, user)] or [done(error)]. *)
Definition google_validate `{Host} `{Mongo} (profile : GoogleProfile)
    : M World (SessionUser + Exn) :=
  let primaryEmail := default [] (head (gp_emails profile)) in
  try_catch
    (user ← upsertGoogleUser
       (mkGoogleUser (gp_id profile) primaryEmail
          (if truthy (gp_displayName profile) then gp_displayName profile else primaryEmail)
          (head (gp_photos profile)));
     mret (inl user))
    (λ error, mret (inr error)).

#[global] Arguments issueTokenPair : simpl never.
#[global] Arguments hashPasswordWithSha1 : simpl never.
#[global] Arguments local_attempt : simpl never.
