(* ===== verification/AuthFacts.v ===== *)
(** * Properties of authentication

    Sessions: what an access token needs to be accepted, and that a revocation is
    final.  Accounts: registration followed by sign-in, refusals are recorded, the
    username loop ends with a free name. *)

From S2P Require Import Prelude JsText Wire Driver Env Store Model Instance Encryption Auth.
Open Scope Z_scope.

(** ** Accepting an access token *)

Section access.
Context `{Host} `{Mongo}.

(** What the guard's question amounts to, at a given time. *)
Definition token_grants (token : jsstring) (w : World) (user : SessionUser) : Prop :=
  ∃ c sid s i u,
    jwt_verify (ACCESS_TOKEN_SECRET env) token (clock (w_step w)) = TokenValid c
    ∧ oid_parse (cl_sid c) = Some sid ∧ w_sessions w !! sid = Some s
    ∧ se_status s = session_active ∧ se_revokedAt s = None
    ∧ clock (S (w_step w)) < se_expiresAt s
    ∧ oid_parse (cl_sub c) = Some i ∧ w_users w !! i = Some u
    ∧ user = toSessionUser (i, u).

Lemma authenticate_token_grants token w user :
  (authenticateAccessToken token w).1 = Ok (Some user) ↔ token_grants token w user.
Proof.
  unfold token_grants, authenticateAccessToken, verifyAccessToken, now, tick,
    auth_findById, model_findById, findById, cast_oid.
  run_simpl. cbn.
  destruct (jwt_verify _ token _) as [c| |]; cbn; [|naive_solver..].
  destruct (oid_parse (cl_sid c)) as [sid|] eqn:Es; cbn; [|naive_solver].
  destruct (w_sessions w !! sid) as [s|] eqn:El; cbn; [|naive_solver].
  case_bool_decide as Hs; cbn; [naive_solver|].
  case_bool_decide as Hr; cbn; [|apply eq_None_not_Some in Hr].
  { split; [done|]. intros (? & ? & ? & ? & ? & ? & ? & ? & ? & E & ?). simplify_eq.
    rewrite E in Hr. by destruct Hr. }
  destruct (Z.leb_spec (se_expiresAt s) (clock (S (w_step w)))); cbn.
  { split; [done|]. intros (? & ? & ? & ? & ? & ? & ? & ? & ? & E & ? & ?). simplify_eq. lia. }
  destruct (oid_parse (cl_sub c)) as [i|] eqn:Ei; cbn;
    [|split; [done|intros (? & ? & ? & ? & ? & ? & ? & ? & ? & ? & ? & ? & ? & ?); by simplify_eq]].
  destruct (w_users w !! i) as [u|] eqn:Eu; cbn;
    [|split; [done|intros (? & ? & ? & ? & ? & ? & ? & ? & ? & ? & ? & ? & ? & ?); by simplify_eq]].
  split; [intros ?; simplify_eq; by eauto 15|].
  intros (? & ? & ? & ? & ? & ? & ? & ? & ? & ? & ? & ? & ? & ->). by simplify_eq.
Qed.

(** An access token authenticates as a user exactly when it verifies, its session
    exists, is active, not revoked and not expired, and its subject is that user. *)
Theorem authenticateAccessToken_grants token w user :
  (authenticateAccessToken token w).1 = Ok (Some user) ↔ token_grants token w user.
Proof. apply authenticate_token_grants. Qed.
End access.

(** ** Revocation is final *)

(** Sessions only move forward: they are never deleted, keep their owner, hash and
    expiry, stay revoked once revoked, and never become active again. *)
Definition session_later (s s' : RefreshSession) : Prop :=
  se_userId s' = se_userId s ∧ se_tokenHash s' = se_tokenHash s
  ∧ se_expiresAt s' = se_expiresAt s
  ∧ (is_Some (se_revokedAt s) → is_Some (se_revokedAt s'))
  ∧ (se_status s ≠ session_active → se_status s' ≠ session_active).

Definition sessions_later (c c' : collection RefreshSession) : Prop :=
  ∀ i s, c !! i = Some s → ∃ s', c' !! i = Some s' ∧ session_later s s'.

#[export] Instance session_later_preorder : PreOrder session_later.
Proof.
  split; [by intros s; split_and!|].
  intros a b c (? & ? & ? & ? & ?) (? & ? & ? & ? & ?). split_and!; auto; congruence.
Qed.

#[export] Instance sessions_later_preorder : PreOrder sessions_later.
Proof.
  split; [intros c i s Hs; exists s; split; [done|reflexivity]|].
  intros c1 c2 c3 H12 H23 i s Hs. destruct (H12 i s Hs) as (s' & Hs' & ?).
  destruct (H23 i s' Hs') as (s'' & ? & ?). exists s''. split; [done|by trans s'].
Qed.

Lemma sessions_later_insert (c : collection RefreshSession) i s :
  c !! i = None → sessions_later c (<[i:=s]> c).
Proof.
  intros Hi j s' Hs'. exists s'. split; [|reflexivity]. rewrite lookup_insert_ne; [done|congruence].
Qed.

Lemma sessions_later_alter f (c : collection RefreshSession) i :
  (∀ s, session_later s (f s)) → sessions_later c (alter f i c).
Proof.
  intros Hf j s Hs. rewrite lookup_alter, Hs. case_decide.
  - subst. exists (f s). rewrite Hs. split; [done|apply Hf].
  - exists s. split; [done|reflexivity].
Qed.

Section revocation.
Context `{Host} `{Mongo} (c0 : collection RefreshSession).

Definition from_c0 (w : World) : Prop := sessions_later c0 (w_sessions w).

#[local] Instance stepless_from_c0 : Stepless from_c0.
Proof. by split. Qed.

(** A handler that never lets a session move backward. *)
Lemma later_modify f :
  (∀ w, sessions_later (w_sessions w) (w_sessions (f w))) → preserves from_c0 (modify f).
Proof. intros Hf. apply preserves_modify. intros w Hw. unfold from_c0 in *. by etrans. Qed.

Lemma later_save i f : (∀ s, session_later s (f s)) →
  preserves from_c0 (model_save refreshSessionModel i f).
Proof. intros Hf. apply later_modify. intros w. by apply sessions_later_alter. Qed.

Lemma later_set_expired s : session_later s (set_expired s).
Proof. by split_and!. Qed.
Lemma later_set_lastUsedAt t s : session_later s (set_lastUsedAt t s).
Proof. by split_and!. Qed.
Lemma later_set_revoked t s : session_later s (set_revoked t s).
Proof. by split_and!. Qed.

Lemma later_insert i s : preserves from_c0 (model_insert refreshSessionModel i s).
Proof.
  apply preserves_insert. intros w Hw Hi. unfold from_c0 in *. simpl in *.
  etrans; [done|]. by apply sessions_later_insert.
Qed.

Lemma later_recordAttempt p e r f u s : preserves from_c0 (recordAttempt p e r f u s).
Proof. by apply later_modify. Qed.
Lemma later_user_insert i u : preserves from_c0 (model_insert userModel i u).
Proof. by apply preserves_insert. Qed.
Lemma later_user_save i f : preserves from_c0 (model_save userModel i f).
Proof. by apply later_modify. Qed.

#[local] Hint Resolve later_save later_set_expired later_set_lastUsedAt later_set_revoked
  later_insert later_recordAttempt later_user_insert later_user_save : inv.

Lemma later_user_create u : preserves from_c0 (user_create u).
Proof. unfold user_create. inv_solve. Qed.
#[local] Hint Resolve later_user_create : inv.

Lemma later_upsertGoogleUser p : preserves from_c0 (upsertGoogleUser p).
Proof. unfold upsertGoogleUser. inv_solve. Qed.

Lemma later_sign secret claims ttl : preserves from_c0 (sign secret claims ttl).
Proof. unfold sign. inv_solve. Qed.
Lemma later_auth_findById id : preserves from_c0 (auth_findById id).
Proof. unfold auth_findById, cast_oid. inv_solve. Qed.
Lemma later_verifyRefreshToken t : preserves from_c0 (verifyRefreshToken t).
Proof. unfold verifyRefreshToken. inv_solve. Qed.
Lemma later_buildResponse u s : preserves from_c0 (buildRefreshSessionResponse u s).
Proof. unfold buildRefreshSessionResponse. inv_solve. apply later_sign. Qed.
#[local] Hint Resolve later_sign later_auth_findById later_verifyRefreshToken
  later_buildResponse : inv.

Lemma later_issueTokenPair u by_ : preserves from_c0 (issueTokenPair u by_).
Proof. unfold issueTokenPair, parse_oid, signRefreshToken, session_save_new. inv_solve. Qed.
#[local] Hint Resolve later_issueTokenPair : inv.

Lemma later_refreshAccessToken t : preserves from_c0 (refreshAccessToken t).
Proof. unfold refreshAccessToken, cast_oid, refresh_failed. inv_solve. Qed.
Lemma later_revokeRefreshToken t : preserves from_c0 (revokeRefreshToken t).
Proof. unfold revokeRefreshToken, cast_oid. inv_solve. Qed.
Lemma later_authenticateAccessToken t : preserves from_c0 (authenticateAccessToken t).
Proof. unfold authenticateAccessToken, verifyAccessToken, cast_oid. inv_solve. Qed.
Lemma later_registerLocalAccount p : preserves from_c0 (registerLocalAccount p).
Proof. unfold registerLocalAccount, local_attempt. inv_solve. Qed.
Lemma later_loginLocalAccount p : preserves from_c0 (loginLocalAccount p).
Proof. unfold loginLocalAccount, local_attempt. inv_solve. Qed.
Lemma later_searchUsers q i : preserves from_c0 (searchUsers q i).
Proof. unfold searchUsers, parse_oid. inv_solve. Qed.
End revocation.

(** Any operation of [AuthService], and any sequence of them. *)
Inductive AuthOp :=
  | OpRegister (p : RegisterLocalAuthDto)
  | OpLogin (p : LoginLocalAuthDto)
  | OpGoogle (p : GoogleAuthUser)
  | OpIssue (user : SessionUser) (createdBy : jsstring)
  | OpRefresh (token : jsstring)
  | OpRevoke (token : jsstring)
  | OpAuthenticate (token : jsstring)
  | OpFindById (id : jsstring)
  | OpSearch (query id : jsstring)
  | OpRecord (p : option AuthProvider) (e : option jsstring) (r : AttemptResult)
      (f u s : option jsstring).

Section ops.
Context `{Host} `{Mongo}.

Definition run_op (w : World) (o : AuthOp) : World :=
  match o with
  | OpRegister p => (registerLocalAccount p w).2
  | OpLogin p => (loginLocalAccount p w).2
  | OpGoogle p => (upsertGoogleUser p w).2
  | OpIssue user createdBy => (issueTokenPair user createdBy w).2
  | OpRefresh token => (refreshAccessToken token w).2
  | OpRevoke token => (revokeRefreshToken token w).2
  | OpAuthenticate token => (authenticateAccessToken token w).2
  | OpFindById id => (auth_findById id w).2
  | OpSearch query id => (searchUsers query id w).2
  | OpRecord p e r f u s => (recordAttempt p e r f u s w).2
  end.

Definition run_ops (w : World) (ops : list AuthOp) : World := foldl run_op w ops.

Lemma run_op_later w o : sessions_later (w_sessions w) (w_sessions (run_op w o)).
Proof.
  assert (from_c0 (w_sessions w) w) as Hw by (unfold from_c0; reflexivity).
  destruct o; cbn [run_op].
  - by apply later_registerLocalAccount.
  - by apply later_loginLocalAccount.
  - by apply later_upsertGoogleUser.
  - by apply later_issueTokenPair.
  - by apply later_refreshAccessToken.
  - by apply later_revokeRefreshToken.
  - by apply later_authenticateAccessToken.
  - by apply later_auth_findById.
  - by apply later_searchUsers.
  - by apply later_recordAttempt.
Qed.

Lemma run_ops_later w ops : sessions_later (w_sessions w) (w_sessions (run_ops w ops)).
Proof.
  revert w. induction ops as [|o ops IH]; intros w; simpl; [reflexivity|].
  etrans; [apply run_op_later|apply IH].
Qed.

Lemma refresh_of_revoked token w c sid s r :
  jwt_verify (REFRESH_TOKEN_SECRET env) token (clock (w_step w)) = TokenValid c →
  oid_parse (cl_sid c) = Some sid → w_sessions w !! sid = Some s → is_Some (se_revokedAt s) →
  (refreshAccessToken token w).1 ≠ Ok r.
Proof.
  intros Hv Hp Hs Hr. unfold refreshAccessToken, verifyRefreshToken, refresh_failed, recordAttempt,
    now, tick, cast_oid, model_findById, findById.
  run_simpl. rewrite Hv. cbn. rewrite Hp. cbn. rewrite Hs. cbn.
  case_bool_decide; cbn; [done|].
  unfold is_revoked. by rewrite bool_decide_eq_true_2.
Qed.

(** C26: once a refresh token has been revoked (logout), no sequence of operations brings
    its session back: neither an access token nor a refresh token of that session is
    accepted ever again. *)
Theorem revocation_final token w c sid s ops :
  jwt_verify (REFRESH_TOKEN_SECRET env) token (clock (w_step w)) = TokenValid c →
  oid_parse (cl_sid c) = Some sid → w_sessions w !! sid = Some s →
  let w' := run_ops (revokeRefreshToken token w).2 ops in
  (∀ access c' user,
     jwt_verify (ACCESS_TOKEN_SECRET env) access (clock (w_step w')) = TokenValid c' →
     oid_parse (cl_sid c') = Some sid →
     (authenticateAccessToken access w').1 ≠ Ok (Some user))
  ∧ (∀ refresh c' response,
     jwt_verify (REFRESH_TOKEN_SECRET env) refresh (clock (w_step w')) = TokenValid c' →
     oid_parse (cl_sid c') = Some sid →
     (refreshAccessToken refresh w').1 ≠ Ok response).
Proof.
  intros Hv Hp Hs w'.
  assert (∃ s', w_sessions w' !! sid = Some s' ∧ is_Some (se_revokedAt s')) as (s' & Hs' & Hr').
  { destruct (run_ops_later (revokeRefreshToken token w).2 ops sid
      (set_revoked (clock (S (w_step w))) s)) as (s' & Hs' & Hl).
    - unfold revokeRefreshToken, verifyRefreshToken, now, tick, cast_oid, model_findById, findById.
      run_simpl. rewrite Hv. cbn. rewrite Hp. cbn. rewrite Hs. cbn.
      by rewrite lookup_alter_eq, Hs.
    - exists s'. split; [done|]. apply Hl. by eexists. }
  split.
  - intros access c' user Hv' Hp' Ha.
    apply authenticate_token_grants in Ha as (c2 & sid2 & s2 & i & u & E1 & E2 & E3 & _ & E4 & _).
    rewrite Hv' in E1. simplify_eq. by destruct Hr' as [? ?]; congruence.
  - intros refresh c' response Hv' Hp'. by eapply refresh_of_revoked.
Qed.
End ops.

(** ** Accounts *)

Lemma preserves_issueTokenPair `{Host} `{Mongo} (I : World → Prop) `{!Stepless I} user createdBy :
  (∀ f w, I w → I (upd_sessions f w)) → (∀ f w, I w → I (upd_attempts f w)) →
  preserves I (issueTokenPair user createdBy).
Proof.
  intros Hs Ha.
  assert (∀ i s, preserves I (model_insert refreshSessionModel i s))
    by (intros; apply preserves_insert; auto).
  assert (∀ p e r f u s, preserves I (recordAttempt p e r f u s))
    by (intros; apply preserves_modify; auto).
  unfold issueTokenPair, parse_oid, signRefreshToken, session_save_new,
    buildRefreshSessionResponse, signAccessToken, sign.
  inv_solve; auto.
Qed.

Lemma run_local_attempt p e r f u s w :
  local_attempt p e r f u s w
  = (Ok tt, upd_attempts (λ l, l ++ [mkAttempt p (Some e) r f u s]) w).
Proof. done. Qed.

Lemma issueTokenPair_users `{Host} `{Mongo} user createdBy w :
  w_users (issueTokenPair user createdBy w).2 = w_users w.
Proof.
  assert (Stepless (λ w', w_users w' = w_users w)) by by split.
  by apply (preserves_issueTokenPair (λ w', w_users w' = w_users w)).
Qed.

Section accounts.
Context `{Host} `{MongoLaws}.

(** The record a successful registration leaves, and that it alone has the e-mail. *)
Lemma user_create_Ok u w p w' :
  user_create u w = (Ok p, w') →
  p.2 = u ∧ w_users w' = <[p.1 := u]> (w_users w)
  ∧ (∀ j v, w_users w !! j = Some v → u_email v ≠ u_email u).
Proof.
  unfold user_create, new_oid, tick, model_exists, model_insert. run_simpl. cbn.
  destruct (user_complete u); cbn; [|done].
  destruct (mg_exists _ _) eqn:Ec; cbn; [done|].
  case_bool_decide; cbn; [done|]. intros ?; simplify_eq. split_and!; [done|done|].
  intros j v Hv He. pose proof (proj1 (mg_exists_false _ _) Ec j v Hv) as Hc.
  unfold user_clash in Hc. simpl in Hc. by rewrite bool_decide_eq_true_2 in Hc.
Qed.

(** The hypotheses under which the processor hashes a password. *)
Record can_hash : Prop := {
  hash_processor : serves_processor;
  hash_env : valid_env env;
  hash_socket : socket_refuses (PROCESSOR_REMOTE_PORT env) (PROCESSOR_REMOTE_TIMEOUT_MS env) = None;
}.

Lemma registerLocalAccount_Ok reg w issued w1 :
  can_hash → plain_text (normalizeEmail (rg_email reg)) → plain_text (rg_password reg) →
  word (w_auth_next_id w) →
  registerLocalAccount reg w = (Ok issued, w1) →
  AUTH_LOCAL_ENABLED env = true
  ∧ ∃ i t, let u := mkUser None (normalizeEmail (rg_email reg)) (normalizeTextField (rg_username reg))
                  (normalizeTextField (rg_displayName reg)) None (js "active")
                  (Some (mkLocalAuth true (Some (sha1_hex (rg_password reg))) (Some t)
                           (Some (js "register")))) in
       w_users w1 !! i = Some u
       ∧ ∀ j v, w_users w1 !! j = Some v → u_email v = u_email u → j = i.
Proof.
  intros [Hn Henv Hs] He Hp Hid. unfold registerLocalAccount, isLocalAuthEnabled.
  destruct (AUTH_LOCAL_ENABLED env) eqn:Een; [|by run_simpl; cbn].
  intros Hr. split; [done|].
  unfold local_attempt, recordAttempt, model_exists, now, tick in Hr. run_simpl_in Hr.
  cbn in Hr. destruct (mg_exists (email_is _) _); cbn in Hr; [done|].
  destruct (mg_exists (username_is _) _); cbn in Hr; [done|].
  rewrite run_hashPasswordWithSha1 in Hr by done. cbn in Hr.
  destruct (user_create _ _) as [[p| |] w2] eqn:Ec; [|done|done].
  apply user_create_Ok in Ec as (Hp2 & Hu & Hno). simpl in Hu, Hno.
  destruct (issueTokenPair _ _ _) as [[iss| |] w3] eqn:Ei; simplify_eq; cbn.
  assert (w_users w3 = w_users w2) as Hu3.
  { change (w_users (Ok issued, w3).2 = w_users w2). rewrite <-Ei.
    apply issueTokenPair_users. }
  eexists (p.1), _. cbn. rewrite Hu3, Hu, lookup_insert_eq. split; [done|].
  intros j v Hj He'. destruct (decide (p.1 = j)) as [|Hne]; [done|].
  rewrite lookup_insert_ne in Hj by done. by destruct (Hno j v).
Qed.

(** C38: after a registration, signing in with an e-mail of the same normal form reaches
    the token issue exactly when the password has the hash of the registered one, and
    is refused as wrong credentials otherwise. *)
Theorem register_then_login reg w issued w1 w2 email password :
  can_hash → plain_text (normalizeEmail (rg_email reg)) → plain_text (rg_password reg) →
  plain_text password → word (w_auth_next_id w) → word (w_auth_next_id w2) →
  registerLocalAccount reg w = (Ok issued, w1) → w_users w2 = w_users w1 →
  normalizeEmail email = normalizeEmail (rg_email reg) →
  ∃ i u w3, w_users w1 !! i = Some u ∧ u_username u = normalizeTextField (rg_username reg)
    ∧ w_users w3 = w_users w2 ∧ w_sessions w3 = w_sessions w2
    ∧ (sha1_hex password = sha1_hex (rg_password reg) →
       loginLocalAccount (mkLoginDto email password) w2
       = (session ← issueTokenPair (toSessionUser (i, u)) (js "local-login");
          local_attempt local_login (normalizeEmail email) succeeded None (Some (oid_show i))
            (Some (is_sessionId session)) ;;
          mret session) w3)
    ∧ (sha1_hex password ≠ sha1_hex (rg_password reg) →
       (loginLocalAccount (mkLoginDto email password) w2).1
       = Throw local_auth_invalid_credentials).
Proof.
  intros Hc He Hp Hp2 Hid Hid2 Hr Hu Hee.
  destruct (registerLocalAccount_Ok _ _ _ _ Hc He Hp Hid Hr) as (Een & i & t & Hi & Hone).
  destruct Hc as [Hn Henv Hs].
  exists i. eexists. eexists. split; [exact Hi|]. split; [done|].
  assert (mg_findOne (email_is (normalizeEmail email)) (w_users w2) = Some (i,
    mkUser None (normalizeEmail (rg_email reg)) (normalizeTextField (rg_username reg))
      (normalizeTextField (rg_displayName reg)) None (js "active")
      (Some (mkLocalAuth true (Some (sha1_hex (rg_password reg))) (Some t)
               (Some (js "register")))))) as Hf.
  { rewrite Hu. apply findOne_unique; [done|by apply bool_decide_eq_true|].
    intros j v Hj Hv. apply bool_decide_eq_true in Hv. apply (Hone j v); [done|].
    simpl in *. by rewrite Hv, Hee. }
  unfold loginLocalAccount, isLocalAuthEnabled. rewrite Een.
  unfold model_findOne. run_simpl. cbn. rewrite run_local_attempt. cbn.
  rewrite Hf. cbn. rewrite (bool_decide_eq_false_2 (js "active" ≠ js "active")) by auto.
  cbn. unfold local_password. cbn. rewrite sha1_hex_truthy. cbn.
  rewrite Hee, run_hashPasswordWithSha1 by done. cbn.
  split; [|split; [|split]]; cycle 2.
  - intros Eq. rewrite bool_decide_eq_false_2 by auto. reflexivity.
  - intros Ne. by rewrite bool_decide_eq_true_2, run_local_attempt by done.
  - done.
  - done.
Qed.

(** Token issue fails only with the host's errors. *)
Lemma issueTokenPair_plain user createdBy : throws_only plain (issueTokenPair user createdBy).
Proof.
  unfold issueTokenPair, parse_oid, signRefreshToken, session_save_new, recordAttempt,
    buildRefreshSessionResponse, signAccessToken, sign, model_exists.
  exn_solve.
Qed.

(** Every sign-in that is refused leaves accounts and sessions as they were and
    exactly two attempts on record: the start and the failure with its reason. *)
Theorem login_refusal_recorded payload w k body w' :
  isLocalAuthEnabled = true →
  loginLocalAccount payload w = (Throw (HttpException k body), w') →
  w_users w' = w_users w ∧ w_sessions w' = w_sessions w
  ∧ ∃ reason user,
      w_attempts w' = w_attempts w ++
        [mkAttempt local_login (Some (normalizeEmail (lg_email payload))) started None None None;
         mkAttempt local_login (Some (normalizeEmail (lg_email payload))) failed (Some reason)
           user None].
Proof.
  intros Hen Hr. unfold loginLocalAccount in Hr. rewrite Hen in Hr.
  unfold model_findOne in Hr. run_simpl_in Hr. cbn in Hr. rewrite run_local_attempt in Hr.
  cbn in Hr. set (email := normalizeEmail (lg_email payload)) in *.
  set (w1 := upd_attempts _ w) in Hr.
  assert (∀ reason user w2 w3, w_users w2 = w_users w → w_sessions w2 = w_sessions w →
    w_attempts w2 = w_attempts w1 →
    w3 = (local_attempt local_login email failed (Some reason) user None w2).2 →
    w_users w3 = w_users w ∧ w_sessions w3 = w_sessions w ∧ ∃ reason user,
      w_attempts w3 = w_attempts w ++ [mkAttempt local_login (Some email) started None None None;
        mkAttempt local_login (Some email) failed (Some reason) user None]) as Hdone.
  { intros reason user w2 w3 Hu Hs Ha ->. rewrite run_local_attempt. simpl.
    split_and!; [done|done|]. exists reason, user. rewrite Ha. unfold w1. simpl.
    by rewrite <-app_assoc. }
  destruct (mg_findOne _ _) as [[i u]|]; [|rewrite run_local_attempt in Hr; simplify_eq; by eapply (Hdone _ _ w1)].
  case_bool_decide; [rewrite run_local_attempt in Hr; simplify_eq; by eapply (Hdone _ _ w1)|].
  destruct (local_password u) as [stored|];
    [|rewrite run_local_attempt in Hr; simplify_eq; by eapply (Hdone _ _ w1)].
  assert (read_only (hashPasswordWithSha1 email (lg_password payload))) as Hh
    by (intros d; by apply preserves_hashPasswordWithSha1, stepless_database).
  apply (read_only_run _ w1) in Hh.
  destruct (hashPasswordWithSha1 _ _ w1) as [[h|e|] w2] eqn:Eh; [| |done];
    injection Hh as Hu Ha Hs _ _ _ _ _; rewrite ?run_local_attempt in Hr.
  - case_bool_decide; [rewrite run_local_attempt in Hr; simplify_eq; by eapply (Hdone _ _ w2)|].
    exfalso. destruct (issueTokenPair _ _ w2) as [[s|e|] w3] eqn:Ei; simplify_eq.
    by destruct (issueTokenPair_plain _ _ _ _ _ Ei).
  - simplify_eq. by eapply (Hdone _ _ w2).
Qed.
End accounts.

(** ** The username loop *)

Section usernames.
Context (base : jsstring) (taken : jsstring → bool).

Definition candidate (j : nat) : jsstring := base ++ js "-" ++ show_nat j.

Lemma candidate_inj i j : candidate i = candidate j → i = j.
Proof. unfold candidate. intros E. simplify_list_eq. by apply show_nat_inj. Qed.

Lemma collision_loop_None fuel k :
  collision_loop fuel base taken k = None →
  Forall (λ j, taken (candidate j) = true) (seq k fuel).
Proof.
  revert k. induction fuel as [|f IH]; intros k; [by constructor|].
  cbn [collision_loop]. fold (candidate k). destruct (taken (candidate k)) eqn:E; [|done].
  intros Hn. constructor; [done|by apply IH].
Qed.

Lemma collision_loop_Some fuel k name :
  collision_loop fuel base taken k = Some name →
  ∃ j, (k ≤ j)%nat ∧ name = candidate j ∧ taken name = false
       ∧ ∀ i, (k ≤ i < j)%nat → taken (candidate i) = true.
Proof.
  revert k. induction fuel as [|f IH]; intros k; [done|].
  cbn [collision_loop]. fold (candidate k). destruct (taken (candidate k)) eqn:E.
  - intros (j & Hj & -> & Ht & Hi)%IH. exists j. split_and!; [lia|done|done|].
    intros i Hki. destruct (decide (i = k)) as [->|]; [done|]. apply Hi. lia.
  - intros ?; simplify_eq. exists k. split_and!; [done|done|done|lia].
Qed.

(** Only finitely many names are taken, so the loop ends. *)
Lemma collision_loop_ends (names : list jsstring) k :
  (∀ c, taken c = true → c ∈ names) →
  is_Some (collision_loop (S (length names)) base taken k).
Proof.
  intros Hin. destruct (collision_loop _ _ _ _) as [name|] eqn:E; [by eexists|].
  apply collision_loop_None in E. exfalso.
  assert (length (candidate <$> seq k (S (length names))) ≤ length names)%nat as Hl.
  { apply submseteq_length, NoDup_submseteq.
    - apply NoDup_fmap_2; [intros i j; apply candidate_inj|apply NoDup_seq].
    - intros c (j & -> & Hj)%list_elem_of_fmap. apply Hin.
      rewrite Forall_forall in E. by apply E. }
  rewrite length_fmap, length_seq in Hl. lia.
Qed.
End usernames.

(** C39: the username chosen for a Google account always exists, is free, and is the base
    name or the first free [base-k]; the loop needs at most one round per account. *)
Theorem resolveUsernameCollision_free `{MongoLaws} (users : collection User) base :
  let taken c := mg_exists (username_is c) users in
  ∃ name, resolveUsernameCollision (S (size users)) base taken = Some name
    ∧ (∀ i u, users !! i = Some u → u_username u ≠ name)
    ∧ (name = base
       ∨ ∃ k, (1 ≤ k)%nat ∧ name = candidate base k ∧ taken base = true
           ∧ ∀ j, (1 ≤ j < k)%nat → taken (candidate base j) = true).
Proof.
  intros taken. unfold resolveUsernameCollision.
  assert (∀ c, taken c = false → ∀ i u, users !! i = Some u → u_username u ≠ c) as Hfree.
  { intros c Hc i u Hu He. apply (mg_exists_false (username_is c)) with (i:=i) (d:=u) in Hc;
      [|done]. by apply bool_decide_eq_false in Hc. }
  destruct (taken base) eqn:Eb; simpl; [|exists base; split_and!; eauto].
  assert (size users = length (u_username <$> (map_to_list users).*2)) as ->
    by by rewrite !length_fmap, length_map_to_list.
  destruct (collision_loop_ends base taken (u_username <$> (map_to_list users).*2) 1)
    as [name En].
  { intros c Hc. unfold taken, mg_exists in Hc.
    destruct (mg_findOne _ _) as [[i u]|] eqn:Ef; [|done].
    apply findOne_Some in Ef as [Hu Hb]. apply bool_decide_eq_true in Hb. simpl in Hb.
    subst c. apply list_elem_of_fmap. exists u. split; [done|].
    apply list_elem_of_fmap. exists (i, u). split; [done|]. by apply elem_of_map_to_list. }
  exists name. split; [done|].
  apply collision_loop_Some in En as (k & Hk & -> & Ht & Hj). split; [by apply Hfree|].
  right. exists k. by split_and!.
Qed.

(** ** Witnesses *)

Definition demo_reg : RegisterLocalAuthDto :=
  mkRegisterDto (js "An@example.com") (js "an") (js "An") (js "secret") (js "secret").

#[local] Instance demo_host_inst : Host := demo_host demo_env.
#[local] Instance demo_mongo_inst : Mongo := list_mongo.
#[local] Instance demo_laws_inst : MongoLaws := list_mongo_laws.

Lemma demo_can_hash : can_hash.
Proof. split; [apply demo_serves_processor|apply demo_env_valid|done]. Qed.

Lemma register_then_login_witness :
  ∃ issued w1, registerLocalAccount demo_reg empty_world = (Ok issued, w1)
  ∧ ∃ i u w3, w_users w1 !! i = Some u ∧ u_username u = js "an"
    ∧ w_users w3 = w_users w1 ∧ w_sessions w3 = w_sessions w1
    ∧ (sha1_hex (js "secret") = sha1_hex (rg_password demo_reg) →
       loginLocalAccount (mkLoginDto (js " an@EXAMPLE.com") (js "secret")) w1
       = (session ← issueTokenPair (toSessionUser (i, u)) (js "local-login");
          local_attempt local_login (normalizeEmail (js " an@EXAMPLE.com")) succeeded None
            (Some (oid_show i)) (Some (is_sessionId session)) ;;
          mret session) w3)
    ∧ (sha1_hex (js "secret") ≠ sha1_hex (rg_password demo_reg) →
       (loginLocalAccount (mkLoginDto (js " an@EXAMPLE.com") (js "secret")) w1).1
       = Throw local_auth_invalid_credentials).
Proof.
  destruct (registerLocalAccount demo_reg empty_world) as [[issued|e|] w1] eqn:E;
    [|by vm_compute in E..].
  exists issued, w1. split; [done|].
  apply (register_then_login demo_reg empty_world issued w1 w1).
  - exact demo_can_hash.
  - apply plain_text_check. by vm_compute.
  - apply plain_text_check. by vm_compute.
  - apply plain_text_check. by vm_compute.
  - by split.
  - assert (w_auth_next_id w1 = 2) as ->; [|by split].
    apply (f_equal (λ r, w_auth_next_id r.2)) in E.
    cbn [snd] in E. rewrite <-E. by vm_compute.
  - exact E.
  - reflexivity.
  - by vm_compute.
Defined.

Lemma login_refusal_recorded_witness :
  let payload := mkLoginDto (js "nobody@example.com") (js "x") in
  let w' := (loginLocalAccount payload empty_world).2 in
  w_users w' = ∅ ∧ w_sessions w' = ∅
  ∧ ∃ reason user,
      w_attempts w' = [] ++
        [mkAttempt local_login (Some (normalizeEmail (js "nobody@example.com"))) started
           None None None;
         mkAttempt local_login (Some (normalizeEmail (js "nobody@example.com"))) failed
           (Some reason) user None].
Proof.
  intros payload w'.
  apply (login_refusal_recorded payload empty_world Unauthorized
    (mkBody None (Some (js "local_auth_invalid_credentials"))
       (Some (js "Email or password is incorrect"))) w'); by vm_compute.
Defined.

Definition demo_claims : Claims := mkClaims (js "refresh") [70] [50] (Some (js "1")).
Definition demo_token : jsstring :=
  default [] (demo_sign (js "refresh") demo_claims (num 604800) 1700000000000).
Definition demo_session : RefreshSession :=
  mkSession (Oid 70) demo_token 1700000000000 1700604800000 None None session_active
    (js "local-login").
Definition demo_session_world : World := upd_sessions (λ _, {[Oid 50 := demo_session]}) empty_world.

Lemma revocation_final_witness :
  let w' := run_ops (revokeRefreshToken demo_token demo_session_world).2 [OpRefresh demo_token] in
  (∀ access c' user,
     jwt_verify (ACCESS_TOKEN_SECRET env) access (clock (w_step w')) = TokenValid c' →
     oid_parse (cl_sid c') = Some (Oid 50) →
     (authenticateAccessToken access w').1 ≠ Ok (Some user))
  ∧ (∀ refresh c' response,
     jwt_verify (REFRESH_TOKEN_SECRET env) refresh (clock (w_step w')) = TokenValid c' →
     oid_parse (cl_sid c') = Some (Oid 50) →
     (refreshAccessToken refresh w').1 ≠ Ok response).
Proof.
  apply (revocation_final demo_token demo_session_world demo_claims (Oid 50) demo_session);
    by vm_compute.
Defined.

Lemma resolveUsernameCollision_free_witness :
  ∃ name,
    resolveUsernameCollision (S (size (∅ : collection User))) (js "an")
      (λ c, mg_exists (username_is c) (∅ : collection User))
    = Some name
    ∧ (∀ i u, (∅ : collection User) !! i = Some u → u_username u ≠ name)
    ∧ (name = js "an"
       ∨ ∃ k, (1 ≤ k)%nat ∧ name = candidate (js "an") k
           ∧ mg_exists (username_is (js "an")) (∅ : collection User) = true
           ∧ ∀ j, (1 ≤ j < k)%nat →
                  mg_exists (username_is (candidate (js "an") j)) (∅ : collection User) = true).
Proof. apply (resolveUsernameCollision_free (∅ : collection User) (js "an")). Defined.
