(* ===== verification/AuthController.v ===== *)
(** * The authentication endpoints and guards

    [auth.controller.ts], [guards/*.ts] and [chat/utils/socket-auth.util.ts].  A
    handler works on the part of the request it reads ([Request]) and on the response
    under construction, the [w_http] field of the world. *)

From Stdlib Require Import QArith_base.
From S2P Require Import Prelude JsText Wire Driver Env Store Model Instance Encryption Auth AuthFacts.
Open Scope Z_scope.

(** ** [decodeURIComponent] *)

Definition hex_value (u : Z) : option Z :=
  if (48 <=? u) && (u <=? 57) then Some (u - 48)
  else if (65 <=? u) && (u <=? 70) then Some (u - 55)
  else if (97 <=? u) && (u <=? 102) then Some (u - 87)
  else None.

(** The bytes of a run of escapes, decoded strictly. *)
Definition decode_run (bytes : list Z) : option jsstring :=
  cps ← mapM id (utf8_scan bytes); Some (flat_map units_of_cp cps).

Fixpoint decode_escapes (s : jsstring) (run : list Z) : option jsstring :=
  match s with
  | [] => decode_run run
  | u :: r =>
      if u =? 37 then
        match r with
        | a :: b :: r' =>
            match hex_value a, hex_value b with
            | Some x, Some y => decode_escapes r' (run ++ [16 * x + y])
            | _, _ => None
            end
        | _ => None
        end
      else
        before ← decode_run run; after ← decode_escapes r [];
        Some (before ++ u :: after)
  end.

Definition decodeURIComponent (s : jsstring) : option jsstring := decode_escapes s [].

(** ** The request *)

Record Request := mkReq {
  rq_cookie : option jsstring;
  rq_authorization : option jsstring;
  rq_user : option SessionUser;
  rq_has_session : bool;
  (** [session.destroy]: absent, or what it calls back with. *)
  rq_destroy : option (option jsstring);
}.

(** ** Guards *)

Definition bearer : jsstring := js "Bearer ".

Definition access_token_missing : Exn :=
  exn_code Unauthorized (js "access_token_missing") (js "Access token is required").
Definition access_token_expired : Exn :=
  exn_code Unauthorized (js "access_token_expired") (js "Access token is expired or invalid").

(** [AccessTokenAuthGuard.canActivate]: the user it puts on the request. *)
Definition canActivate `{Host} `{Mongo} (authorization : option jsstring) : M World SessionUser :=
  match authorization with
  | None => throw access_token_missing
  | Some authorization =>
      throw_if (negb (startsWith authorization bearer)) access_token_missing ;;
      let token := trim (drop (length bearer) authorization) in
      throw_if (negb (truthy token)) access_token_missing ;;
      user ← authenticateAccessToken token;
      or_throw user access_token_expired
  end.

(** [SessionAuthGuard.canActivate]. *)
Definition session_canActivate (session_user : option SessionUser) : outcome bool :=
  match session_user with
  | Some _ => Ok true
  | None => Throw (exn_text Unauthorized (js "Authentication required"))
  end.

(** [GoogleAuthGuard.getAuthenticateOptions]. *)
Inductive AuthenticateOptions :=
  | FailureRedirect (path : jsstring)
  | AuthScope (scopes : list jsstring).

Definition getAuthenticateOptions (path : option jsstring) : AuthenticateOptions :=
  match path with
  | Some p => if includes p (js "/callback") then FailureRedirect (js "/auth/google/failure")
              else AuthScope [js "email"; js "profile"]
  | None => AuthScope [js "email"; js "profile"]
  end.

(** [socket-auth.util.ts]: the handshake's [auth.token] when it is a string, else the
    [authorization] header. *)
Record Handshake := mkHandshake { hs_token : option jsstring; hs_authorization : option jsstring }.

Definition readToken (h : Handshake) : option jsstring :=
  let from_header :=
    match hs_authorization h with
    | Some authorization =>
        if startsWith authorization bearer then
          let token := trim (drop (length bearer) authorization) in
          if truthy token then Some token else None
        else None
    | None => None
    end in
  match hs_token h with
  | Some t => if truthy (trim t) then Some (trim t) else from_header
  | None => from_header
  end.

Definition authenticateSocketClient `{Host} `{Mongo} (h : Handshake) : M World (option SessionUser) :=
  match readToken h with
  | None => mret None
  | Some token => authenticateAccessToken token
  end.

(** ** [AuthController] *)

Section auth_controller.
Context `{Host} `{Mongo}.

Definition upd_http_field (f : Http → Http) : M World () := modify (upd_http f).

Definition setRefreshCookie (refreshToken : jsstring) : M World () :=
  upd_http_field (λ h, mkHttp
    (h_cookies h ++ [SetCookie (REFRESH_COOKIE_NAME env) refreshToken
                       (match REFRESH_TOKEN_TTL_SECONDS env with
                        | Fin q => Fin (Qmult q 1000) | n => n end)])
    (h_redirect h) (h_session_user h)).

Definition clearRefreshCookie : M World () :=
  upd_http_field (λ h, mkHttp (h_cookies h ++ [ClearCookie (REFRESH_COOKIE_NAME env)])
    (h_redirect h) (h_session_user h)).

Definition redirect (url : jsstring) : M World () :=
  upd_http_field (λ h, mkHttp (h_cookies h) (Some url) (h_session_user h)).

(** [if (request.session) request.session.user = user]. *)
Definition set_session_user (request : Request) (user : SessionUser) : M World () :=
  if rq_has_session request
  then upd_http_field (λ h, mkHttp (h_cookies h) (h_redirect h) (Some user))
  else mret tt.

Definition buildFrontendRedirect (error : option jsstring) : M World jsstring :=
  match error with
  | None => mret frontend_url
  | Some error => or_throw (url_set_param frontend_url (js "authError") error) (host_error UrlError)
  end.

Definition getRefreshTokenFromRequest (request : Request) : M World (option jsstring) :=
  match rq_cookie request with
  | None => mret None
  | Some cookieHeader =>
      if negb (truthy cookieHeader) then mret None
      else
        let cookieParts := trim <$> split_on 59 cookieHeader in
        let prefix := REFRESH_COOKIE_NAME env ++ js "=" in
        match List.find (λ part, startsWith part prefix) cookieParts with
        | None => mret None
        | Some cookieValue =>
            token ← or_throw (decodeURIComponent (drop (length prefix) cookieValue))
                      (host_error UriError);
            mret (Some token)
        end
  end.

Definition google_attempt (emailCandidate : option jsstring) (result : AttemptResult)
    (reason userId : option jsstring) : M World () :=
  recordAttempt None emailCandidate result reason userId None.

Definition startGoogleLogin : M World () := google_attempt None started None None.

Definition handleGoogleCallback (request : Request) : M World () :=
  match rq_user request with
  | None =>
      google_attempt None failed (Some (js "missing-oauth-user")) None ;;
      url ← buildFrontendRedirect (Some (js "oauth_failed"));
      redirect url
  | Some oauthUser =>
      set_session_user request oauthUser ;;
      issuedSession ← issueTokenPair oauthUser (js "google-login");
      setRefreshCookie (is_refreshToken issuedSession) ;;
      google_attempt (Some (su_email oauthUser)) succeeded None (Some (su_id oauthUser)) ;;
      url ← buildFrontendRedirect None;
      redirect url
  end.

Definition handleGoogleFailure : M World () :=
  google_attempt None cancelled (Some (js "google-auth-cancelled")) None ;;
  url ← buildFrontendRedirect (Some (js "google_auth_cancelled"));
  redirect url.

(** The end of [registerLocal] and [loginLocal]. *)
Definition deliver_session (request : Request) (issued : IssuedSession)
    : M World RefreshSessionResponse :=
  set_session_user request (rsp_user (is_response issued)) ;;
  setRefreshCookie (is_refreshToken issued) ;;
  mret (is_response issued).

Definition registerLocal (payload : RegisterLocalAuthDto) (request : Request)
    : M World RefreshSessionResponse :=
  match validateRegisterLocalAuthDto payload with
  | Invalid code message => throw (exn_code Unauthorized code message)
  | Valid value => issued ← registerLocalAccount value; deliver_session request issued
  end.

Definition loginLocal (payload : LoginLocalAuthDto) (request : Request)
    : M World RefreshSessionResponse :=
  match validateLoginLocalAuthDto payload with
  | Invalid code message => throw (exn_code Unauthorized code message)
  | Valid value => issued ← loginLocalAccount value; deliver_session request issued
  end.

(** The guarded endpoints; [authorization] is the header the guard checks. *)
Definition getCurrentUser (authorization : option jsstring) : M World SessionUser :=
  canActivate authorization.

Definition search_users (authorization : option jsstring) (query : option jsstring)
    : M World (list SessionUser) :=
  user ← canActivate authorization;
  searchUsers (default [] query) (su_id user).

Definition refresh_token_missing : Exn :=
  exn_code Unauthorized (js "refresh_token_missing") (js "Refresh token is required").

Definition refresh (request : Request) : M World RefreshSessionResponse :=
  refreshToken ← getRefreshTokenFromRequest request;
  match refreshToken with
  | None => throw refresh_token_missing
  | Some t =>
      if negb (truthy t) then throw refresh_token_missing
      else try_catch (refreshAccessToken t) (λ error, clearRefreshCookie ;; throw error)
  end.

Definition logout (request : Request) : M World () :=
  refreshToken ← getRefreshTokenFromRequest request;
  match refreshToken with
  | Some t => if truthy t then revokeRefreshToken t else mret tt
  | None => mret tt
  end ;;
  clearRefreshCookie ;;
  match rq_destroy request with
  | Some (Some message) => throw (PlainError message)
  | Some None => upd_http_field (λ h, mkHttp (h_cookies h) (h_redirect h) None)
  | None => mret tt
  end.

(** [getStatus]: the feature and its status. *)
Definition getStatus : jsstring * jsstring := (js "auth", js "ready").

(** [auth.serializer.ts]: what passport keeps in the session for a user, and the user
    it restores from it, or the error it reports. *)
Definition serializeUser (user : SessionUser) : jsstring := su_id user.
Definition deserializeUser (id : jsstring) : M World (option SessionUser + Exn) :=
  try_catch (user ← auth_findById id; mret (inl user)) (λ error, mret (inr error)).
End auth_controller.

(** ** Properties *)

(** A cookie pair as a browser writes it: no semicolon, no space at the ends. *)
Definition cookie_part (p : jsstring) : Prop := (59 ∉ p) ∧ trim p = p ∧ p ≠ [].

Lemma trim_space_cons p : trim p = p → p ≠ [] → trim (32 :: p) = p.
Proof. intros Ht _. unfold trim at 1. simpl. exact Ht. Qed.

Lemma split_cookie_header parts :
  parts ≠ [] → Forall cookie_part parts →
  trim <$> split_on 59 (join (js "; ") parts) = parts.
Proof.
  intros Hne Hall. destruct Hall as [|p parts [Hp1 [Hp2 Hp3]] Hall]; [done|]. clear Hne.
  revert p Hp1 Hp2 Hp3. induction Hall as [|q parts [Hq1 [Hq2 Hq3]] Hall IH]; intros p Hp1 Hp2 Hp3.
  - simpl. rewrite split_on_none by done. simpl. by rewrite Hp2.
  - change (join (js "; ") (p :: q :: parts)) with (p ++ 59 :: 32 :: join (js "; ") (q :: parts)).
    rewrite split_on_app by done. rewrite fmap_cons, Hp2. f_equal.
    specialize (IH q Hq1 Hq2 Hq3).
    destruct (split_on 59 (join (js "; ") (q :: parts))) as [|x xs] eqn:E; [done|].
    assert (split_on 59 (32 :: join (js "; ") (q :: parts)) = (32 :: x) :: xs) as ->
      by (cbn [split_on]; by rewrite E).
    rewrite fmap_cons in *. injection IH as Hx Hxs. by rewrite Hxs, <-Hx.
Qed.

Section controller_props.
Context `{Host} `{Mongo}.

(** The refresh token is the decoded value of the first cookie of that name, whatever
    other cookies the browser sends. *)
Theorem refresh_cookie_found parts before value after w :
  Forall cookie_part parts →
  parts = before ++ (REFRESH_COOKIE_NAME env ++ js "=" ++ value) :: after →
  Forall (λ p, startsWith p (REFRESH_COOKIE_NAME env ++ js "=") = false) before →
  getRefreshTokenFromRequest
    (mkReq (Some (join (js "; ") parts)) None None true None) w
  = match decodeURIComponent value with
    | Some token => (Ok (Some token), w)
    | None => (Throw (host_error UriError), w)
    end.
Proof.
  intros Hall Hparts Hbefore. unfold getRefreshTokenFromRequest. cbn [rq_cookie].
  assert (parts ≠ []) as Hne by (rewrite Hparts; by destruct before).
  assert (truthy (join (js "; ") parts) = true) as ->.
  { destruct Hall as [|p ps (_ & _ & Hp)]; [done|]. destruct p; [done|]. by destruct ps. }
  cbn [negb]. rewrite split_cookie_header by done.
  assert (List.find (λ part, startsWith part (REFRESH_COOKIE_NAME env ++ js "=")) parts
          = Some (REFRESH_COOKIE_NAME env ++ js "=" ++ value)) as ->.
  { rewrite Hparts. clear Hall Hparts Hne.
    induction Hbefore as [|p before Hp _ IH]; cbn [app List.find].
    - by rewrite app_assoc, startsWith_app.
    - by rewrite Hp. }
  cbv zeta. rewrite app_assoc, drop_app_length.
  by destruct (decodeURIComponent value).
Qed.

Lemma run_canActivate rest w :
  canActivate (Some (bearer ++ rest)) w
  = if truthy (trim rest)
    then (user ← authenticateAccessToken (trim rest); or_throw user access_token_expired) w
    else (Throw access_token_missing, w).
Proof.
  unfold canActivate. rewrite startsWith_app, drop_app_length. by destruct (trim rest).
Qed.

(** C27: a request passes the access-token guard, as some user, exactly when it carries a
    non-empty bearer token that is granted to that user. *)
Theorem canActivate_grants authorization w user :
  (canActivate authorization w).1 = Ok user
  ↔ ∃ rest, authorization = Some (bearer ++ rest) ∧ trim rest ≠ []
            ∧ token_grants (trim rest) w user.
Proof.
  destruct authorization as [a|]; [|split; [done|naive_solver]].
  destruct (startsWith a bearer) eqn:Es; cycle 1.
  { unfold canActivate. rewrite Es. split; [done|]. intros (rest & E & _). simplify_eq. by rewrite startsWith_app in Es. }
  apply startsWith_inv in Es as [rest ->]. rewrite run_canActivate.
  destruct (trim rest) as [|u t] eqn:Et; cbn [truthy].
  { split; [done|]. intros (r & E & Hr & _). simplify_eq; congruence. }
  rewrite <-Et, run_bind.
  pose proof (authenticate_token_grants (trim rest) w user) as Hg.
  destruct (authenticateAccessToken (trim rest) w) as [[[user'|]|e|] w'] eqn:Ea; simpl in *.
  - split.
    + intros ?; simplify_eq. exists rest. split_and!; [done|by rewrite Et|by apply Hg].
    + intros (r & E & _ & Hr). simplify_eq. apply Hg in Hr. by simplify_eq.
  - split; [done|]. intros (r & E & _ & Hr). simplify_eq. by apply Hg in Hr.
  - split; [done|]. intros (r & E & _ & Hr). simplify_eq. by apply Hg in Hr.
  - split; [done|]. intros (r & E & _ & Hr). simplify_eq. by apply Hg in Hr.
Qed.

(** A refresh that fails after a token was found clears the cookie; one that succeeds
    leaves the cookies alone (tokens are not rotated). *)
Theorem refresh_clears_cookie request token w :
  getRefreshTokenFromRequest request w = (Ok (Some token), w) → token ≠ [] →
  let '(r, w') := refresh request w in
  match r with
  | Ok _ => h_cookies (w_http w') = h_cookies (w_http w)
  | Throw _ => h_cookies (w_http w')
               = h_cookies (w_http w) ++ [ClearCookie (REFRESH_COOKIE_NAME env)]
  | Hang => True
  end.
Proof.
  intros Hg Ht. unfold refresh. rewrite run_bind, Hg.
  destruct token as [|u t]; [done|]. cbn [truthy negb].
  assert (Stepless (λ v, w_http v = w_http w)) as Hs by by split.
  assert (preserves (λ v, w_http v = w_http w) (refreshAccessToken (u :: t))) as Hp.
  { assert (∀ f, preserves (λ v, w_http v = w_http w) (modify (upd_attempts f))) as Ha
      by (intros; by apply preserves_modify).
    assert (∀ i f, preserves (λ v, w_http v = w_http w) (model_save refreshSessionModel i f)) as Hv
      by (intros; by apply preserves_modify).
    unfold refreshAccessToken, verifyRefreshToken, refresh_failed, recordAttempt, cast_oid,
      auth_findById, cast_oid, buildRefreshSessionResponse, signAccessToken, sign.
    inv_solve; auto. }
  specialize (Hp w eq_refl). unfold try_catch.
  destruct (refreshAccessToken (u :: t) w) as [[r|e|] w'] eqn:E; simpl in Hp.
  - by rewrite Hp.
  - simpl. by rewrite Hp.
  - done.
Qed.
End controller_props.

(** ** Witnesses *)

Definition demo_parts : list jsstring := [js "theme=dark"; js "refresh_token=a%20b"].

Lemma cookie_part_check p :
  bool_decide (59 ∉ p) && bool_decide (trim p = p) && bool_decide (p ≠ []) = true → cookie_part p.
Proof.
  intros [[H1 H2]%andb_true_iff H3]%andb_true_iff.
  apply bool_decide_eq_true in H1, H2, H3. by split_and!.
Qed.

Lemma refresh_cookie_found_witness :
  @getRefreshTokenFromRequest (demo_host demo_env)
    (mkReq (Some (join (js "; ") demo_parts)) None None true None) empty_world
  = match decodeURIComponent (js "a%20b") with
    | Some token => (Ok (Some token), empty_world)
    | None => (Throw (@host_error (demo_host demo_env) UriError), empty_world)
    end.
Proof.
  apply (@refresh_cookie_found (demo_host demo_env) demo_parts [js "theme=dark"] (js "a%20b") []).
  - repeat constructor; apply cookie_part_check; by vm_compute.
  - by vm_compute.
  - repeat constructor.
Defined.

Lemma refresh_clears_cookie_witness :
  let request := mkReq (Some (js "refresh_token=bad")) None None true None in
  let '(r, w') := @refresh (demo_host demo_env) request empty_world in
  match r with
  | Ok _ => h_cookies (w_http w') = []
  | Throw _ => h_cookies (w_http w') = [] ++ [ClearCookie (js "refresh_token")]
  | Hang => True
  end.
Proof.
  intros request.
  apply (@refresh_clears_cookie (demo_host demo_env) request (js "bad") empty_world);
    by vm_compute.
Defined.
