(* ===== verification/Chat.v ===== *)
(** * The chat service

    [backend/src/modules/chat/chat.service.ts], with [utils/participant-access.util.ts],
    [utils/chat-error.util.ts] and [utils/binary-message.util.ts].  Every method of
    [ChatService] is a definition of the same name.  The bodies of a [Promise.all] run
    one after the other, in the order of the list. *)

From S2P Require Import Prelude JsText Wire Driver Env Store Model Encryption Auth.
Open Scope Z_scope.

(** ** Results *)

Record ConversationSummary := mkSummary {
  sm_id : jsstring;
  sm_type : ConversationType;
  sm_title : option jsstring;
  sm_createdBy : jsstring;
  sm_createdAt : jsstring;
  sm_updatedAt : jsstring;
  sm_lastMessageAt : option jsstring;
  sm_displayTitle : jsstring;
  sm_displayAvatarUrl : option jsstring;
  sm_lastMessagePreview : option jsstring;
  sm_unreadCount : Z;
  sm_hasUnread : bool;
  sm_directPeer : option SessionUser;
}.

(** What [toDisplayMessage] adds to a message or replaces in it. *)
Record DisplayMessage := mkDisplayMessage {
  dm_message : doc Message;
  dm_senderDisplayName : option jsstring;
  dm_senderAvatarUrl : option jsstring;
  dm_content : jsstring;
  dm_decodeErrorCode : option jsstring;
  dm_displayState : MessageDisplayState;
}.

Record ChatMessagePayload := mkChatMessage {
  cm_id : oid;
  cm_conversationId : oid;
  cm_senderId : oid;
  cm_senderDisplayName : option jsstring;
  cm_senderAvatarUrl : option jsstring;
  cm_content : jsstring;
  cm_sentAt : Z;
  cm_deliveryStatus : DeliveryStatus;
  cm_seenState : SeenState;
  cm_attachment : option ChatAttachmentPayload;
  cm_isTailOfSenderGroup : bool;
  cm_decodeErrorCode : option jsstring;
  cm_displayState : MessageDisplayState;
  cm_reverseEncryptionState : ReverseEncryptionState;
  cm_isAIBotMessage : bool;
  cm_isAICommand : bool;
  cm_moderationResult : option MessageModeration;
}.

Record MessageSearchPayload := mkSearch {
  ms_messageId : jsstring;
  ms_conversationId : jsstring;
  ms_senderId : jsstring;
  ms_senderDisplayName : option jsstring;
  ms_senderAvatarUrl : option jsstring;
  ms_content : jsstring;
  ms_encryptedContent : jsstring;
  ms_sentAt : jsstring;
  ms_decodeErrorCode : option jsstring;
  ms_displayState : MessageDisplayState;
}.

(** ** Errors *)

(** [error.message] of an exception. *)
Definition exn_message (e : Exn) : jsstring :=
  match e with
  | HttpException _ body => default [] (body_message body)
  | ChatProcessingError _ m | AuthProcessingError _ m | ChatDecodeError _ m | PlainError m => m
  end.

(** [mapChatError]. *)
Definition mapChatError (e : Exn) : Exn :=
  match e with
  | ChatDecodeError code message =>
      HttpException BadRequest (mkBody (Some (js "DECODE_ERROR")) (Some code) (Some message))
  | ChatProcessingError code message =>
      HttpException ServiceUnavailable
        (mkBody (Some (js "CHAT_PROCESSING_ERROR")) (Some code) (Some message))
  | HttpException Forbidden _ | HttpException BadRequest _ => e
  | _ => HttpException BadRequest (mkBody (Some (js "CHAT_ERROR")) None (Some (exn_message e)))
  end.

(** [normalizeRealtimeError]. *)
Definition normalizeRealtimeError (e : Exn) (conversationId : option jsstring)
    : RealtimeErrorPayload :=
  match e with
  | HttpException Forbidden _ =>
      mkRealtimeError (js "FORBIDDEN")
        (js "You are not an active participant of this conversation") conversationId
  | HttpException BadRequest body | HttpException ServiceUnavailable body =>
      mkRealtimeError (default (js "BAD_REQUEST") (body_code body))
        (default (js "Chat error") (body_message body)) conversationId
  | _ => mkRealtimeError (js "CHAT_ERROR") (exn_message e) conversationId
  end.

(** [decodeBinaryMessage]. *)
Definition decodeBinaryMessage (buffer : list Z) : outcome jsstring :=
  match utf8_decode_fatal buffer with
  | None => Throw (ChatDecodeError (js "INVALID_UTF8")
                     (js "Failed to decode binary payload as UTF-8"))
  | Some text =>
      if truthy (trim text) then Ok text
      else Throw (ChatDecodeError (js "EMPTY_MESSAGE") (js "Message content cannot be empty"))
  end.

Definition not_active_participant : Exn :=
  exn_text Forbidden (js "You are not an active participant of this conversation").
Definition no_permission : Exn :=
  exn_text Forbidden (js "You do not have permission to perform this action").
Definition empty_message : Exn :=
  exn_code BadRequest (js "EMPTY_MESSAGE") (js "Message content cannot be empty").
Definition invalid_attachment_id : Exn :=
  exn_code BadRequest (js "INVALID_ATTACHMENT_ID") (js "Attachment ID is invalid").
Definition attachment_not_found : Exn :=
  exn_code BadRequest (js "ATTACHMENT_NOT_FOUND") (js "Attachment not found").
Definition attachment_not_owned : Exn :=
  exn_text Forbidden (js "Attachment does not belong to this user").
Definition attachment_not_ready : Exn :=
  exn_code BadRequest (js "ATTACHMENT_NOT_READY") (js "Attachment upload is not ready").

(** ** Changes of the documents *)

Definition set_status (st : ParticipantStatus) (p : Participant) : Participant :=
  mkParticipant (p_conversationId p) (p_userId p) (p_role p) st (p_addedBy p) (p_joinedAt p)
    (p_leftAt p) (p_lastReadMessageId p) (p_lastReadAt p) (p_unreadCount p).
Definition set_gone (st : ParticipantStatus) (t : Z) (p : Participant) : Participant :=
  mkParticipant (p_conversationId p) (p_userId p) (p_role p) st (p_addedBy p) (p_joinedAt p)
    (Some t) (p_lastReadMessageId p) (p_lastReadAt p) (p_unreadCount p).
Definition set_unread (f : Z → Z) (p : Participant) : Participant :=
  mkParticipant (p_conversationId p) (p_userId p) (p_role p) (p_status p) (p_addedBy p)
    (p_joinedAt p) (p_leftAt p) (p_lastReadMessageId p) (p_lastReadAt p) (f (p_unreadCount p)).
Definition set_read (m : oid) (t : Z) (p : Participant) : Participant :=
  mkParticipant (p_conversationId p) (p_userId p) (p_role p) (p_status p) (p_addedBy p)
    (p_joinedAt p) (p_leftAt p) (Some m) (Some t) 0.
(** An update of a conversation also sets [updatedAt]. *)
Definition set_lastMessageAt (t updated : Z) (c : Conversation) : Conversation :=
  mkConversation (cv_type c) (cv_title c) (cv_createdBy c) (Some t) (cv_createdAt c) updated.
Definition set_seen (m : Message) : Message :=
  mkMessage (m_conversationId m) (m_senderId m) (m_content m) (m_reverseEncryptionState m)
    (m_encryptedContentVersion m) (m_sentAt m) (m_deliveryStatus m) seen_seen
    (m_decodeErrorCode m) (m_isAIBotMessage m) (m_isAICommand m) (m_moderationResult m)
    (m_attachment m).
Definition set_moderation (r : MessageModeration) (m : Message) : Message :=
  mkMessage (m_conversationId m) (m_senderId m) (m_content m) (m_reverseEncryptionState m)
    (m_encryptedContentVersion m) (m_sentAt m) (m_deliveryStatus m) (m_seenState m)
    (m_decodeErrorCode m) (m_isAIBotMessage m) (m_isAICommand m) (Some r) (m_attachment m).
Definition set_attached (m : oid) (t : Z) (a : ChatAttachment) : ChatAttachment :=
  mkAttachment (ca_conversationId a) (Some m) (ca_uploaderId a) (ca_r2Key a) (ca_originalName a)
    (ca_mimeType a) (ca_sizeBytes a) (ca_isImage a) attached (ca_createdAt a) (ca_uploadedAt a)
    (Some t).

(** ** Queries *)

Definition in_conversation (c : oid) (p : doc Participant) : bool :=
  bool_decide (p_conversationId p.2 = c).
Definition is_active (p : doc Participant) : bool := bool_decide (p_status p.2 = active).
Definition active_in (c : oid) (p : doc Participant) : bool := in_conversation c p && is_active p.
Definition active_participant (c u : oid) (p : doc Participant) : bool :=
  in_conversation c p && bool_decide (p_userId p.2 = u) && is_active p.
Definition message_in (c : oid) (m : doc Message) : bool :=
  bool_decide (m_conversationId m.2 = c).

(** A keep-first [Set] of strings. *)
Fixpoint js_set (l : list jsstring) : list jsstring :=
  match l with [] => [] | x :: r => x :: filter (λ y, y ≠ x) (js_set r) end.

(** ** Presentation *)

Section presentation.
Context `{Host} `{Mongo}.

(** [code] of an error, when it is a string. *)
Definition failure_code (e : Exn) : jsstring :=
  match e with
  | ChatProcessingError code _ | AuthProcessingError code _ | ChatDecodeError code _ => code
  | PlainError m => default (js "REVERSE_DECRYPTION_UNAVAILABLE") (error_code m)
  | HttpException _ _ => js "REVERSE_DECRYPTION_UNAVAILABLE"
  end.

Definition buildSenderPresentation (senderId : oid) : M World (option jsstring * option jsstring) :=
  sender ← auth_findById (oid_show senderId);
  mret (su_displayName <$> sender, sender ≫= su_avatarUrl).

Definition buildAttachmentPayload (attachment : option MessageAttachment)
    (senderId conversationId messageId : oid) : option ChatAttachmentPayload :=
  match attachment with
  | None => None
  | Some a => Some (mkAttachmentPayload (oid_show (ma_attachmentId a)) (ma_fileName a)
      (ma_mimeType a) (ma_sizeBytes a) (ma_isImage a) (Some (oid_show senderId))
      (Some (oid_show conversationId)) (Some (oid_show messageId)))
  end.

Definition buildMessagePreview (content : jsstring) (attachment : option MessageAttachment)
    : jsstring :=
  match attachment with
  | Some a => if ma_isImage a then js "[Ảnh] " ++ ma_fileName a else js "[Tệp] " ++ ma_fileName a
  | None => content
  end.

Definition message_context (m : Message) : EncryptionContext :=
  mkContext (oid_show (m_senderId m)) (oid_show (m_conversationId m)).

Definition undecodable : jsstring := js "[Không thể khôi phục nội dung tin nhắn]".

Definition toDisplayMessage (message : doc Message) : M World DisplayMessage :=
  let m := message.2 in
  sender ← buildSenderPresentation (m_senderId m);
  try_catch
    (display ← decryptForDisplay (m_content m) (m_reverseEncryptionState m) (message_context m);
     mret (mkDisplayMessage message sender.1 sender.2 (ds_content display)
             (ds_decodeErrorCode display) (ds_displayState display)))
    (λ error, mret (mkDisplayMessage message sender.1 sender.2 undecodable
                      (Some (failure_code error)) display_decode_failed)).

Definition preview_of (d : DisplayMessage) : jsstring :=
  buildMessagePreview (dm_content d) (m_attachment (dm_message d).2).

(** The payload of [toRealtimeMessagePayload], decoded or not. *)
Definition realtime_payload (message : doc Message) (sender : option jsstring * option jsstring)
    (content : jsstring) (code : option jsstring) (state : MessageDisplayState)
    : RealtimeMessagePayload :=
  let m := message.2 in
  mkRealtime (oid_show message.1) (oid_show (m_conversationId m)) (oid_show (m_senderId m))
    (if m_isAIBotMessage m then Some (js "ChatAI") else sender.1)
    (if m_isAIBotMessage m then None else sender.2)
    content (toISOString (m_sentAt m)) (m_seenState m)
    (buildAttachmentPayload (m_attachment m) (m_senderId m) (m_conversationId m) message.1)
    true code state (m_isAIBotMessage m) (m_isAICommand m) (m_moderationResult m).

Definition toRealtimeMessagePayload (message : doc Message) : M World RealtimeMessagePayload :=
  let m := message.2 in
  try_catch
    (display ← decryptForDisplay (m_content m) (m_reverseEncryptionState m) (message_context m);
     sender ← buildSenderPresentation (m_senderId m);
     mret (realtime_payload message sender (ds_content display) (ds_decodeErrorCode display)
             (ds_displayState display)))
    (λ error,
     sender ← buildSenderPresentation (m_senderId m);
     mret (realtime_payload message sender (m_content m) (Some (failure_code error))
             display_decode_failed)).
End presentation.

(** ** Participants *)

Section participants.
Context `{Host} `{Mongo}.

Definition getActiveParticipant (conversationId userId : jsstring)
    : M World (option (doc Participant)) :=
  c ← parse_oid conversationId;
  u ← parse_oid userId;
  model_findOne participantModel (active_participant c u).

Definition getRequiredActiveParticipant (conversationId userId : jsstring)
    : M World (doc Participant) :=
  participant ← getActiveParticipant conversationId userId;
  or_throw participant not_active_participant.

Definition getParticipantRole (conversationId userId : jsstring) : M World (option ParticipantRole) :=
  participant ← getActiveParticipant conversationId userId;
  mret ((λ p, p_role p.2) <$> participant).

Definition getActiveParticipants (conversationId : jsstring) : M World (list (doc Participant)) :=
  c ← parse_oid conversationId;
  model_find participantModel (active_in c).

(** [participant-access.util.ts]. *)
Definition requireActiveParticipant (conversationId userId : jsstring) : M World (doc Participant) :=
  participant ← getActiveParticipant conversationId userId;
  or_throw participant not_active_participant.

Definition requireAdminOrOwner (conversationId userId : jsstring) : M World ParticipantRole :=
  role ← getParticipantRole conversationId userId;
  match role with
  | Some admin => mret admin
  | Some owner => mret owner
  | _ => throw no_permission
  end.

Definition record_event (c : oid) (type : MembershipEventType) (target : oid) (actor : option oid)
    : M World () :=
  t ← now;
  model_create membershipEventModel (mkEvent c type target actor t) ;;
  mret tt.

Definition addMember (conversationId userId actorId : jsstring) : M World bool :=
  c ← parse_oid conversationId;
  u ← parse_oid userId;
  existing ← model_findOne participantModel (active_participant c u);
  match existing with
  | Some _ => mret true
  | None =>
      actor ← parse_oid actorId;
      t ← now;
      model_create participantModel (mkParticipant c u member active (Some actor) t None None None 0) ;;
      record_event c ev_added u (Some actor) ;;
      mret false
  end.

Definition removeMember (conversationId userId actorId : jsstring) : M World () :=
  c ← parse_oid conversationId;
  u ← parse_oid userId;
  t ← now;
  model_updateOne participantModel (active_participant c u) (set_gone removed t) ;;
  actor ← parse_oid actorId;
  record_event c ev_removed u (Some actor).

Definition markConversationLeft (conversationId userId : jsstring) : M World () :=
  c ← parse_oid conversationId;
  u ← parse_oid userId;
  t ← now;
  model_updateOne participantModel (active_participant c u) (set_gone left_ t) ;;
  record_event c ev_left u None.

Definition leaveConversation := markConversationLeft.
Definition deleteConversationForUser := markConversationLeft.

Definition getMembershipEvents (conversationId : jsstring) : M World (list (doc MembershipEvent)) :=
  c ← parse_oid conversationId;
  model_find_sort membershipEventModel (λ e, bool_decide (me_conversationId e.2 = c))
    (desc me_occurredAt).

(** A participant other than the sender who has left. *)
Definition to_restore (senderId : jsstring) (p : doc Participant) : bool :=
  bool_decide (oid_show (p_userId p.2) ≠ senderId) && bool_decide (p_status p.2 = left_).

(** [leftAt: undefined] is dropped from the update, so only the status changes. *)
Definition restoreDirectParticipantsIfNeeded (conversationId senderId : jsstring)
    : M World (list (doc Participant)) :=
  c ← cast_oid conversationId;
  conversation ← model_findById conversationModel c;
  match conversation with
  | Some (_, cv) =>
      if bool_decide (cv_type cv ≠ direct) then mret []
      else
        c ← parse_oid conversationId;
        participants ← model_find_sort participantModel (in_conversation c) (asc p_joinedAt);
        let participantsToRestore := filter (λ p, to_restore senderId p = true) participants in
        match participantsToRestore with
        | [] => mret []
        | _ =>
            forM_ participantsToRestore (λ p,
              model_updateOne participantModel (has_id p.1) (set_status active)) ;;
            model_find participantModel
              (λ p, bool_decide (p.1 ∈ participantsToRestore.*1))
        end
  | None => mret []
  end.

(** The active participants of a conversation other than the sender. *)
Definition others (c s : oid) (p : doc Participant) : bool :=
  in_conversation c p && negb (bool_decide (p_userId p.2 = s)) && is_active p.

Definition incrementUnreadForOtherParticipants (conversationId senderId : jsstring) : M World () :=
  c ← parse_oid conversationId;
  s ← parse_oid senderId;
  model_updateMany participantModel
    (others c s) (set_unread (λ n, n + 1)).
End participants.

(** ** Messages *)

Record SendResult := mkSendResult {
  sr_message : doc Message;
  sr_restoredParticipants : list (doc Participant);
}.

Record RealtimeResult := mkRealtimeResult {
  rr_message : RealtimeMessagePayload;
  rr_previewByUserId : list (jsstring * ConversationPreviewPayload);
  rr_restoredParticipants : list (doc Participant);
}.

Section messages.
Context `{Host} `{Mongo}.

(** The attachment checks of [sendMessage]. *)
Definition attachment_for_send (conversationId senderId attachmentIdValue : jsstring)
    : M World (doc ChatAttachment) :=
  id ← or_throw (oid_parse attachmentIdValue) invalid_attachment_id;
  found ← model_findById attachmentModel id;
  a ← or_throw found attachment_not_found;
  throw_if (bool_decide (oid_show (ca_conversationId a.2) ≠ conversationId)) attachment_not_found ;;
  throw_if (bool_decide (oid_show (ca_uploaderId a.2) ≠ senderId)) attachment_not_owned ;;
  throw_if (bool_decide (ca_status a.2 ≠ uploaded)) attachment_not_ready ;;
  mret a.

Definition message_attachment (a : doc ChatAttachment) : MessageAttachment :=
  mkMessageAttachment a.1 (ca_originalName a.2) (ca_mimeType a.2) (ca_sizeBytes a.2)
    (ca_isImage a.2).

(** A truthy optional string. *)
Definition given (s : option jsstring) : option jsstring :=
  match s with Some v => if truthy v then Some v else None | None => None end.

(** [conversationModel.updateOne({ _id }, { lastMessageAt })]. *)
Definition touch_conversation (c : oid) (sentAt : Z) : M World () :=
  updated ← now;
  model_updateOne conversationModel (has_id c) (set_lastMessageAt sentAt updated).

(** The message a send stores. *)
Definition new_message (c s : oid) (st : StoredContent) (sentAt : Z) (isAICommand : bool)
    (att : option (doc ChatAttachment)) : Message :=
  mkMessage c s (st_content st) (st_reverseEncryptionState st)
    (match st_reverseEncryptionState st with encrypted => Some (js "reverse-v1") | _ => None end)
    sentAt delivery_sent seen_sent (st_decodeErrorCode st) false isAICommand None
    (message_attachment <$> att).

(** The writes of a send, once everything has been checked and enciphered. *)
Definition commit_send (conversationId senderId : jsstring) (me : doc Participant)
    (att : option (doc ChatAttachment)) (st : StoredContent) (isAICommand : bool)
    : M World (doc Message) :=
  c ← parse_oid conversationId;
  s ← parse_oid senderId;
  sentAt ← now;
  message ← model_create messageModel (new_message c s st sentAt isAICommand att);
  match att with
  | Some a => confirmedAt ← now; model_save attachmentModel a.1 (set_attached message.1 confirmedAt)
  | None => mret tt
  end ;;
  touch_conversation c sentAt ;;
  model_updateOne participantModel (has_id me.1) (set_read message.1 sentAt) ;;
  incrementUnreadForOtherParticipants conversationId senderId ;;
  mret message.

Definition sendMessage (conversationId senderId content : jsstring)
    (attachmentIdValue : option jsstring) (isAICommand : bool) : M World SendResult :=
  let trimmedContent := trim content in
  throw_if (negb (truthy trimmedContent) && bool_decide (given attachmentIdValue = None))
    empty_message ;;
  activeSender ← getRequiredActiveParticipant conversationId senderId;
  restoredParticipants ← restoreDirectParticipantsIfNeeded conversationId senderId;
  attachmentDocument ←
    match given attachmentIdValue with
    | Some value => a ← attachment_for_send conversationId senderId value; mret (Some a)
    | None => mret None
    end;
  throw_if (negb (truthy trimmedContent) && bool_decide (fst <$> attachmentDocument = None))
    empty_message ;;
  stored ←
    (if truthy trimmedContent
     then encryptForStorage trimmedContent (mkContext senderId conversationId)
     else mret (mkStored [] legacy None));
  message ← commit_send conversationId senderId activeSender attachmentDocument stored isAICommand;
  mret (mkSendResult message restoredParticipants).

Definition latest_message (c : oid) : M World (option (doc Message)) :=
  model_findOne_sort messageModel (message_in c) (desc m_sentAt).

Definition buildConversationPreviewPayload (conversationId userId : jsstring)
    : M World ConversationPreviewPayload :=
  c ← parse_oid conversationId;
  latestMessage ← latest_message c;
  c' ← cast_oid conversationId;
  conversation ← model_findById conversationModel c';
  participant ← getActiveParticipant conversationId userId;
  previewMessage ←
    match latestMessage with
    | Some m => d ← toDisplayMessage m; mret (preview_of d)
    | None => mret []
    end;
  let unreadCount := default 0 ((λ p, p_unreadCount p.2) <$> participant) in
  lastMessageAt ←
    match latestMessage with
    | Some m => mret (toISOString (m_sentAt m.2))
    | None =>
        match conversation ≫= (λ cv, cv_lastMessageAt cv.2) with
        | Some t => mret (toISOString t)
        | None => t ← now; mret (toISOString t)
        end
    end;
  mret (mkPreview conversationId previewMessage lastMessageAt unreadCount (0 <? unreadCount)).

Definition buildConversationPreviewPayloads (conversationId : jsstring)
    : M World (list (jsstring * ConversationPreviewPayload)) :=
  participants ← getActiveParticipants conversationId;
  forM participants (λ p,
    let userId := oid_show (p_userId p.2) in
    preview ← buildConversationPreviewPayload conversationId userId;
    mret (userId, preview)).

Definition sendRealtimeMessage (conversationId senderId content : jsstring)
    (attachmentIdValue : option jsstring) (isAICommand : bool) : M World RealtimeResult :=
  sent ←
    (if bool_decide (given attachmentIdValue ≠ None)
     then sendMessage conversationId senderId content attachmentIdValue isAICommand
     else if isAICommand then sendMessage conversationId senderId content None true
     else sendMessage conversationId senderId content None false);
  message ← toRealtimeMessagePayload (sr_message sent);
  previews ← buildConversationPreviewPayloads conversationId;
  mret (mkRealtimeResult message previews (sr_restoredParticipants sent)).

Definition sendAiBotMessage (conversationId requesterId content : jsstring)
    : M World RealtimeResult :=
  c ← parse_oid conversationId;
  s ← parse_oid requesterId;
  sentAt ← now;
  message ← model_create messageModel
    (mkMessage c s content legacy None sentAt delivery_sent seen_sent None true false None None);
  touch_conversation c sentAt ;;
  incrementUnreadForOtherParticipants conversationId requesterId ;;
  payload ← toRealtimeMessagePayload message;
  previews ← buildConversationPreviewPayloads conversationId;
  mret (mkRealtimeResult payload previews []).

Definition saveMessageModerationResult (messageId : jsstring) (r : MessageModeration) : M World () :=
  i ← parse_oid messageId;
  model_updateOne messageModel (has_id i) (set_moderation r).

(** The [before] cursor: a date string, when it is not empty. *)
Definition before_cursor (before : option jsstring) : M World (option Z) :=
  match given before with
  | None => mret None
  | Some text => t ← or_throw (date_parse text) (host_error CastError); mret (Some t)
  end.
Definition is_before (cursor : option Z) (t : Z) : bool :=
  match cursor with Some b => t <? b | None => true end.

(** One element of the page, given the message after it. *)
Definition message_payload (d : DisplayMessage) (next : option (doc Message))
    : ChatMessagePayload :=
  let '(i, m) := dm_message d in
  mkChatMessage i (m_conversationId m) (m_senderId m) (dm_senderDisplayName d)
    (dm_senderAvatarUrl d) (dm_content d) (m_sentAt m) (m_deliveryStatus m) (m_seenState m)
    (buildAttachmentPayload (m_attachment m) (m_senderId m) (m_conversationId m) i)
    (match next with
     | Some n => bool_decide (oid_show (m_senderId n.2) ≠ oid_show (m_senderId m))
     | None => true
     end)
    (dm_decodeErrorCode d) (dm_displayState d) (m_reverseEncryptionState m)
    (m_isAIBotMessage m) (m_isAICommand m) (m_moderationResult m).

Fixpoint message_payloads (messages : list (doc Message)) : M World (list ChatMessagePayload) :=
  match messages with
  | [] => mret []
  | m :: rest =>
      d ← toDisplayMessage m;
      payloads ← message_payloads rest;
      mret (message_payload d (head rest) :: payloads)
  end.

Definition getMessages (conversationId : jsstring) (before : option jsstring) (limit : number)
    : M World (list ChatMessagePayload) :=
  c ← parse_oid conversationId;
  cursor ← before_cursor before;
  messages ← model_find_sort_limit messageModel
    (λ m, message_in c m && is_before cursor (m_sentAt m.2)) (desc m_sentAt)
    (Math_min limit (num 50));
  message_payloads (reverse messages).

(** [new RegExp(source, 'i').test(s)] for a source that denotes a literal. *)
Definition regex_test_i (source s : jsstring) : bool :=
  match pattern_literal source with
  | Some literal => includes (canonicalize <$> s) (canonicalize <$> literal)
  | None => false
  end.

Definition search_payload (d : DisplayMessage) : MessageSearchPayload :=
  let '(i, m) := dm_message d in
  mkSearch (oid_show i) (oid_show (m_conversationId m)) (oid_show (m_senderId m))
    (dm_senderDisplayName d) (dm_senderAvatarUrl d) (dm_content d) (m_content m)
    (toISOString (m_sentAt m)) (dm_decodeErrorCode d) (dm_displayState d).

Definition searchMessages (conversationId query : jsstring) : M World (list MessageSearchPayload) :=
  let trimmedQuery := trim query in
  if (length trimmedQuery <? 2)%nat then mret []
  else
    let escapedQuery := escape_regex trimmedQuery in
    c ← parse_oid conversationId;
    messages ← model_find_sort_limit messageModel (message_in c) (desc m_sentAt) (num 100);
    displayMessages ← forM messages (λ m, d ← toDisplayMessage m; mret (search_payload d));
    mret (take 20 (filter (λ m, regex_test_i escapedQuery (ms_content m) = true) displayMessages)).

Definition markConversationRead (conversationId userId : jsstring)
    : M World MarkConversationReadPayload :=
  participant ← getRequiredActiveParticipant conversationId userId;
  c ← parse_oid conversationId;
  latestMessage ← latest_message c;
  match latestMessage with
  | None =>
      model_updateOne participantModel (has_id participant.1) (set_unread (λ _, 0)) ;;
      mret (mkReadPayload conversationId 0 None)
  | Some latest =>
      t ← now;
      model_updateOne participantModel (has_id participant.1) (set_read latest.1 t) ;;
      participants ← model_find participantModel (active_in c);
      let otherParticipantIds :=
        (λ p : doc Participant, p_userId p.2) <$>
          filter (λ p : doc Participant, oid_show (p_userId p.2) ≠ userId) participants in
      match otherParticipantIds with
      | [] => mret tt
      | _ =>
          model_updateMany messageModel
            (λ m, message_in c m && bool_decide (m_senderId m.2 ∈ otherParticipantIds)
                  && (m_sentAt m.2 <=? m_sentAt latest.2))
            set_seen
      end ;;
      mret (mkReadPayload conversationId 0 (Some (oid_show latest.1)))
  end.
End messages.

(** ** Conversations *)

Section conversations.
Context `{Host} `{Mongo}.

(** The [for] loop of [findDirectConversation]. *)
Fixpoint first_direct (conversations : list (doc Conversation)) (userAId userBId : jsstring)
    : M World (option (doc Conversation)) :=
  match conversations with
  | [] => mret None
  | conversation :: rest =>
      participants ← model_find participantModel (in_conversation conversation.1);
      let participantIds := (λ p : doc Participant, oid_show (p_userId p.2)) <$> participants in
      if negb (length participants =? 2)%nat then first_direct rest userAId userBId
      else if negb (bool_decide (userAId ∈ participantIds))
              || negb (bool_decide (userBId ∈ participantIds))
      then first_direct rest userAId userBId
      else mret (Some conversation)
  end.

(** [conversationIdsByUser.get(userId)]. *)
Definition conversations_of (userId : jsstring) (participants : list (doc Participant)) : list oid :=
  (λ p : doc Participant, p_conversationId p.2) <$>
    filter (λ p : doc Participant, oid_show (p_userId p.2) = userId) participants.

Definition findDirectConversation (userAId userBId : jsstring)
    : M World (option (doc Conversation)) :=
  a ← parse_oid userAId;
  b ← parse_oid userBId;
  allParticipants ← model_find participantModel
    (λ p, bool_decide (p_userId p.2 = a) || bool_decide (p_userId p.2 = b));
  let sharedConversationIds :=
    filter (λ c, c ∈ conversations_of userBId allParticipants)
      (conversations_of userAId allParticipants) in
  match sharedConversationIds with
  | [] => mret None
  | _ =>
      conversations ← model_find_sort conversationModel
        (λ c, bool_decide (c.1 ∈ sharedConversationIds) && bool_decide (cv_type c.2 = direct))
        (desc cv_updatedAt);
      first_direct conversations userAId userBId
  end.

Definition direct_with_self : Exn :=
  exn_error BadRequest (js "INVALID_DIRECT_CONVERSATION")
    (js "Cannot create a direct conversation with yourself").

(** The [type === 'direct'] block; [participantIds[0]] is [undefined] for an empty
    list, and [new Types.ObjectId(undefined)] is a fresh id that nobody has. *)
Definition existing_direct (type : ConversationType) (creatorId : jsstring)
    (participantIds : list jsstring) : M World (option (doc Conversation)) :=
  match type with
  | group => mret None
  | direct =>
      match participantIds with
      | [] => parse_oid creatorId ;; new_oid ;; mret None
      | target :: _ =>
          throw_if (bool_decide (target = creatorId)) direct_with_self ;;
          findDirectConversation creatorId target
      end
  end.

Definition new_conversation (type : ConversationType) (creatorId : jsstring)
    (participantIds : list jsstring) (title : option jsstring) : M World (doc Conversation) :=
  creator ← parse_oid creatorId;
  t ← now;
  conversation ← model_create conversationModel (mkConversation type title creator None t t);
  let allParticipantIds := js_set (creatorId :: participantIds) in
  participantDocs ← forM allParticipantIds (λ uid,
    u ← parse_oid uid;
    joinedAt ← now;
    let own := bool_decide (uid = creatorId) in
    mret (mkParticipant conversation.1 u (if own then owner else member) active
            (if own then None else Some creator) joinedAt None None None 0));
  model_insertMany participantModel participantDocs ;;
  membershipEvents ← forM allParticipantIds (λ uid,
    u ← parse_oid uid;
    occurredAt ← now;
    let own := bool_decide (uid = creatorId) in
    mret (mkEvent conversation.1 (if own then ev_joined else ev_added) u
            (if own then None else Some creator) occurredAt));
  model_insertMany membershipEventModel membershipEvents ;;
  mret conversation.

Definition createConversation (type : ConversationType) (creatorId : jsstring)
    (participantIds : list jsstring) (title : option jsstring) : M World (doc Conversation) :=
  existing ← existing_direct type creatorId participantIds;
  match existing with
  | Some conversation => mret conversation
  | None => new_conversation type creatorId participantIds title
  end.

(** The summary of one conversation of the list. *)
Definition conversation_summary (userId : jsstring) (participations : list (doc Participant))
    (conversation : doc Conversation) : M World ConversationSummary :=
  let '(c, cv) := conversation in
  latestMessage ← latest_message c;
  let mine := List.find (λ p : doc Participant, bool_decide (p_conversationId p.2 = c))
                (reverse participations) in
  let unreadCount := default 0 ((λ p : doc Participant, p_unreadCount p.2) <$> mine) in
  directPeer ←
    match cv_type cv with
    | direct =>
        participants ← model_find participantModel (active_in c);
        match List.find (λ p : doc Participant, bool_decide (oid_show (p_userId p.2) ≠ userId))
                participants with
        | Some peer => auth_findById (oid_show (p_userId peer.2))
        | None => mret None
        end
    | group => mret None
    end;
  preview ←
    match latestMessage with
    | Some m => d ← toDisplayMessage m; mret (Some (preview_of d))
    | None => mret None
    end;
  let displayTitle :=
    match cv_type cv with
    | direct => default (default (js "Đoạn chat mới") (cv_title cv)) (su_displayName <$> directPeer)
    | group => default (js "Nhóm chat") (cv_title cv)
    end in
  mret (mkSummary (oid_show c) (cv_type cv) (cv_title cv) (oid_show (cv_createdBy cv))
    (toISOString (cv_createdAt cv)) (toISOString (cv_updatedAt cv))
    (match latestMessage with
     | Some m => Some (toISOString (m_sentAt m.2))
     | None => toISOString <$> cv_lastMessageAt cv
     end)
    displayTitle (directPeer ≫= su_avatarUrl) preview unreadCount (0 <? unreadCount) directPeer).

Definition listConversationsForUser (userId : jsstring) : M World (list ConversationSummary) :=
  u ← parse_oid userId;
  participations ← model_find participantModel
    (λ p, bool_decide (p_userId p.2 = u) && is_active p);
  let conversationIds := (λ p : doc Participant, p_conversationId p.2) <$> participations in
  conversations ← model_find_sort conversationModel
    (λ c, bool_decide (c.1 ∈ conversationIds)) (desc_opt cv_lastMessageAt);
  forM conversations (conversation_summary userId participations).
End conversations.

#[global] Arguments getActiveParticipant : simpl never.
#[global] Arguments getRequiredActiveParticipant : simpl never.
#[global] Arguments restoreDirectParticipantsIfNeeded : simpl never.
#[global] Arguments attachment_for_send : simpl never.
#[global] Arguments encryptForStorage : simpl never.
#[global] Arguments decryptForDisplay : simpl never.
#[global] Arguments toDisplayMessage : simpl never.
#[global] Arguments toRealtimeMessagePayload : simpl never.
#[global] Arguments sendMessage : simpl never.
#[global] Arguments commit_send : simpl never.
