(* ===== verification/ChatSend.v ===== *)
(** * Sending and reading

    What [sendMessage] and [markConversationRead] do to the store: a full description
    of both outcomes of a send, and from it the unread counters, the absence of partial
    writes and the one-message-per-attachment discipline. *)

From S2P Require Import Prelude JsText Wire Driver Env Store Model Instance Encryption Auth Chat.
Open Scope Z_scope.

(** ** Parts of a send *)

(** A list of single-document updates is one update by membership. *)
Lemma lookup_alters {D} (u : D → D) (ps : list (doc D)) (c : collection D) i :
  NoDup ps.*1 →
  foldl (λ c p, alter u p.1 c) c ps !! i
  = if bool_decide (i ∈ ps.*1) then u <$> c !! i else c !! i.
Proof.
  revert c. induction ps as [|[j d] ps IH]; intros c Hn; cbn [foldl].
  { by rewrite bool_decide_eq_false_2 by apply not_elem_of_nil. }
  apply NoDup_cons in Hn as [Hj Hn]. rewrite IH by done. cbn [fst].
  destruct (decide (i = j)) as [->|Hne].
  - rewrite bool_decide_eq_false_2 by done. rewrite lookup_alter_eq.
    by rewrite bool_decide_eq_true_2 by (rewrite fmap_cons; by left).
  - rewrite lookup_alter_ne by done. rewrite fmap_cons.
    assert (i ∈ j :: ps.*1 ↔ i ∈ ps.*1) as E by (rewrite elem_of_cons; naive_solver).
    by rewrite (bool_decide_ext _ _ E).
Qed.

(** The peers a send brings back: in a direct conversation, everyone but the sender who
    has left. *)
Definition peer_to_restore `{Host} (c : oid) (senderId : jsstring) (p : doc Participant) : bool :=
  in_conversation c p && to_restore senderId p.

Definition restore_peers `{Host} (w : World) (c : oid) (senderId : jsstring)
    : collection Participant :=
  match w_conversations w !! c with
  | Some cv => if bool_decide (cv_type cv = direct)
               then updateMany (peer_to_restore c senderId) (set_status active) (w_participants w)
               else w_participants w
  | None => w_participants w
  end.

Definition put_participants (ps : collection Participant) (w : World) : World :=
  upd_participants (λ _, ps) w.

Lemma put_participants_id w : put_participants (w_participants w) w = w.
Proof. by destruct w. Qed.

Section parts.
Context `{Host} `{MongoLaws}.

Lemma run_getActive conversationId userId w :
  getActiveParticipant conversationId userId w
  = match oid_parse conversationId, oid_parse userId with
    | Some c, Some u => (Ok (mg_findOne (active_participant c u) (w_participants w)), w)
    | _, _ => (Throw (host_error BSONError), w)
    end.
Proof.
  unfold getActiveParticipant, parse_oid. rewrite run_bind.
  destruct (oid_parse conversationId); simpl; [|done].
  rewrite run_bind. by destruct (oid_parse userId).
Qed.

Lemma run_getRequired conversationId userId w :
  getRequiredActiveParticipant conversationId userId w
  = match oid_parse conversationId, oid_parse userId with
    | Some c, Some u =>
        match mg_findOne (active_participant c u) (w_participants w) with
        | Some p => (Ok p, w)
        | None => (Throw not_active_participant, w)
        end
    | _, _ => (Throw (host_error BSONError), w)
    end.
Proof.
  unfold getRequiredActiveParticipant. rewrite run_bind, run_getActive.
  destruct (oid_parse conversationId), (oid_parse userId); simpl; try done.
  by destruct (mg_findOne _ _).
Qed.

(** The loop that restores the peers one by one. *)
Lemma run_restore_loop ps w :
  forM_ ps (λ p : doc Participant,
    model_updateOne participantModel (has_id p.1) (set_status active)) w
  = (Ok tt, put_participants (foldl (λ c (p : doc Participant), alter (set_status active) p.1 c)
                                (w_participants w) ps) w).
Proof.
  revert w. induction ps as [|p ps IH]; intros w; cbn [forM_].
  { simpl. by rewrite put_participants_id. }
  rewrite run_bind. unfold model_updateOne, modify at 1. rewrite IH. simpl.
  by rewrite updateOne_has_id.
Qed.

Lemma restored_collection c senderId (ps : collection Participant) :
  foldl (λ c (p : doc Participant), alter (set_status active) p.1 c) ps
    (filter (λ p, to_restore senderId p = true)
       (mg_sort (asc p_joinedAt) (mg_find (in_conversation c) ps)))
  = updateMany (peer_to_restore c senderId) (set_status active) ps.
Proof.
  apply map_eq. intros i. rewrite lookup_alters, lookup_updateMany; cycle 1.
  { apply (sublist_NoDup _ (mg_sort (asc p_joinedAt) (mg_find (in_conversation c) ps)).*1);
      [apply sorted_find_nodup|apply (fmap_sublist fst), sublist_filter]. }
  destruct (ps !! i) as [p|] eqn:Ep; simpl; [|by case_bool_decide].
  case_bool_decide as Hb.
  - apply list_elem_of_fmap in Hb as ([i' p'] & -> & [Hr Hin]%list_elem_of_filter).
    apply elem_of_sorted_find in Hin as [Hl Hq]. cbn [fst] in *. simplify_eq.
    unfold peer_to_restore. by rewrite Hq, Hr.
  - destruct (peer_to_restore c senderId (i, p)) eqn:Er; [|done]. exfalso. apply Hb.
    apply andb_true_iff in Er as [Hq Hr]. apply list_elem_of_fmap. exists (i, p).
    split; [done|]. apply list_elem_of_filter. split; [done|].
    by apply elem_of_sorted_find.
Qed.

Lemma run_restore conversationId senderId c w :
  oid_parse conversationId = Some c →
  ∃ l, restoreDirectParticipantsIfNeeded conversationId senderId w
       = (Ok l, put_participants (restore_peers w c senderId) w).
Proof.
  intros Hc. unfold restoreDirectParticipantsIfNeeded, cast_oid, parse_oid, restore_peers,
    model_findById, findById.
  rewrite run_bind, Hc. simpl. rewrite run_bind. simpl.
  destruct (w_conversations w !! c) as [cv|]; simpl.
  2: { exists []. by rewrite put_participants_id. }
  case_bool_decide as Hd; case_bool_decide as Hd'; try done.
  { exists []. by rewrite put_participants_id. }
  rewrite run_bind. simpl. rewrite run_bind. simpl.
  rewrite <-restored_collection.
  destruct (filter _ _) as [|p ps] eqn:Ef; simpl.
  - exists []. by rewrite put_participants_id.
  - eexists. rewrite run_bind.
    pose proof (run_restore_loop (p :: ps) w) as Hl. cbn [forM_] in Hl. rewrite Hl.
    simpl. done.
Qed.

(** The attachment a send may use. *)
Record sendable_attachment (conversationId senderId : jsstring) (w : World)
    (a : doc ChatAttachment) : Prop := {
  sendable_stored : w_attachments w !! a.1 = Some a.2;
  sendable_conversation : oid_show (ca_conversationId a.2) = conversationId;
  sendable_owner : oid_show (ca_uploaderId a.2) = senderId;
  sendable_uploaded : ca_status a.2 = uploaded;
}.

Lemma run_attachment_for_send conversationId senderId value w :
  (∃ a, attachment_for_send conversationId senderId value w = (Ok a, w)
        ∧ oid_parse value = Some a.1 ∧ sendable_attachment conversationId senderId w a)
  ∨ ∃ e, attachment_for_send conversationId senderId value w = (Throw e, w).
Proof.
  unfold attachment_for_send, model_findById, findById.
  destruct (oid_parse value) as [i|]; cbn; [|right; by eexists].
  run_simpl. cbn. destruct (w_attachments w !! i) as [a|] eqn:Ea; cbn; [|right; by eexists].
  case_bool_decide as H1'; cbn; [right; by eexists|].
  case_bool_decide as H2'; cbn; [right; by eexists|].
  case_bool_decide as H3'; cbn; [right; by eexists|].
  left. exists (i, a). split; [done|]. split; [done|].
  by split.
Qed.
End parts.

(** ** The two outcomes of a send *)

Record Sent `{Host} `{Mongo} (conversationId senderId content : jsstring)
    (attachmentId : option jsstring) (isAICommand : bool) (w w' : World) (message : doc Message)
    (c s : oid) (me : doc Participant) (att : option (doc ChatAttachment)) (st : StoredContent)
    (sentAt confirmedAt : Z) : Prop := {
  sent_conversation : oid_parse conversationId = Some c;
  sent_sender : oid_parse senderId = Some s;
  sent_me : mg_findOne (active_participant c s) (w_participants w) = Some me;
  sent_attachment :
    match given attachmentId with
    | None => att = None
    | Some value => ∃ a, att = Some a ∧ oid_parse value = Some a.1
                         ∧ sendable_attachment conversationId senderId w a
    end;
  sent_stored :
    if truthy (trim content)
    then ∃ w1 w2, encryptForStorage (trim content) (mkContext senderId conversationId) w1
                  = (Ok st, w2)
    else is_Some att ∧ st = mkStored [] legacy None;
  sent_message : message.2 = new_message c s st sentAt isAICommand att;
  sent_fresh : w_messages w !! message.1 = None;
  sent_messages : w_messages w' = <[message.1 := message.2]> (w_messages w);
  sent_attachments :
    w_attachments w'
    = match att with
      | Some a => alter (set_attached message.1 confirmedAt) a.1 (w_attachments w)
      | None => w_attachments w
      end;
  sent_participants :
    w_participants w'
    = updateMany (others c s) (set_unread (λ n, n + 1))
        (alter (set_read message.1 sentAt) me.1 (restore_peers w c senderId));
  sent_conversations :
    ∃ updated, w_conversations w' = alter (set_lastMessageAt sentAt updated) c (w_conversations w);
  sent_frame : (w_users w', w_attempts w', w_sessions w', w_events w')
               = (w_users w, w_attempts w, w_sessions w, w_events w);
}.

(** A send that does not succeed stores no message and changes no attachment; the most
    it leaves behind is the restored peers. *)
Record NotSent `{Host} (conversationId senderId : jsstring) (w w' : World) : Prop := {
  not_sent_frame :
    (w_users w', w_attempts w', w_sessions w', w_conversations w', w_messages w', w_events w',
     w_attachments w')
    = (w_users w, w_attempts w, w_sessions w, w_conversations w, w_messages w, w_events w,
       w_attachments w);
  not_sent_participants :
    w_participants w' = w_participants w
    ∨ ∃ c, oid_parse conversationId = Some c
           ∧ w_participants w' = restore_peers w c senderId;
}.

Lemma not_sent_refl `{Host} conversationId senderId w : NotSent conversationId senderId w w.
Proof. split; [done|by left]. Qed.

Lemma not_sent_database `{Host} conversationId senderId c w w' :
  oid_parse conversationId = Some c →
  database w' = database (put_participants (restore_peers w c senderId) w) →
  NotSent conversationId senderId w w'.
Proof. intros Hc Hd. injection Hd as ????????. split; [congruence|right; by eexists]. Qed.

Section send.
Context `{Host} `{MongoLaws}.

Lemma encrypt_read_only content context : read_only (encryptForStorage content context).
Proof. intros d. apply preserves_encryptForStorage, stepless_database. Qed.

Lemma run_commit_send conversationId senderId c s me att st isAICommand w :
  oid_parse conversationId = Some c → oid_parse senderId = Some s →
  match commit_send conversationId senderId me att st isAICommand w with
  | (Ok message, w') => ∃ sentAt confirmedAt updated,
      message.2 = new_message c s st sentAt isAICommand att
      ∧ w_messages w !! message.1 = None
      ∧ w_messages w' = <[message.1 := message.2]> (w_messages w)
      ∧ w_attachments w' = match att with
          | Some a => alter (set_attached message.1 confirmedAt) a.1 (w_attachments w)
          | None => w_attachments w
          end
      ∧ w_participants w' = updateMany (others c s) (set_unread (λ n, n + 1))
                              (alter (set_read message.1 sentAt) me.1 (w_participants w))
      ∧ w_conversations w' = alter (set_lastMessageAt sentAt updated) c (w_conversations w)
      ∧ (w_users w', w_attempts w', w_sessions w', w_events w')
        = (w_users w, w_attempts w, w_sessions w, w_events w)
  | (_, w') => database w' = database w
  end.
Proof.
  intros Hc Hs. unfold commit_send, parse_oid, model_create, model_insert, new_oid, now, tick,
    touch_conversation, incrementUnreadForOtherParticipants, model_save, model_updateOne,
    model_updateMany, now, tick, parse_oid.
  rewrite Hc, Hs. run_simpl. cbn.
  case_bool_decide as Hd; cbn; [done|]. apply eq_None_not_Some in Hd.
  destruct att as [a|]; cbn; rewrite !updateOne_has_id.
  - eexists _, _, _. split_and!; reflexivity || done.
  - eexists _, 0, _. split_and!; reflexivity || done.
Qed.

Lemma sendMessage_cases conversationId senderId content attachmentId isAICommand w :
  match sendMessage conversationId senderId content attachmentId isAICommand w with
  | (Ok r, w') => ∃ c s me att st sentAt confirmedAt,
      Sent conversationId senderId content attachmentId isAICommand w w' (sr_message r) c s me att
        st sentAt confirmedAt
  | (_, w') => NotSent conversationId senderId w w'
  end.
Proof.
  unfold sendMessage. rewrite run_bind.
  destruct (negb _ && _); cbn [throw_if throw]; [by apply not_sent_refl|].
  cbn [mret M_ret]. rewrite run_bind, run_getRequired.
  destruct (oid_parse conversationId) as [c|] eqn:Ec; [|by apply not_sent_refl].
  destruct (oid_parse senderId) as [s|] eqn:Es; [|by apply not_sent_refl].
  destruct (mg_findOne _ _) as [me|] eqn:Eme; [|by apply not_sent_refl].
  destruct (run_restore conversationId senderId c w Ec) as [l El].
  rewrite run_bind, El. set (w1 := put_participants _ w).
  assert (∀ w', database w' = database w1 → NotSent conversationId senderId w w') as Hns
    by (intros w'; by apply not_sent_database).
  rewrite run_bind.
  assert (∃ att, (match given attachmentId with
      | Some value => a ← attachment_for_send conversationId senderId value; mret (Some a)
      | None => mret None end) w1 = (Ok att, w1)
      ∧ match given attachmentId with
        | None => att = None
        | Some value => ∃ a, att = Some a ∧ oid_parse value = Some a.1
                             ∧ sendable_attachment conversationId senderId w a
        end
    ∨ ∃ e, (match given attachmentId with
      | Some value => a ← attachment_for_send conversationId senderId value; mret (Some a)
      | None => mret None end) w1 = (Throw e, w1)) as (att & [(Ea & Hatt)|[e Ea]]).
  { destruct (given attachmentId) as [value|]; [|exists None; by left].
    rewrite run_bind.
    destruct (run_attachment_for_send conversationId senderId value w1) as [(a & -> & Hp & [])|[e ->]].
    - exists (Some a). left. split; [done|]. exists a. split_and!; [done|done|by split].
    - exists None. right. by exists e. }
  2: { rewrite Ea. by apply Hns. }
  rewrite Ea, run_bind.
  destruct (negb _ && _) eqn:Ee; cbn [throw_if throw]; [by apply Hns|].
  cbn [mret M_ret]. rewrite run_bind.
  set (enc := if truthy (trim content) then _ else _).
  assert (read_only enc) as Henc.
  { unfold enc. destruct (truthy _); [apply encrypt_read_only|]. intros d. apply preserves_ret. }
  apply (read_only_run _ w1) in Henc.
  destruct (enc w1) as [[st|e|] w3] eqn:Est; cbn [snd] in Henc; [|by apply Hns..].
  rewrite run_bind.
  pose proof (run_commit_send conversationId senderId c s me att st isAICommand w3 Ec Es) as Hc.
  destruct (commit_send _ _ _ _ _ _ w3) as [[message|e|] w4];
    [|apply Hns; by rewrite Hc..].
  destruct Hc as (sentAt & confirmedAt & updated & Hm & Hf & Hms & Has & Hps & Hcs & Hfr).
  injection Henc as Hu Ha Hse Hcv Hpa Hmm Hev Hat.
  cbn. exists c, s, me, att, st, sentAt, confirmedAt.
  split; try done; rewrite ?Hmm, ?Hat, ?Hpa, ?Hcv in *; try done.
  - unfold enc in Est. destruct (truthy (trim content)); [by eauto|].
    unfold mret, M_ret in Est. simplify_eq. split; [|done].
    simpl in Ee. apply bool_decide_eq_false in Ee. by destruct att.
  - by exists updated.
  - rewrite Hfr. by rewrite Hu, Ha, Hse, Hev.
Qed.
End send.

(** ** Consequences *)

Definition is_direct (w : World) (c : oid) : bool :=
  match w_conversations w !! c with
  | Some cv => bool_decide (cv_type cv = direct)
  | None => false
  end.

Lemma lookup_restore_peers `{Host} w c senderId i :
  restore_peers w c senderId !! i
  = (λ p, if is_direct w c && peer_to_restore c senderId (i, p) then set_status active p else p)
      <$> w_participants w !! i.
Proof.
  unfold restore_peers, is_direct. destruct (w_conversations w !! c) as [cv|].
  - case_bool_decide; simpl; [by rewrite lookup_updateMany|].
    by destruct (w_participants w !! i).
  - simpl. by destruct (w_participants w !! i).
Qed.

(** A restored participant differs in its status only. *)
Lemma restored_unread `{Host} w c senderId i p p' :
  w_participants w !! i = Some p → restore_peers w c senderId !! i = Some p' →
  p_unreadCount p' = p_unreadCount p ∧ p_conversationId p' = p_conversationId p
  ∧ p_userId p' = p_userId p.
Proof.
  rewrite lookup_restore_peers. intros ->. simpl. intros ?; simplify_eq. by case_match.
Qed.

(** Who receives a message: the active participants of the conversation other than the
    sender, and in a direct conversation also those who have left. *)
Definition receives (w : World) (c s : oid) (p : Participant) : bool :=
  bool_decide (p_conversationId p = c) && negb (bool_decide (p_userId p = s))
  && (bool_decide (p_status p = active)
      || is_direct w c && bool_decide (p_status p = left_)).

(** C6: after a successful send the sender has nothing unread, every recipient has one
    message more, and no other counter moves. *)
Theorem send_updates_unread `{Host} `{!OidLaws} `{MongoLaws} conversationId s content attachmentId
    isAICommand w r w' :
  sendMessage conversationId (oid_show s) content attachmentId isAICommand w = (Ok r, w') →
  ∃ c me, oid_parse conversationId = Some c
    ∧ mg_findOne (active_participant c s) (w_participants w) = Some me
    ∧ ∀ i p, w_participants w !! i = Some p →
        ∃ p', w_participants w' !! i = Some p'
          ∧ p_unreadCount p' = if bool_decide (i = me.1) then 0
                               else if receives w c s p then p_unreadCount p + 1
                               else p_unreadCount p.
Proof.
  intros E. pose proof (sendMessage_cases conversationId (oid_show s) content attachmentId
    isAICommand w) as Hc. rewrite E in Hc.
  destruct Hc as (c & s' & [mi me] & att & st & sentAt & confirmedAt & [Hcv Hs Hme _ _ _ _ _ _ Hp _ _]).
  rewrite oid_parse_show in Hs. simplify_eq. exists c, (mi, me). split_and!; [done|done|].
  intros i p Hi. rewrite Hp, lookup_updateMany.
  apply findOne_Some in Hme as [Hmi Hact].
  apply andb_true_iff in Hact as [[Hc1 Hc2]%andb_true_iff Hc3].
  unfold in_conversation, is_active in *. simpl in Hc1, Hc2, Hc3.
  apply bool_decide_eq_true in Hc1, Hc2, Hc3.
  assert (∀ q : Participant, oid_show (p_userId q) ≠ oid_show s' ↔ p_userId q ≠ s') as Hshow
    by (intros q; split; [congruence|by intros Hne ?%oid_show_inj]).
  simpl. destruct (decide (i = mi)) as [->|Hne].
  - rewrite lookup_alter_eq, lookup_restore_peers, Hi. simpl. eexists. split; [done|].
    rewrite bool_decide_eq_true_2 by done. simplify_eq.
    assert (∀ b : bool, p_userId (if b then set_status active me else me) = p_userId me) as Hu
      by by intros [].
    unfold others. simpl. rewrite Hu, (bool_decide_eq_true_2 (p_userId me = p_userId me)) by done.
    by rewrite andb_false_r.
  - rewrite lookup_alter_ne, lookup_restore_peers, Hi by done. simpl. eexists. split; [done|].
    rewrite bool_decide_eq_false_2 by done.
    unfold receives, others, peer_to_restore, to_restore, in_conversation, is_active. simpl.
    rewrite (bool_decide_ext _ _ (Hshow p)).
    destruct (is_direct w c); simpl;
      repeat (case_bool_decide; simpl; try done); congruence.
Qed.

(** A message of the conversation that another active participant sent. *)
Definition from_peer (w : World) (c u : oid) (m : Message) : Prop :=
  m_conversationId m = c
  ∧ ∃ i p, w_participants w !! i = Some p ∧ active_in c (i, p) = true
           ∧ p_userId p = m_senderId m ∧ p_userId p ≠ u.

Section read.
Context `{Host} `{!OidLaws} `{MongoLaws}.

Lemma elem_of_peers (ps : collection Participant) c u v :
  v ∈ (λ p : doc Participant, p_userId p.2) <$>
        filter (λ p : doc Participant, oid_show (p_userId p.2) ≠ oid_show u)
          (mg_find (active_in c) ps)
  ↔ ∃ i p, ps !! i = Some p ∧ active_in c (i, p) = true ∧ p_userId p = v ∧ p_userId p ≠ u.
Proof.
  rewrite list_elem_of_fmap. split.
  - intros ([i p] & -> & [Hne Hin]%list_elem_of_filter). apply elem_of_find in Hin as [Hl Ha].
    exists i, p. split_and!; [done|done|done|]. simpl in Hne. congruence.
  - intros (i & p & Hl & Ha & <- & Hne). exists (i, p). split; [done|].
    apply list_elem_of_filter. split; [by intros ?%oid_show_inj|]. by apply elem_of_find.
Qed.

(** Reading changes neither who is in the conversation nor who is active. *)
Lemma set_read_peers (ps : collection Participant) c u v j x t :
  (∃ i p, alter (set_read x t) j ps !! i = Some p ∧ active_in c (i, p) = true
          ∧ p_userId p = v ∧ p_userId p ≠ u)
  ↔ ∃ i p, ps !! i = Some p ∧ active_in c (i, p) = true ∧ p_userId p = v ∧ p_userId p ≠ u.
Proof.
  split.
  - intros (i & p & Hl & Ha & Hv & Hu). rewrite lookup_alter in Hl. case_decide as Hij.
    + subst j. apply fmap_Some in Hl as (p0 & Hl & ->). by exists i, p0.
    + by exists i, p.
  - intros (i & p & Hl & Ha & Hv & Hu). destruct (decide (j = i)) as [->|Hij].
    + exists i, (set_read x t p). by rewrite lookup_alter_eq, Hl.
    + exists i, p. by rewrite lookup_alter_ne.
Qed.

(** Reading a conversation clears the reader's counter, moves no other counter, and
    marks as seen exactly the messages of the conversation that other active
    participants sent. *)
Theorem markConversationRead_effect conversationId u w r w' :
  markConversationRead conversationId (oid_show u) w = (Ok r, w') →
  ∃ c me, oid_parse conversationId = Some c
    ∧ mg_findOne (active_participant c u) (w_participants w) = Some me
    ∧ mr_unreadCount r = 0
    ∧ (∀ i p, w_participants w !! i = Some p →
         ∃ p', w_participants w' !! i = Some p'
           ∧ p_unreadCount p' = if bool_decide (i = me.1) then 0 else p_unreadCount p)
    ∧ (∀ i m, w_messages w !! i = Some m →
         ∃ m', w_messages w' !! i = Some m'
           ∧ (from_peer w c u m → m' = set_seen m) ∧ (¬ from_peer w c u m → m' = m)).
Proof.
  unfold markConversationRead. rewrite run_bind, run_getRequired, oid_parse_show.
  destruct (oid_parse conversationId) as [c|] eqn:Ec; [|done].
  destruct (mg_findOne _ _) as [me|] eqn:Eme; [|done].
  unfold parse_oid, latest_message, model_findOne_sort, model_updateOne, model_find, now, tick,
    model_updateMany.
  rewrite Ec. run_simpl. cbn.
  assert (∀ f : Participant → Participant, (∀ p, p_unreadCount (f p) = 0) →
    ∀ i p, w_participants w !! i = Some p → ∃ p', alter f me.1 (w_participants w) !! i = Some p'
      ∧ p_unreadCount p' = if bool_decide (i = me.1) then 0 else p_unreadCount p) as Hunread.
  { intros f Hf i p Hi. rewrite lookup_alter. case_decide as Hm.
    - subst i. exists (f p). rewrite Hi, bool_decide_eq_true_2 by done. by split; [|apply Hf].
    - exists p. by rewrite bool_decide_eq_false_2 by done. }
  destruct (head _) as [[li lm]|] eqn:Eh; cbn.
  - rewrite !updateOne_has_id. apply head_desc_latest in Eh as [[Hl Hlc] Hmax].
    set (ps' := alter (set_read li _) me.1 (w_participants w)).
    pose proof (elem_of_peers ps' c u) as Hpeers.
    assert (∀ v, (∃ i p, ps' !! i = Some p ∧ active_in c (i, p) = true ∧ p_userId p = v
                         ∧ p_userId p ≠ u)
              ↔ ∃ i p, w_participants w !! i = Some p ∧ active_in c (i, p) = true
                       ∧ p_userId p = v ∧ p_userId p ≠ u) as Hsame
      by (intros v; apply set_read_peers).
    set (peers := _ <$> filter _ _) in *.
    intros Hr. exists c, me. split; [done|]. split; [done|].
    assert (r = mkReadPayload conversationId 0 (Some (oid_show li))
      ∧ w_participants w' = ps'
      ∧ w_messages w' = updateMany (λ m, message_in c m && bool_decide (m_senderId m.2 ∈ peers)
                  && (m_sentAt m.2 <=? m_sentAt lm)) set_seen (w_messages w))
      as (-> & Hp & Hm).
    { subst ps'. rewrite <-updateOne_has_id. clear Hpeers. clearbody peers.
      destruct peers as [|v vs]; cbn in Hr; simplify_eq; split_and!; try done.
      cbn. apply map_eq. intros i. rewrite lookup_updateMany.
      destruct (w_messages w !! i) as [m|]; [|done]. simpl.
      by rewrite andb_false_r. }
    split; [done|]. split; [rewrite Hp; by apply Hunread|].
    intros i m Hi. rewrite Hm, lookup_updateMany, Hi. simpl. eexists. split; [done|].
    assert (message_in c (i, m) && bool_decide (m_senderId m ∈ peers) && (m_sentAt m <=? m_sentAt lm)
            = true ↔ from_peer w c u m) as Hiff.
    { rewrite !andb_true_iff, Z.leb_le. unfold message_in at 1. simpl.
      rewrite !bool_decide_eq_true, Hpeers, Hsame. unfold from_peer. split; [tauto|].
      intros [Hc Hex]. split_and!; [done|done|]. apply (Hmax i m Hi).
      by apply bool_decide_eq_true. }
    split; intros Hf; [by rewrite (proj2 Hiff Hf)|].
    by rewrite (not_true_is_false _ (λ Hb, Hf (proj1 Hiff Hb))).
  - intros Hr. simplify_eq. cbn. exists c, me. split_and!; try done.
    + rewrite updateOne_has_id. by apply Hunread.
    + intros i m Hi. exists m. split; [done|]. split; [|done].
      intros [Hc _]. apply head_sort_None with (i:=i) (d:=m) in Eh; [|done].
      by apply bool_decide_eq_false in Eh.
Qed.
End read.

(** ** A send that must succeed *)

Section send_ok.
Context `{Host} `{!OidLaws} `{MongoLaws}.

(** Ids that were never given out are not in the store. *)
Definition fresh_for {D} (c : collection D) : Prop := ∀ n, c !! fresh_oid n = None.

Lemma commit_send_ok c s me att st isAICommand w :
  fresh_for (w_messages w) →
  ∃ message w', commit_send (oid_show c) (oid_show s) me att st isAICommand w = (Ok message, w').
Proof.
  intros Hf. unfold commit_send, parse_oid, model_create, model_insert, new_oid, now, tick.
  rewrite !oid_parse_show. run_simpl. cbn. rewrite Hf.
  rewrite bool_decide_eq_false_2 by by intros [? ?].
  unfold touch_conversation, incrementUnreadForOtherParticipants, parse_oid, model_save,
    model_updateOne, model_updateMany, now, tick.
  rewrite !oid_parse_show. destruct att; run_simpl; cbn; by eexists _, _.
Qed.

(** C1: a text that an active participant sends without a file is stored, enciphered if and
    only if reverse encryption is on, and whenever the stored message is displayed later it
    reads as the trimmed text.  With encryption on this is for a processor that answers, and
    for what the frame carries of the text ([kept]): all of it up to 511 bytes of UTF-8
    without NUL, otherwise the part before. *)
Theorem send_then_display c s me content kept isAICommand w later :
  truthy (trim content) = true →
  survives (trim content) (oid_show c) kept w → survives (trim content) (oid_show c) kept later →
  mg_findOne (active_participant c s) (w_participants w) = Some me →
  fresh_for (w_messages w) →
  (∃ r w' d later',
    sendMessage (oid_show c) (oid_show s) content None isAICommand w = (Ok r, w')
    ∧ w_messages w' !! (sr_message r).1 = Some (sr_message r).2
    ∧ m_content (sr_message r).2 = (if isEnabled then map_forward <$> kept else trim content)
    ∧ m_reverseEncryptionState (sr_message r).2 = (if isEnabled then encrypted else legacy)
    ∧ toDisplayMessage (sr_message r) later = (Ok d, later')
    ∧ dm_content d = kept ∧ dm_displayState d = display_ready) ∧
  (plain_text (trim content) → (length (utf8_encode (trim content)) <= 511)%nat →
   kept = trim content).
Proof.
  intros Htruthy Hw Hlater Hme Hf. split; [|by eapply survives_whole].
  destruct (run_restore (oid_show c) (oid_show s) c w (oid_parse_show c)) as [l El].
  pose proof (run_encryptForStorage (trim content) kept (mkContext (oid_show s) (oid_show c))
    (put_participants (restore_peers w c (oid_show s)) w) Hw) as Henc.
  set (w1 := consulted _) in Henc.
  assert (fresh_for (w_messages w1)) as Hf1
    by (unfold w1, consulted; by destruct isEnabled).
  destruct (commit_send_ok c s me None (stored_form kept) isAICommand w1 Hf1)
    as (message & w' & Hcommit).
  assert (sendMessage (oid_show c) (oid_show s) content None isAICommand w
          = (Ok (mkSendResult message l), w')) as Hsend.
  { unfold sendMessage. rewrite Htruthy. cbn [negb andb throw_if given].
    rewrite run_bind. cbn [mret M_ret]. rewrite run_bind, run_getRequired, !oid_parse_show, Hme.
    rewrite run_bind, El, run_bind. cbn [mret M_ret]. rewrite run_bind. cbn [mret M_ret].
    by rewrite run_bind, Henc, run_bind, Hcommit. }
  pose proof (sendMessage_cases (oid_show c) (oid_show s) content None isAICommand w) as Hs.
  rewrite Hsend in Hs.
  destruct Hs as (c' & s' & me' & att & st & sentAt & confirmedAt & S).
  pose proof (sent_conversation _ _ _ _ _ _ _ _ _ _ _ _ _ _ _ S) as Hc'.
  pose proof (sent_sender _ _ _ _ _ _ _ _ _ _ _ _ _ _ _ S) as Hs'.
  rewrite oid_parse_show in Hc', Hs'. simplify_eq.
  pose proof (run_commit_send (oid_show c') (oid_show s') c' s' me None
    (stored_form kept) isAICommand w1 (oid_parse_show c') (oid_parse_show s')) as Hm.
  rewrite Hcommit in Hm. destruct Hm as (t & _ & _ & Hm & _ & Hmsgs & _).
  destruct message as [mi m]. simpl in Hm, Hmsgs. subst m.
  set (m := new_message _ _ _ _ _ _) in *.
  exists (mkSendResult (mi, m) l), w'. do 2 eexists. split; [done|].
  split; [rewrite Hmsgs; apply lookup_insert_eq|].
  split; [|split].
  - unfold survives in Hw. cbn. unfold stored_form. destruct isEnabled; [done|]. by rewrite Hw.
  - cbn. unfold stored_form. by destruct isEnabled.
  - unfold toDisplayMessage, buildSenderPresentation, auth_findById, cast_oid, model_findById.
    run_simpl. cbn. rewrite oid_parse_show. cbn.
    pose proof (run_decryptForDisplay (trim content) kept (message_context m) later Hlater) as Hdec.
    unfold m in Hdec |- *. cbn in Hdec |- *. rewrite Hdec. by split_and!.
Qed.
End send_ok.

(** ** Witnesses *)

#[local] Instance demo_host_inst : Host := demo_host demo_env.
#[local] Instance demo_mongo_inst : Mongo := list_mongo.
#[local] Instance demo_laws_inst : MongoLaws := list_mongo_laws.
#[local] Instance demo_oids_inst : OidLaws := demo_oid_laws demo_env.

(** A direct conversation of two users with one message of the second. *)
Definition demo_participant (u : N) (unread : Z) : Participant :=
  mkParticipant (Oid 1) (Oid u) member active None 0 None None None unread.
Definition demo_chat : World :=
  upd_conversations (λ _, {[Oid 1 := mkConversation direct None (Oid 10) None 0 0]})
  (upd_participants (λ _, {[Oid 21 := demo_participant 10 1; Oid 22 := demo_participant 11 0]})
  (upd_messages (λ _, {[Oid 31 := mkMessage (Oid 1) (Oid 11) (js "hi") legacy None 5
                                    delivery_sent seen_sent None false false None None]})
     empty_world)).

Lemma send_updates_unread_witness :
  ∃ r w', sendMessage [1] (oid_show (Oid 10)) (js "hello") None false demo_chat = (Ok r, w')
    ∧ ∃ c me, oid_parse [1] = Some c
      ∧ mg_findOne (active_participant c (Oid 10)) (w_participants demo_chat) = Some me
      ∧ ∀ i p, w_participants demo_chat !! i = Some p →
          ∃ p', w_participants w' !! i = Some p'
            ∧ p_unreadCount p' = if bool_decide (i = me.1) then 0
                                 else if receives demo_chat c (Oid 10) p then p_unreadCount p + 1
                                 else p_unreadCount p.
Proof.
  destruct (sendMessage [1] (oid_show (Oid 10)) (js "hello") None false demo_chat)
    as [[r|e|] w'] eqn:E; [|by vm_compute in E..].
  exists r, w'. split; [done|].
  exact (send_updates_unread [1] (Oid 10) (js "hello") None false demo_chat r w' E).
Defined.

Lemma markConversationRead_effect_witness :
  ∃ r w', markConversationRead [1] (oid_show (Oid 10)) demo_chat = (Ok r, w')
    ∧ ∃ c me, oid_parse [1] = Some c
      ∧ mg_findOne (active_participant c (Oid 10)) (w_participants demo_chat) = Some me
      ∧ mr_unreadCount r = 0
      ∧ (∀ i p, w_participants demo_chat !! i = Some p →
           ∃ p', w_participants w' !! i = Some p'
             ∧ p_unreadCount p' = if bool_decide (i = me.1) then 0 else p_unreadCount p)
      ∧ (∀ i m, w_messages demo_chat !! i = Some m →
           ∃ m', w_messages w' !! i = Some m'
             ∧ (from_peer demo_chat c (Oid 10) m → m' = set_seen m)
             ∧ (¬ from_peer demo_chat c (Oid 10) m → m' = m)).
Proof.
  destruct (markConversationRead [1] (oid_show (Oid 10)) demo_chat) as [[r|e|] w'] eqn:E;
    [|by vm_compute in E..].
  exists r, w'. split; [done|].
  exact (markConversationRead_effect [1] (Oid 10) demo_chat r w' E).
Defined.

(** The same host without reverse encryption. *)
Definition plain_host : Host := demo_host (demo_env_on false).

Lemma demo_chat_fresh : fresh_for (w_messages demo_chat).
Proof.
  intros n. cbn [w_messages demo_chat upd_messages upd_participants upd_conversations].
  apply lookup_singleton_None. intros E. injection E as E. lia.
Qed.

#[local] Ltac demo_survives :=
  repeat first [ exact demo_serves_processor | exact demo_remote_ready
               | apply plain_text_check; vm_compute; reflexivity
               | split | vm_compute; discriminate | vm_compute; reflexivity ].

Lemma send_then_display_witness :
  (∃ r w' d later',
    sendMessage (oid_show (Oid 1)) (oid_show (Oid 10)) (js " Xin chào ") None false demo_chat
    = (Ok r, w')
    ∧ w_messages w' !! (sr_message r).1 = Some (sr_message r).2
    ∧ m_content (sr_message r).2 = map_forward <$> js "Xin chào"
    ∧ toDisplayMessage (sr_message r) empty_world = (Ok d, later')
    ∧ dm_content d = js "Xin chào") ∧
  ∃ r w' d later',
    @sendMessage plain_host list_mongo (oid_show (Oid 1)) (oid_show (Oid 10)) (js " Xin chào ") None false
      demo_chat = (Ok r, w')
    ∧ m_content (sr_message r).2 = js "Xin chào"
    ∧ @toDisplayMessage plain_host (sr_message r) empty_world = (Ok d, later')
    ∧ dm_content d = js "Xin chào".
Proof.
  split.
  - destruct (send_then_display (Oid 1) (Oid 10) (Oid 21, demo_participant 10 1) (js " Xin chào ")
      (js "Xin chào") false demo_chat empty_world) as [(r & w' & d & later' & E & Hl & Hm & _ & Ed & Hd & _) _].
    + vm_compute. reflexivity.
    + demo_survives.
    + demo_survives.
    + vm_compute. reflexivity.
    + exact demo_chat_fresh.
    + exists r, w', d, later'. repeat (split; [assumption|]). exact Hd.
  - destruct (@send_then_display plain_host (demo_oid_laws _) _ _ (Oid 1) (Oid 10) (Oid 21, demo_participant 10 1)
      (js " Xin chào ") (js "Xin chào") false demo_chat empty_world)
      as [(r & w' & d & later' & E & Hl & Hm & _ & Ed & Hd & _) _];
      [vm_compute; reflexivity..|exact demo_chat_fresh|]. exists r, w', d, later'. repeat (split; [assumption|]). exact Hd.
Defined.
