(* ===== verification/ChatFacts.v ===== *)
(** * Conversations, pages and search

    Theorems about the queries of the chat service: a direct conversation is created
    once per pair of users, a page of messages is the latest part of the history in
    order, a search finds the literal text, and losing membership means losing access. *)

From S2P Require Import Prelude JsText Wire Driver Env Store Model Instance Encryption Auth Chat ChatSend.
Open Scope Z_scope.

(** ** Direct conversations *)

(** [c] has exactly two participant documents, of [a] and of [b]: the test of the loop of
    [findDirectConversation]. *)
Definition pairs `{Host} `{Mongo} (ps : collection Participant) (a b : oid)
    (conversation : doc Conversation) : bool :=
  let found := mg_find (in_conversation conversation.1) ps in
  let ids := (λ p : doc Participant, oid_show (p_userId p.2)) <$> found in
  (length found =? 2)%nat && bool_decide (oid_show a ∈ ids) && bool_decide (oid_show b ∈ ids).

(** Every participant belongs to a conversation of the store. *)
Definition participants_have_conversation (w : World) : Prop :=
  ∀ i p, w_participants w !! i = Some p → is_Some (w_conversations w !! p_conversationId p).

Section direct.
Context `{Host} `{!OidLaws} `{MongoLaws}.

Lemma run_first_direct cs a b w :
  first_direct cs (oid_show a) (oid_show b) w
  = (Ok (List.find (pairs (w_participants w) a b) cs), w).
Proof.
  induction cs as [|c cs IH]; [done|]. cbn [first_direct List.find].
  unfold model_find. rewrite run_bind. cbn [gets m_get participantModel].
  unfold pairs at 1. destruct (length _ =? 2)%nat; cbn [negb andb]; [|done].
  destruct (bool_decide (oid_show a ∈ _)); cbn [negb andb orb]; [|done].
  by destruct (bool_decide (oid_show b ∈ _)).
Qed.

Lemma elem_of_conversations_of (ps : collection Participant) q u c :
  c ∈ conversations_of (oid_show u) (mg_find q ps)
  ↔ ∃ i p, ps !! i = Some p ∧ q (i, p) = true ∧ p_userId p = u ∧ p_conversationId p = c.
Proof.
  unfold conversations_of. rewrite list_elem_of_fmap. split.
  - intros ([i p] & -> & [Hu Hin]%list_elem_of_filter). apply elem_of_find in Hin as [Hl Hq].
    apply oid_show_inj in Hu. by exists i, p.
  - intros (i & p & Hl & Hq & <- & <-). exists (i, p). split; [done|].
    apply list_elem_of_filter. split; [done|]. by apply elem_of_find.
Qed.

Lemma elem_of_ids (ps : collection Participant) u c :
  oid_show u ∈ (λ p : doc Participant, oid_show (p_userId p.2)) <$> mg_find (in_conversation c) ps
  ↔ ∃ i p, ps !! i = Some p ∧ p_userId p = u ∧ p_conversationId p = c.
Proof.
  rewrite list_elem_of_fmap. split.
  - intros ([i p] & Hu & Hin). apply elem_of_find in Hin as [Hl Hq].
    apply oid_show_inj in Hu. apply bool_decide_eq_true in Hq. by exists i, p.
  - intros (i & p & Hl & <- & Hc). exists (i, p). split; [done|]. apply elem_of_find.
    split; [done|]. by apply bool_decide_eq_true.
Qed.

(** What [findDirectConversation] returns: a direct conversation of the two users, the
    most recently updated one, and nothing only when there is none. *)
Lemma run_findDirect a b w :
  ∃ r, findDirectConversation (oid_show a) (oid_show b) w = (Ok r, w)
  ∧ match r with
    | Some (c, cv) => w_conversations w !! c = Some cv ∧ cv_type cv = direct
                      ∧ pairs (w_participants w) a b (c, cv) = true
    | None => ∀ c cv, w_conversations w !! c = Some cv → cv_type cv = direct →
                pairs (w_participants w) a b (c, cv) = false
    end.
Proof.
  unfold findDirectConversation, parse_oid, model_find, model_find_sort.
  rewrite !oid_parse_show. run_simpl. unfold mret, M_ret.
  cbn [m_get participantModel conversationModel].
  match goal with |- context [match ?l with [] => _ | _ :: _ => _ end] => set (shared := l) end.
  assert (∀ c cv, pairs (w_participants w) a b (c, cv) = true → c ∈ shared) as Hshared.
  { intros c cv [[_ Ha]%andb_true_iff Hb]%andb_true_iff.
    apply bool_decide_eq_true, elem_of_ids in Ha as (i & p & Hl & Hu & Hc).
    apply bool_decide_eq_true, elem_of_ids in Hb as (j & q & Hl' & Hu' & Hc').
    apply list_elem_of_filter. split; apply elem_of_conversations_of.
    - exists j, q. split_and!; try done. rewrite (bool_decide_eq_true_2 (p_userId _ = b)) by done.
      by rewrite orb_true_r.
    - exists i, p. split_and!; try done. by rewrite (bool_decide_eq_true_2 (p_userId _ = a)). }
  destruct shared as [|s rest] eqn:Es.
  { exists None. split; [done|]. intros c cv _ _. apply not_true_iff_false. intros Hp.
    by apply Hshared, elem_of_nil in Hp. }
  rewrite run_first_direct. eexists. split; [done|].
  destruct (List.find _ _) as [[c cv]|] eqn:Ef.
  - apply List.find_some in Ef as [Hin%list_elem_of_In Hp]. 
    apply elem_of_sorted_find in Hin as [Hl [_ Ht]%andb_true_iff].
    by apply bool_decide_eq_true in Ht.
  - intros c cv Hl Ht. apply not_true_iff_false. intros Hp.
    rewrite (List.find_none _ _ Ef (c, cv)) in Hp; [done|].
    apply list_elem_of_In, elem_of_sorted_find. split; [done|].
    rewrite !bool_decide_eq_true_2; [done|done|]. by eapply Hshared.
Qed.
Lemma pairs_perm (ps ps' : collection Participant) a b c :
  mg_find (in_conversation c.1) ps ≡ₚ mg_find (in_conversation c.1) ps' →
  pairs ps a b c = pairs ps' a b c.
Proof.
  intros Hp. unfold pairs. rewrite (Permutation_length Hp).
  do 2 f_equal; apply bool_decide_ext; by rewrite Hp.
Qed.

(** Two new participants of [n]: they pair up in [n], and change nothing elsewhere. *)
Section two.
Context (ps : collection Participant) (n i1 i2 : oid) (p1 p2 : Participant).
Context (Hi1 : ps !! i1 = None) (Hi2 : <[i1:=p1]> ps !! i2 = None).
Context (Hp1 : p_conversationId p1 = n) (Hp2 : p_conversationId p2 = n).

Lemma find_two c :
  mg_find (in_conversation c) (<[i2:=p2]> (<[i1:=p1]> ps))
  ≡ₚ (if bool_decide (n = c) then [(i2, p2); (i1, p1)] else []) ++ mg_find (in_conversation c) ps.
Proof.
  rewrite !find_insert by done.
  assert (∀ i p, p_conversationId p = n → in_conversation c (i, p) = bool_decide (n = c)) as Hq
    by by intros i p <-.
  rewrite !Hq by done. by case_bool_decide.
Qed.

Lemma pairs_two_other a b c :
  c.1 ≠ n → pairs (<[i2:=p2]> (<[i1:=p1]> ps)) a b c = pairs ps a b c.
Proof.
  intros Hc. apply pairs_perm. by rewrite find_two, bool_decide_eq_false_2 by congruence.
Qed.

Lemma pairs_two a b cv :
  (∀ i p, ps !! i = Some p → p_conversationId p ≠ n) →
  (p_userId p1 = a ∧ p_userId p2 = b ∨ p_userId p1 = b ∧ p_userId p2 = a) →
  pairs (<[i2:=p2]> (<[i1:=p1]> ps)) a b (n, cv) = true.
Proof.
  intros Hn Hu.
  assert (mg_find (in_conversation n) ps = []) as Hnil.
  { destruct (mg_find (in_conversation n) ps) as [|[i p] l] eqn:E; [done|].
    destruct (proj1 (elem_of_find (in_conversation n) ps i p)) as [Hl Hq]; [rewrite E; by left|].
    apply bool_decide_eq_true in Hq. by destruct (Hn i p Hl). }
  pose proof (find_two n) as Hf. rewrite bool_decide_eq_true_2, Hnil, app_nil_r in Hf by done.
  unfold pairs. cbn [fst]. rewrite (Permutation_length Hf).
  rewrite !bool_decide_eq_true_2; [done|rewrite Hf|rewrite Hf]; cbn;
    destruct Hu as [[-> ->]|[-> ->]]; set_solver.
Qed.
End two.

Lemma run_create_Ok {D} (m : Model D) (d : D) w p w' :
  model_create m d w = (Ok p, w') →
  p.2 = d ∧ m_get m (upd_step S w) !! p.1 = None ∧ w' = m_upd m <[p.1:=d]> (upd_step S w).
Proof.
  unfold model_create, model_insert, new_oid, tick. run_simpl. cbn.
  case_bool_decide as Hd; [done|]. intros E. cbn in E. simplify_eq. cbn.
  split_and!; [done|by apply eq_None_not_Some|done].
Qed.

(** The documents made for two ids, and the insertion of two documents. *)
Lemma run_docs_two {D} (doc_of : jsstring → oid → Z → D) a b w :
  forM [oid_show a; oid_show b] (λ uid, u ← parse_oid uid; t ← now; mret (doc_of uid u t)) w
  = (Ok [doc_of (oid_show a) a (clock (w_step w)); doc_of (oid_show b) b (clock (S (w_step w)))],
     upd_step S (upd_step S w)).
Proof. unfold parse_oid. cbn [forM]. by rewrite !oid_parse_show. Qed.

Lemma insertMany_two {D} (m : Model D) d1 d2 w l w' :
  model_insertMany m [d1; d2] w = (Ok l, w') →
  ∃ i1 i2, let w1 := m_upd m <[i1:=d1]> (upd_step S w) in
    m_get m (upd_step S w) !! i1 = None ∧ m_get m (upd_step S w1) !! i2 = None
    ∧ w' = m_upd m <[i2:=d2]> (upd_step S w1).
Proof.
  unfold model_insertMany. cbn [forM]. intros E.
  apply bind_Ok_inv in E as ([i1 x1] & w1 & E1 & E). apply run_create_Ok in E1 as (_ & H1' & ->).
  apply bind_Ok_inv in E as (l' & w2 & E1 & E).
  apply bind_Ok_inv in E1 as ([i2 x2] & w3 & E2 & E1). apply run_create_Ok in E2 as (_ & H2' & ->).
  injection E1 as <- <-. injection E as <- <-. by exists i1, i2.
Qed.

(** The conversation a creator starts with one other user, and its two participants. *)
Lemma new_direct_Ok a b title w c cv w1 :
  a ≠ b →
  new_conversation direct (oid_show a) [oid_show b] title w = (Ok (c, cv), w1) →
  w_conversations w !! c = None ∧ w_conversations w1 = <[c:=cv]> (w_conversations w)
  ∧ cv_type cv = direct
  ∧ ∃ i1 p1 i2 p2,
      w_participants w !! i1 = None ∧ <[i1:=p1]> (w_participants w) !! i2 = None
      ∧ p_conversationId p1 = c ∧ p_conversationId p2 = c
      ∧ p_userId p1 = a ∧ p_userId p2 = b
      ∧ w_participants w1 = <[i2:=p2]> (<[i1:=p1]> (w_participants w)).
Proof.
  intros Hab E. assert (oid_show b ≠ oid_show a) as Hs by by intros ?%oid_show_inj.
  assert (js_set [oid_show a; oid_show b] = [oid_show a; oid_show b]) as Hset.
  { cbn [js_set]. by rewrite filter_nil, filter_cons_True, filter_nil. }
  unfold new_conversation in E. apply bind_Ok_inv in E as (creator & w2 & E1 & E).
  unfold parse_oid in E1. rewrite oid_parse_show in E1. injection E1 as <- <-.
  apply bind_Ok_inv in E as (t & w2 & E1 & E). injection E1 as <- <-.
  apply bind_Ok_inv in E as ([c' cv'] & w3 & E1 & E).
  apply run_create_Ok in E1 as (Hcv & Hf & ->). cbn [fst snd] in Hcv, Hf, E.
  cbv zeta in E. rewrite Hset in E.
  rewrite run_bind, (run_docs_two (λ uid u joinedAt, mkParticipant c' u _ _ _ _ _ _ _ _)) in E.
  apply bind_Ok_inv in E as (inserted & w4 & E1 & E).
  apply insertMany_two in E1 as (i1 & i2 & Hf1 & Hf2 & ->).
  rewrite run_bind, (run_docs_two (λ uid u occurredAt, mkEvent c' _ u _ occurredAt)) in E.
  apply bind_Ok_inv in E as (events & w5 & E1 & E).
  apply insertMany_two in E1 as (j1 & j2 & _ & _ & ->). injection E as <- <- <-.
  split; [exact Hf|]. split; [by rewrite Hcv|]. split; [by rewrite Hcv|].
  eexists i1, _, i2, _. split; [exact Hf1|]. split; [exact Hf2|].
  split_and!; [| | | |reflexivity]; done.
Qed.
End direct.

(** Two users have at most one direct conversation of their own. *)
Definition one_direct_per_pair `{Host} `{Mongo} (w : World) : Prop :=
  ∀ a b c c' cv cv', a ≠ b →
    w_conversations w !! c = Some cv → cv_type cv = direct →
    pairs (w_participants w) a b (c, cv) = true →
    w_conversations w !! c' = Some cv' → cv_type cv' = direct →
    pairs (w_participants w) a b (c', cv') = true → c = c'.

Section once.
Context `{Host} `{!OidLaws} `{MongoLaws}.

Lemma pairs_sym ps a b c : pairs ps a b c = pairs ps b a c.
Proof. unfold pairs. rewrite <-!andb_assoc. f_equal. apply andb_comm. Qed.

(** The only direct conversation of two users is the one that is found. *)
Lemma findDirect_found a b c cv w :
  a ≠ b → one_direct_per_pair w →
  w_conversations w !! c = Some cv → cv_type cv = direct →
  pairs (w_participants w) a b (c, cv) = true →
  findDirectConversation (oid_show a) (oid_show b) w = (Ok (Some (c, cv)), w).
Proof.
  intros Hab Hone Hl Ht Hp. destruct (run_findDirect a b w) as (r & -> & Hr).
  destruct r as [[c' cv']|]; [|by rewrite (Hr c cv) in Hp].
  destruct Hr as (Hl' & Ht' & Hp').
  assert (c' = c) as -> by by eapply (Hone a b). by simplify_eq.
Qed.

Lemma createDirect a b title w :
  a ≠ b →
  createConversation direct (oid_show a) [oid_show b] title w
  = match findDirectConversation (oid_show a) (oid_show b) w with
    | (Ok (Some conversation), w') => (Ok conversation, w')
    | (Ok None, w') => new_conversation direct (oid_show a) [oid_show b] title w'
    | (Throw e, w') => (Throw e, w')
    | (Hang, w') => (Hang, w')
    end.
Proof.
  intros Hab. assert (oid_show b ≠ oid_show a) as Hba by by intros ?%oid_show_inj.
  unfold createConversation, existing_direct. rewrite bool_decide_eq_false_2 by done.
  rewrite !run_bind. cbn [throw_if mret M_ret].
  by destruct (findDirectConversation _ _ w) as [[[?|]|?|] ?].
Qed.

(** The participants of a conversation, read off the test. *)
Lemma pairs_members ps a b c :
  pairs ps a b c = true →
  (∃ i p, ps !! i = Some p ∧ p_userId p = a ∧ p_conversationId p = c.1)
  ∧ (∃ i p, ps !! i = Some p ∧ p_userId p = b ∧ p_conversationId p = c.1).
Proof.
  intros [[_ Ha]%andb_true_iff Hb]%andb_true_iff.
  apply bool_decide_eq_true, elem_of_ids in Ha. by apply bool_decide_eq_true, elem_of_ids in Hb.
Qed.

(** C29: two users share one direct conversation: creating it, by either of them, keeps at
    most one per pair, and creating it again returns the same one and changes nothing. *)
Theorem direct_conversation_once a b title title' w c w1 :
  a ≠ b → participants_have_conversation w → one_direct_per_pair w →
  createConversation direct (oid_show a) [oid_show b] title w = (Ok c, w1) →
  one_direct_per_pair w1
  ∧ createConversation direct (oid_show a) [oid_show b] title' w1 = (Ok c, w1)
  ∧ createConversation direct (oid_show b) [oid_show a] title' w1 = (Ok c, w1)
  ∧ w_conversations w1 !! c.1 = Some c.2 ∧ cv_type c.2 = direct.
Proof.
  intros Hab Hwf Hone E. rewrite createDirect in E by done.
  rewrite !createDirect by done.
  assert (one_direct_per_pair w1 ∧ w_conversations w1 !! c.1 = Some c.2 ∧ cv_type c.2 = direct
          ∧ pairs (w_participants w1) a b c = true) as (Hone1 & Hl & Ht & Hp).
  { destruct (run_findDirect a b w) as (r & Hr & Hspec). rewrite Hr in E.
    destruct r as [[c0 cv0]|]; [by simplify_eq|]. destruct c as [c cv]. cbn [fst snd].
    apply new_direct_Ok in E as (Hf & Hcs & Ht & i1 & p1 & i2 & p2 & Hi1 & Hi2 & Hp1 & Hp2 &
      Hu1 & Hu2 & Hps); [|done].
    assert (∀ i p, w_participants w !! i = Some p → p_conversationId p ≠ c) as Hnew.
    { intros i p Hi Hpc. destruct (Hwf i p Hi) as [x Hx]. congruence. }
    split_and!; [|by rewrite Hcs, lookup_insert_eq|done|].
    2: { rewrite Hps. apply pairs_two; auto. }
    unfold one_direct_per_pair. rewrite Hcs, Hps.
    assert (∀ x y d dv, x ≠ y → d ≠ c → <[c:=cv]> (w_conversations w) !! d = Some dv →
      cv_type dv = direct →
      pairs (<[i2:=p2]> (<[i1:=p1]> (w_participants w))) x y (d, dv) = true →
      pairs (<[i2:=p2]> (<[i1:=p1]> (w_participants w))) x y (c, cv) = true → False) as Hno.
    { intros x y d dv Hxy Hd Hl Htd Hp Hpc.
      rewrite lookup_insert_ne in Hl by done. rewrite (pairs_two_other _ c) in Hp by done.
      assert (pairs (w_participants w) a b (d, dv) = true) as Hab'; [|by rewrite (Hspec d dv) in Hab'].
      apply pairs_members in Hpc as [(i & p & Hi & Hu & Hc) (j & q & Hj & Hu' & Hc')].
      cbn [fst] in Hc, Hc'.
      assert (∀ i p, <[i2:=p2]> (<[i1:=p1]> (w_participants w)) !! i = Some p →
        p_conversationId p = c → p_userId p = a ∨ p_userId p = b) as Hin.
      { intros k r Hk Hrc. apply lookup_insert_Some in Hk as [[_ <-]|[_ Hk]]; [by right|].
        apply lookup_insert_Some in Hk as [[_ <-]|[_ Hk]]; [by left|]. by destruct (Hnew k r). }
      assert (x = a ∧ y = b ∨ x = b ∧ y = a) as [[-> ->]|[-> ->]]; [|done|by rewrite pairs_sym].
      destruct (Hin i p Hi Hc), (Hin j q Hj Hc'); intuition congruence. }
    intros x y d d' dv dv' Hxy Hl Htd Hp Hl' Htd' Hp'.
    destruct (decide (d = c)) as [->|Hd], (decide (d' = c)) as [->|Hd']; [done| | |].
    - exfalso. eapply (Hno x y d' dv'); try done.
    - exfalso. eapply (Hno x y d dv); try done.
    - rewrite lookup_insert_ne in Hl, Hl' by done.
      rewrite (pairs_two_other _ c) in Hp, Hp' by done. by eapply (Hone x y). }
  destruct c as [c cv]. split; [done|].
  rewrite (findDirect_found a b c cv), (findDirect_found b a c cv); try done.
  by rewrite pairs_sym.
Qed.

(** The look-up and the creation are separate queries, and nothing in the database keeps the
    pair unique: two creations whose look-ups both came first leave two direct conversations
    of the same two users, and [one_direct_per_pair] is lost. *)
Lemma direct_conversation_race a b title1 title2 w c1 w1 c2 w2 :
  a ≠ b → participants_have_conversation w →
  findDirectConversation (oid_show a) (oid_show b) w = (Ok None, w) →
  findDirectConversation (oid_show b) (oid_show a) w = (Ok None, w) →
  new_conversation direct (oid_show a) [oid_show b] title1 w = (Ok c1, w1) →
  new_conversation direct (oid_show b) [oid_show a] title2 w1 = (Ok c2, w2) →
  c1.1 ≠ c2.1 ∧ ¬ one_direct_per_pair w2.
Proof.
  intros Hab Hwf _ _ E1 E2. destruct c1 as [c1 cv1], c2 as [c2 cv2]. cbn [fst].
  apply new_direct_Ok in E1 as (Hf1 & Hc1 & Ht1 & i1 & p1 & i2 & p2 & Hi1 & Hi2 & Hp1 & Hp2 & Hu1 & Hu2 & Hps1);
    [|done].
  apply new_direct_Ok in E2 as (Hf2 & Hc2 & Ht2 & j1 & q1 & j2 & q2 & Hj1 & Hj2 & Hq1 & Hq2 & Hv1 & Hv2 & Hps2);
    [|done].
  assert (c1 ≠ c2) as Hne by (intros ->; by rewrite Hc1, lookup_insert_eq in Hf2).
  split; [done|]. intros Hone. apply Hne. apply (Hone a b c1 c2 cv1 cv2); try done.
  - by rewrite Hc2, lookup_insert_ne, Hc1, lookup_insert_eq.
  - rewrite Hps2, (pairs_two_other _ c2) by done. rewrite Hps1. apply pairs_two; auto.
    intros i p Hi Hpc. destruct (Hwf i p Hi) as [x Hx]. congruence.
  - by rewrite Hc2, lookup_insert_eq.
  - rewrite Hps2. apply pairs_two; auto. intros i p Hi Hpc.
    rewrite Hps1 in Hi. apply lookup_insert_Some in Hi as [[_ <-]|[_ Hi]]; [congruence|].
    apply lookup_insert_Some in Hi as [[_ <-]|[_ Hi]]; [congruence|].
    destruct (Hwf i p Hi) as [x Hx]. rewrite Hpc in Hx.
    by rewrite Hc1, lookup_insert_ne, Hx in Hf2.
Qed.
End once.

(** ** Pages of messages *)

(** What the client can rely on in an element of a page, given the message after it. *)
Record payload_for `{Host} (m : doc Message) (next : option (doc Message)) (x : ChatMessagePayload)
    : Prop := {
  for_id : cm_id x = m.1;
  for_conversation : cm_conversationId x = m_conversationId m.2;
  for_sender : cm_senderId x = m_senderId m.2;
  for_sentAt : cm_sentAt x = m_sentAt m.2;
  for_seen : cm_seenState x = m_seenState m.2;
  for_tail : cm_isTailOfSenderGroup x
             = match next with
               | Some n => bool_decide (m_senderId n.2 ≠ m_senderId m.2)
               | None => true
               end;
}.

(** The messages a page is taken from. *)
Definition in_history (w : World) (c : oid) (cursor : option Z) (i : oid) (m : Message) : Prop :=
  w_messages w !! i = Some m ∧ m_conversationId m = c ∧ is_before cursor (m_sentAt m) = true.

Section pages.
Context `{Host} `{!OidLaws} `{MongoLaws}.

Lemma toDisplayMessage_message m w d w' : toDisplayMessage m w = (Ok d, w') → dm_message d = m.
Proof.
  unfold toDisplayMessage. rewrite run_bind.
  destruct (buildSenderPresentation _ w) as [[sender|e|] w1]; [|done..].
  unfold try_catch. rewrite run_bind.
  destruct (decryptForDisplay _ _ _ w1) as [[display|e|] w2]; [| |done];
    intros E; by injection E as <- <-.
Qed.

Lemma message_payload_for m next d : dm_message d = m → payload_for m next (message_payload d next).
Proof.
  intros Hd. unfold message_payload. rewrite Hd. destruct m as [i m].
  split; try done. simpl. destruct next as [n|]; [|done].
  apply bool_decide_ext. split; [congruence|]. by intros Hne ?%oid_show_inj.
Qed.

Lemma message_payloads_for ms w page w' :
  message_payloads ms w = (Ok page, w') →
  length page = length ms
  ∧ ∀ k x, page !! k = Some x → ∃ m, ms !! k = Some m ∧ payload_for m (ms !! S k) x.
Proof.
  revert w page w'. induction ms as [|m ms IH]; intros w page w' E; cbn [message_payloads] in E.
  { injection E as <- <-. by split. }
  apply bind_Ok_inv in E as (d & w1 & Ed & E). apply toDisplayMessage_message in Ed.
  apply bind_Ok_inv in E as (rest & w2 & Er & E). injection E as <- <-.
  apply IH in Er as [Hlen Hk]. split; [by simpl; rewrite Hlen|].
  intros [|k] x Hx; simpl in Hx; simplify_eq.
  - exists (dm_message d). split; [done|]. simpl.
    replace (ms !! 0%nat) with (head ms) by by destruct ms. by apply message_payload_for.
  - by apply Hk in Hx.
Qed.

(** The documents of a page: the [n] latest, or all of them when [n] is 0. *)
Lemma getMessages_docs conversationId before limit w page w' :
  getMessages conversationId before limit w = (Ok page, w') →
  ∃ c cursor docs, oid_parse conversationId = Some c
    ∧ before_cursor before w = (Ok cursor, w)
    ∧ docs = reverse (mg_limit (Math_min limit (num 50)) (mg_sort (desc m_sentAt)
               (mg_find (λ m, message_in c m && is_before cursor (m_sentAt m.2)) (w_messages w))))
    ∧ length page = length docs
    ∧ ∀ k x, page !! k = Some x → ∃ m, docs !! k = Some m ∧ payload_for m (docs !! S k) x.
Proof.
  unfold getMessages, parse_oid. intros E.
  apply bind_Ok_inv in E as (c & w1 & Ec & E).
  destruct (oid_parse conversationId) as [c'|] eqn:Ep; [|done]. injection Ec as <- <-.
  apply bind_Ok_inv in E as (cursor & w1 & Eb & E).
  assert (w1 = w) as ->.
  { unfold before_cursor in Eb. destruct (given before); [|by injection Eb].
    rewrite run_bind in Eb. by destruct (date_parse _); injection Eb. }
  unfold model_find_sort_limit in E. rewrite run_bind in E. cbn [gets m_get messageModel] in E.
  apply message_payloads_for in E as [Hlen Hk].
  exists c', cursor. eexists. split_and!; [done|done|reflexivity|done|done].
Qed.

Lemma StronglySorted_reverse {A} (R : A → A → Prop) l :
  StronglySorted R l → StronglySorted (λ a b, R b a) (reverse l).
Proof.
  induction 1 as [|a l Hs IH Ha]; [constructor|]. rewrite reverse_cons.
  apply StronglySorted_app_2; [|done|repeat constructor].
  intros x y Hx ->%list_elem_of_singleton. rewrite elem_of_reverse in Hx.
  rewrite Forall_forall in Ha. exact (Ha x Hx).
Qed.

(** Sortedness by positions. *)
Lemma StronglySorted_lookup_lt {A} (R : A → A → Prop) (l : list A) k1 k2 a b :
  StronglySorted R l → l !! k1 = Some a → l !! k2 = Some b → (k1 < k2)%nat → R a b.
Proof.
  intros Hs. revert k1 k2. induction Hs as [|x l _ IH Hx]; intros k1 k2 Ha Hb Hlt; [done|].
  destruct k2 as [|k2]; [lia|]. destruct k1 as [|k1]; simpl in *.
  - simplify_eq. rewrite Forall_forall in Hx. apply Hx. by eapply list_elem_of_lookup_2.
  - apply (IH k1 k2); [done|done|lia].
Qed.

Lemma sorted_by_lookup {A} (R : A → A → Prop) (l : list A) :
  (∀ k1 k2 a b, l !! k1 = Some a → l !! k2 = Some b → (k1 < k2)%nat → R a b) →
  StronglySorted R l.
Proof.
  induction l as [|x l IH]; intros Hl; constructor.
  - apply IH. intros k1 k2 a b Ha Hb Hlt. apply (Hl (S k1) (S k2)); [done|done|lia].
  - apply Forall_lookup. intros k b Hb. apply (Hl 0%nat (S k)); [done|done|lia].
Qed.

(** In the documents of a page of at most [k], everything left out is older. *)
Lemma page_docs (ms : collection Message) q k :
  let docs := reverse (take k (mg_sort (desc m_sentAt) (mg_find q ms))) in
  NoDup docs.*1
  ∧ StronglySorted (λ a b, m_sentAt a.2 <= m_sentAt b.2) docs
  ∧ (∀ i m, (i, m) ∈ docs → ms !! i = Some m ∧ q (i, m) = true)
  ∧ ∀ i m, ms !! i = Some m → q (i, m) = true →
      (i, m) ∈ docs ∨ length docs = k ∧ ∀ i' m', (i', m') ∈ docs → m_sentAt m <= m_sentAt m'.
Proof.
  pose proof (elem_of_sorted_find (desc m_sentAt) q ms) as Hel.
  pose proof (sorted_find_nodup (desc m_sentAt) q ms) as Hnd.
  pose proof (sorted_desc m_sentAt (mg_find q ms)) as Hs.
  set (l := mg_sort _ _) in *. rewrite <-(take_drop k l) in Hs. cbn zeta.
  apply StronglySorted_app in Hs as (Hcross & Hs & _).
  split_and!.
  - rewrite fmap_reverse, reverse_Permutation. apply (sublist_NoDup _ l.*1); [done|].
    apply (fmap_sublist fst), sublist_take.
  - by apply (StronglySorted_reverse (λ a b : doc Message, m_sentAt b.2 <= m_sentAt a.2)).
  - intros i m Hin. rewrite elem_of_reverse in Hin. apply Hel. rewrite <-(take_drop k l). apply elem_of_app. by left.
  - intros i m Hl Hq. pose proof (proj2 (Hel i m) (conj Hl Hq)) as Hin.
    rewrite <-(take_drop k l) in Hin. apply elem_of_app in Hin as [Hin|Hin].
    + left. by apply elem_of_reverse.
    + right. split.
      * rewrite length_reverse, length_take.
        assert (length (drop k l) ≠ 0)%nat by (destruct (drop k l); [by apply elem_of_nil in Hin|done]).
        rewrite length_drop in *. lia.
      * intros i' m' Hin'. rewrite elem_of_reverse in Hin'. by apply (Hcross (i', m') (i, m)).
Qed.

(** A page of at most [n > 0] messages is the latest part of the history before the
    cursor, never more than 50, oldest first, without duplicates; what is left out is not
    newer than anything in it; and an element closes its sender's group exactly when the
    next one has another sender or there is none. *)
Theorem getMessages_page conversationId before n w page w' :
  0 < n →
  getMessages conversationId before (num n) w = (Ok page, w') →
  ∃ c cursor, oid_parse conversationId = Some c ∧ before_cursor before w = (Ok cursor, w)
    ∧ NoDup (cm_id <$> page)
    ∧ Z.of_nat (length page) <= Z.min n 50
    ∧ StronglySorted (λ x y, cm_sentAt x <= cm_sentAt y) page
    ∧ (∀ k x, page !! k = Some x → ∃ m, in_history w c cursor (cm_id x) m
         ∧ cm_sentAt x = m_sentAt m ∧ cm_senderId x = m_senderId m)
    ∧ (∀ i m, in_history w c cursor i m →
         i ∈ cm_id <$> page
         ∨ Z.of_nat (length page) = Z.min n 50 ∧ Forall (λ x, m_sentAt m <= cm_sentAt x) page)
    ∧ (∀ k x, page !! k = Some x →
         cm_isTailOfSenderGroup x
         = match page !! S k with
           | Some y => bool_decide (cm_senderId y ≠ cm_senderId x)
           | None => true
           end).
Proof.
  intros Hn E. apply getMessages_docs in E as (c & cursor & docs & Hc & Hb & Hd & Hlen & Hk).
  exists c, cursor. split; [done|]. split; [done|].
  rewrite Math_min_num, limit_pos in Hd by lia.
  pose proof (page_docs (w_messages w) (λ m, message_in c m && is_before cursor (m_sentAt m.2))
    (Z.to_nat (Z.min n 50))) as Hp.
  rewrite <-Hd in Hp. destruct Hp as (Hnd & Hs & Hin & Hall). clear Hb.
  assert (∀ i m, w_messages w !! i = Some m →
    message_in c (i, m) && is_before cursor (m_sentAt m) = true ↔ in_history w c cursor i m) as Hq.
  { intros i m Hl. rewrite andb_true_iff. unfold message_in, in_history. simpl.
    rewrite bool_decide_eq_true. tauto. }
  assert (cm_id <$> page = docs.*1) as Hids.
  { apply list_eq. intros k. rewrite !list_lookup_fmap. destruct (page !! k) as [x|] eqn:Ek.
    - apply Hk in Ek as (m & -> & Hf). simpl. by rewrite (for_id _ _ _ Hf).
    - apply lookup_ge_None in Ek. by rewrite lookup_ge_None_2 by lia. }
  split_and!.
  - by rewrite Hids.
  - rewrite Hlen, Hd, length_reverse, length_take. lia.
  - apply sorted_by_lookup. intros k1 k2 x y Hx Hy Hlt.
    apply Hk in Hx as (m1 & Hm1 & Hf1), Hy as (m2 & Hm2 & Hf2).
    rewrite (for_sentAt _ _ _ Hf1), (for_sentAt _ _ _ Hf2). 
    exact (StronglySorted_lookup_lt _ docs k1 k2 m1 m2 Hs Hm1 Hm2 Hlt).
  - intros k x Hx. apply Hk in Hx as ([i m] & Hm & Hf). exists m.
    rewrite (for_id _ _ _ Hf), (for_sentAt _ _ _ Hf), (for_sender _ _ _ Hf).
    apply list_elem_of_lookup_2 in Hm. apply Hin in Hm as [Hl Hm].
    split; [by apply (Hq i m Hl)|done].
  - intros i m Hh. destruct (Hall i m) as [Hi|[Hf Hold]]; [by apply Hh|by apply Hq; [apply Hh|]| |].
    + left. rewrite Hids. by apply list_elem_of_fmap_2 with (f := fst) in Hi.
    + right. split; [lia|]. apply Forall_lookup. intros k x Hx.
      apply Hk in Hx as ([i' m'] & Hm & Hfx). rewrite (for_sentAt _ _ _ Hfx).
      apply list_elem_of_lookup_2 in Hm. by apply (Hold i').
  - intros k x Hx. destruct (Hk k x Hx) as (m & Hm & Hf). rewrite (for_tail _ _ _ Hf).
    destruct (page !! S k) as [y|] eqn:Ey.
    + apply Hk in Ey as (m2 & -> & Hf2). by rewrite (for_sender _ _ _ Hf), (for_sender _ _ _ Hf2).
    + apply lookup_ge_None in Ey. by rewrite lookup_ge_None_2 by lia.
Qed.
End pages.

(** ** Search *)

Section search.
Context `{Host} `{!OidLaws} `{MongoLaws}.

(** The literal text the user typed, up to the case folding of regular expressions. *)
Definition contains_i (text query : jsstring) : bool :=
  includes (canonicalize <$> text) (canonicalize <$> query).

Lemma regex_test_escaped query text : regex_test_i (escape_regex query) text = contains_i text query.
Proof. unfold regex_test_i. by rewrite pattern_literal_escape. Qed.

Lemma run_search_payloads ms w shown w' :
  forM ms (λ m, d ← toDisplayMessage m; mret (search_payload d)) w = (Ok shown, w') →
  Forall2 (λ m x, ms_messageId x = oid_show m.1 ∧ ms_conversationId x = oid_show (m_conversationId m.2)
                  ∧ ms_senderId x = oid_show (m_senderId m.2)
                  ∧ ms_sentAt x = toISOString (m_sentAt m.2)) ms shown.
Proof.
  revert w shown w'. induction ms as [|m ms IH]; intros w shown w' E; cbn [forM] in E.
  { injection E as <- <-. constructor. }
  apply bind_Ok_inv in E as (x & w1 & Ex & E). apply bind_Ok_inv in E as (xs & w2 & Er & E).
  injection E as <- <-. apply bind_Ok_inv in Ex as (d & w3 & Ed & Ex).
  apply toDisplayMessage_message in Ed. injection Ex as <- <-.
  constructor; [|by eapply IH]. unfold search_payload. rewrite Ed. by destruct m.
Qed.

(** A search looks through the 100 latest messages of the conversation, newest
    first, and returns the first 20 whose displayed text contains the trimmed query
    literally (whatever regular-expression characters it has), ignoring case. *)
Theorem searchMessages_hits conversationId query w hits w' :
  (2 ≤ length (trim query))%nat →
  searchMessages conversationId query w = (Ok hits, w') →
  ∃ c docs shown, oid_parse conversationId = Some c
    ∧ docs = take 100 (mg_sort (desc m_sentAt) (mg_find (message_in c) (w_messages w)))
    ∧ (ms_messageId <$> shown = (λ m : doc Message, oid_show m.1) <$> docs)
    ∧ hits = take 20 (filter (λ x, contains_i (ms_content x) (trim query) = true) shown)
    ∧ Forall (λ x, ∃ i m, ms_messageId x = oid_show i ∧ w_messages w !! i = Some m
                          ∧ m_conversationId m = c ∧ ms_senderId x = oid_show (m_senderId m)) hits.
Proof.
  intros Hq E. unfold searchMessages in E.
  rewrite (proj2 (Nat.ltb_ge _ _)) in E by done.
  apply bind_Ok_inv in E as (c & w1 & Ec & E). unfold parse_oid in Ec.
  destruct (oid_parse conversationId) as [c'|]; [|done]. injection Ec as <- <-.
  apply bind_Ok_inv in E as (docs & w1 & Ed & E). injection Ed as <- <-.
  apply bind_Ok_inv in E as (shown & w1 & Es & E). injection E as <- <-.
  apply run_search_payloads in Es. cbn [m_get messageModel] in Es. rewrite limit_pos in Es by lia.
  change (Z.to_nat 100) with 100%nat in Es.
  exists c'. do 2 eexists. split; [done|]. split; [done|]. split; [|split].
  - symmetry. apply list_eq_Forall2, Forall2_fmap_2. eapply Forall2_impl; [exact Es|].
    by intros m x (-> & _).
  - f_equal. apply list_filter_iff. intros x. by rewrite regex_test_escaped.
  - apply Forall_forall. intros x Hx.
    assert (x ∈ shown) as Hin.
    { eapply elem_of_submseteq; [exact Hx|].
      etrans; [apply sublist_submseteq, sublist_take|apply sublist_submseteq, sublist_filter]. }
    apply list_elem_of_lookup_1 in Hin as [k Hk].
    destruct (Forall2_lookup_r _ _ _ _ _ Es Hk) as ([i m] & Hm & Hid & _ & Hs & _).
    exists i, m. split; [done|].
    apply list_elem_of_lookup_2 in Hm.
    assert ((i, m) ∈ mg_sort (desc m_sentAt) (mg_find (message_in c') (w_messages w))) as Hin.
    { eapply elem_of_submseteq; [exact Hm|]. apply sublist_submseteq, sublist_take. }
    apply elem_of_sorted_find in Hin as [Hl Hc]. by apply bool_decide_eq_true in Hc.
Qed.
End search.

(** ** Membership *)

(** The user has at most one active participant document in the conversation. *)
Definition active_once (w : World) (c u : oid) : Prop :=
  ∀ i j p q, w_participants w !! i = Some p → w_participants w !! j = Some q →
    active_participant c u (i, p) = true → active_participant c u (j, q) = true → i = j.

(** Nobody passes for the user in the conversation. *)
Definition no_access `{Host} (w : World) (c u : oid) : Prop :=
  ∀ i p, w_participants w !! i = Some p → active_participant c u (i, p) = false.

Section membership.
Context `{Host} `{!OidLaws} `{MongoLaws}.

Lemma no_access_refused c u content attachment ai w :
  no_access w c u → (trim content ≠ [] ∨ given attachment ≠ None) →
  sendMessage (oid_show c) (oid_show u) content attachment ai w = (Throw not_active_participant, w)
  ∧ markConversationRead (oid_show c) (oid_show u) w = (Throw not_active_participant, w)
  ∧ requireActiveParticipant (oid_show c) (oid_show u) w = (Throw not_active_participant, w)
  ∧ requireAdminOrOwner (oid_show c) (oid_show u) w = (Throw no_permission, w).
Proof.
  intros Hno Hc.
  assert (mg_findOne (active_participant c u) (w_participants w) = None) as Hf
    by by apply findOne_None.
  assert (getRequiredActiveParticipant (oid_show c) (oid_show u) w
          = (Throw not_active_participant, w)) as Hreq
    by by rewrite run_getRequired, !oid_parse_show, Hf.
  assert (getActiveParticipant (oid_show c) (oid_show u) w = (Ok None, w)) as Hget
    by by rewrite run_getActive, !oid_parse_show, Hf.
  split_and!.
  - unfold sendMessage. rewrite run_bind.
    assert (negb (truthy (trim content)) && bool_decide (given attachment = None) = false) as ->.
    { destruct (trim content); [|done]. destruct Hc as [Hc|Hc]; [done|].
      by apply bool_decide_eq_false. }
    cbn [throw_if mret M_ret]. by rewrite run_bind, Hreq.
  - unfold markConversationRead. by rewrite run_bind, Hreq.
  - unfold requireActiveParticipant. by rewrite run_bind, Hget.
  - unfold requireAdminOrOwner, getParticipantRole. 
    rewrite run_bind, (run_bind_Ok _ _ _ _ _ Hget). reflexivity.
Qed.

Lemma record_event_participants c type target actor w w' :
  record_event c type target actor w = (Ok tt, w') → w_participants w' = w_participants w.
Proof.
  unfold record_event. intros E. apply bind_Ok_inv in E as (t & w1 & E1 & E).
  injection E1 as <- <-. apply bind_Ok_inv in E as (ev & w1 & E1 & E). injection E as <-.
  by apply run_create_Ok in E1 as (_ & _ & ->).
Qed.

Lemma gone_no_access c u st t (ps : collection Participant) w :
  st ≠ active → active_once w c u → w_participants w = ps →
  no_access (put_participants (updateOne (active_participant c u) (set_gone st t) ps) w) c u.
Proof.
  intros Hst Honce <- i p Hi. cbn in Hi. unfold updateOne in Hi.
  destruct (mg_findOne _ _) as [[j q]|] eqn:Ef.
  - apply findOne_Some in Ef as [Hj Hq].
    apply not_true_iff_false. intros Hp. rewrite lookup_alter in Hi. case_decide as Hij.
    + subst j. rewrite Hj in Hi. simpl in Hi. simplify_eq.
      unfold active_participant, is_active in Hp. simpl in Hp.
      rewrite (bool_decide_eq_false_2 (st = active)) in Hp by done.
      by rewrite andb_false_r in Hp.
    + apply Hij. symmetry. by eapply (Honce i j p q).
  - by apply (proj1 (findOne_None _ _) Ef i p).
Qed.

(** The change that a departure makes to the participants. *)
Lemma departed_participants c u actor (leave : bool) w w' :
  (if leave then leaveConversation (oid_show c) (oid_show u) w
   else removeMember (oid_show c) (oid_show u) actor w) = (Ok tt, w') →
  ∃ st t, st ≠ active ∧
    w_participants w' = updateOne (active_participant c u) (set_gone st t) (w_participants w).
Proof.
  intros E. destruct leave;
    [unfold leaveConversation, markConversationLeft in E|unfold removeMember in E];
    unfold parse_oid, now, tick, model_updateOne in E; rewrite !oid_parse_show in E;
    run_simpl_in E; unfold mret, M_ret in E; cbn [snd] in E.
  - exists left_, (clock (w_step w)). split; [done|]. by apply record_event_participants in E.
  - exists removed, (clock (w_step w)). split; [done|]. destruct (oid_parse actor); [|done].
    by apply record_event_participants in E.
Qed.

(** A member who was removed or has left has no access. *)
Lemma departed_no_access c u actor (leave : bool) w w' :
  active_once w c u →
  (if leave then leaveConversation (oid_show c) (oid_show u) w
   else removeMember (oid_show c) (oid_show u) actor w) = (Ok tt, w') →
  no_access w' c u.
Proof.
  intros Honce E. destruct (departed_participants c u actor leave w w' E) as (st & t & Hst & Hp).
  intros i p Hi. rewrite Hp in Hi.
  by apply (gone_no_access c u st t (w_participants w) w Hst Honce eq_refl i p).
Qed.

(** Adding a member works once: a second addition reports the existing membership and
    changes nothing, and at no point does the user become a member twice. *)
Theorem addMember_once c u actor actor' w already w1 :
  active_once w c u →
  addMember (oid_show c) (oid_show u) actor w = (Ok already, w1) →
  active_once w1 c u
  ∧ (already = true → w1 = w)
  ∧ addMember (oid_show c) (oid_show u) actor' w1 = (Ok true, w1)
  ∧ ∃ r, requireActiveParticipant (oid_show c) (oid_show u) w1 = (Ok r, w1)
         ∧ active_participant c u r = true.
Proof.
  intros Honce E.
  assert (active_once w1 c u ∧ (already = true → w1 = w)
          ∧ ∃ r, mg_findOne (active_participant c u) (w_participants w1) = Some r)
    as (Honce1 & Hsame & [i p] & Hr).
  { unfold addMember, parse_oid, model_findOne in E. rewrite !oid_parse_show in E.
    run_simpl_in E. unfold mret, M_ret in E. cbn in E.
    destruct (mg_findOne _ _) as [r|] eqn:Ef.
    { injection E as <- <-. split_and!; [done|done|by exists r]. }
    destruct (oid_parse actor) as [a|]; cbn in E; [|done].
    apply bind_Ok_inv in E as (d & w2 & E1 & E). apply run_create_Ok in E1 as (_ & Hd & ->).
    apply bind_Ok_inv in E as ([] & w3 & E1 & E). apply record_event_participants in E1.
    injection E as <- <-. cbn in E1, Hd. rewrite findOne_None in Ef.
    split; [|split; [done|]]; rewrite ?E1.
    - intros i j p q Hi Hj Hip Hjq. rewrite E1 in Hi, Hj.
      apply lookup_insert_Some in Hi as [[<- <-]|[_ Hi]], Hj as [[<- <-]|[_ Hj]]; [done| | |].
      + by rewrite (Ef j q) in Hjq.
      + by rewrite (Ef i p) in Hip.
      + by rewrite (Ef j q) in Hjq.
    - destruct (findOne_Some_1 (active_participant c u) (<[d.1:=mkParticipant c u member active
        (Some a) (clock (w_step w)) None None None 0]> (w_participants w)) d.1 _
        (lookup_insert_eq _ _ _)) as (i & p & Ef'); [|by exists (i, p)].
      unfold active_participant, in_conversation, is_active. simpl.
      by rewrite !bool_decide_eq_true_2. }
  split_and!; [done|done| |].
  - unfold addMember, parse_oid, model_findOne. rewrite !oid_parse_show.
    run_simpl. unfold mret, M_ret. cbn. by rewrite Hr.
  - exists (i, p). split; [|by destruct (findOne_Some _ _ _ _ Hr)].
    unfold requireActiveParticipant. by rewrite run_bind, run_getActive, !oid_parse_show, Hr.
Qed.
End membership.

(** ** Witnesses *)

#[local] Instance demo_host_inst : Host := demo_host demo_env.
#[local] Instance demo_mongo_inst : Mongo := list_mongo.
#[local] Instance demo_laws_inst : MongoLaws := list_mongo_laws.
#[local] Instance demo_oids_inst : OidLaws := demo_oid_laws demo_env.

Lemma direct_conversation_once_witness :
  ∃ c w1, createConversation direct (oid_show (Oid 10)) [oid_show (Oid 11)] None empty_world = (Ok c, w1)
    ∧ one_direct_per_pair w1
    ∧ createConversation direct (oid_show (Oid 10)) [oid_show (Oid 11)] (Some (js "again")) w1 = (Ok c, w1)
    ∧ createConversation direct (oid_show (Oid 11)) [oid_show (Oid 10)] (Some (js "again")) w1 = (Ok c, w1)
    ∧ w_conversations w1 !! c.1 = Some c.2 ∧ cv_type c.2 = direct.
Proof.
  destruct (createConversation direct (oid_show (Oid 10)) [oid_show (Oid 11)] None empty_world) as [[c|e|] w1] eqn:E;
    [|by vm_compute in E..].
  exists c, w1. split; [done|].
  apply (direct_conversation_once (Oid 10) (Oid 11) None (Some (js "again")) empty_world c w1).
  - done.
  - intros i p Hi. by destruct (lookup_empty_Some i p Hi).
  - intros a b c1 c2 cv cv' _ Hl. by destruct (lookup_empty_Some c1 cv Hl).
  - exact E.
Defined.

Lemma getMessages_page_witness :
  ∃ page w' c cursor, getMessages [1] None (num 10) demo_chat = (Ok page, w')
    ∧ oid_parse [1] = Some c ∧ before_cursor None demo_chat = (Ok cursor, demo_chat)
    ∧ Z.of_nat (length page) <= 10
    ∧ (∀ i m, in_history demo_chat c cursor i m →
         i ∈ cm_id <$> page
         ∨ Z.of_nat (length page) = 10 ∧ Forall (λ x, m_sentAt m <= cm_sentAt x) page).
Proof.
  destruct (getMessages [1] None (num 10) demo_chat) as [[page|e|] w'] eqn:E;
    [|by vm_compute in E..].
  destruct (getMessages_page [1] None 10 demo_chat page w') as (c & cursor & Hc & Hb & _ & Hl & _ & _ & Ha & _);
    [done|exact E|].
  exists page, w', c, cursor. by split_and!.
Defined.

Lemma searchMessages_hits_witness :
  ∃ hits w' c docs shown, searchMessages [1] (js " HI ") demo_chat = (Ok hits, w')
    ∧ oid_parse [1] = Some c
    ∧ docs = take 100 (mg_sort (desc m_sentAt) (mg_find (message_in c) (w_messages demo_chat)))
    ∧ ms_messageId <$> shown = (λ m : doc Message, oid_show m.1) <$> docs
    ∧ hits = take 20 (filter (λ x, contains_i (ms_content x) (trim (js " HI ")) = true) shown)
    ∧ length hits = 1%nat.
Proof.
  destruct (searchMessages [1] (js " HI ") demo_chat) as [[hits|e|] w'] eqn:E;
    [|by vm_compute in E..].
  destruct (searchMessages_hits [1] (js " HI ") demo_chat hits w')
    as (c & docs & shown & Hc & Hd & Hi & Hh & _); [vm_compute; lia|exact E|].
  exists hits, w', c, docs, shown. split_and!; try done.
  apply (f_equal (λ r, match r.1 with Ok l => length l | _ => 0%nat end)) in E.
  cbn [fst] in E. rewrite <-E. by vm_compute.
Defined.

Lemma demo_active_once : active_once demo_chat (Oid 1) (Oid 11).
Proof.
  intros i j p q Hi Hj Hp Hq. cbn in Hi, Hj.
  apply lookup_insert_Some in Hi as [[<- <-]|[_ Hi]]; [by vm_compute in Hp|].
  apply lookup_singleton_Some in Hi as [<- <-].
  apply lookup_insert_Some in Hj as [[<- <-]|[_ Hj]]; [by vm_compute in Hq|].
  by apply lookup_singleton_Some in Hj as [<- _].
Qed.

Lemma addMember_once_witness :
  ∃ already w1, addMember (oid_show (Oid 1)) (oid_show (Oid 11)) [10] demo_chat = (Ok already, w1)
    ∧ active_once w1 (Oid 1) (Oid 11)
    ∧ (already = true → w1 = demo_chat)
    ∧ addMember (oid_show (Oid 1)) (oid_show (Oid 11)) [10] w1 = (Ok true, w1)
    ∧ ∃ r, requireActiveParticipant (oid_show (Oid 1)) (oid_show (Oid 11)) w1 = (Ok r, w1)
           ∧ active_participant (Oid 1) (Oid 11) r = true.
Proof.
  destruct (addMember (oid_show (Oid 1)) (oid_show (Oid 11)) [10] demo_chat) as [[already|e|] w1] eqn:E; [|by vm_compute in E..].
  exists already, w1. split; [done|].
  exact (addMember_once (Oid 1) (Oid 11) [10] [10] demo_chat already w1 demo_active_once E).
Defined.
