(* ===== verification/Members.v ===== *)
(** * Membership over time

    [departed_no_access] needs that a user has one active participant document in the
    conversation.  The operations do not keep that: [addMember] looks for an active document
    only and [restoreDirectParticipantsIfNeeded] revives every document that was left, so a
    member who left a direct conversation and was added again has two, and leaving no longer
    takes effect. *)

From S2P Require Import Prelude JsText Wire Driver Env Store Model Instance Encryption Auth Chat ChatSend ChatFacts.
Open Scope Z_scope.

Section members.
Context `{Host} `{!OidLaws} `{MongoLaws}.

Lemma active_participant_iff c u i (p : Participant) :
  active_participant c u (i, p) = true ↔
  p_conversationId p = c ∧ p_userId p = u ∧ p_status p = active.
Proof.
  unfold active_participant, in_conversation, is_active. simpl.
  rewrite !andb_true_iff, !bool_decide_eq_true. naive_solver.
Qed.

(** Two active documents of one user. *)
Definition active_twice (w : World) (c u : oid) : Prop :=
  ∃ i j p q, i ≠ j ∧ w_participants w !! i = Some p ∧ w_participants w !! j = Some q ∧
    active_participant c u (i, p) = true ∧ active_participant c u (j, q) = true.

(** An addition of somebody without an active document inserts one. *)
Lemma addMember_inserts c u actor w w1 :
  addMember (oid_show c) (oid_show u) actor w = (Ok false, w1) →
  ∃ j q, w_participants w !! j = None ∧ w_participants w1 = <[j := q]> (w_participants w) ∧
    active_participant c u (j, q) = true ∧ w_conversations w1 = w_conversations w.
Proof.
  unfold addMember, parse_oid, model_findOne. rewrite !oid_parse_show. run_simpl.
  unfold mret, M_ret. cbn. destruct (mg_findOne _ _) as [r|] eqn:Ef; [done|].
  destruct (oid_parse actor) as [a|]; cbn; [|done]. intros E.
  apply bind_Ok_inv in E as (d & w2 & E1 & E). apply run_create_Ok in E1 as (_ & Hd & ->).
  apply bind_Ok_inv in E as ([] & w3 & E1 & E).
  unfold record_event in E1. apply bind_Ok_inv in E1 as (t & w4 & Et & E1). injection Et as <- <-.
  apply bind_Ok_inv in E1 as (ev & w4 & E1 & E2). injection E2 as <-.
  apply run_create_Ok in E1 as (_ & _ & ->). injection E as <-. cbn in *.
  eexists _, _. split_and!; [exact Hd|reflexivity| |done]. by apply active_participant_iff.
Qed.

(** A send restores the peer's document that was left, and touches no other's status. *)
Lemma send_restores c s u content att ai w r w' i p :
  sendMessage (oid_show c) (oid_show s) content att ai w = (Ok r, w') → s ≠ u →
  w_participants w !! i = Some p → p_conversationId p = c → p_userId p = u →
  p_status p = active ∨ is_direct w c = true ∧ p_status p = left_ →
  ∃ p', w_participants w' !! i = Some p' ∧ active_participant c u (i, p') = true.
Proof.
  intros E Hsu Hi Hc Hu Hst. pose proof (sendMessage_cases (oid_show c) (oid_show s) content att ai w) as Hs.
  rewrite E in Hs.
  destruct Hs as (c' & s' & [mi me] & at' & st & t & t' & [Hcv Hsn Hme _ _ _ _ _ _ Hps _ _]).
  rewrite oid_parse_show in Hcv, Hsn. simplify_eq.
  apply findOne_Some in Hme as [Hmi Hact]. apply active_participant_iff in Hact as (_ & Hmu & _).
  assert (mi ≠ i) as Hne by (intros ->; rewrite Hi in Hmi; simplify_eq).
  rewrite Hps, lookup_updateMany. cbn [fst]. rewrite lookup_alter_ne, lookup_restore_peers, Hi by done.
  cbn [fmap option_fmap option_map]. eexists. split; [reflexivity|].
  apply active_participant_iff.
  assert (p_status (if is_direct w (p_conversationId p)
            && peer_to_restore (p_conversationId p) (oid_show s') (i, p) then set_status active p else p)
          = active) as Hstatus.
  { destruct Hst as [Ha|[-> Hl]]; [by case_match|]. unfold peer_to_restore, to_restore, in_conversation.
    simpl. rewrite (bool_decide_true (p_conversationId p = p_conversationId p)) by done.
    rewrite (bool_decide_true (oid_show (p_userId p) ≠ oid_show s')); [|by intros ?%oid_show_inj].
    by rewrite (bool_decide_true (p_status p = left_)) by done. }
  destruct (_ && _); cbn in *; destruct (others _ _ _); cbn; done.
Qed.

(** One departure of a user with two active documents leaves one of them. *)
Lemma leave_one_of_two c u w w' :
  active_twice w c u → leaveConversation (oid_show c) (oid_show u) w = (Ok tt, w') →
  ∃ i p, w_participants w' !! i = Some p ∧ active_participant c u (i, p) = true.
Proof.
  intros (i & j & p & q & Hne & Hi & Hj & Hp & Hq) E.
  assert (∃ t, w_participants w'
    = updateOne (active_participant c u) (set_gone left_ t) (w_participants w)) as [t Ht].
  { unfold leaveConversation, markConversationLeft, parse_oid, now, tick, model_updateOne in E.
    rewrite !oid_parse_show in E. run_simpl_in E. unfold mret, M_ret in E. cbn [snd] in E.
    exists (clock (w_step w)). by apply record_event_participants in E. }
  rewrite Ht. unfold updateOne. destruct (mg_findOne _ _) as [[k d]|]; [|by exists i, p].
  destruct (decide (k = i)) as [->|Hk].
  - exists j, q. by rewrite lookup_alter_ne.
  - exists i, p. by rewrite lookup_alter_ne.
Qed.

(** C31: a member who left a direct conversation and is added again has, after the next message
    of the other one, two active memberships; leaving then ends one of them only, and the user
    who has left still passes every check of the conversation. *)
Theorem readded_member_stays c s u i p actor w w1 content att ai r w2 w3 :
  s ≠ u → w_participants w !! i = Some p → p_conversationId p = c → p_userId p = u →
  p_status p = left_ → is_direct w c = true →
  addMember (oid_show c) (oid_show u) actor w = (Ok false, w1) →
  sendMessage (oid_show c) (oid_show s) content att ai w1 = (Ok r, w2) →
  leaveConversation (oid_show c) (oid_show u) w2 = (Ok tt, w3) →
  active_twice w2 c u ∧
  ∃ me, requireActiveParticipant (oid_show c) (oid_show u) w3 = (Ok me, w3).
Proof.
  intros Hsu Hi Hc Hu Hst Hdir Hadd Hsend Hleave.
  apply addMember_inserts in Hadd as (j & q & Hj & Hps & Hq & Hcs).
  assert (i ≠ j) as Hne by congruence.
  assert (w_participants w1 !! i = Some p) as Hi1 by by rewrite Hps, lookup_insert_ne by done.
  assert (w_participants w1 !! j = Some q) as Hj1 by by rewrite Hps, lookup_insert_eq.
  assert (is_direct w1 c = true) as Hdir1 by (unfold is_direct in *; by rewrite Hcs).
  pose proof (proj1 (active_participant_iff _ _ _ _) Hq) as (Hqc & Hqu & Hqs).
  destruct (send_restores c s u _ _ _ _ _ _ i p Hsend Hsu Hi1 Hc Hu) as (p' & Hp' & Hpa); [by right|].
  destruct (send_restores c s u _ _ _ _ _ _ j q Hsend Hsu Hj1 Hqc Hqu) as (q' & Hq' & Hqa); [by left|].
  assert (active_twice w2 c u) as Htwice by by exists i, j, p', q'.
  split; [done|]. destruct (leave_one_of_two c u w2 w3 Htwice Hleave) as (k & d & Hk & Hka).
  destruct (findOne_Some_1 (active_participant c u) (w_participants w3) k d Hk Hka) as (k' & d' & Hf).
  exists (k', d'). unfold requireActiveParticipant.
  by rewrite run_bind, run_getActive, !oid_parse_show, Hf.
Qed.
End members.

(** ** A run *)

#[local] Instance demo_host_inst : Host := demo_host demo_env.
#[local] Instance demo_mongo_inst : Mongo := list_mongo.
#[local] Instance demo_laws_inst : MongoLaws := list_mongo_laws.
#[local] Instance demo_oids_inst : OidLaws := demo_oid_laws demo_env.

Definition started : World :=
  (createConversation direct (oid_show (Oid 10)) [oid_show (Oid 11)] None empty_world).2.
Definition demo_c : oid := Oid 1001.
Definition left_once : World := (leaveConversation (oid_show demo_c) (oid_show (Oid 11)) started).2.

Lemma readded_member_stays_witness :
  ∃ w1 r w2 w3,
    addMember (oid_show demo_c) (oid_show (Oid 11)) (oid_show (Oid 10)) left_once = (Ok false, w1) ∧
    sendMessage (oid_show demo_c) (oid_show (Oid 10)) (js "hi") None false w1 = (Ok r, w2) ∧
    leaveConversation (oid_show demo_c) (oid_show (Oid 11)) w2 = (Ok tt, w3) ∧
    ∃ me, requireActiveParticipant (oid_show demo_c) (oid_show (Oid 11)) w3 = (Ok me, w3).
Proof.
  destruct (addMember (oid_show demo_c) (oid_show (Oid 11)) (oid_show (Oid 10)) left_once)
    as [[[]|e|] w1] eqn:E1; try (vm_compute in E1; discriminate E1).
  destruct (sendMessage (oid_show demo_c) (oid_show (Oid 10)) (js "hi") None false w1)
    as [[r|e|] w2] eqn:E2.
  2,3: pose proof (f_equal fst E2) as E3; replace w1 with (Ok false, w1).2 in E3 by reflexivity;
    rewrite <-E1 in E3; vm_compute in E3; discriminate E3.
  destruct (leaveConversation (oid_show demo_c) (oid_show (Oid 11)) w2) as [[[]|e|] w3] eqn:E3.
  2,3: pose proof (f_equal fst E3) as E4; replace w2 with (Ok r, w2).2 in E4 by reflexivity;
    rewrite <-E2 in E4; replace w1 with (Ok false, w1).2 in E4 by reflexivity;
    rewrite <-E1 in E4; vm_compute in E4; discriminate E4.
  exists w1, r, w2, w3. split; [reflexivity|]. split; [exact E2|]. split; [exact E3|].
  refine (proj2 (readded_member_stays demo_c (Oid 10) (Oid 11) (Oid 1005)
    (mkParticipant demo_c (Oid 11) member left_ (Some (Oid 10)) 1700000000003 (Some 1700000000010)
       None None 0) (oid_show (Oid 10)) left_once w1 (js "hi") None false r w2 w3 _ _ _ _ _ _ E1 E2 E3)).
  - discriminate.
  - vm_compute. reflexivity.
  - reflexivity.
  - reflexivity.
  - reflexivity.
  - vm_compute. reflexivity.
Defined.
