(* ===== verification/Attachment.v ===== *)
(** * Attachments

    [backend/src/modules/chat/chat-attachment.service.ts]: signed upload and download
    links, the draft, uploaded and attached states, and the listing of a conversation. *)

From Stdlib Require Import QArith_base.
From S2P Require Import Prelude JsText Wire Driver Env Store Model Instance Encryption Auth Chat.
Open Scope Z_scope.

Definition MAX_FILE_SIZE_BYTES : number := num (25 * 1024 * 1024).
Definition PRESIGNED_URL_TTL_SECONDS : Z := 15 * 60.
Definition IMAGE_MIME_PREFIX : jsstring := js "image/".

(** ** Names *)

(** [s.replace(/[bad]+/g, '_')]: [pending] says that the unit before was replaced. *)
Fixpoint replace_runs (bad : Z → bool) (pending : bool) (s : jsstring) : jsstring :=
  match s with
  | [] => []
  | u :: r =>
      if bad u then (if pending then replace_runs bad true r else 95 :: replace_runs bad true r)
      else u :: replace_runs bad false r
  end.

(** [[a-zA-Z0-9._-]]. *)
Definition key_char (u : Z) : bool :=
  (97 <=? u) && (u <=? 122) || (65 <=? u) && (u <=? 90) || (48 <=? u) && (u <=? 57)
  || (u =? 46) || (u =? 95) || (u =? 45).

(** [s.replace(/^_+|_+$/g, '')]. *)
Fixpoint strip_leading (s : jsstring) : jsstring :=
  match s with
  | u :: r => if u =? 95 then strip_leading r else s
  | [] => []
  end.
Definition strip_underscores (s : jsstring) : jsstring :=
  reverse (strip_leading (reverse (strip_leading s))).

Section names.
Context `{Host}.

Definition sanitizedName (fileName : jsstring) : jsstring :=
  let s := replace_runs (λ u, negb (key_char u)) false (normalize_NFKD fileName) in
  let s := replace_runs (λ u, u =? 95) false s in
  let s := take 128 (strip_underscores s) in
  if truthy s then s else js "file".

Definition buildR2Key (conversationId attachmentId fileName : jsstring) : jsstring :=
  js "attachments/" ++ conversationId ++ js "/" ++ attachmentId ++ js "/" ++ sanitizedName fileName.

Definition buildContentDisposition (fileName : jsstring) : jsstring :=
  let safeName := filter (λ u, u ≠ 34) fileName in
  js "attachment; filename=" ++ [34] ++ safeName ++ [34].
End names.

(** ** Results *)

Record GeneratePresignedUploadDto := mkUploadDto {
  gp_conversationId : jsstring;
  gp_fileName : jsstring;
  gp_mimeType : jsstring;
  gp_sizeBytes : number;
}.

Record PresignedUpload := mkPresignedUpload {
  pu_attachmentId : jsstring;
  pu_r2Key : jsstring;
  pu_presignedUrl : jsstring;
  pu_expiresAt : jsstring;
}.

Record AttachmentState := mkAttachmentState {
  as_attachmentId : jsstring;
  as_status : AttachmentStatus;
  as_messageId : option jsstring;
  as_uploadedAt : option jsstring;
  as_confirmedAt : option jsstring;
}.

Record PresignedDownload := mkPresignedDownload {
  pd_presignedUrl : jsstring;
  pd_expiresAt : jsstring;
  pd_fileName : jsstring;
  pd_mimeType : jsstring;
  pd_sizeBytes : number;
}.

Record AttachmentItem := mkAttachmentItem {
  ai_attachmentId : jsstring;
  ai_conversationId : jsstring;
  ai_uploaderId : jsstring;
  ai_messageId : option jsstring;
  ai_fileName : jsstring;
  ai_mimeType : jsstring;
  ai_sizeBytes : number;
  ai_isImage : bool;
  ai_createdAt : jsstring;
}.

Record AttachmentPage := mkAttachmentPage {
  pg_attachments : list AttachmentItem;
  pg_hasMore : bool;
}.

(** ** Errors *)

Definition invalid_file_name : Exn :=
  exn_error BadRequest (js "INVALID_FILE_NAME") (js "File name is required").
Definition invalid_mime_type : Exn :=
  exn_error BadRequest (js "INVALID_MIME_TYPE") (js "MIME type is required").
Definition invalid_file_size : Exn :=
  exn_error BadRequest (js "INVALID_FILE_SIZE")
    (js "File size must be greater than 0 and no larger than 25MB").
Definition conversation_not_found : Exn :=
  exn_error NotFound (js "CONVERSATION_NOT_FOUND") (js "Conversation not found").
Definition no_such_attachment : Exn :=
  exn_error NotFound (js "ATTACHMENT_NOT_FOUND") (js "Attachment not found").
Definition already_attached : Exn :=
  exn_error BadRequest (js "ATTACHMENT_ALREADY_ATTACHED") (js "Attachment was already attached").
Definition r2_config_missing : Exn :=
  exn_error BadRequest (js "R2_CONFIG_MISSING") (js "R2 configuration is incomplete").
Definition r2_bucket_missing : Exn :=
  exn_error BadRequest (js "R2_BUCKET_MISSING") (js "R2 bucket name is missing").

(** ** The service *)

Section attachments.
Context `{Host} `{Mongo}.

Definition requireObjectId (value code message : jsstring) : M World oid :=
  or_throw (oid_parse value) (exn_error BadRequest code message).
Definition requireConversationId (value : jsstring) : M World oid :=
  requireObjectId value (js "INVALID_CONVERSATION_ID") (js "Conversation ID is invalid").
Definition requireAttachmentId (value : jsstring) : M World oid :=
  requireObjectId value (js "INVALID_ATTACHMENT_ID") (js "Attachment ID is invalid").

Definition getBucketName : M World jsstring :=
  throw_if (negb (truthy (R2_BUCKET_NAME env))) r2_bucket_missing ;;
  mret (R2_BUCKET_NAME env).

(** The client itself is the SDK's; what the code decides is whether it is configured. *)
Definition getS3Client : M World () :=
  throw_if (negb (truthy (R2_ACCOUNT_ID env)) || negb (truthy (R2_ACCESS_KEY_ID env))
            || negb (truthy (R2_SECRET_ACCESS_KEY env)) || negb (truthy (R2_BUCKET_NAME env)))
    r2_config_missing.

(** [getSignedUrl(this.getS3Client(), command, ...)]. *)
Definition getSignedUrl (command : PresignRequest) : M World jsstring :=
  getS3Client ;;
  n ← tick;
  or_throw (presign n command) (host_error PresignError).

Definition link_expiry : M World jsstring :=
  t ← now; mret (toISOString (t + PRESIGNED_URL_TTL_SECONDS * 1000)).

(** [!Number.isFinite(n) || n <= 0 || n > MAX_FILE_SIZE_BYTES]. *)
Definition bad_size (n : number) : bool :=
  negb (isFinite n) || num_le n (num 0) || num_lt MAX_FILE_SIZE_BYTES n.

Definition generatePresignedUploadUrl (userId : jsstring) (input : GeneratePresignedUploadDto)
    : M World PresignedUpload :=
  conversationId ← requireConversationId (gp_conversationId input);
  let fileName := trim (gp_fileName input) in
  let mimeType := trim (gp_mimeType input) in
  throw_if (negb (truthy fileName)) invalid_file_name ;;
  throw_if (negb (truthy mimeType)) invalid_mime_type ;;
  throw_if (bad_size (gp_sizeBytes input)) invalid_file_size ;;
  conversation ← model_findById conversationModel conversationId;
  throw_if (bool_decide (fst <$> conversation = None)) conversation_not_found ;;
  getRequiredActiveParticipant (oid_show conversationId) userId ;;
  attachmentId ← new_oid;
  let r2Key := buildR2Key (oid_show conversationId) (oid_show attachmentId) fileName in
  uploader ← parse_oid userId;
  createdAt ← now;
  model_insert attachmentModel attachmentId
    (mkAttachment conversationId None uploader r2Key fileName mimeType (gp_sizeBytes input)
       (startsWith mimeType IMAGE_MIME_PREFIX) draft createdAt None None) ;;
  bucket ← getBucketName;
  presignedUrl ← getSignedUrl (PutObject bucket r2Key mimeType);
  expiresAt ← link_expiry;
  mret (mkPresignedUpload (oid_show attachmentId) r2Key presignedUrl expiresAt).

Definition toAttachmentPayload (a : doc ChatAttachment) : ChatAttachmentPayload :=
  mkAttachmentPayload (oid_show a.1) (ca_originalName a.2) (ca_mimeType a.2) (ca_sizeBytes a.2)
    (ca_isImage a.2) (Some (oid_show (ca_uploaderId a.2))) (Some (oid_show (ca_conversationId a.2)))
    (oid_show <$> ca_messageId a.2).

Definition set_uploaded (t : Z) (a : ChatAttachment) : ChatAttachment :=
  mkAttachment (ca_conversationId a) (ca_messageId a) (ca_uploaderId a) (ca_r2Key a)
    (ca_originalName a) (ca_mimeType a) (ca_sizeBytes a) (ca_isImage a) uploaded (ca_createdAt a)
    (Some t) (ca_confirmedAt a).

Definition markAttachmentUploaded (conversationIdValue attachmentIdValue userId : jsstring)
    : M World ChatAttachmentPayload :=
  conversationId ← requireConversationId conversationIdValue;
  attachmentId ← requireAttachmentId attachmentIdValue;
  getRequiredActiveParticipant (oid_show conversationId) userId ;;
  found ← model_findById attachmentModel attachmentId;
  a ← or_throw found no_such_attachment;
  throw_if (bool_decide (oid_show (ca_conversationId a.2) ≠ oid_show conversationId))
    no_such_attachment ;;
  throw_if (bool_decide (oid_show (ca_uploaderId a.2) ≠ userId)) attachment_not_owned ;;
  throw_if (bool_decide (ca_status a.2 = attached)) already_attached ;;
  t ← now;
  model_save attachmentModel a.1 (set_uploaded t) ;;
  mret (toAttachmentPayload (a.1, set_uploaded t a.2)).

Definition getAttachmentStatus (attachmentIdValue userId : jsstring) : M World AttachmentState :=
  attachmentId ← requireAttachmentId attachmentIdValue;
  found ← model_findById attachmentModel attachmentId;
  a ← or_throw found no_such_attachment;
  getRequiredActiveParticipant (oid_show (ca_conversationId a.2)) userId ;;
  mret (mkAttachmentState (oid_show a.1) (ca_status a.2) (oid_show <$> ca_messageId a.2)
    (toISOString <$> ca_uploadedAt a.2) (toISOString <$> ca_confirmedAt a.2)).

Definition generatePresignedDownloadUrl (attachmentIdValue userId : jsstring)
    : M World PresignedDownload :=
  attachmentId ← requireAttachmentId attachmentIdValue;
  found ← model_findById attachmentModel attachmentId;
  a ← or_throw found no_such_attachment;
  throw_if (bool_decide (ca_status a.2 ≠ attached)) no_such_attachment ;;
  getRequiredActiveParticipant (oid_show (ca_conversationId a.2)) userId ;;
  bucket ← getBucketName;
  presignedUrl ← getSignedUrl (GetObject bucket (ca_r2Key a.2) (ca_mimeType a.2)
                                 (buildContentDisposition (ca_originalName a.2)));
  expiresAt ← link_expiry;
  mret (mkPresignedDownload presignedUrl expiresAt (ca_originalName a.2) (ca_mimeType a.2)
          (ca_sizeBytes a.2)).

(** [Math.min(Math.max(Number(limit) || 20, 1), 50)]; an absent limit is 20. *)
Definition safe_limit (limit : option number) : number :=
  Math_min (Math_max (num_or (default (num 20) limit) (num 20)) (num 1)) (num 50).

Definition num_succ (n : number) : number :=
  match n with Fin q => Fin (Qplus q 1) | _ => n end.

(** [l.slice(0, n)] truncates [n]. *)
Definition slice_to {A} (n : number) (l : list A) : list A :=
  match n with
  | Fin q => take (Z.to_nat (Z.quot (Qnum q) (Zpos (Qden q)))) l
  | PInf => l
  | _ => []
  end.

Definition attachment_item (a : doc ChatAttachment) : AttachmentItem :=
  mkAttachmentItem (oid_show a.1) (oid_show (ca_conversationId a.2)) (oid_show (ca_uploaderId a.2))
    (oid_show <$> ca_messageId a.2) (ca_originalName a.2) (ca_mimeType a.2) (ca_sizeBytes a.2)
    (ca_isImage a.2) (toISOString (ca_createdAt a.2)).

(** The attached files of a conversation created before the cursor. *)
Definition attached_in (c : oid) (cursor : option Z) (a : doc ChatAttachment) : bool :=
  bool_decide (ca_conversationId a.2 = c) && bool_decide (ca_status a.2 = attached)
  && is_before cursor (ca_createdAt a.2).

Definition listConversationAttachments (conversationIdValue userId : jsstring)
    (before : option jsstring) (limit : option number) : M World AttachmentPage :=
  conversationId ← requireConversationId conversationIdValue;
  getRequiredActiveParticipant (oid_show conversationId) userId ;;
  let safeLimit := safe_limit limit in
  cursor ← before_cursor before;
  attachments ← model_find_sort_limit attachmentModel (attached_in conversationId cursor)
    (desc ca_createdAt) (num_succ safeLimit);
  mret (mkAttachmentPage (attachment_item <$> slice_to safeLimit attachments)
          (num_lt safeLimit (num (Z.of_nat (length attachments))))).

(** The service keeps its own copies of two private methods of [ChatService], word for word;
    nothing calls them. *)
Definition attachment_incrementUnread : jsstring → jsstring → M World () :=
  incrementUnreadForOtherParticipants.
Definition attachment_restoreParticipants
    : jsstring → jsstring → M World (list (doc Participant)) :=
  restoreDirectParticipantsIfNeeded.
End attachments.

#[global] Arguments generatePresignedUploadUrl : simpl never.
#[global] Arguments markAttachmentUploaded : simpl never.
