(* ===== verification/Ai.v ===== *)
(** * The assistant services

    [backend/src/modules/ai]: the rotation of keys and models, the failover of
    [AiService], and the chatbot, moderation and suggestion services built on it. *)

From Stdlib Require Import QArith_base.
From S2P Require Import Prelude JsText Wire Driver Env Store Model Instance Encryption Auth Chat.
Open Scope Z_scope.

(** ** JSON values *)

(** [value.key] of a parsed value: a property of [null] is a TypeError. *)
Definition json_get (value : Json) (key : jsstring) : outcome (option Json) :=
  match value with
  | JNull => Throw (PlainError (js "Cannot read properties of null (reading '" ++ key ++ js "')"))
  | JObj fields =>
      Ok (snd <$> List.find (λ kv : jsstring * Json, bool_decide (kv.1 = key)) fields)
  | _ => Ok None
  end.

(** [v ?? d]. *)
Definition json_or (v : option Json) (d : Json) : Json :=
  match v with None | Some JNull => d | Some x => x end.

(** [Boolean(v)]. *)
Definition json_truthy (v : option Json) : bool :=
  match v with
  | None | Some JNull => false
  | Some (JBool b) => b
  | Some (JNum NaN) => false
  | Some (JNum (Fin q)) => negb (Qeq_bool q 0)
  | Some (JNum _) => true
  | Some (JStr s) => truthy s
  | Some (JArr _) | Some (JObj _) => true
  end.

Definition lift {A} (o : outcome A) : M World A := λ w, (o, w).

(** ** [AiConfigService] *)

Section config.
Context `{Host}.

(** [list.split(',').map(trim).filter(Boolean)]. *)
Definition comma_list (text : jsstring) : list jsstring :=
  filter (λ s, truthy s = true) (trim <$> split_on 44 text).

Definition getApiKeys : list jsstring := comma_list (GEMINI_API_KEYS env).
Definition getModels : list jsstring := comma_list (GEMINI_MODELS env).

(** The constructor. *)
Definition init_keyStates : list AiKeyState :=
  (λ apiKey, mkKeyState apiKey 0 false None) <$> getApiKeys.

Definition default_model : jsstring := js "gemini-1.5-flash".

Definition current_key (keyIndex : nat) : option jsstring :=
  match getApiKeys with [] => None | keys => keys !! (keyIndex mod length keys)%nat end.
Definition current_model (modelIndex : nat) : jsstring :=
  match getModels with
  | [] => default_model
  | models => default default_model (models !! (modelIndex mod length models)%nat)
  end.

Definition getCurrentApiKey : M World (option jsstring) := gets (λ w, current_key (w_keyIndex w)).
Definition getCurrentModel : M World jsstring := gets (λ w, current_model (w_modelIndex w)).

Definition getRequestTimeoutMs : number := GEMINI_REQUEST_TIMEOUT_MS env.
Definition getModerationTimeoutMs : number := GEMINI_MODERATION_TIMEOUT_MS env.
Definition getSuggestionTimeoutMs : number := GEMINI_SUGGESTION_TIMEOUT_MS env.
Definition getMaxContextMessages : number := GEMINI_MAX_CONTEXT_MESSAGES env.
Definition isChatbotEnabled : bool := AI_CHATBOT_ENABLED env.
Definition isSuggestionsEnabled : bool := AI_SUGGESTIONS_ENABLED env.
Definition isModerationEnabled : bool := AI_MODERATION_ENABLED env.

(** [(index + 1) % length] when there is something to rotate through. *)
Definition rotate (length index : nat) : nat :=
  match length with O => index | _ => (S index mod length)%nat end.

Definition rotateApiKey : M World (option jsstring) :=
  modify (upd_keyIndex (rotate (length getApiKeys))) ;; getCurrentApiKey.
Definition rotateModel : M World jsstring :=
  modify (upd_modelIndex (rotate (length getModels))) ;; getCurrentModel.

(** The first state of the key, updated; nothing when the key has no state. *)
Fixpoint update_key (apiKey : jsstring) (f : AiKeyState → AiKeyState) (l : list AiKeyState)
    : list AiKeyState :=
  match l with
  | [] => []
  | s :: r => if bool_decide (ks_apiKey s = apiKey) then f s :: r else s :: update_key apiKey f r
  end.

Definition markKeyFailure (apiKey : jsstring) (isRateLimited : bool) : M World () :=
  states ← gets w_keyStates;
  if bool_decide (apiKey ∈ ks_apiKey <$> states) then
    t ← now;
    modify (upd_keyStates (update_key apiKey (λ s,
      mkKeyState (ks_apiKey s) (ks_consecutiveFailures s + 1) isRateLimited (Some t))))
  else mret tt.

Definition markKeySuccess (apiKey : jsstring) : M World () :=
  modify (upd_keyStates (update_key apiKey (λ s, mkKeyState (ks_apiKey s) 0 false None))).

Definition getKeyStates : M World (list AiKeyState) := gets w_keyStates.
End config.

(** ** [AiService] *)

Record GeminiRequestDto := mkGemini {
  gr_model : option jsstring;
  gr_messages : list GeminiMessage;
  gr_json : bool;
  gr_timeoutMs : option number;
}.

Definition ai_missing_api_key : Exn :=
  exn_code ServiceUnavailable (js "AI_MISSING_API_KEY") (js "Gemini API key is not configured").
Definition ai_missing_model : Exn :=
  exn_code ServiceUnavailable (js "AI_MISSING_MODEL") (js "Gemini model is not configured").
Definition ai_timeout : Exn :=
  exn_code ServiceUnavailable (js "AI_TIMEOUT") (js "AI request timed out").
Definition ai_empty_response : Exn :=
  exn_code BadRequest (js "AI_EMPTY_RESPONSE") (js "AI returned empty response").
Definition ai_invalid_response : Exn :=
  exn_code BadRequest (js "AI_INVALID_RESPONSE") (js "AI returned malformed JSON response").
Definition ai_unavailable (message : jsstring) : Exn :=
  exn_code ServiceUnavailable (js "AI_SERVICE_UNAVAILABLE") message.

Definition rate_limited (message : jsstring) : bool :=
  includes message (js "429") || includes message (js "quota")
  || includes message (js "RESOURCE_EXHAUSTED").

Section service.
Context `{Host}.

(** The [try] block: one call of a model with a key. *)
Definition call_model (request : GeminiRequestDto) (apiKey modelName : jsstring) : M World jsstring :=
  n ← tick;
  text ← match gemini n apiKey modelName (gr_messages request) (gr_json request)
               (default getRequestTimeoutMs (gr_timeoutMs request)) with
         | GeminiText text => mret (trim text)
         | GeminiTimeout => throw ai_timeout
         | GeminiError message => throw (PlainError message)
         end;
  markKeySuccess apiKey ;;
  throw_if (negb (truthy text)) ai_empty_response ;;
  mret text.

(** The inner loop over [attempts] models, of which [first] says the next is the first:
    a text, or the last error. *)
Fixpoint model_loop (request : GeminiRequestDto) (apiKey : jsstring) (first : bool)
    (attempts : nat) (lastError : option Exn) : M World (jsstring + option Exn) :=
  match attempts with
  | O => mret (inr lastError)
  | S attempts =>
      modelName ←
        (if first
         then match gr_model request with Some m => mret m | None => getCurrentModel end
         else rotateModel);
      result ←
        try_catch (text ← call_model request apiKey modelName; mret (inl text))
          (λ error,
           markKeyFailure apiKey (rate_limited (exn_message error)) ;;
           mret (inr error));
      match result with
      | inl text => mret (inl text)
      | inr error => model_loop request apiKey false attempts (Some error)
      end
  end.

(** The outer loop over the keys. *)
Fixpoint key_loop (request : GeminiRequestDto) (apiKeys : list jsstring) (models : nat)
    (attempts : nat) (lastError : option Exn) : M World (jsstring + option Exn) :=
  match attempts with
  | O => mret (inr lastError)
  | S attempts =>
      current ← getCurrentApiKey;
      let apiKey := default (default [] (head apiKeys)) current in
      result ← model_loop request apiKey true models lastError;
      match result with
      | inl text => mret (inl text)
      | inr lastError =>
          rotateApiKey ;;
          key_loop request apiKeys models attempts lastError
      end
  end.

(** [request.model ? [request.model] : getModels()]. *)
Definition request_models (request : GeminiRequestDto) : list jsstring :=
  match given (gr_model request) with Some m => [m] | None => getModels end.

Definition generateContent (request : GeminiRequestDto) : M World jsstring :=
  let apiKeys := getApiKeys in
  let models := request_models request in
  throw_if (length apiKeys =? 0)%nat ai_missing_api_key ;;
  throw_if (length models =? 0)%nat ai_missing_model ;;
  result ← key_loop request apiKeys (length models) (length apiKeys) None;
  match result with
  | inl text => mret text
  | inr (Some error) => throw (ai_unavailable (exn_message error))
  | inr None => throw (ai_unavailable (js "AI service is unavailable"))
  end.

Definition generateText (request : GeminiRequestDto) : M World jsstring := generateContent request.

Definition generateJson (request : GeminiRequestDto) : M World Json :=
  text ← generateContent request;
  or_throw (json_parse text) ai_invalid_response.
End service.
#[global] Arguments generateContent : simpl never.

(** ** [utils/ai-conversation-context.util.ts] *)

Definition toAiConversationContext `{Host} (messages : list (oid * jsstring))
    (botUserId : option jsstring) : list GeminiMessage :=
  filter (λ m, (0 <? length (trim (gm_text m)))%nat = true)
    ((λ m : oid * jsstring,
        mkGeminiMessage
          (match given botUserId with
           | Some bot => if bool_decide (oid_show m.1 = bot) then role_model else role_user
           | None => role_user
           end) m.2) <$> messages).

(** [l.slice(Math.max(l.length - n, 0))]: [slice] truncates its argument, and NaN is 0. *)
Definition slice_last {A} (n : number) (l : list A) : list A :=
  match n with
  | Fin q =>
      let len := Z.of_nat (length l) in
      drop (Z.to_nat (Z.quot (len * Zpos (Qden q) - Qnum q) (Zpos (Qden q)))) l
  | NInf => []
  | _ => l
  end.

Definition normalizeConversationContext (messages : list GeminiMessage) (maxMessages : number)
    : list GeminiMessage := slice_last maxMessages messages.

(** ** [AiChatbotService] *)

Definition newline : jsstring := [10].

Section assistants.
Context `{Host} `{Mongo}.

Definition shouldReply (content : jsstring) : bool :=
  let trimmed := trim content in
  startsWith trimmed (js "/ai") || includes trimmed (js "@chatai").

Definition buildPrompt (content : jsstring) : jsstring :=
  trim (remove_first (remove_first content (js "@chatai")) (js "/ai")).

Definition role_name (r : GeminiRole) : jsstring :=
  match r with role_user => js "user" | role_model => js "model" end.

(** A request of one user message. *)
Definition ask (json : bool) (timeoutMs : number) (lines : list jsstring)
    (model : jsstring) : GeminiRequestDto :=
  mkGemini (Some model) [mkGeminiMessage role_user (join newline lines)] json (Some timeoutMs).

Definition chatbot_lines (context : list GeminiMessage) (prompt content : jsstring)
    : list jsstring :=
  [js "You are a helpful chat assistant inside a realtime messaging app.";
   js "Answer concisely in Vietnamese unless the user clearly asks for another language.";
   js "Recent conversation context:"]
  ++ ((λ m, role_name (gm_role m) ++ js ": " ++ gm_text m) <$> context)
  ++ [js "Current user request: " ++ (if truthy prompt then prompt else trim content)].

Definition generateResponse (conversationId content : jsstring) : M World jsstring :=
  let prompt := buildPrompt content in
  messages ← getMessages conversationId None getMaxContextMessages;
  let context := normalizeConversationContext
    (toAiConversationContext ((λ m, (cm_senderId m, cm_content m)) <$> messages) None)
    getMaxContextMessages in
  model ← getCurrentModel;
  text ← generateText (ask false getRequestTimeoutMs (chatbot_lines context prompt content) model);
  mret (trim text).

(** ** [AiModerationService] *)

Definition default_warning : jsstring := js "Nội dung này có thể gây khó chịu.".

Definition normalizeWarningMessage (warningMessage : jsstring) (isToxic : bool) : option jsstring :=
  if negb isToxic then None
  else if negb (truthy warningMessage) then Some default_warning
  else
    let normalized := toLowerCase warningMessage in
    if includes normalized (js "offensive language") || includes normalized (js "offensive")
       || includes normalized (js "toxic")
    then Some default_warning
    else Some warningMessage.

Definition moderation_lines (content : jsstring) : list jsstring :=
  let q := [34] in
  [js "Analyze the following chat message and return JSON only.";
   js "JSON shape: {" ++ q ++ js "sentiment" ++ q ++ js ":" ++ q ++ js "positive|neutral|negative" ++ q
     ++ js "," ++ q ++ js "sentimentScore" ++ q ++ js ":number," ++ q ++ js "toxicityScore" ++ q
     ++ js ":number," ++ q ++ js "isToxic" ++ q ++ js ":boolean," ++ q ++ js "warningMessage" ++ q
     ++ js ":string}";
   js "warningMessage should be empty when isToxic is false.";
   js "warningMessage must be in Vietnamese when isToxic is true.";
   js "Message: " ++ content].

(** The result read off the parsed response. *)
Definition read_moderation (result : Json) : M World MessageModeration :=
  warning ← lift (json_get result (js "warningMessage"));
  let warningMessage := match warning with Some (JStr s) => trim s | _ => [] end in
  sentiment ← lift (json_get result (js "sentiment"));
  sentimentScore ← lift (json_get result (js "sentimentScore"));
  toxicityScore ← lift (json_get result (js "toxicityScore"));
  isToxic ← lift (json_get result (js "isToxic"));
  mret (mkModeration (json_or sentiment (JStr (js "neutral")))
          (json_number (json_or sentimentScore (JNum (num 0))))
          (json_number (json_or toxicityScore (JNum (num 0))))
          (json_truthy isToxic)
          (normalizeWarningMessage warningMessage (json_truthy isToxic))).

Definition analyzeMessage (content : jsstring) : M World MessageModeration :=
  model ← getCurrentModel;
  result ← generateJson (ask true getModerationTimeoutMs (moderation_lines content) model);
  read_moderation result.

(** ** [AiSuggestionsService] *)

Fixpoint numbered (index : nat) (messages : list jsstring) : list jsstring :=
  match messages with
  | [] => []
  | m :: r => (js "Message " ++ show_nat index ++ js ": " ++ trim m) :: numbered (S index) r
  end.

Definition suggestion_lines (recentMessages : list jsstring) (lastMessage : jsstring)
    : list jsstring :=
  [js "Generate exactly 3 short reply suggestions for this chat conversation.";
   js "Base the reply language primarily on the latest 2-3 messages in the conversation.";
   js "If the latest messages are in English, return English suggestions. If the latest messages are in Vietnamese, return Vietnamese suggestions.";
   js "Use older messages only as supporting context, not as the main language signal.";
   js "Match the tone and language of the most recent messages naturally.";
   js "Each suggestion must be under 50 characters.";
   js "Return ONLY a JSON array of exactly 3 strings.";
   js "Recent conversation context:";
   join newline (numbered 1 (slice_last (num 10) recentMessages));
   js "Latest message: " ++ trim lastMessage].

(** [response.filter(nonempty string).slice(0, 3)] of the parsed response. *)
Definition read_suggestions (response : Json) : M World (list jsstring) :=
  match response with
  | JArr items =>
      mret (take 3 (omap (λ item,
        match item with JStr s => if truthy (trim s) then Some s else None | _ => None end) items))
  | JNull => throw (PlainError (js "Cannot read properties of null (reading 'filter')"))
  | _ => throw (PlainError (js "response.filter is not a function"))
  end.

Definition generateSuggestions (conversationId : jsstring) : M World (list jsstring) :=
  messages ← getMessages conversationId None (num 10);
  let recentMessages := filter (λ s, truthy (trim s) = true) (cm_content <$> messages) in
  match last recentMessages with
  | None => mret []
  | Some lastMessage =>
      model ← getCurrentModel;
      response ← generateJson (ask true getSuggestionTimeoutMs
                                 (suggestion_lines recentMessages lastMessage) model);
      read_suggestions response
  end.
End assistants.

#[global] Arguments generateResponse : simpl never.
#[global] Arguments analyzeMessage : simpl never.
#[global] Arguments generateSuggestions : simpl never.
