(* ===== verification/AiFacts.v ===== *)
(** * Failover of the assistant

    [AiService.generateContent] tries the models with a key, then the next key, until a
    call answers.  [plan] lists the calls it would make, in order, and [try_plan] runs down
    such a list; the theorems say that the nested loops, with their two rotating indices,
    do exactly that, that the plan is each key with each model once, and what of the world
    has moved at the end. *)

From S2P Require Import Prelude JsText Wire Driver Env Store Model Instance Encryption Auth Chat Ai.

(** ** The specification *)

(** The indices that [rotate] runs through. *)
Fixpoint turns (n length index : nat) : list nat :=
  match n with
  | O => []
  | S n => index :: turns n length (Ai.rotate length index)
  end.

Section spec.
Context `{Host}.

(** What one call comes to: the trimmed text, or the error it is reported by. *)
Definition reply (request : GeminiRequestDto) (step : nat) (call : jsstring * jsstring)
    : jsstring + Exn :=
  match gemini step call.1 call.2 (gr_messages request) (gr_json request)
          (default getRequestTimeoutMs (gr_timeoutMs request)) with
  | GeminiText text => if truthy (trim text) then inl (trim text) else inr ai_empty_response
  | GeminiTimeout => inr ai_timeout
  | GeminiError message => inr (PlainError message)
  end.

(** The calls in turn: the first that answers, with its key, or the last error; and the
    instant it ends.  A call takes one tick, the record of a failure another. *)
Fixpoint try_plan (request : GeminiRequestDto) (step : nat) (calls : list (jsstring * jsstring))
    (lastError : option Exn) : (jsstring * jsstring + option Exn) * nat :=
  match calls with
  | [] => (inr lastError, step)
  | call :: calls =>
      match reply request step call with
      | inl text => (inl (call.1, text), S step)
      | inr error => try_plan request (S (S step)) calls (Some error)
      end
  end.

(** How many calls fail before one answers, or in all. *)
Fixpoint failures (request : GeminiRequestDto) (step : nat) (calls : list (jsstring * jsstring)) : nat :=
  match calls with
  | [] => O
  | call :: calls =>
      match reply request step call with
      | inl _ => O
      | inr _ => S (failures request (S (S step)) calls)
      end
  end.

(** What a call makes of the state of its key: an answer clears it; an error counts, with
    its instant and whether it was for the rate; an empty answer clears it and counts. *)
Definition marked_by (request : GeminiRequestDto) (step : nat) (call : jsstring * jsstring)
    (s : AiKeyState) : AiKeyState :=
  let failed count limited := mkKeyState (ks_apiKey s) (count + 1) limited (Some (clock (S step))) in
  match gemini step call.1 call.2 (gr_messages request) (gr_json request)
          (default getRequestTimeoutMs (gr_timeoutMs request)) with
  | GeminiText text =>
      if truthy (trim text) then mkKeyState (ks_apiKey s) 0 false None else failed 0%Z false
  | GeminiTimeout => failed (ks_consecutiveFailures s) false
  | GeminiError message => failed (ks_consecutiveFailures s) (rate_limited message)
  end.

(** The states of the keys after the calls that are made. *)
Fixpoint marked (request : GeminiRequestDto) (step : nat) (calls : list (jsstring * jsstring))
    (states : list AiKeyState) : list AiKeyState :=
  match calls with
  | [] => states
  | call :: calls =>
      let states := update_key call.1 (marked_by request step call) states in
      match reply request step call with
      | inl _ => states
      | inr _ => marked request (S (S step)) calls states
      end
  end.

(** The models tried with one key, and the model index afterwards. *)
Definition models_tried (request : GeminiRequestDto) (modelIndex : nat) : list jsstring :=
  match given (gr_model request) with
  | Some m => [m]
  | None => current_model <$> turns (length getModels) (length getModels) modelIndex
  end.
Definition model_after (attempts modelIndex : nat) : nat :=
  Nat.iter attempts (Ai.rotate (length getModels)) modelIndex.

Definition key_at (keyIndex : nat) : jsstring := default [] (current_key keyIndex).

Fixpoint plan_from (request : GeminiRequestDto) (attempts keyIndex modelIndex : nat)
    : list (jsstring * jsstring) :=
  match attempts with
  | O => []
  | S attempts =>
      (pair (key_at keyIndex) <$> models_tried request modelIndex)
      ++ plan_from request attempts (Ai.rotate (length getApiKeys) keyIndex)
           (model_after (pred (length (request_models request))) modelIndex)
  end.

Definition plan (request : GeminiRequestDto) (keyIndex modelIndex : nat)
    : list (jsstring * jsstring) :=
  plan_from request (length getApiKeys) keyIndex modelIndex.

(** Where [failed] failed calls leave the indices: every key that was given up is one turn of
    the keys and one less than its models of the models, every other failure one turn of the
    models. *)
Definition keys_after (request : GeminiRequestDto) (failed keyIndex : nat) : nat :=
  ((keyIndex + failed / length (request_models request)) mod length getApiKeys)%nat.
Definition models_after (request : GeminiRequestDto) (failed modelIndex : nat) : nat :=
  let m := length (request_models request) in
  model_after (failed / m * pred m + failed mod m)%nat modelIndex.

(** The world after the assistant's own state has moved. *)
Definition ai_world (w : World) (step keyIndex modelIndex : nat) (states : list AiKeyState)
    : World :=
  upd_step (λ _, step) (upd_keyIndex (λ _, keyIndex) (upd_modelIndex (λ _, modelIndex)
    (upd_keyStates (λ _, states) w))).

(** The configured keys are the keys whose health is recorded, as the constructor sets up. *)
Definition keys_recorded (states : list AiKeyState) : Prop := ks_apiKey <$> states = getApiKeys.
End spec.

(** ** Rotation *)

Lemma rotate_mod length i : length ≠ 0%nat →
  (Ai.rotate length i `mod` length)%nat = (S i `mod` length)%nat.
Proof. intros Hl. destruct length as [|n]; [done|]. unfold Ai.rotate. by rewrite Nat.Div0.mod_mod. Qed.

Lemma length_turns n len i : length (turns n len i) = n.
Proof. revert i. induction n as [|n IH]; intros i; [done|]. simpl. by rewrite IH. Qed.

Lemma turns_lookup n len i j : len ≠ 0%nat → (j < n)%nat →
  ∃ k, turns n len i !! j = Some k ∧ (k `mod` len = (i + j) `mod` len)%nat.
Proof.
  intros Hlen. revert i j. induction n as [|n IH]; intros i j Hj; [lia|].
  destruct j as [|j]; simpl; [by eexists; rewrite Nat.add_0_r|].
  destruct (IH (Ai.rotate len i) j ltac:(lia)) as (k & -> & Hk). eexists. split; [done|].
  rewrite Hk, Nat.Div0.add_mod, rotate_mod, <-Nat.Div0.add_mod by done. f_equal. lia.
Qed.

(** A full round of turns reads the list from the index on, once around. *)
Lemma turns_round {A} (l : list A) i :
  (λ j, l !! (j `mod` length l)%nat) <$> turns (length l) (length l) i
  = Some <$> list.rotate i l.
Proof.
  apply list_eq. intros j. rewrite !list_lookup_fmap.
  destruct (decide (j < length l)%nat) as [Hj|Hj].
  - destruct (turns_lookup (length l) (length l) i j ltac:(lia) Hj) as (k & -> & Hk). simpl.
    rewrite Hk, lookup_rotate_r by done.
    assert (rotate_nat_add i j (length l) = (i + j) `mod` length l)%nat as ->.
    { unfold rotate_nat_add. by rewrite <-Nat2Z.inj_add, <-Nat2Z.inj_mod, Nat2Z.id. }
    destruct (lookup_lt_is_Some_2 l ((i + j) `mod` length l)%nat) as [x ->];
      [apply Nat.mod_upper_bound; lia|done].
  - rewrite (lookup_ge_None_2 (turns _ _ _)) by (rewrite length_turns; lia).
    by rewrite (lookup_ge_None_2 (list.rotate _ _)) by (rewrite length_rotate; lia).
Qed.

Lemma rotate_Permutation {A} (l : list A) i : list.rotate i l ≡ₚ l.
Proof.
  unfold list.rotate. rewrite (Permutation_app_comm _ (take _ _)). by rewrite take_drop.
Qed.

(** A full round comes back to where it started. *)
Lemma iter_rotate len n i : (i < len)%nat →
  Nat.iter n (Ai.rotate len) i = ((i + n) `mod` len)%nat.
Proof.
  intros Hi. induction n as [|n IH]; simpl; [rewrite Nat.add_0_r, Nat.mod_small; lia|].
  rewrite IH. destruct len as [|len]; [lia|]. unfold Ai.rotate.
  rewrite <-(Nat.add_1_l ((_ `mod` _)%nat)), Nat.Div0.add_mod_idemp_r. f_equal. lia.
Qed.

(** ** The plan *)

Section facts.
Context `{Host}.

Lemma current_key_round keyIndex :
  key_at <$> turns (length getApiKeys) (length getApiKeys) keyIndex
  = list.rotate keyIndex getApiKeys.
Proof.
  apply (inj (fmap Some)). rewrite <-turns_round, <-list_fmap_compose.
  apply list_fmap_ext. intros j i Hi. simpl. unfold key_at, current_key.
  destruct getApiKeys as [|k ks] eqn:E; [by destruct j|]. rewrite <-E.
  destruct (lookup_lt_is_Some_2 getApiKeys (i `mod` length getApiKeys)%nat) as [x ->]; [|done].
  apply Nat.mod_upper_bound. by rewrite E.
Qed.

Lemma current_model_round modelIndex :
  current_model <$> turns (length getModels) (length getModels) modelIndex
  = list.rotate modelIndex getModels.
Proof.
  apply (inj (fmap Some)). rewrite <-turns_round, <-list_fmap_compose.
  apply list_fmap_ext. intros j i Hi. simpl. unfold current_model.
  destruct getModels as [|k ks] eqn:E; [by destruct j|]. rewrite <-E.
  destruct (lookup_lt_is_Some_2 getModels (i `mod` length getModels)%nat) as [x ->]; [|done].
  apply Nat.mod_upper_bound. by rewrite E.
Qed.

Lemma models_tried_all request modelIndex :
  models_tried request modelIndex ≡ₚ request_models request.
Proof.
  unfold models_tried, request_models. destruct (given (gr_model request)); [done|].
  rewrite current_model_round. apply rotate_Permutation.
Qed.

Lemma plan_from_keys request attempts keyIndex modelIndex :
  plan_from request attempts keyIndex modelIndex
  ≡ₚ (key_at <$> turns attempts (length getApiKeys) keyIndex) ≫=
       (λ k, pair k <$> request_models request).
Proof.
  revert keyIndex modelIndex. induction attempts as [|n IH]; intros; [done|].
  simpl. by rewrite IH, models_tried_all.
Qed.

(** Each key is tried with each model, once. *)
Lemma plan_all request keyIndex modelIndex :
  plan request keyIndex modelIndex
  ≡ₚ getApiKeys ≫= (λ k, pair k <$> request_models request).
Proof.
  unfold plan. rewrite plan_from_keys, current_key_round. by rewrite rotate_Permutation.
Qed.

Lemma plan_nonempty request keyIndex modelIndex :
  getApiKeys ≠ [] → request_models request ≠ [] → plan request keyIndex modelIndex ≠ [].
Proof.
  intros Hkeys Hmodels E. pose proof (plan_all request keyIndex modelIndex) as Hp.
  rewrite E in Hp. apply Permutation_nil_l in Hp.
  by destruct getApiKeys, (request_models request).
Qed.

Lemma try_plan_app request step calls calls' lastError :
  try_plan request step (calls ++ calls') lastError =
  match try_plan request step calls lastError with
  | (inr error, step') => try_plan request step' calls' error
  | r => r
  end.
Proof.
  revert step lastError. induction calls as [|c calls IH]; intros; [done|].
  simpl. destruct (reply request step c); [done|apply IH].
Qed.

Lemma update_key_keys apiKey f states :
  (∀ s, ks_apiKey (f s) = ks_apiKey s) →
  ks_apiKey <$> update_key apiKey f states = ks_apiKey <$> states.
Proof.
  intros Hf. induction states as [|s l IH]; [done|].
  simpl. case_bool_decide; csimpl; [by rewrite Hf|by rewrite IH].
Qed.

Lemma update_key_twice apiKey f g states :
  (∀ s, ks_apiKey (g s) = ks_apiKey s) →
  update_key apiKey f (update_key apiKey g states) = update_key apiKey (λ s, f (g s)) states.
Proof.
  intros Hg. induction states as [|s l IH]; [done|]. cbn. case_bool_decide as Hs; cbn.
  - by rewrite Hg, bool_decide_eq_true_2.
  - by rewrite bool_decide_eq_false_2, IH.
Qed.

Lemma marked_by_key request step call s : ks_apiKey (marked_by request step call s) = ks_apiKey s.
Proof. unfold marked_by. by repeat case_match. Qed.

Lemma update_key_ext apiKey f g states :
  (∀ s, f s = g s) → update_key apiKey f states = update_key apiKey g states.
Proof. intros Hfg. induction states as [|s l IH]; [done|]. cbn. by rewrite Hfg, IH. Qed.

Lemma keys_recorded_call request step call states :
  keys_recorded states → keys_recorded (update_key call.1 (marked_by request step call) states).
Proof. unfold keys_recorded. by rewrite update_key_keys by apply marked_by_key. Qed.

(** One call, with the bookkeeping of its key. *)
Lemma attempt_run request apiKey modelName w step ki mi states :
  keys_recorded states → apiKey ∈ getApiKeys →
  (try_catch (text ← call_model request apiKey modelName; mret (inl text))
     (λ error, markKeyFailure apiKey (rate_limited (exn_message error)) ;; mret (inr error)))
    (ai_world w step ki mi states)
  = let states' := update_key apiKey (marked_by request step (apiKey, modelName)) states in
    match reply request step (apiKey, modelName) with
    | inl text => (Ok (inl text), ai_world w (S step) ki mi states')
    | inr error => (Ok (inr error), ai_world w (S (S step)) ki mi states')
    end.
Proof.
  intros Hkeys Hin. set (fresh := λ s, mkKeyState (ks_apiKey s) 0 false None).
  assert (∀ l, keys_recorded l → bool_decide (apiKey ∈ ks_apiKey <$> l) = true) as Hknown.
  { intros l Hl. apply bool_decide_eq_true. by rewrite Hl. }
  assert (∀ f l, (∀ s, ks_apiKey (f s) = ks_apiKey s) → keys_recorded l →
    keys_recorded (update_key apiKey f l)) as Hup.
  { intros f l Hf Hl. unfold keys_recorded in *. by rewrite update_key_keys, Hl. }
  assert (∀ f, (∀ s, f s = marked_by request step (apiKey, modelName) s) →
    update_key apiKey f states = update_key apiKey (marked_by request step (apiKey, modelName)) states)
    as Hext by (intros; by apply update_key_ext).
  cbv zeta. revert Hext. unfold reply, marked_by, call_model, markKeySuccess, markKeyFailure, tick, now.
  run_simpl. change (w_step (ai_world w step ki mi states)) with step.
  destruct (gemini _ _ _ _ _ _) as [text| |message]; simpl.
  - destruct (truthy (trim text)) eqn:Ht; simpl; intros Hext.
    + by destruct w.
    + unfold tick. rewrite Hknown by by apply Hup. simpl.
      rewrite <-(Hext (λ s, mkKeyState (ks_apiKey (fresh s)) (ks_consecutiveFailures (fresh s) + 1)
        false (Some (clock (S step))))) by done.
      rewrite <-(update_key_twice apiKey (λ s, mkKeyState (ks_apiKey s) (ks_consecutiveFailures s + 1)
        false (Some (clock (S step)))) fresh) by done. by destruct w.
  - rewrite Hknown by done. simpl. intros _. by destruct w.
  - rewrite Hknown by done. simpl. intros _. by destruct w.
Qed.

(** The model of the next attempt. *)
Definition model_choice (request : GeminiRequestDto) (first : bool) : M World jsstring :=
  if first
  then match gr_model request with Some m => mret m | None => getCurrentModel end
  else rotateModel.

(** A step of the inner loop, once its model is chosen. *)
Lemma model_loop_step request apiKey first n lastError w step ki mi states modelName mi' :
  keys_recorded states → apiKey ∈ getApiKeys →
  model_choice request first (ai_world w step ki mi states)
  = (Ok modelName, ai_world w step ki mi' states) →
  model_loop request apiKey first (S n) lastError (ai_world w step ki mi states)
  = let states' := update_key apiKey (marked_by request step (apiKey, modelName)) states in
    match reply request step (apiKey, modelName) with
    | inl text => (Ok (inl text), ai_world w (S step) ki mi' states')
    | inr error => model_loop request apiKey false n (Some error)
                     (ai_world w (S (S step)) ki mi' states')
    end.
Proof.
  intros Hkeys Hin Hname. cbn [model_loop]. fold (model_choice request first).
  rewrite (run_bind_Ok _ _ _ _ _ Hname), run_bind, attempt_run by done. cbv zeta.
  by destruct (reply _ _ _).
Qed.

(** What a run of a loop over [calls] comes to, as the specification says it. *)
Definition ended (request : GeminiRequestDto) (step : nat) (calls : list (jsstring * jsstring))
    (lastError : option Exn) (w : World) (states : list AiKeyState) (ki mi : nat)
    : outcome (jsstring + option Exn) * World :=
  let '(r, step') := try_plan request step calls lastError in
  (Ok (match r with inl (_, text) => inl text | inr error => inr error end),
   ai_world w step' ki mi (marked request step calls states)).

(** After a call that failed the run goes on, and after one that answered it is over. *)
Lemma ended_cons request step call calls lastError w states ki mi :
  ended request step (call :: calls) lastError w states ki mi
  = let states' := update_key call.1 (marked_by request step call) states in
    match reply request step call with
    | inl text => (Ok (inl text), ai_world w (S step) ki mi states')
    | inr error => ended request (S (S step)) calls (Some error) w states' ki mi
    end.
Proof. unfold ended. cbn [try_plan marked]. by destruct (reply request step call). Qed.

Lemma model_after_S k mi : model_after (S k) mi = model_after k (Ai.rotate (length getModels) mi).
Proof. symmetry. apply Nat.iter_swap. Qed.

Lemma model_loop_rest request apiKey n w step ki mi states lastError :
  keys_recorded states → apiKey ∈ getApiKeys →
  let calls := pair apiKey <$> (current_model <$> turns n (length getModels)
                                  (Ai.rotate (length getModels) mi)) in
  model_loop request apiKey false n lastError (ai_world w step ki mi states)
  = ended request step calls lastError w states ki
      (model_after (n `min` S (failures request step calls)) mi).
Proof.
  intros Hkeys Hin. revert step mi states lastError Hkeys.
  induction n as [|n IH]; intros step mi states lastError Hkeys; [done|].
  set (mi' := Ai.rotate (length getModels) mi).
  rewrite (model_loop_step request apiKey false n lastError w step ki mi states
              (current_model mi') mi') by
    (done || (unfold model_choice, rotateModel, getCurrentModel; run_simpl; by destruct w)).
  cbv zeta. csimpl. fold mi'. rewrite ended_cons. cbn [failures fst].
  destruct (reply request step (apiKey, current_model mi')) as [text|error].
  { by rewrite Nat.min_r by lia. }
  rewrite (IH (S (S step)) mi') by by apply (keys_recorded_call request step (apiKey, _)).
  f_equal. symmetry. exact (model_after_S _ mi).
Qed.

(** A request that names a model names one that is not empty. *)
Definition proper_request (request : GeminiRequestDto) : Prop := gr_model request ≠ Some [].

Lemma model_loop_run request apiKey w step ki mi states lastError :
  proper_request request → request_models request ≠ [] →
  keys_recorded states → apiKey ∈ getApiKeys →
  let calls := pair apiKey <$> models_tried request mi in
  model_loop request apiKey true (length (request_models request)) lastError
    (ai_world w step ki mi states)
  = ended request step calls lastError w states ki
      (model_after (pred (length (request_models request)) `min` failures request step calls) mi).
Proof.
  intros Hproper Hmodels Hkeys Hin. unfold models_tried, proper_request, request_models in *.
  destruct (gr_model request) as [[|c m]|] eqn:Em; [done| |]; simpl given in *; cbv iota in *.
  - cbn [length pred].
    rewrite (model_loop_step request apiKey true 0 lastError w step ki mi states (c :: m) mi)
      by (done || by unfold model_choice; rewrite Em).
    cbv zeta. csimpl. rewrite ended_cons. by destruct (reply request step (apiKey, c :: m)).
  - destruct getModels as [|m0 ms] eqn:E; [done|]. rewrite <-E.
    assert (turns (length getModels) (length getModels) mi
      = mi :: turns (length ms) (length getModels) (Ai.rotate (length getModels) mi)) as ->
      by by replace (turns (length getModels)) with (turns (S (length ms))) by by rewrite E.
    replace (pred (length getModels)) with (length ms) by by rewrite E.
    replace (model_loop request apiKey true (length getModels))
      with (model_loop request apiKey true (S (length ms))) by by rewrite E.
    rewrite (model_loop_step request apiKey true (length ms) lastError w step ki mi states
                (current_model mi) mi)
      by (done || (unfold model_choice, getCurrentModel; rewrite Em; run_simpl; by destruct w)).
    cbv zeta. cbn [fmap list_fmap]. rewrite ended_cons. cbn [failures fst].
    destruct (reply request step (apiKey, current_model mi)) as [t|e].
    { by rewrite Nat.min_r by lia. }
    by rewrite model_loop_rest by (exact Hin || by apply (keys_recorded_call request step (apiKey, _))).
Qed.

Lemma key_at_in keyIndex : getApiKeys ≠ [] →
  current_key keyIndex = Some (key_at keyIndex) ∧ key_at keyIndex ∈ getApiKeys.
Proof.
  intros Hkeys. unfold key_at, current_key. destruct getApiKeys as [|k ks] eqn:E; [done|].
  destruct (lookup_lt_is_Some_2 (k :: ks) (keyIndex `mod` length (k :: ks))%nat) as [x Hx].
  { by apply Nat.mod_upper_bound. }
  rewrite Hx. split; [done|]. by eapply list_elem_of_lookup_2.
Qed.

Lemma rotate_lt len i : (i < len)%nat → (Ai.rotate len i < len)%nat.
Proof. intros Hi. destruct len as [|len]; [lia|]. by apply Nat.mod_upper_bound. Qed.

(** The runs of two lists of calls, one after the other. *)
Lemma failures_failed request step calls lastError error step' :
  try_plan request step calls lastError = (inr error, step') →
  failures request step calls = length calls.
Proof.
  revert step lastError. induction calls as [|c calls IH]; intros step lastError; [done|]. cbn.
  destruct (reply request step c); [done|]. intros E. f_equal. by eapply IH.
Qed.
Lemma failures_answered request step calls lastError answer step' :
  try_plan request step calls lastError = (inl answer, step') →
  (failures request step calls < length calls)%nat.
Proof.
  revert step lastError. induction calls as [|c calls IH]; intros step lastError; [done|]. cbn.
  destruct (reply request step c); [lia|]. intros E. apply IH in E. lia.
Qed.
Lemma failures_app request step calls calls' lastError :
  failures request step (calls ++ calls') =
  match try_plan request step calls lastError with
  | (inl _, _) => failures request step calls
  | (inr _, step') => (length calls + failures request step' calls')%nat
  end.
Proof.
  revert step lastError. induction calls as [|c calls IH]; intros step lastError; [done|]. cbn.
  destruct (reply request step c) as [t|e]; [done|]. rewrite (IH _ (Some e)).
  by destruct (try_plan _ _ _ _) as [[]].
Qed.
Lemma marked_app request step calls calls' lastError states :
  marked request step (calls ++ calls') states =
  match try_plan request step calls lastError with
  | (inl _, _) => marked request step calls states
  | (inr _, step') => marked request step' calls' (marked request step calls states)
  end.
Proof.
  revert step lastError states. induction calls as [|c calls IH]; intros step lastError states; [done|].
  cbn. destruct (reply request step c) as [t|e]; [done|]. by rewrite (IH _ (Some e)).
Qed.
Lemma marked_keys request step calls states :
  keys_recorded states → keys_recorded (marked request step calls states).
Proof.
  revert step states. induction calls as [|c calls IH]; intros step states Hs; [done|]. cbn.
  apply (keys_recorded_call request step c) in Hs. destruct (reply request step c); auto.
Qed.

Lemma try_plan_key request step apiKey models lastError key text step' :
  try_plan request step (pair apiKey <$> models) lastError = (inl (key, text), step') → key = apiKey.
Proof.
  revert step lastError. induction models as [|m models IH]; intros step lastError; [done|]. cbn.
  destruct (reply request step (apiKey, m)); [congruence|]. apply IH.
Qed.

Lemma length_models_tried request mi : length (models_tried request mi) = length (request_models request).
Proof. by rewrite models_tried_all. Qed.

Lemma model_after_add a b mi : model_after a (model_after b mi) = model_after (b + a) mi.
Proof. unfold model_after. by rewrite (Nat.add_comm b a), Nat.iter_add. Qed.

Lemma key_loop_run request attempts w step ki mi states lastError :
  proper_request request → request_models request ≠ [] → keys_recorded states →
  (ki < length getApiKeys)%nat →
  let calls := plan_from request attempts ki mi in
  let m := length (request_models request) in
  let failed := failures request step calls in
  key_loop request getApiKeys m attempts lastError (ai_world w step ki mi states)
  = ended request step calls lastError w states
      (Nat.iter (failed / m) (Ai.rotate (length getApiKeys)) ki)
      (models_after request failed mi) ∧
  match try_plan request step calls lastError with
  | (inl (key, _), _) => key_at (Nat.iter (failed / m) (Ai.rotate (length getApiKeys)) ki) = key
  | (inr _, _) => failed = (attempts * m)%nat
  end.
Proof.
  intros Hproper Hmodels. assert (length (request_models request) ≠ 0%nat) as Hm
    by by destruct (request_models request).
  revert step ki mi states lastError.
  induction attempts as [|n IH]; intros step ki mi states lastError Hkeys Hki; cbv zeta.
  { unfold models_after. cbn [plan_from failures]. by rewrite Nat.Div0.div_0_l, Nat.Div0.mod_0_l. }
  assert (getApiKeys ≠ []) as Hne by (intros E; rewrite E in Hki; simpl in Hki; lia).
  destruct (key_at_in ki Hne) as [Hcur Hin].
  cbn [plan_from key_loop].
  rewrite (run_bind_Ok getCurrentApiKey _ _ (Some (key_at ki)) (ai_world w step ki mi states))
    by (unfold getCurrentApiKey, gets; by rewrite <-Hcur).
  cbv zeta. rewrite run_bind. cbn [default from_option id].
  rewrite (model_loop_run request (key_at ki) w step ki mi states lastError) by done.
  set (calls := pair (key_at ki) <$> models_tried request mi).
  assert (length calls = length (request_models request)) as Hlen
    by (unfold calls; by rewrite length_fmap, length_models_tried).
  set (rest := plan_from _ _ _ _).
  unfold ended at 1 2. rewrite !try_plan_app, (marked_app _ _ _ _ lastError), (failures_app _ _ _ _ lastError).
  destruct (try_plan request step calls lastError) as [[[key text]|error] step'] eqn:Etry.
  - pose proof (failures_answered _ _ _ _ _ _ Etry) as Hf. rewrite Hlen in Hf.
    apply try_plan_key in Etry. unfold models_after. rewrite Nat.div_small, Nat.mod_small by done. split; [|done].
    by rewrite Nat.min_r by lia.
  - pose proof (failures_failed _ _ _ _ _ _ Etry) as Hf. rewrite Hlen in Hf |- *.
    rewrite Hf, Nat.min_l by lia.
    rewrite run_bind. unfold rotateApiKey, getCurrentApiKey. run_simpl.
    destruct (IH step' (Ai.rotate (length getApiKeys) ki)
      (model_after (pred (length (request_models request))) mi) (marked request step calls states) error
      (marked_keys _ _ _ _ Hkeys) (rotate_lt _ _ Hki)) as [Hrun Hend].
    fold rest in Hrun, Hend. cbv zeta in Hrun, Hend. unfold ended in Hrun.
    set (failed := failures request step' rest) in *.
    replace (length (request_models request) + failed)%nat
      with (failed + 1 * length (request_models request))%nat by lia.
    rewrite Nat.div_add, Nat.add_1_r by done. rewrite Nat.iter_swap in Hrun, Hend.
    split.
    + etrans; [exact Hrun|]. destruct (try_plan request step' rest error) as [r step''].
      unfold models_after. rewrite model_after_add, Nat.Div0.mod_add, Nat.div_add, Nat.add_1_r by done.
      do 3 f_equal. lia.
    + destruct (try_plan request step' rest error) as [[[key text]|e] step'']; [done|]. lia.
Qed.

(** The specification, call by call. *)
Lemma try_plan_answer request step calls lastError key text step' :
  try_plan request step calls lastError = (inl (key, text), step') →
  ∃ before modelName after, calls = before ++ (key, modelName) :: after ∧
    (∀ i c, before !! i = Some c → ∃ e, reply request (step + 2 * i)%nat c = inr e) ∧
    reply request (step + 2 * length before)%nat (key, modelName) = inl text ∧
    step' = S (step + 2 * length before)%nat ∧ failures request step calls = length before.
Proof.
  revert step lastError. induction calls as [|[k m] calls IH]; intros step lastError; simpl; [done|].
  destruct (reply request step (k, m)) as [t|e] eqn:Er; intros E.
  - simplify_eq. exists [], m, calls. simpl. rewrite Nat.add_0_r.
    split_and!; [done|by intros i c; rewrite lookup_nil|done..].
  - destruct (IH _ _ E) as (before & m' & after & -> & Hb & Ht & -> & Hf).
    exists ((k, m) :: before), m', after. split_and!; [done| | |simpl; f_equal; lia|cbn; by rewrite Hf].
    + intros [|i] c Hc; simpl in Hc; [simplify_eq; rewrite Nat.add_0_r; eauto|].
      destruct (Hb i c Hc) as [e' He']. exists e'. rewrite <-He'. f_equal. lia.
    + rewrite <-Ht. f_equal. simpl. lia.
Qed.

Lemma try_plan_failed request step calls lastError error step' :
  try_plan request step calls lastError = (inr error, step') →
  step' = (step + 2 * length calls)%nat ∧
  (∀ i c, calls !! i = Some c → ∃ e, reply request (step + 2 * i)%nat c = inr e) ∧
  error = match last calls with
          | None => lastError
          | Some c => match reply request (step + 2 * pred (length calls))%nat c with
                      | inr e => Some e | inl _ => None end
          end.
Proof.
  revert step lastError. induction calls as [|c calls IH]; intros step lastError E; simpl in E.
  { simplify_eq. split_and!; [simpl; lia|by intros i c; rewrite lookup_nil|done]. }
  destruct (reply request step c) as [t|e] eqn:Er; [done|].
  destruct (IH _ _ E) as (-> & Hall & ->). split_and!; [simpl; lia| |].
  - intros [|i] c' Hc; simpl in Hc; [simplify_eq; rewrite Nat.add_0_r; eauto|].
    destruct (Hall i c' Hc) as [e' He']. exists e'. rewrite <-He'. f_equal. lia.
  - destruct calls as [|c' calls]; [simpl; by rewrite Nat.add_0_r, Er|].
    rewrite last_cons_cons. destruct (last (c' :: calls)) as [l|] eqn:El; [|by apply last_None in El].
    by replace (step + 2 * pred (length (c :: c' :: calls)))%nat
      with (S (S step) + 2 * pred (length (c' :: calls)))%nat by (simpl; lia).
Qed.

(** The guards pass when something is configured; the rest is the loops. *)
Lemma generateContent_keys request w :
  getApiKeys ≠ [] → request_models request ≠ [] →
  generateContent request w =
  match key_loop request getApiKeys (length (request_models request)) (length getApiKeys) None w with
  | (Ok (inl text), w') => (Ok text, w')
  | (Ok (inr (Some e)), w') => (Throw (ai_unavailable (exn_message e)), w')
  | (Ok (inr None), w') => (Throw (ai_unavailable (js "AI service is unavailable")), w')
  | (Throw e, w') => (Throw e, w')
  | (Hang, w') => (Hang, w')
  end.
Proof.
  intros Hkeys Hmodels. unfold generateContent.
  rewrite (proj2 (Nat.eqb_neq (length getApiKeys) 0)) by (intros E; by apply length_zero_iff_nil in E).
  rewrite (proj2 (Nat.eqb_neq (length (request_models request)) 0))
    by (intros E; by apply length_zero_iff_nil in E).
  cbn [throw_if]. do 2 rewrite (run_bind_Ok _ _ w tt w eq_refl). rewrite run_bind.
  by destruct (key_loop _ _ _ _ _ _) as [[[text|[e|]]|e|] w'].
Qed.

End facts.

(** ** A run *)

(** The demo host with another Gemini. *)
Definition with_gemini (answer : nat → jsstring → jsstring → GeminiOutcome) (h : Host) : Host :=
  let '(Build_Host c f r n p _ a1 a2 a3 a4 a5 a6 a7 a8 a9 b0 b1 b2 b3 b4 b5 b6 b7 b8 b9 c1) := h in
  Build_Host c f r n p (λ step key model _ _ _, answer step key model)
    a1 a2 a3 a4 a5 a6 a7 a8 a9 b0 b1 b2 b3 b4 b5 b6 b7 b8 b9 c1.

(** The first key is over its quota. *)
Definition quota_host : Host :=
  with_gemini (λ _ key _,
    if bool_decide (key = js "key-1") then GeminiError (js "429 Too Many Requests")
    else GeminiText (js " hello ")) (demo_host demo_env).

Definition quota_world : World := upd_keyStates (λ _, @init_keyStates quota_host) empty_world.
Definition quota_request : GeminiRequestDto := mkGemini (Some (js "gemini-1.5-flash")) [] false None.

