(* ===== verification/Gateway.v ===== *)
(** * The realtime gateways

    [chat/chat.gateway.ts], [chat/utils/socket-conversation.util.ts] and
    [ai/ai.gateway.ts].  A connected socket is an entry of [w_clients], with the user the
    middleware put on it and the rooms it is in; an emission is an entry of [w_emitted],
    addressed to a room or a socket ([reaches] says which sockets get it).  The promises
    that [handleSendMessage] starts and does not wait for are values of [Task], run later
    by [run_task]. *)

From S2P Require Import Prelude JsText Wire Driver Env Store Model Instance Encryption Auth AuthFacts AuthController Chat Ai.
Open Scope Z_scope.

(** ** [socket-conversation.util.ts] *)

Definition getConversationRoom (conversationId : jsstring) : jsstring :=
  js "conversation:" ++ conversationId.
Definition getUserRoom (userId : jsstring) : jsstring := js "user:" ++ userId.

Definition getJoinedConversationIds (client : Client) : list jsstring :=
  default [] (c_joinedConversationIds client).

Definition set_joined (ids : list jsstring) (c : Client) : Client :=
  mkClient (c_namespace c) (c_user c) (Some ids) (c_rooms c).

Definition markConversationJoined (conversationId : jsstring) (client : Client) : Client :=
  let current := getJoinedConversationIds client in
  if bool_decide (conversationId ∈ current) then client
  else set_joined (current ++ [conversationId]) client.

Definition markConversationLeft (conversationId : jsstring) (client : Client) : Client :=
  set_joined (filter (λ joinedId, joinedId ≠ conversationId) (getJoinedConversationIds client))
    client.

(** [client.join(room)] and [client.leave(room)]: the rooms of a socket are a set. *)
Definition join_room (room : jsstring) (c : Client) : Client :=
  mkClient (c_namespace c) (c_user c) (c_joinedConversationIds c)
    (if bool_decide (room ∈ c_rooms c) then c_rooms c else c_rooms c ++ [room]).
Definition leave_room (room : jsstring) (c : Client) : Client :=
  mkClient (c_namespace c) (c_user c) (c_joinedConversationIds c)
    (filter (λ r, r ≠ room) (c_rooms c)).

(** ** Sockets *)

Definition on_client (client : nat) (f : Client → Client) : M World () :=
  modify (upd_clients (alter f client)).

(** [getClientUser] of both gateways. *)
Definition getClientUser (client : nat) : M World SessionUser :=
  clients ← gets w_clients;
  or_throw (clients !! client ≫= c_user) (PlainError (js "Socket user is missing")).

(** The middleware of [afterInit]: whether the connection is let in, and the socket it
    creates then.  Only the chat namespace keeps joined conversations. *)
Definition connect `{Host} `{Mongo} (ns : Namespace) (client : nat) (h : Handshake) : M World bool :=
  user ← authenticateSocketClient h;
  match user with
  | None => mret false
  | Some user =>
      modify (upd_clients <[client := mkClient ns (Some user)
        (match ns with ns_chat => Some [] | ns_ai => None end) []]>) ;;
      mret true
  end.

(** An event goes to the gateway of the socket's namespace, and to no other. *)
Definition dispatched (ns : Namespace) (client : nat) (handler : M World ()) : M World () :=
  clients ← gets w_clients;
  match clients !! client with
  | Some c => if bool_decide (c_namespace c = ns) then handler else mret tt
  | None => mret tt
  end.

(** Who gets an emission. *)
Definition reaches (clients : gmap nat Client) (to : Target) (client : nat) : bool :=
  match clients !! client with
  | None => false
  | Some c =>
      match to with
      | ToRoom ns room => bool_decide (c_namespace c = ns) && bool_decide (room ∈ c_rooms c)
      | ToRoomExcept sender room =>
          bool_decide (client ≠ sender) && bool_decide (room ∈ c_rooms c)
          && match clients !! sender with
             | Some s => bool_decide (c_namespace c = c_namespace s)
             | None => false
             end
      | ToClient target => bool_decide (client = target)
      end
  end.

(** ** Acknowledgements *)

Inductive Ack (A : Type) :=
  | Success (data : A)
  | Failure (error : RealtimeErrorPayload).
Arguments Success {A} _.
Arguments Failure {A} _.

Record SendMessagePayload := mkSendPayload {
  sp_conversationId : jsstring;
  sp_content : jsstring;
  sp_attachmentId : option jsstring;
}.

(** The promises [handleSendMessage] does not wait for. *)
Inductive Task :=
  | Moderate (messageId content conversationId userId : jsstring)
  | Reply (conversationId content userId : jsstring).

Section chat_gateway.
Context `{Host} `{Mongo}.

Definition toErrorAck {A} (error : Exn) (conversationId : option jsstring) : Ack A :=
  Failure (normalizeRealtimeError error conversationId).

(** [try { ... } catch (error) { return this.toErrorAck(error, conversationId) }]. *)
Definition acknowledged {A} (m : M World (Ack A)) (conversationId : jsstring) : M World (Ack A) :=
  try_catch m (λ error, mret (toErrorAck error (Some conversationId))).

Definition emitConversationPreviews (entries : list (jsstring * ConversationPreviewPayload))
    : M World () :=
  forM_ entries (λ entry,
    emit (ToRoom ns_chat (getUserRoom entry.1)) (conversation_preview_updated entry.2)).

Definition emitRealtimeMessage (conversationId : jsstring) (participantUserIds : list jsstring)
    (message : RealtimeMessagePayload) : M World () :=
  emit (ToRoom ns_chat (getConversationRoom conversationId)) (message_delivered message) ;;
  forM_ participantUserIds (λ userId,
    emit (ToRoom ns_chat (getUserRoom userId)) (message_delivered message)).

Definition handleConnection (client : nat) : M World () :=
  user ← getClientUser client;
  on_client client (join_room (getUserRoom (su_id user))) ;;
  emit (ToClient client) connection_status_changed.

(** The socket leaves what it joined, and is gone. *)
Definition handleDisconnect (client : nat) : M World () :=
  clients ← gets w_clients;
  forM_ (default [] (getJoinedConversationIds <$> clients !! client)) (λ conversationId,
    on_client client (λ c,
      markConversationLeft conversationId (leave_room (getConversationRoom conversationId) c))) ;;
  modify (upd_clients (delete client)).

Definition handleJoinConversation (client : nat) (conversationId : jsstring)
    : M World (Ack jsstring) :=
  user ← getClientUser client;
  acknowledged
    (getRequiredActiveParticipant conversationId (su_id user) ;;
     on_client client (λ c,
       markConversationJoined conversationId (join_room (getConversationRoom conversationId) c)) ;;
     mret (Success conversationId)) conversationId.

Definition handleLeaveConversation (client : nat) (conversationId : jsstring)
    : M World (Ack jsstring) :=
  on_client client (λ c,
    markConversationLeft conversationId (leave_room (getConversationRoom conversationId) c)) ;;
  mret (Success conversationId).

(** Sends a message and tells the participants. *)
Definition send_and_deliver (conversationId userId content : jsstring)
    (attachmentId : option jsstring) (isAICommand : bool) : M World RealtimeMessagePayload :=
  result ← sendRealtimeMessage conversationId userId content attachmentId isAICommand;
  emitConversationPreviews (rr_previewByUserId result) ;;
  emitRealtimeMessage conversationId (fst <$> rr_previewByUserId result) (rr_message result) ;;
  mret (rr_message result).

(** The promises started for a message that was sent. *)
Definition started_tasks (messageId content conversationId userId : jsstring) : list Task :=
  (if isModerationEnabled && truthy content
   then [Moderate messageId content conversationId userId] else [])
  ++ (if isChatbotEnabled && shouldReply content then [Reply conversationId content userId] else []).

Definition handleSendMessage (client : nat) (payload : SendMessagePayload)
    : M World (Ack RealtimeMessagePayload * list Task) :=
  user ← getClientUser client;
  let conversationId := sp_conversationId payload in
  try_catch
    (let content := trim (sp_content payload) in
     let isAICommand := shouldReply content in
     message ← send_and_deliver conversationId (su_id user) content (sp_attachmentId payload)
                 isAICommand;
     mret (Success message,
           started_tasks (rt_messageId message) content conversationId (su_id user)))
    (λ error, mret (toErrorAck error (Some conversationId), [])).

(** A promise of [handleSendMessage], with its [.catch(() => undefined)]. *)
Definition run_task (t : Task) : M World () :=
  try_catch
    (match t with
     | Moderate messageId content conversationId userId =>
         moderationResult ← analyzeMessage content;
         saveMessageModerationResult messageId moderationResult ;;
         let event := ai_moderation_result conversationId moderationResult messageId in
         emit (ToRoom ns_chat (getConversationRoom conversationId)) event ;;
         emit (ToRoom ns_chat (getUserRoom userId)) event
     | Reply conversationId content userId =>
         aiContent ← generateResponse conversationId content;
         if negb (truthy aiContent) then mret tt
         else
           aiResult ← sendAiBotMessage conversationId userId aiContent;
           emitConversationPreviews (rr_previewByUserId aiResult) ;;
           emitRealtimeMessage conversationId (fst <$> rr_previewByUserId aiResult)
             (rr_message aiResult)
     end)
    (λ _, mret tt).

Definition handleMarkConversationRead (client : nat) (conversationId : jsstring)
    : M World (Ack MarkConversationReadPayload) :=
  user ← getClientUser client;
  acknowledged
    (result ← markConversationRead conversationId (su_id user);
     previews ← buildConversationPreviewPayloads conversationId;
     emitConversationPreviews previews ;;
     emit (ToRoom ns_chat (getUserRoom (su_id user))) (conversation_read_updated result) ;;
     emit (ToRoom ns_chat (getConversationRoom conversationId)) (conversation_read_updated result) ;;
     mret (Success result)) conversationId.

Definition handleTypingPresence (client : nat) (conversationId : jsstring) (isTyping : bool)
    : M World (Ack (jsstring * bool)) :=
  user ← getClientUser client;
  acknowledged
    (getRequiredActiveParticipant conversationId (su_id user) ;;
     t ← now;
     emit (ToRoomExcept client (getConversationRoom conversationId))
       (typing_presence_updated conversationId (su_id user) isTyping (toISOString (t + 4000))) ;;
     mret (Success (conversationId, isTyping))) conversationId.
End chat_gateway.

(** ** [AiGateway] *)

Section ai_gateway.
Context `{Host} `{Mongo}.

(** [error.response?.message]: only Nest's exceptions have a [response]; its [message] is
    the string it was made with. *)
Definition response_message (e : Exn) : option Json :=
  match e with
  | HttpException _ body => JStr <$> body_message body
  | _ => None
  end.

(** The own properties of [response.message], when it is an object. *)
Definition getErrorPayload (e : Exn) : option (list (jsstring * Json)) :=
  match response_message e with
  | Some (JObj fields) => Some fields
  | Some (JArr _) => Some []
  | _ => None
  end.

(** A string property of the payload. *)
Definition payload_string (e : Exn) (key : jsstring) : option jsstring :=
  match getErrorPayload e ≫= List.find (λ kv, bool_decide (kv.1 = key)) with
  | Some (_, JStr s) => Some s
  | _ => None
  end.

Definition getErrorMessage (e : Exn) : jsstring :=
  match given (payload_string e (js "message")) with
  | Some m => m
  | None => exn_message e
  end.

Definition mapErrorCode (e : Exn) : jsstring :=
  let code := payload_string e (js "code") in
  if bool_decide (code = Some (js "AI_TIMEOUT")) then js "TIMEOUT"
  else if bool_decide (code = Some (js "AI_MISSING_API_KEY"))
          || bool_decide (code = Some (js "AI_MISSING_MODEL"))
          || bool_decide (code = Some (js "AI_SERVICE_UNAVAILABLE"))
  then js "SERVICE_UNAVAILABLE"
  else if bool_decide (code = Some (js "AI_DISABLED")) then js "DISABLED"
  else if rate_limited (getErrorMessage e) then js "RATE_LIMITED"
  else js "AI_ERROR".

Definition ai_toErrorAck (e : Exn) : RealtimeErrorPayload :=
  mkRealtimeError (mapErrorCode e) (getErrorMessage e) None.

Definition emitError (client : nat) (error : RealtimeErrorPayload) : M World () :=
  emit (ToClient client) (ai_error (re_code error) (re_message error)).

Definition disabled (message : jsstring) : RealtimeErrorPayload :=
  mkRealtimeError (js "DISABLED") message None.

(** The shape the two handlers share: a switch, then a [try] whose error is sent to the
    client and acknowledged. *)
Definition ai_handler {A} (client : nat) (enabled : bool) (disabled_message : jsstring)
    (body : SessionUser → M World A) : M World (Ack A) :=
  user ← getClientUser client;
  try_catch
    (if negb enabled then
       emitError client (disabled disabled_message) ;;
       mret (Failure (disabled disabled_message))
     else data ← body user; mret (Success data))
    (λ error, emitError client (ai_toErrorAck error) ;; mret (Failure (ai_toErrorAck error))).

Definition ai_handleConnection (client : nat) : M World () :=
  user ← getClientUser client;
  on_client client (join_room (getUserRoom (su_id user))).

Definition handleAiChat (client : nat) (conversationId content : jsstring)
    : M World (Ack (jsstring * jsstring)) :=
  ai_handler client isChatbotEnabled (js "AI chatbot is disabled") (λ user,
    getRequiredActiveParticipant conversationId (su_id user) ;;
    content ← generateResponse conversationId content;
    emit (ToRoom ns_ai (getConversationRoom conversationId)) (ai_response conversationId content) ;;
    mret (conversationId, content)).

Definition handleSuggestions (client : nat) (conversationId : jsstring)
    : M World (Ack (jsstring * list jsstring)) :=
  ai_handler client isSuggestionsEnabled (js "AI suggestions are disabled") (λ user,
    getRequiredActiveParticipant conversationId (su_id user) ;;
    suggestions ← generateSuggestions conversationId;
    mret (conversationId, suggestions)).
End ai_gateway.

#[global] Arguments sendRealtimeMessage : simpl never.
#[global] Arguments send_and_deliver : simpl never.
