(* ===== verification/ChatController.v ===== *)
(** * The chat endpoints

    [backend/src/modules/chat/chat.controller.ts].  Every endpoint is behind
    [AccessTokenAuthGuard]: [authorization] is the header the guard checks.  The result
    of an endpoint is the [data] of the success response. *)

From S2P Require Import Prelude JsText Wire Driver Env Store Model Instance Encryption Auth AuthFacts AuthController Chat Attachment Ai Gateway.
Open Scope Z_scope.

Record CreateConversationDto := mkCreateDto {
  cc_type : ConversationType;
  cc_title : option jsstring;
  cc_participantIds : list jsstring;
}.

Definition invalid_participant_count : Exn :=
  exn_error BadRequest (js "INVALID_PARTICIPANT_COUNT")
    (js "Direct conversation requires exactly one other participant").
Definition conversation_mismatch : Exn :=
  exn_error BadRequest (js "CONVERSATION_MISMATCH")
    (js "Conversation ID in body must match route param").

Section chat_controller.
Context `{Host} `{Mongo}.

(** A handler behind the guard gets the user the guard put on the request. *)
Definition guarded {A} (authorization : option jsstring) (handler : jsstring → M World A)
    : M World A :=
  user ← canActivate authorization; handler (su_id user).

(** The feature, its status and the user. *)
Definition chat_getStatus (authorization : option jsstring)
    : M World (jsstring * jsstring * SessionUser) :=
  user ← canActivate authorization; mret (js "chat", js "ready", user).

Definition api_listConversations (authorization : option jsstring)
    : M World (list ConversationSummary) :=
  guarded authorization listConversationsForUser.

Definition api_createConversation (authorization : option jsstring) (dto : CreateConversationDto)
    : M World (doc Conversation) :=
  guarded authorization (λ userId,
    throw_if (bool_decide (cc_type dto = direct) && negb (length (cc_participantIds dto) =? 1)%nat)
      invalid_participant_count ;;
    createConversation (cc_type dto) userId (cc_participantIds dto) (cc_title dto)).

(** [query.limit ? Math.min(Number(query.limit), 50) : 10]. *)
Definition query_limit (limit : option jsstring) : number :=
  match given limit with Some l => Math_min (to_number l) (num 50) | None => num 10 end.

Definition api_getMessages (authorization : option jsstring) (conversationId : jsstring)
    (before limit : option jsstring) : M World (list ChatMessagePayload) :=
  guarded authorization (λ userId,
    requireActiveParticipant conversationId userId ;;
    getMessages conversationId before (query_limit limit)).

Definition api_searchMessages (authorization : option jsstring) (conversationId : jsstring)
    (q : option jsstring) : M World (list MessageSearchPayload) :=
  guarded authorization (λ userId,
    requireActiveParticipant conversationId userId ;;
    searchMessages conversationId (default [] q)).

Definition api_addMember (authorization : option jsstring) (conversationId memberId : jsstring)
    : M World bool :=
  guarded authorization (λ actorId,
    requireActiveParticipant conversationId actorId ;;
    addMember conversationId memberId actorId).

Definition api_removeMember (authorization : option jsstring) (conversationId memberId : jsstring)
    : M World () :=
  guarded authorization (λ actorId,
    requireAdminOrOwner conversationId actorId ;;
    removeMember conversationId memberId actorId).

Definition api_leaveConversation (authorization : option jsstring) (conversationId : jsstring)
    : M World () :=
  guarded authorization (λ userId,
    requireActiveParticipant conversationId userId ;;
    leaveConversation conversationId userId).

Definition api_deleteConversation (authorization : option jsstring) (conversationId : jsstring)
    : M World () :=
  guarded authorization (λ userId,
    requireActiveParticipant conversationId userId ;;
    deleteConversationForUser conversationId userId).

Definition api_markConversationRead (authorization : option jsstring)
    (conversationId body_conversationId : jsstring) : M World MarkConversationReadPayload :=
  guarded authorization (λ userId,
    throw_if (bool_decide (body_conversationId ≠ conversationId)) conversation_mismatch ;;
    requireActiveParticipant conversationId userId ;;
    markConversationRead conversationId userId).

Definition api_generatePresignedUploadUrl (authorization : option jsstring)
    (dto : GeneratePresignedUploadDto) : M World PresignedUpload :=
  guarded authorization (λ userId, generatePresignedUploadUrl userId dto).

Definition api_markAttachmentUploaded (authorization : option jsstring)
    (conversationId attachmentId : jsstring) : M World ChatAttachmentPayload :=
  guarded authorization (markAttachmentUploaded conversationId attachmentId).

Definition api_getAttachmentStatus (authorization : option jsstring) (attachmentId : jsstring)
    : M World AttachmentState :=
  guarded authorization (getAttachmentStatus attachmentId).

Definition api_confirmAttachment (authorization : option jsstring) (conversationId : jsstring)
    (attachmentId : option jsstring) : M World RealtimeMessagePayload :=
  guarded authorization (λ userId,
    send_and_deliver conversationId userId [] attachmentId false).

Definition api_getPresignedDownloadUrl (authorization : option jsstring) (attachmentId : jsstring)
    : M World PresignedDownload :=
  guarded authorization (generatePresignedDownloadUrl attachmentId).

Definition api_listConversationAttachments (authorization : option jsstring)
    (conversationId : jsstring) (before limit : option jsstring) : M World AttachmentPage :=
  guarded authorization (λ userId,
    listConversationAttachments conversationId userId before (to_number <$> given limit)).

Definition api_getMembershipEvents (authorization : option jsstring) (conversationId : jsstring)
    : M World (list (doc MembershipEvent)) :=
  guarded authorization (λ userId,
    requireActiveParticipant conversationId userId ;;
    getMembershipEvents conversationId).
End chat_controller.
