(* ===== verification/Invariants.v ===== *)
(** * Invariants of the whole backend

    Which operations only read the store, the operations a client can trigger
    ([Op], [run_op]) and what holds in every state they lead to. *)

From S2P Require Import Prelude JsText Wire Driver Env Store Model Instance Encryption Auth AuthFacts AuthController Chat ChatSend ChatFacts Attachment Ai Gateway ChatController.
Open Scope Z_scope.

(** ** Operations that leave the store alone *)

(** A predicate of the store is kept by whatever leaves the store alone. *)
Lemma read_only_preserves {A} (P : Database → Prop) (m : M World A) :
  read_only m → preserves (λ w, P (database w)) m.
Proof. intros Hm w Hw. by rewrite (read_only_run m w Hm). Qed.

(** An invariant that reading keeps: it looks neither at the consultation counters nor at
    what the assistant remembers of its keys. *)
Class ReadInvariant (I : World → Prop) : Prop := {
  read_stepless :: Stepless I;
  read_keyIndex f w : I w → I (upd_keyIndex f w);
  read_modelIndex f w : I w → I (upd_modelIndex f w);
  read_keyStates f w : I w → I (upd_keyStates f w);
}.

(** An invariant that looks at no emission, no socket, no response, no attempt, and not at
    the documents of a model. *)
Class IgnoresEmitted (I : World → Prop) : Prop :=
  ignores_emitted f w : I w → I (upd_emitted f w).
Class IgnoresClients (I : World → Prop) : Prop :=
  ignores_clients f w : I w → I (upd_clients f w).
Class IgnoresHttp (I : World → Prop) : Prop :=
  ignores_http f w : I w → I (upd_http f w).
Class IgnoresAttempts (I : World → Prop) : Prop :=
  ignores_attempts f w : I w → I (upd_attempts f w).
Class Ignores {D} (I : World → Prop) (m : Model D) : Prop :=
  ignores f w : I w → I (m_upd m f w).

(** An invariant of the store alone. *)
Class StoreInvariant (I : World → Prop) : Prop :=
  store_invariant w w' : database w = database w' → I w → I w'.

Section store_invariants.
Context (I : World → Prop) `{!StoreInvariant I}.

#[export] Instance store_read : ReadInvariant I.
Proof. split; [split|..]; intros f w; by apply store_invariant. Qed.
#[export] Instance store_emitted : IgnoresEmitted I.
Proof. intros f w. by apply store_invariant. Qed.
#[export] Instance store_clients : IgnoresClients I.
Proof. intros f w. by apply store_invariant. Qed.
#[export] Instance store_http : IgnoresHttp I.
Proof. intros f w. by apply store_invariant. Qed.
End store_invariants.

#[export] Instance store_database d : StoreInvariant (λ w, database w = d).
Proof. intros w w' E Hw. by rewrite <-E. Qed.

#[export] Hint Extern 0 (ReadInvariant _) => typeclasses eauto : inv.
#[export] Hint Extern 0 (IgnoresEmitted _) => typeclasses eauto : inv.
#[export] Hint Extern 0 (IgnoresClients _) => typeclasses eauto : inv.
#[export] Hint Extern 0 (IgnoresHttp _) => typeclasses eauto : inv.
#[export] Hint Extern 0 (IgnoresAttempts _) => typeclasses eauto : inv.
#[export] Hint Extern 0 (Ignores _ _) => typeclasses eauto : inv.

(** The presentation functions, the queries and the assistant only read. *)
Section read_only.
Context `{Host} `{Mongo} (I : World → Prop) `{!ReadInvariant I}.

Lemma keeps_toDisplayMessage m : preserves I (toDisplayMessage m).
Proof. unfold toDisplayMessage, buildSenderPresentation, auth_findById. inv_solve. Qed.
Lemma keeps_toRealtime m : preserves I (toRealtimeMessagePayload m).
Proof. unfold toRealtimeMessagePayload, buildSenderPresentation, auth_findById. inv_solve. Qed.
Lemma keeps_getActive c u : preserves I (getActiveParticipant c u).
Proof. unfold getActiveParticipant. inv_solve. Qed.
#[local] Hint Resolve keeps_toDisplayMessage keeps_toRealtime keeps_getActive : inv.
Lemma keeps_getRequired c u : preserves I (getRequiredActiveParticipant c u).
Proof. unfold getRequiredActiveParticipant. inv_solve. Qed.
Lemma keeps_requireActive c u : preserves I (requireActiveParticipant c u).
Proof. unfold requireActiveParticipant. inv_solve. Qed.
Lemma keeps_requireAdmin c u : preserves I (requireAdminOrOwner c u).
Proof. unfold requireAdminOrOwner, getParticipantRole. inv_solve. Qed.
#[local] Hint Resolve keeps_getRequired keeps_requireActive keeps_requireAdmin : inv.

Lemma keeps_previews c : preserves I (buildConversationPreviewPayloads c).
Proof.
  unfold buildConversationPreviewPayloads, getActiveParticipants. inv_solve.
  all: unfold buildConversationPreviewPayload, latest_message; inv_solve.
Qed.
Lemma keeps_getMessages c b l : preserves I (getMessages c b l).
Proof.
  unfold getMessages, before_cursor. inv_solve.
  match goal with |- preserves _ (message_payloads ?l) => induction l end;
    cbn [message_payloads]; inv_solve.
Qed.
Lemma keeps_searchMessages c q : preserves I (searchMessages c q).
Proof. unfold searchMessages. inv_solve. Qed.
Lemma keeps_attachment_for_send c s v : preserves I (attachment_for_send c s v).
Proof. unfold attachment_for_send. inv_solve. Qed.
Lemma keeps_getMembershipEvents c : preserves I (getMembershipEvents c).
Proof. unfold getMembershipEvents. inv_solve. Qed.
Lemma keeps_getAttachmentStatus a u : preserves I (getAttachmentStatus a u).
Proof. unfold getAttachmentStatus, requireAttachmentId, requireObjectId. inv_solve. Qed.
Lemma keeps_download a u : preserves I (generatePresignedDownloadUrl a u).
Proof.
  unfold generatePresignedDownloadUrl, requireAttachmentId, requireObjectId, getBucketName,
    getSignedUrl, getS3Client, link_expiry. inv_solve.
Qed.
Lemma keeps_listAttachments c u b l : preserves I (listConversationAttachments c u b l).
Proof.
  unfold listConversationAttachments, requireConversationId, requireObjectId, before_cursor.
  inv_solve.
Qed.
Lemma keeps_listConversations u : preserves I (listConversationsForUser u).
Proof.
  unfold listConversationsForUser. inv_solve.
  all: unfold conversation_summary, latest_message, auth_findById; inv_solve.
Qed.
Lemma keeps_authenticate t : preserves I (authenticateAccessToken t).
Proof. unfold authenticateAccessToken, verifyAccessToken, auth_findById. inv_solve. Qed.
Lemma keeps_canActivate a : preserves I (canActivate a).
Proof. unfold canActivate. inv_solve; apply keeps_authenticate. Qed.

Lemma keeps_keyFailure k r : preserves I (markKeyFailure k r).
Proof. unfold markKeyFailure. inv_solve. apply preserves_modify, read_keyStates. Qed.
Lemma keeps_keySuccess k : preserves I (markKeySuccess k).
Proof. apply preserves_modify, read_keyStates. Qed.
Lemma keeps_rotateModel : preserves I rotateModel.
Proof. unfold rotateModel, getCurrentModel. inv_solve. apply preserves_modify, read_modelIndex. Qed.
Lemma keeps_rotateApiKey : preserves I rotateApiKey.
Proof. unfold rotateApiKey, getCurrentApiKey. inv_solve. apply preserves_modify, read_keyIndex. Qed.
#[local] Hint Resolve keeps_keyFailure keeps_keySuccess keeps_rotateModel keeps_rotateApiKey : inv.
#[local] Hint Unfold getCurrentModel getCurrentApiKey : inv.

Lemma keeps_model_loop r k b n e : preserves I (model_loop r k b n e).
Proof.
  revert b e. induction n as [|n IH]; intros b e; cbn [model_loop]; [apply preserves_ret|].
  unfold call_model, getCurrentModel. inv_solve; apply IH.
Qed.
Lemma keeps_key_loop r ks m n e : preserves I (key_loop r ks m n e).
Proof.
  revert e. induction n as [|n IH]; intros e; cbn [key_loop]; [apply preserves_ret|].
  unfold getCurrentApiKey. inv_solve; auto using keeps_model_loop.
Qed.
Lemma keeps_generateContent r : preserves I (generateContent r).
Proof. unfold generateContent. inv_solve; apply keeps_key_loop. Qed.
Lemma keeps_lift {A} (o : outcome A) : preserves I (lift o).
Proof. by intros w. Qed.
#[local] Hint Resolve keeps_generateContent keeps_lift keeps_getMessages : inv.

Lemma keeps_analyzeMessage c : preserves I (analyzeMessage c).
Proof. unfold analyzeMessage, generateJson, read_moderation, getCurrentModel. inv_solve. Qed.
Lemma keeps_generateResponse c t : preserves I (generateResponse c t).
Proof. unfold generateResponse, generateText, getCurrentModel. inv_solve. Qed.
Lemma keeps_generateSuggestions c : preserves I (generateSuggestions c).
Proof.
  unfold generateSuggestions, generateJson, read_suggestions, getCurrentModel. inv_solve.
Qed.
End read_only.

#[export] Hint Resolve keeps_toDisplayMessage keeps_toRealtime keeps_getActive keeps_getRequired
  keeps_requireActive keeps_requireAdmin keeps_previews keeps_getMessages keeps_searchMessages
  keeps_attachment_for_send keeps_getMembershipEvents keeps_getAttachmentStatus keeps_download
  keeps_listAttachments keeps_listConversations keeps_authenticate keeps_canActivate
  keeps_analyzeMessage keeps_generateResponse keeps_generateSuggestions : inv.

(** ** Sockets and the writes of a model *)

Section writes.
Context `{Host} `{Mongo} (I : World → Prop).

Lemma keeps_emit `{!IgnoresEmitted I} to e : preserves I (emit to e).
Proof. apply preserves_modify. intros w. apply ignores_emitted. Qed.
#[local] Hint Resolve keeps_emit : inv.
Lemma keeps_emitPreviews `{!IgnoresEmitted I} l : preserves I (emitConversationPreviews l).
Proof. unfold emitConversationPreviews. inv_solve. Qed.
Lemma keeps_emitMessage `{!IgnoresEmitted I} c l m : preserves I (emitRealtimeMessage c l m).
Proof. unfold emitRealtimeMessage. inv_solve. Qed.
Lemma keeps_clients `{!IgnoresClients I} f : preserves I (modify (upd_clients f)).
Proof. apply preserves_modify. intros w. apply ignores_clients. Qed.
Lemma keeps_on_client `{!IgnoresClients I} k f : preserves I (on_client k f).
Proof. apply keeps_clients. Qed.
Lemma keeps_http `{!IgnoresHttp I} f : preserves I (upd_http_field f).
Proof. apply preserves_modify. intros w. apply ignores_http. Qed.
Lemma keeps_recordAttempt `{!IgnoresAttempts I} a b c d e f : preserves I (recordAttempt a b c d e f).
Proof. apply preserves_modify. intros w. apply ignores_attempts. Qed.
Lemma keeps_local_attempt `{!IgnoresAttempts I} a b c d e f : preserves I (local_attempt a b c d e f).
Proof. apply keeps_recordAttempt. Qed.

Context {D : Type} (m : Model D) `{!Ignores I m}.

Lemma preserves_updateOne q u : preserves I (model_updateOne m q u).
Proof. apply preserves_modify. intros w. apply ignores. Qed.
Lemma preserves_updateMany q u : preserves I (model_updateMany m q u).
Proof. apply preserves_modify. intros w. apply ignores. Qed.
Lemma preserves_save i u : preserves I (model_save m i u).
Proof. apply preserves_modify. intros w. apply ignores. Qed.
Lemma preserves_insert' i d : preserves I (model_insert m i d).
Proof. apply preserves_insert. intros w Hw _. by apply ignores. Qed.
Lemma preserves_create' `{!Stepless I} d : preserves I (model_create m d).
Proof. apply preserves_create; [apply _|]. intros w i Hw _. by apply ignores. Qed.
End writes.

#[export] Hint Resolve keeps_emit keeps_emitPreviews keeps_emitMessage keeps_clients
  keeps_on_client keeps_http keeps_recordAttempt keeps_local_attempt preserves_updateOne
  preserves_updateMany preserves_save preserves_insert' preserves_create' : inv.

(** ** Attachments and messages *)

(** An attachment is attached exactly when it names a message, the message exists, is in
    the same conversation, from the uploader, and carries this attachment; and a message
    that carries an attachment is the one the attachment names. *)
Record attached_ok (ms : collection Message) (ats : collection ChatAttachment) : Prop := {
  att_status i a :
    ats !! i = Some a → (ca_status a = attached ↔ is_Some (ca_messageId a));
  att_message i a mi :
    ats !! i = Some a → ca_messageId a = Some mi →
    ∃ m ma, ms !! mi = Some m ∧ m_attachment m = Some ma ∧ ma_attachmentId ma = i
            ∧ m_conversationId m = ca_conversationId a ∧ m_senderId m = ca_uploaderId a;
  att_unique mi m ma :
    ms !! mi = Some m → m_attachment m = Some ma →
    ∃ a, ats !! ma_attachmentId ma = Some a ∧ ca_messageId a = Some mi;
}.

Definition attachments_ok (w : World) : Prop := attached_ok (w_messages w) (w_attachments w).

(** A message keeps what the invariant looks at. *)
Definition same_attachment (u : Message → Message) : Prop :=
  ∀ m, m_attachment (u m) = m_attachment m ∧ m_conversationId (u m) = m_conversationId m
       ∧ m_senderId (u m) = m_senderId m.

Section attached.
Context (ms : collection Message) (ats : collection ChatAttachment) (Hok : attached_ok ms ats).

Lemma attached_insert_plain mi m :
  ms !! mi = None → m_attachment m = None → attached_ok (<[mi:=m]> ms) ats.
Proof.
  intros Hf Hm. split.
  - apply (att_status _ _ Hok).
  - intros i a mi' Ha Hmi. destruct (att_message _ _ Hok i a mi' Ha Hmi) as (m' & ma & Hl & Hr).
    exists m', ma. by rewrite lookup_insert_ne by congruence.
  - intros mi' m' ma [[<- <-]|[_ Hl]]%lookup_insert_Some Ha; [congruence|].
    by apply (att_unique _ _ Hok mi' m').
Qed.

Lemma attached_update (ms' : collection Message) :
  (∀ i, ∃ u, same_attachment u ∧ ms' !! i = u <$> ms !! i) → attached_ok ms' ats.
Proof.
  intros Hu. split.
  - apply (att_status _ _ Hok).
  - intros i a mi Ha Hmi. destruct (att_message _ _ Hok i a mi Ha Hmi) as (m & ma & Hl & H1 & H2 & H3 & H4).
    destruct (Hu mi) as (u & Hsame & E). rewrite Hl in E. destruct (Hsame m) as (S1 & S2 & S3).
    exists (u m), ma. by rewrite E, S1, S2, S3.
  - intros mi m' ma Hl Ha. destruct (Hu mi) as (u & Hsame & E). rewrite Hl in E.
    symmetry in E. apply fmap_Some in E as (m & Hm & ->). rewrite (proj1 (Hsame m)) in Ha.
    by apply (att_unique _ _ Hok mi m).
Qed.

Lemma attached_attach mi m i a ma t :
  ms !! mi = None → ats !! i = Some a → ca_status a ≠ attached →
  m_attachment m = Some ma → ma_attachmentId ma = i →
  m_conversationId m = ca_conversationId a → m_senderId m = ca_uploaderId a →
  attached_ok (<[mi:=m]> ms) (alter (set_attached mi t) i ats).
Proof.
  intros Hf Hi Hst Hma Hid Hc Hs. subst i.
  assert (ca_messageId a = None) as Hnone.
  { apply eq_None_not_Some. intros Hm. by apply (att_status _ _ Hok _ _ Hi) in Hm. }
  split.
  - intros j b Hb. rewrite lookup_alter in Hb. case_decide; [|by apply (att_status _ _ Hok j)].
    subst j. rewrite Hi in Hb. simpl in Hb. simplify_eq. simpl. by split.
  - intros j b mj Hb Hmj. rewrite lookup_alter in Hb. case_decide as Hj.
    + subst j. rewrite Hi in Hb. simpl in Hb. simplify_eq. simpl in Hmj. simplify_eq.
      exists m, ma. by rewrite lookup_insert_eq.
    + destruct (att_message _ _ Hok j b mj Hb Hmj) as (m' & ma' & Hl & Hr).
      exists m', ma'. by rewrite lookup_insert_ne by congruence.
  - intros mj m' ma' [[<- <-]|[_ Hl]]%lookup_insert_Some Ha.
    + simplify_eq. rewrite lookup_alter_eq, Hi. by eexists.
    + destruct (att_unique _ _ Hok mj m' ma' Hl Ha) as (b & Hb & Hmb).
      exists b. rewrite lookup_alter_ne; [done|]. intros E. rewrite <-E in Hb. congruence.
Qed.

Lemma attached_draft i a :
  ats !! i = None → ca_status a ≠ attached → ca_messageId a = None →
  attached_ok ms (<[i:=a]> ats).
Proof.
  intros Hf Hst Hm. split.
  - intros j b [[<- <-]|[_ Hb]]%lookup_insert_Some; [|by apply (att_status _ _ Hok j)].
    rewrite Hm. split; [done|by intros [? ?]].
  - intros j b mj [[<- <-]|[_ Hb]]%lookup_insert_Some Hmj; [congruence|].
    by apply (att_message _ _ Hok j b).
  - intros mi m ma Hl Ha. destruct (att_unique _ _ Hok mi m ma Hl Ha) as (b & Hb & Hmb).
    exists b. by rewrite lookup_insert_ne by congruence.
Qed.

Lemma attached_uploaded i t :
  (∀ a, ats !! i = Some a → ca_status a ≠ attached) → attached_ok ms (alter (set_uploaded t) i ats).
Proof.
  intros Hst. split.
  - intros j b Hb. rewrite lookup_alter in Hb. case_decide as Hj; [|by apply (att_status _ _ Hok j)].
    subst j. apply fmap_Some in Hb as (a & Ha & ->). simpl. split; [done|].
    intros Hm. apply (att_status _ _ Hok i a Ha) in Hm. by destruct (Hst a Ha).
  - intros j b mj Hb Hmj. rewrite lookup_alter in Hb. case_decide as Hj.
    + subst j. apply fmap_Some in Hb as (a & Ha & ->). by apply (att_message _ _ Hok i a).
    + by apply (att_message _ _ Hok j b).
  - intros mi m ma Hl Ha. destruct (att_unique _ _ Hok mi m ma Hl Ha) as (b & Hb & Hmb).
    rewrite lookup_alter. case_decide as Hj; [|by exists b].
    subst i. rewrite Hb. by exists (set_uploaded t b).
Qed.
End attached.

(** ** The operations of the backend *)

(** What a client can make the backend do: a request of an endpoint, an event of a socket,
    and the promises of the gateway, which run at any time after they were started. *)
Inductive Op :=
  | Register (payload : RegisterLocalAuthDto) (request : Request)
  | Login (payload : LoginLocalAuthDto) (request : Request)
  | Refresh (request : Request)
  | Logout (request : Request)
  | GoogleStart
  | GoogleValidate (profile : GoogleProfile)
  | GoogleCallback (request : Request)
  | GoogleFailure
  | Me (authorization : option jsstring)
  | SearchUsers (authorization query : option jsstring)
  | ListConversations (authorization : option jsstring)
  | CreateConversation (authorization : option jsstring) (dto : CreateConversationDto)
  | GetMessages (authorization : option jsstring) (c : jsstring) (before limit : option jsstring)
  | SearchMessages (authorization : option jsstring) (c : jsstring) (q : option jsstring)
  | AddMember (authorization : option jsstring) (c memberId : jsstring)
  | RemoveMember (authorization : option jsstring) (c memberId : jsstring)
  | LeaveConversation (authorization : option jsstring) (c : jsstring)
  | DeleteConversation (authorization : option jsstring) (c : jsstring)
  | MarkRead (authorization : option jsstring) (c body : jsstring)
  | PresignUpload (authorization : option jsstring) (dto : GeneratePresignedUploadDto)
  | MarkUploaded (authorization : option jsstring) (c a : jsstring)
  | AttachmentStatusOf (authorization : option jsstring) (a : jsstring)
  | ConfirmAttachment (authorization : option jsstring) (c : jsstring) (a : option jsstring)
  | PresignDownload (authorization : option jsstring) (a : jsstring)
  | ListAttachments (authorization : option jsstring) (c : jsstring) (before limit : option jsstring)
  | MembershipEvents (authorization : option jsstring) (c : jsstring)
  | SocketConnect (ns : Namespace) (client : nat) (h : Handshake)
  | ChatConnection (client : nat)
  | Disconnect (client : nat)
  | JoinConversation (client : nat) (c : jsstring)
  | LeaveRoom (client : nat) (c : jsstring)
  | Send (client : nat) (payload : SendMessagePayload)
  | RunTask (t : Task)
  | SocketRead (client : nat) (c : jsstring)
  | Typing (client : nat) (c : jsstring) (isTyping : bool)
  | AiConnection (client : nat)
  | AiChat (client : nat) (c content : jsstring)
  | AiSuggestions (client : nat) (c : jsstring).

Definition run_op `{Host} `{Mongo} (o : Op) : M World () :=
  match o with
  | Register payload request => registerLocal payload request ;; mret tt
  | Login payload request => loginLocal payload request ;; mret tt
  | Refresh request => refresh request ;; mret tt
  | Logout request => logout request
  | GoogleStart => startGoogleLogin
  | GoogleValidate profile => google_validate profile ;; mret tt
  | GoogleCallback request => handleGoogleCallback request
  | GoogleFailure => handleGoogleFailure
  | Me authorization => getCurrentUser authorization ;; mret tt
  | SearchUsers authorization query => search_users authorization query ;; mret tt
  | ListConversations authorization => api_listConversations authorization ;; mret tt
  | CreateConversation authorization dto => api_createConversation authorization dto ;; mret tt
  | GetMessages authorization c before limit =>
      api_getMessages authorization c before limit ;; mret tt
  | SearchMessages authorization c q => api_searchMessages authorization c q ;; mret tt
  | AddMember authorization c memberId => api_addMember authorization c memberId ;; mret tt
  | RemoveMember authorization c memberId => api_removeMember authorization c memberId
  | LeaveConversation authorization c => api_leaveConversation authorization c
  | DeleteConversation authorization c => api_deleteConversation authorization c
  | MarkRead authorization c body => api_markConversationRead authorization c body ;; mret tt
  | PresignUpload authorization dto => api_generatePresignedUploadUrl authorization dto ;; mret tt
  | MarkUploaded authorization c a => api_markAttachmentUploaded authorization c a ;; mret tt
  | AttachmentStatusOf authorization a => api_getAttachmentStatus authorization a ;; mret tt
  | ConfirmAttachment authorization c a => api_confirmAttachment authorization c a ;; mret tt
  | PresignDownload authorization a => api_getPresignedDownloadUrl authorization a ;; mret tt
  | ListAttachments authorization c before limit =>
      api_listConversationAttachments authorization c before limit ;; mret tt
  | MembershipEvents authorization c => api_getMembershipEvents authorization c ;; mret tt
  | SocketConnect ns client h => connect ns client h ;; mret tt
  | ChatConnection client => dispatched ns_chat client (handleConnection client)
  | Disconnect client => handleDisconnect client
  | JoinConversation client c => dispatched ns_chat client (handleJoinConversation client c ;; mret tt)
  | LeaveRoom client c => dispatched ns_chat client (handleLeaveConversation client c ;; mret tt)
  | Send client payload => dispatched ns_chat client (handleSendMessage client payload ;; mret tt)
  | RunTask t => run_task t
  | SocketRead client c => dispatched ns_chat client (handleMarkConversationRead client c ;; mret tt)
  | Typing client c isTyping => dispatched ns_chat client (handleTypingPresence client c isTyping ;; mret tt)
  | AiConnection client => dispatched ns_ai client (ai_handleConnection client)
  | AiChat client c content => dispatched ns_ai client (handleAiChat client c content ;; mret tt)
  | AiSuggestions client c => dispatched ns_ai client (handleSuggestions client c ;; mret tt)
  end.

(** The states of a run: each operation starts where the one before it ended. *)
Inductive reachable `{Host} `{Mongo} (w0 : World) : World → Prop :=
  | reachable_start : reachable w0 w0
  | reachable_step w o : reachable w0 w → reachable w0 (run_op o w).2.

Lemma reachable_invariant `{Host} `{Mongo} (I : World → Prop) w0 w :
  (∀ o, preserves I (run_op o)) → I w0 → reachable w0 w → I w.
Proof. intros Hop Hstart. induction 1; [done|]. by apply Hop. Qed.

(** ** Proving an invariant of every operation *)

(** One step: the lemmas about operations, then the walk. *)
Ltac keep_step := first [ solve [auto with inv nocore] | inv_step ].
Ltac keep_solve := repeat keep_step.

(** Authentication writes accounts, sessions, attempts and the response only. *)
Section auth_ops.
Context `{Host} `{Mongo} (I : World → Prop) `{!ReadInvariant I} `{!Ignores I userModel}
  `{!Ignores I refreshSessionModel} `{!IgnoresAttempts I} `{!IgnoresHttp I}.

Lemma preserves_verifyRefresh t : preserves I (verifyRefreshToken t).
Proof. unfold verifyRefreshToken. keep_solve. Qed.
Lemma preserves_auth_findById i : preserves I (auth_findById i).
Proof. unfold auth_findById. keep_solve. Qed.
Lemma preserves_response u i : preserves I (buildRefreshSessionResponse u i).
Proof. unfold buildRefreshSessionResponse, signAccessToken, sign. keep_solve. Qed.
#[local] Hint Resolve preserves_verifyRefresh preserves_auth_findById preserves_response : inv.

Lemma preserves_issue u by_ : preserves I (issueTokenPair u by_).
Proof. unfold issueTokenPair, signRefreshToken, sign, session_save_new. keep_solve. Qed.
Lemma preserves_user_create u : preserves I (user_create u).
Proof. unfold user_create. keep_solve. Qed.
#[local] Hint Resolve preserves_issue preserves_user_create : inv.

Lemma preserves_register p : preserves I (registerLocalAccount p).
Proof. unfold registerLocalAccount. keep_solve. Qed.
Lemma preserves_login p : preserves I (loginLocalAccount p).
Proof. unfold loginLocalAccount. keep_solve. Qed.
Lemma preserves_refreshAccess t : preserves I (refreshAccessToken t).
Proof. unfold refreshAccessToken, refresh_failed. keep_solve. Qed.
Lemma preserves_revoke t : preserves I (revokeRefreshToken t).
Proof. unfold revokeRefreshToken. keep_solve. Qed.
Lemma preserves_upsert p : preserves I (upsertGoogleUser p).
Proof. unfold upsertGoogleUser. keep_solve. Qed.
Lemma preserves_cookie r : preserves I (getRefreshTokenFromRequest r).
Proof. unfold getRefreshTokenFromRequest. keep_solve. Qed.
Lemma preserves_redirect e : preserves I (buildFrontendRedirect e).
Proof. unfold buildFrontendRedirect. keep_solve. Qed.
Lemma preserves_session_user r u : preserves I (set_session_user r u).
Proof. unfold set_session_user. keep_solve. Qed.
Lemma preserves_searchUsers q u : preserves I (searchUsers q u).
Proof. unfold searchUsers. keep_solve. Qed.
#[local] Hint Resolve preserves_register preserves_login preserves_refreshAccess preserves_revoke
  preserves_upsert preserves_cookie preserves_redirect preserves_session_user
  preserves_searchUsers : inv.

(** The endpoints of [AuthController]. *)
Lemma preserves_auth_op o :
  match o with
  | Register _ _ | Login _ _ | Refresh _ | Logout _ | GoogleStart | GoogleValidate _
  | GoogleCallback _ | GoogleFailure | Me _ | SearchUsers _ _ => preserves I (run_op o)
  | _ => True
  end.
Proof.
  destruct o; try done; cbn [run_op];
    unfold registerLocal, loginLocal, refresh, logout, startGoogleLogin, google_validate,
      handleGoogleCallback, handleGoogleFailure, getCurrentUser, search_users, deliver_session,
      setRefreshCookie, clearRefreshCookie, redirect, google_attempt; keep_solve.
Qed.
End auth_ops.

(** What the handlers of the gateways share. *)
Section socket_ops.
Context `{Host} `{Mongo} (I : World → Prop).

Lemma preserves_getClientUser k : preserves I (getClientUser k).
Proof. unfold getClientUser. keep_solve. Qed.
Lemma preserves_dispatched ns k m : preserves I m → preserves I (dispatched ns k m).
Proof. intros Hm. unfold dispatched. keep_step; [apply preserves_gets|]. by case_match; keep_solve. Qed.
#[local] Hint Resolve preserves_getClientUser : inv.
Lemma preserves_ai_handler {A} `{!IgnoresEmitted I} k b m (body : SessionUser → M World A) :
  (∀ u, preserves I (body u)) → preserves I (ai_handler k b m body).
Proof.
  intros Hb. unfold ai_handler, emitError.
  apply preserves_bind; [apply preserves_getClientUser|intros u].
  apply preserves_try; [|intros ?; keep_solve].
  destruct (negb b); [keep_solve|]. apply preserves_bind; [done|intros ?; apply preserves_ret].
Qed.
End socket_ops.

#[export] Hint Resolve preserves_getClientUser : inv.
#[export] Hint Extern 0 (m_attachment _ = None) => reflexivity : inv.

(** An invariant is kept by every operation of the backend when authentication ignores it
    and the writes of the chat service keep it. *)
Class ChatInvariant `{Host} `{Mongo} (I : World → Prop) : Prop := {
  chat_readable :: ReadInvariant I;
  chat_emitted :: IgnoresEmitted I;
  chat_http :: IgnoresHttp I;
  chat_users :: Ignores I userModel;
  chat_sessions :: Ignores I refreshSessionModel;
  chat_attempts :: IgnoresAttempts I;
  chat_send c s t a ai : preserves I (sendMessage c s t a ai);
  chat_bot c s t : preserves I (sendAiBotMessage c s t);
  chat_moderation m r : preserves I (saveMessageModerationResult m r);
  chat_read c u : preserves I (markConversationRead c u);
  chat_create ty u ps title : preserves I (createConversation ty u ps title);
  (** Members are added, removed and let go on the request of a member of the conversation. *)
  chat_add c u a : preserves I (requireActiveParticipant c a ;; addMember c u a);
  chat_remove c u a : preserves I (requireAdminOrOwner c a ;; removeMember c u a);
  chat_left c u : preserves I (requireActiveParticipant c u ;; Chat.markConversationLeft c u);
  chat_upload u dto : preserves I (generatePresignedUploadUrl u dto);
  chat_mark c a u : preserves I (markAttachmentUploaded c a u);
}.

(** And what opens, closes or moves a socket keeps it. *)
Class SocketInvariant `{Host} `{Mongo} (I : World → Prop) : Prop := {
  socket_connect ns k h : preserves I (connect ns k h);
  socket_connection k : preserves I (dispatched ns_chat k (handleConnection k));
  socket_disconnect k : preserves I (handleDisconnect k);
  socket_join k c : preserves I (dispatched ns_chat k (handleJoinConversation k c ;; mret tt));
  socket_leave k c : preserves I (dispatched ns_chat k (handleLeaveConversation k c ;; mret tt));
  socket_ai_connection k : preserves I (dispatched ns_ai k (ai_handleConnection k));
}.

#[export] Instance socket_ignored `{Host} `{Mongo} I `{!ReadInvariant I} `{!IgnoresEmitted I}
  `{!IgnoresClients I} : SocketInvariant I.
Proof.
  split; intros; try apply preserves_dispatched.
  - unfold connect, authenticateSocketClient. keep_solve.
  - unfold handleConnection. keep_solve.
  - unfold handleDisconnect. keep_solve.
  - unfold handleJoinConversation, acknowledged. keep_solve.
  - unfold handleLeaveConversation. keep_solve.
  - unfold ai_handleConnection. keep_solve.
Qed.

Section run_op.
Context `{Host} `{Mongo} (I : World → Prop) `{!ChatInvariant I} `{!SocketInvariant I}.
#[local] Hint Resolve chat_send chat_bot chat_moderation chat_read chat_create chat_add chat_remove
  chat_left chat_upload chat_mark : inv.

Lemma preserves_deliver c u t a ai : preserves I (send_and_deliver c u t a ai).
Proof.
  unfold send_and_deliver, sendRealtimeMessage. keep_solve.
Qed.
#[local] Hint Resolve preserves_deliver : inv.

Lemma preserves_guarded {A} auth (handler : jsstring → M World A) :
  (∀ u, preserves I (handler u)) → preserves I (guarded auth handler).
Proof.
  intros Hh. unfold guarded. apply preserves_bind; [|intros ?; apply Hh]. keep_solve.
Qed.

Lemma preserves_run_op o : preserves I (run_op o).
Proof.
  pose proof (preserves_auth_op I o) as Hauth.
  destruct o; try exact Hauth; clear Hauth; cbn [run_op];
    try first [apply socket_connection|apply socket_disconnect|apply socket_join|apply socket_leave
              |apply socket_ai_connection|apply preserves_dispatched];
    try (apply preserves_bind; [|intros ?; apply preserves_ret]).
  1-16: apply preserves_guarded; intros ?; try solve [keep_solve].
  all: try solve [unfold leaveConversation, deleteConversationForUser; keep_solve].
  - apply socket_connect.
  - unfold handleSendMessage. keep_solve.
  - unfold run_task. keep_solve.
  - unfold handleMarkConversationRead, acknowledged. keep_solve.
  - unfold handleTypingPresence, acknowledged. keep_solve.
  - apply preserves_ai_handler; [apply _|intros ?]. keep_solve.
  - apply preserves_ai_handler; [apply _|intros ?]. keep_solve.
Qed.
End run_op.

(** ** What the operations do to messages and attachments *)

#[export] Instance attachments_ok_store : StoreInvariant attachments_ok.
Proof. intros w w' E. injection E as ??????. unfold attachments_ok. congruence. Qed.
#[export] Instance attachments_ok_user : Ignores attachments_ok userModel.
Proof. by intros f w. Qed.
#[export] Instance attachments_ok_session : Ignores attachments_ok refreshSessionModel.
Proof. by intros f w. Qed.
#[export] Instance attachments_ok_conversation : Ignores attachments_ok conversationModel.
Proof. by intros f w. Qed.
#[export] Instance attachments_ok_participant : Ignores attachments_ok participantModel.
Proof. by intros f w. Qed.
#[export] Instance attachments_ok_event : Ignores attachments_ok membershipEventModel.
Proof. by intros f w. Qed.

Section attachment_ops.
Context `{Host} `{!OidLaws} `{MongoLaws}.

Lemma attached_sendMessage c s content a ai : preserves attachments_ok (sendMessage c s content a ai).
Proof.
  intros w Hw. unfold attachments_ok in *. pose proof (sendMessage_cases c s content a ai w) as Hc.
  destruct (sendMessage c s content a ai w) as [[r|e|] w'].
  - destruct Hc as (c' & s' & me & att & st & t & t' & [Hcv Hsn _ Hatt _ Hm Hf Hms Hats _ _ _]).
    cbn [snd]. rewrite Hms, Hats. destruct att as [[i d]|].
    + destruct (given a); [|done]. destruct Hatt as (? & [= <-] & _ & [Hst Hac Hao Hup]).
      cbn [fst snd] in *. rewrite <-Hac, oid_parse_show in Hcv. rewrite <-Hao, oid_parse_show in Hsn.
      injection Hcv as <-. injection Hsn as <-.
      eapply attached_attach; try done; rewrite ?Hm; done || by rewrite Hup.
    + apply attached_insert_plain; [done|done|by rewrite Hm].
  - destruct Hc as [Hfr _]. injection Hfr as ???? Em ? Ea. cbn [snd]. by rewrite Em, Ea.
  - destruct Hc as [Hfr _]. injection Hfr as ???? Em ? Ea. cbn [snd]. by rewrite Em, Ea.
Qed.

(** Updates of messages that keep their attachment. *)
Lemma attached_updateMany q u :
  same_attachment u → preserves attachments_ok (model_updateMany messageModel q u).
Proof.
  intros Hu. apply preserves_modify. intros w Hw. unfold attachments_ok in *. cbn.
  eapply attached_update; [done|]. intros i. rewrite lookup_updateMany.
  exists (λ m, if q (i, m) then u m else m). split; [|done]. intros m. by destruct (q (i, m)).
Qed.
Lemma attached_updateOne q u :
  same_attachment u → preserves attachments_ok (model_updateOne messageModel q u).
Proof.
  intros Hu. apply preserves_modify. intros w Hw. unfold attachments_ok, updateOne in *. cbn.
  destruct (mg_findOne _ _) as [[j m']|]; [|done].
  eapply attached_update; [done|]. intros i. rewrite lookup_alter. case_decide as Hi.
  - subst j. by exists u.
  - exists (λ m, m). split; [done|]. by destruct (w_messages w !! i).
Qed.
Lemma attached_create m :
  m_attachment m = None → preserves attachments_ok (model_create messageModel m).
Proof.
  intros Hm. apply preserves_create; [apply _|]. intros w i Hw Hf. by apply attached_insert_plain.
Qed.
#[local] Hint Resolve attached_sendMessage attached_updateMany attached_updateOne attached_create : inv.

Lemma same_seen : same_attachment set_seen.
Proof. done. Qed.
Lemma same_moderation r : same_attachment (set_moderation r).
Proof. done. Qed.
#[local] Hint Resolve same_seen same_moderation : inv.

Lemma attached_upload u dto : preserves attachments_ok (generatePresignedUploadUrl u dto).
Proof.
  unfold generatePresignedUploadUrl, requireConversationId, requireObjectId, getBucketName,
    getSignedUrl, getS3Client, link_expiry.
  keep_solve. apply preserves_insert. intros w Hw Hf. by apply attached_draft.
Qed.

(** The outcomes of marking an attachment uploaded. *)
Lemma markAttachmentUploaded_cases c av u w :
  match markAttachmentUploaded c av u w with
  | (Ok r, w') => ∃ i a t,
      oid_parse av = Some i ∧ w_attachments w !! i = Some a
      ∧ oid_parse c = Some (ca_conversationId a) ∧ oid_show (ca_uploaderId a) = u
      ∧ ca_status a ≠ attached
      ∧ database w' = database (upd_attachments (alter (set_uploaded t) i) w)
      ∧ r = toAttachmentPayload (i, set_uploaded t a)
  | (_, w') => database w' = database w
  end.
Proof.
  unfold markAttachmentUploaded, requireConversationId, requireAttachmentId, requireObjectId,
    model_findById, findById, model_save, now, tick.
  destruct (oid_parse c) as [cid|]; [|done]. run_simpl. unfold mret, M_ret.
  destruct (oid_parse av) as [i|]; [|done]. cbn.
  pose proof (keeps_getRequired (λ w1, database w1 = database w) (oid_show cid) u w eq_refl) as Hr.
  destruct (getRequiredActiveParticipant (oid_show cid) u w) as [[p|e|] w1]; cbn in Hr |- *;
    [|done|done].
  injection Hr as ???????.
  destruct (w_attachments w1 !! i) as [a|] eqn:Ea; cbn; [|unfold database; congruence].
  case_bool_decide as H1'; cbn; [unfold database; congruence|].
  case_bool_decide as H2'; cbn; [unfold database; congruence|].
  case_bool_decide as H3'; cbn; [unfold database; congruence|].
  exists i, a, (clock (w_step w1)). split_and!; try done; unfold database; cbn; try congruence.
  apply oid_show_inj in H1'. congruence.
Qed.

Lemma attached_mark c a u : preserves attachments_ok (markAttachmentUploaded c a u).
Proof.
  intros w Hw. pose proof (markAttachmentUploaded_cases c a u w) as Hc.
  destruct (markAttachmentUploaded c a u w) as [[r|e|] w'];
    [|by apply (store_invariant w); [symmetry|]..].
  destruct Hc as (i & b & t & _ & Hi & _ & _ & Hst & Hd & _).
  apply (store_invariant _ _ (eq_sym Hd)), attached_uploaded; [done|].
  intros b' Hb'. by simplify_eq.
Qed.
#[local] Hint Resolve attached_upload attached_mark : inv.

#[local] Instance attachments_ok_attempts : IgnoresAttempts attachments_ok.
Proof. by intros f w. Qed.

#[local] Instance attachments_ok_chat : ChatInvariant attachments_ok.
Proof.
  split; try apply _; intros *; eauto with inv nocore.
  - unfold sendAiBotMessage, touch_conversation, incrementUnreadForOtherParticipants. keep_solve.
  - unfold saveMessageModerationResult. keep_solve.
  - unfold markConversationRead, latest_message. keep_solve.
  - unfold createConversation, existing_direct, findDirectConversation, new_conversation,
      model_insertMany. keep_solve.
    match goal with |- preserves _ (first_direct ?l _ _) => induction l end;
      cbn [first_direct]; keep_solve.
  - unfold addMember, record_event. keep_solve.
  - unfold removeMember, record_event. keep_solve.
  - unfold Chat.markConversationLeft, record_event. keep_solve.
Qed.

(** C15: In every state the backend reaches from an empty store by operations that run one
    after the other, each to its end, attachments and messages agree: an attachment is
    attached exactly when a message of its conversation, from its uploader, carries it, and
    no two messages carry the same attachment.  (Sends that interleave can break it:
    the race of AttachmentFacts.) *)
Theorem attachments_consistent w0 w :
  w_messages w0 = ∅ → w_attachments w0 = ∅ → reachable w0 w →
  attachments_ok w
  ∧ ∀ i j m n ma na, w_messages w !! i = Some m → w_messages w !! j = Some n →
      m_attachment m = Some ma → m_attachment n = Some na →
      ma_attachmentId ma = ma_attachmentId na → i = j.
Proof.
  intros Hm Ha Hr.
  assert (attachments_ok w) as Hok.
  { revert Hr. apply (reachable_invariant attachments_ok).
    2: { unfold attachments_ok. rewrite Hm, Ha. split; intros *; by rewrite lookup_empty. }
    intros o. apply preserves_run_op; apply _. }
  split; [done|]. intros i j m n ma na Hi Hj Hma Hna E.
  destruct (att_unique _ _ Hok i m ma Hi Hma) as (a & Hl & Hi').
  destruct (att_unique _ _ Hok j n na Hj Hna) as (b & Hl' & Hj'). congruence.
Qed.
End attachment_ops.
