(* ===== verification/UnreadFacts.v ===== *)
(** * Unread counters

    In every reachable state each participant belongs to a conversation of the store, and
    has at most as many unread messages as others have sent to it. *)

From S2P Require Import Prelude JsText Wire Driver Env Store Model Instance Encryption Auth AuthFacts AuthController Chat ChatSend ChatFacts Attachment Ai Gateway ChatController Invariants.
Open Scope Z_scope.

(** The messages of [c] that someone other than [u] sent. *)
Definition from_others (ms : collection Message) (c u : oid) : gset oid :=
  dom (filter (λ im : oid * Message, m_conversationId im.2 = c ∧ m_senderId im.2 ≠ u) ms).

Lemma elem_of_from_others ms c u i :
  i ∈ from_others ms c u
  ↔ ∃ m, ms !! i = Some m ∧ m_conversationId m = c ∧ m_senderId m ≠ u.
Proof.
  unfold from_others. rewrite elem_of_dom. unfold is_Some.
  setoid_rewrite map_lookup_filter_Some. simpl. naive_solver.
Qed.

(** How far messages may change: none disappears, and each keeps its sender and its
    conversation. *)
Definition messages_grow (ms ms' : collection Message) : Prop :=
  ∀ i m, ms !! i = Some m → ∃ m', ms' !! i = Some m'
    ∧ m_conversationId m' = m_conversationId m ∧ m_senderId m' = m_senderId m.

Lemma from_others_grow ms ms' c u :
  messages_grow ms ms' → from_others ms c u ⊆ from_others ms' c u.
Proof.
  intros Hg i (m & Hl & Hc & Hs)%elem_of_from_others.
  destruct (Hg i m Hl) as (m' & Hl' & Hc' & Hs'). apply elem_of_from_others.
  exists m'. split_and!; congruence.
Qed.

Lemma size_from_others_grow ms ms' c u :
  messages_grow ms ms' → (size (from_others ms c u) ≤ size (from_others ms' c u))%nat.
Proof. intros Hg. by apply subseteq_size, from_others_grow. Qed.

Lemma messages_grow_insert ms i m : ms !! i = None → messages_grow ms (<[i:=m]> ms).
Proof. intros Hi j n Hj. exists n. by rewrite lookup_insert_ne by congruence. Qed.

Lemma size_from_others_insert ms i m u :
  ms !! i = None → m_senderId m ≠ u →
  size (from_others (<[i:=m]> ms) (m_conversationId m) u)
  = S (size (from_others ms (m_conversationId m) u)).
Proof.
  intros Hi Hs.
  assert (from_others (<[i:=m]> ms) (m_conversationId m) u
          = {[i]} ∪ from_others ms (m_conversationId m) u) as ->.
  { apply set_eq. intros j. rewrite elem_of_union, elem_of_singleton, !elem_of_from_others.
    setoid_rewrite lookup_insert_Some. split.
    - intros (n & [[-> ->]|[Hne Hl]] & Hc & Hn); [by left|right; by exists n].
    - intros [->|(n & Hl & Hc & Hn)]; [by exists m; split; [left|]|].
      exists n. split; [right; split; [congruence|done]|done]. }
  rewrite size_union; [by rewrite size_singleton|].
  intros j ->%elem_of_singleton (n & Hl & _)%elem_of_from_others. congruence.
Qed.

Definition participant_ok (cs : collection Conversation) (ms : collection Message)
    (p : Participant) : Prop :=
  is_Some (cs !! p_conversationId p)
  ∧ 0 <= p_unreadCount p <= Z.of_nat (size (from_others ms (p_conversationId p) (p_userId p))).

Definition participants_ok (w : World) : Prop :=
  ∀ i p, w_participants w !! i = Some p →
    participant_ok (w_conversations w) (w_messages w) p.

(** Changes that keep the invariant: of the participant, of the messages, of the
    conversations. *)
Definition quiet (f : Participant → Participant) : Prop :=
  ∀ p, p_conversationId (f p) = p_conversationId p ∧ p_userId (f p) = p_userId p
       ∧ (p_unreadCount (f p) = p_unreadCount p ∨ p_unreadCount (f p) = 0).

Lemma participant_ok_quiet cs ms p f : quiet f → participant_ok cs ms p → participant_ok cs ms (f p).
Proof.
  intros Hf [Hc Hu]. destruct (Hf p) as (E1 & E2 & E3). unfold participant_ok.
  rewrite E1, E2. split; [done|]. destruct E3 as [->| ->]; lia.
Qed.

Lemma participant_ok_grow cs cs' ms ms' p :
  (∀ c, is_Some (cs !! c) → is_Some (cs' !! c)) → messages_grow ms ms' →
  participant_ok cs ms p → participant_ok cs' ms' p.
Proof.
  intros Hcs Hms [Hc Hu]. split; [by apply Hcs|].
  pose proof (size_from_others_grow ms ms' (p_conversationId p) (p_userId p) Hms). lia.
Qed.

Lemma quiet_id : quiet (λ p, p).
Proof. intros p. auto. Qed.
Lemma quiet_status st : quiet (set_status st).
Proof. intros p. simpl. auto. Qed.
Lemma quiet_gone st t : quiet (set_gone st t).
Proof. intros p. simpl. auto. Qed.
Lemma quiet_read m t : quiet (set_read m t).
Proof. intros p. simpl. auto. Qed.
Lemma quiet_zero : quiet (set_unread (λ _, 0)).
Proof. intros p. simpl. auto. Qed.
Lemma quiet_if (b : bool) f : quiet f → quiet (λ p, if b then f p else p).
Proof. destruct b; [done|intros _; apply quiet_id]. Qed.

#[export] Hint Resolve quiet_id quiet_status quiet_gone quiet_read quiet_zero : inv.

#[export] Instance participants_ok_store : StoreInvariant participants_ok.
Proof.
  intros w w' E. injection E as ??? Hc Hp Hm ??. unfold participants_ok. by rewrite Hc, Hp, Hm.
Qed.
#[export] Instance participants_ok_user : Ignores participants_ok userModel.
Proof. by intros f w. Qed.
#[export] Instance participants_ok_session : Ignores participants_ok refreshSessionModel.
Proof. by intros f w. Qed.
#[export] Instance participants_ok_event : Ignores participants_ok membershipEventModel.
Proof. by intros f w. Qed.
#[export] Instance participants_ok_attachment : Ignores participants_ok attachmentModel.
Proof. by intros f w. Qed.
#[export] Instance participants_ok_attempts : IgnoresAttempts participants_ok.
Proof. by intros f w. Qed.

(** Every participant of the new state is an old one, quietly changed. *)
Definition quietly (ps ps' : collection Participant) : Prop :=
  ∀ i, ∃ f, quiet f ∧ ps' !! i = f <$> ps !! i.

Lemma participants_ok_step w w' :
  quietly (w_participants w) (w_participants w') →
  (∀ c, is_Some (w_conversations w !! c) → is_Some (w_conversations w' !! c)) →
  messages_grow (w_messages w) (w_messages w') →
  participants_ok w → participants_ok w'.
Proof.
  intros Hps Hcs Hms Hok i p' Hp'. destruct (Hps i) as (f & Hf & E). rewrite Hp' in E.
  symmetry in E. apply fmap_Some in E as (p & Hp & ->).
  by eapply participant_ok_quiet, participant_ok_grow, Hok.
Qed.

Lemma messages_grow_refl ms : messages_grow ms ms.
Proof. intros i m Hl. by exists m. Qed.
Lemma quietly_refl ps : quietly ps ps.
Proof. intros i. exists (λ p, p). split; [apply quiet_id|]. by destruct (ps !! i). Qed.
#[export] Hint Resolve messages_grow_refl quietly_refl : inv.

Lemma quietly_alter f i ps : quiet f → quietly ps (alter f i ps).
Proof.
  intros Hf j. rewrite lookup_alter. case_decide as Hi.
  - subst j. by exists f.
  - exists (λ p, p). split; [apply quiet_id|]. by destruct (ps !! j).
Qed.
Lemma quietly_updateMany q f ps : quiet f → quietly ps (updateMany q f ps).
Proof.
  intros Hf j. rewrite lookup_updateMany.
  exists (λ p, if q (j, p) then f p else p). split; [|by destruct (ps !! j)].
  intros p. destruct (q (j, p)); [apply Hf|auto].
Qed.
Lemma grow_update ms ms' :
  (∀ i, ∃ u, same_attachment u ∧ ms' !! i = u <$> ms !! i) → messages_grow ms ms'.
Proof.
  intros Hu i m Hl. destruct (Hu i) as (u & Hs & E). rewrite Hl in E.
  exists (u m). destruct (Hs m) as (_ & -> & ->). by rewrite E.
Qed.

Section quiet_ops.
Context `{Host} `{MongoLaws}.

Lemma quietly_updateOne q f ps : quiet f → quietly ps (updateOne q f ps).
Proof.
  intros Hf. unfold updateOne. destruct (mg_findOne q ps) as [[i p]|]; [by apply quietly_alter|].
  apply quietly_refl.
Qed.

Lemma keep_participant_updateOne q f :
  quiet f → preserves participants_ok (model_updateOne participantModel q f).
Proof.
  intros Hf. apply preserves_modify. intros w.
  apply participants_ok_step; [by apply quietly_updateOne|done|apply messages_grow_refl].
Qed.
Lemma keep_message_updateMany q u :
  same_attachment u → preserves participants_ok (model_updateMany messageModel q u).
Proof.
  intros Hu. apply preserves_modify. intros w.
  apply participants_ok_step; [apply quietly_refl|done|].
  apply grow_update. intros i. cbn. rewrite lookup_updateMany.
  exists (λ m, if q (i, m) then u m else m). split; [|done]. intros m. by destruct (q (i, m)).
Qed.
Lemma keep_message_updateOne q u :
  same_attachment u → preserves participants_ok (model_updateOne messageModel q u).
Proof.
  intros Hu. apply preserves_modify. intros w.
  apply participants_ok_step; [apply quietly_refl|done|].
  apply grow_update. intros i. cbn. unfold updateOne.
  destruct (mg_findOne q _) as [[j m']|].
  - rewrite lookup_alter. case_decide as Hi; [subst j; by exists u|].
    exists (λ m, m). split; [done|]. by destruct (w_messages w !! i).
  - exists (λ m, m). split; [done|]. by destruct (w_messages w !! i).
Qed.
Lemma keep_conversation_updateOne q u :
  preserves participants_ok (model_updateOne conversationModel q u).
Proof.
  apply preserves_modify. intros w.
  apply participants_ok_step; [apply quietly_refl| |apply messages_grow_refl].
  intros c [cv Hc]. cbn. unfold updateOne. destruct (mg_findOne q _) as [[j cv']|]; [|by exists cv].
  rewrite lookup_alter. case_decide as Hj; [|by exists cv]. subst j. rewrite Hc. by eexists.
Qed.
Lemma keep_message_create m : preserves participants_ok (model_create messageModel m).
Proof.
  apply preserves_create; [apply _|]. intros w i Hw Hf. revert Hw.
  apply participants_ok_step; [apply quietly_refl|done|by apply messages_grow_insert].
Qed.
End quiet_ops.

(** A new message and the counters of the others, together. *)
Lemma count_new cs ms mi m c s ps i p' :
  ms !! mi = None → m_conversationId m = c → m_senderId m = s →
  (∀ i p, ps !! i = Some p → participant_ok cs ms p) →
  updateMany (others c s) (set_unread (λ n, n + 1)) ps !! i = Some p' →
  participant_ok cs (<[mi:=m]> ms) p'.
Proof.
  intros Hf <- <- Hok. rewrite lookup_updateMany. intros (p & Hp & ->)%fmap_Some.
  specialize (Hok i p Hp). destruct (others _ _ (i, p)) eqn:Eo.
  - destruct Hok as [Hc Hu]. split; [done|]. simpl.
    apply andb_true_iff in Eo as [[Ec Es]%andb_true_iff _].
    apply bool_decide_eq_true in Ec. apply negb_true_iff, bool_decide_eq_false in Es. simpl in Ec, Es.
    rewrite Ec in *. rewrite size_from_others_insert by (done || by intros <-). lia.
  - by eapply participant_ok_grow; [|by apply messages_grow_insert|].
Qed.

Section unread_ops.
Context `{Host} `{!OidLaws} `{MongoLaws}.

Lemma quietly_restore w c s : quietly (w_participants w) (restore_peers w c s).
Proof.
  unfold restore_peers. destruct (w_conversations w !! c) as [cv|]; [|apply quietly_refl].
  case_bool_decide; [|apply quietly_refl]. apply quietly_updateMany, quiet_status.
Qed.

Lemma ok_quietly cs ms ps ps' :
  quietly ps ps' → (∀ i p, ps !! i = Some p → participant_ok cs ms p) →
  ∀ i p, ps' !! i = Some p → participant_ok cs ms p.
Proof.
  intros Hq Hok i p' Hp'. destruct (Hq i) as (f & Hf & E). rewrite Hp' in E. symmetry in E.
  apply fmap_Some in E as (p & Hp & ->). by eapply participant_ok_quiet, Hok.
Qed.

Lemma unread_send c s t a ai : preserves participants_ok (sendMessage c s t a ai).
Proof.
  intros w Hw. pose proof (sendMessage_cases c s t a ai w) as Hc.
  destruct (sendMessage c s t a ai w) as [[r|e|] w'].
  2,3: destruct Hc as [Hfr Hps]; injection Hfr as ??? Ec Em ??; cbn [snd];
    revert Hw; apply participants_ok_step; rewrite ?Ec, ?Em; [|done|apply messages_grow_refl];
    destruct Hps as [Hp|(c' & _ & Hp)]; rewrite Hp; [apply quietly_refl|apply quietly_restore].
  destruct Hc as (c' & s' & me & att & st & ts & tc & [Hcv Hsn Hme Hatt Hst Hm Hf Hms Hats Hps Hcs _]).
  destruct Hcs as [updated Hcs]. cbn [snd]. intros i p Hp. rewrite Hps in Hp. rewrite Hcs, Hms.
  eapply participant_ok_grow; [|apply messages_grow_refl|].
  - intros d Hd. rewrite lookup_alter. case_decide; [|done]. subst. destruct Hd as [x Hx].
    rewrite Hx. by eexists.
  - eapply count_new; [exact Hf|by rewrite Hm|by rewrite Hm| |exact Hp].
    apply (ok_quietly _ _ (restore_peers w c' s)); [apply quietly_alter, quiet_read|].
    by apply (ok_quietly _ _ (w_participants w)); [apply quietly_restore|].
Qed.

(** A new message, the time of its conversation and the counters, before anything else. *)
Lemma create_touch_count {A} m t conversationId requesterId
    (k : doc Message → M World A) :
  oid_parse conversationId = Some (m_conversationId m) →
  oid_parse requesterId = Some (m_senderId m) →
  (∀ message, preserves participants_ok (k message)) →
  preserves participants_ok
    (message ← model_create messageModel m;
     touch_conversation (m_conversationId m) t ;;
     incrementUnreadForOtherParticipants conversationId requesterId ;;
     k message).
Proof.
  intros Hc Hs Hk w Hw. rewrite run_bind.
  destruct (model_create messageModel m w) as [[[mi m']|e|] w1] eqn:E.
  - apply run_create_Ok in E as (Hm & Hf & ->). cbn [fst snd] in Hm, Hf. subst m'.
    unfold touch_conversation, incrementUnreadForOtherParticipants, now, tick, model_updateOne,
      model_updateMany, parse_oid. rewrite Hc, Hs. run_simpl. unfold mret, M_ret. cbn [snd].
    apply Hk. intros i p Hp. cbn in Hp |- *. rewrite updateOne_has_id.
    eapply participant_ok_grow; [|apply messages_grow_refl|].
    + intros d [x Hd]. rewrite lookup_alter. case_decide; [|by exists x]. subst.
      rewrite Hd. by eexists.
    + by eapply count_new.
  - pose proof (keep_message_create m w Hw) as Hk'. by rewrite E in Hk'.
  - pose proof (keep_message_create m w Hw) as Hk'. by rewrite E in Hk'.
Qed.

Lemma unread_bot c s t : preserves participants_ok (sendAiBotMessage c s t).
Proof.
  unfold sendAiBotMessage. unfold parse_oid at 1 2. unfold or_throw.
  destruct (oid_parse c) as [c'|] eqn:Ec; [|apply preserves_throw].
  destruct (oid_parse s) as [s'|] eqn:Es; [|].
  2: { apply preserves_bind; [apply preserves_ret|intros ?; apply preserves_throw]. }
  do 2 (intros w Hw; rewrite run_bind; cbn [mret M_ret]; revert w Hw).
  apply preserves_bind; [keep_solve|intros sentAt].
  apply (create_touch_count (mkMessage c' s' t legacy None sentAt delivery_sent seen_sent None true
    false None None)); [done|done|]. intros message. keep_solve.
Qed.

(** A new participant has read everything, in a conversation that exists. *)
Lemma participants_ok_insert w i p :
  participants_ok w → is_Some (w_conversations w !! p_conversationId p) → p_unreadCount p = 0 →
  participants_ok (upd_participants <[i:=p]> w).
Proof.
  intros Hw Hc Hu j q Hq. cbn in Hq. apply lookup_insert_Some in Hq as [[_ <-]|[_ Hq]].
  - split; [done|]. rewrite Hu. cbn. lia.
  - by apply (Hw j).
Qed.

(** Relative to a conversation that exists. *)
Definition ok_with (c : oid) (w : World) : Prop :=
  participants_ok w ∧ is_Some (w_conversations w !! c).

Instance ok_with_store c : StoreInvariant (ok_with c).
Proof.
  intros w w' E [Hw Hc]. split; [by apply (store_invariant w)|].
  injection E as ???????. congruence.
Qed.
Instance ok_with_event c : Ignores (ok_with c) membershipEventModel.
Proof. by intros f w. Qed.

Lemma ok_with_create c p :
  p_conversationId p = c → p_unreadCount p = 0 →
  preserves (ok_with c) (model_create participantModel p).
Proof.
  intros <- Hu. apply preserves_create; [apply _|]. intros w i [Hw Hc] _. split; [|done].
  by apply participants_ok_insert.
Qed.

(** Running a part relative to a conversation. *)
Lemma ok_with_run {A} c (m : M World A) w :
  preserves (ok_with c) m → participants_ok w → is_Some (w_conversations w !! c) →
  participants_ok (m w).2.
Proof. intros Hm Hw Hc. by apply (Hm w). Qed.

Lemma ok_with_insertMany c ps :
  Forall (λ p, p_conversationId p = c ∧ p_unreadCount p = 0) ps →
  preserves (ok_with c) (model_insertMany participantModel ps).
Proof.
  unfold model_insertMany. induction 1 as [|p ps [Hc Hu] _ IH]; cbn [forM]; [apply preserves_ret|].
  apply preserves_bind; [by apply ok_with_create|intros ?]. keep_solve.
Qed.

Lemma unread_conversation_create cv : preserves participants_ok (model_create conversationModel cv).
Proof.
  apply preserves_create; [apply _|]. intros w i Hw _. revert Hw.
  apply participants_ok_step; [apply quietly_refl| |apply messages_grow_refl].
  intros c [x Hc]. cbn. destruct (decide (i = c)) as [->|Hi].
  - rewrite lookup_insert_eq. by eexists.
  - rewrite lookup_insert_ne by done. by exists x.
Qed.

Lemma unread_new ty u ps title : preserves participants_ok (new_conversation ty u ps title).
Proof.
  unfold new_conversation. keep_step; [keep_solve|]. keep_step; [keep_solve|].
  intros w Hw. rewrite run_bind.
  match goal with |- context [model_create conversationModel ?cv w] =>
    pose proof (unread_conversation_create cv w Hw) as Hcr;
    destruct (model_create conversationModel cv w) as [[[c cv']|e|] w1] eqn:E end;
    [|done|done].
  apply run_create_Ok in E as (_ & _ & ->). cbn [fst snd] in Hcr |- *.
  apply (ok_with_run c); [|done|cbn; by rewrite lookup_insert_eq]. cbv zeta.
  apply (preserves_bind_value _ (Forall (λ p, p_conversationId p = c ∧ p_unreadCount p = 0))).
  - keep_solve.
  - intros w2 docs w3. apply forM_values. intros uid w4 p w5 Ep.
    apply bind_Ok_inv in Ep as (x & w6 & _ & Ep). apply bind_Ok_inv in Ep as (y & w7 & _ & Ep).
    injection Ep as <- _. by split.
  - intros docs Hd. apply preserves_bind; [by apply ok_with_insertMany|intros ?].
    unfold model_insertMany. keep_solve.
Qed.

Lemma unread_add c u a :
  preserves participants_ok (requireActiveParticipant c a ;; addMember c u a).
Proof.
  intros w Hw. rewrite run_bind. unfold requireActiveParticipant. rewrite run_bind, run_getActive.
  destruct (oid_parse c) as [c'|] eqn:Ec; [|done]. destruct (oid_parse a) as [a'|] eqn:Ea; [|done].
  destruct (mg_findOne _ _) as [[i p]|] eqn:Ef; cbn [or_throw mret M_ret throw]; [|done].
  apply findOne_Some in Ef as [Hp Hq].
  assert (is_Some (w_conversations w !! c')) as Hc.
  { apply andb_true_iff in Hq as [[Hq _]%andb_true_iff _]. apply bool_decide_eq_true in Hq.
    rewrite <-Hq. apply (Hw i p Hp). }
  apply (ok_with_run c'); [|done|done].
  unfold addMember. apply (preserves_bind_value _ (λ x, x = c')); [keep_solve| |intros ? ->].
  { intros w1 x w2 E. unfold parse_oid in E. rewrite Ec in E. by injection E as <-. }
  unfold record_event. keep_solve. by apply ok_with_create.
Qed.

Lemma unread_create ty u ps title : preserves participants_ok (createConversation ty u ps title).
Proof.
  unfold createConversation, existing_direct, findDirectConversation.
  keep_solve; try apply unread_new.
  match goal with |- preserves _ (first_direct ?l _ _) => induction l end;
    cbn [first_direct]; keep_solve.
Qed.

Lemma unread_upload u dto : preserves participants_ok (generatePresignedUploadUrl u dto).
Proof.
  unfold generatePresignedUploadUrl, requireConversationId, requireObjectId, getBucketName,
    getSignedUrl, getS3Client, link_expiry. keep_solve.
Qed.
Lemma unread_mark c a u : preserves participants_ok (markAttachmentUploaded c a u).
Proof. unfold markAttachmentUploaded, requireConversationId, requireAttachmentId, requireObjectId. keep_solve. Qed.
#[local] Hint Resolve keep_participant_updateOne keep_message_updateOne keep_message_updateMany
  keep_conversation_updateOne unread_send unread_bot unread_create unread_add unread_upload
  unread_mark : inv.
#[local] Hint Extern 0 (same_attachment _) => done : inv.

#[local] Instance participants_ok_chat : ChatInvariant participants_ok.
Proof.
  split; try apply _; intros *; auto with inv nocore.
  - unfold saveMessageModerationResult. keep_solve.
  - unfold markConversationRead, latest_message. keep_solve.
  - unfold removeMember, record_event. keep_solve.
  - unfold Chat.markConversationLeft, record_event. keep_solve.
Qed.

(** C16: in every state the backend reaches from an empty store, each participant belongs to
    a conversation that exists, and its unread counter is neither negative nor larger than
    the number of messages that others have sent to the conversation. *)
Theorem unread_bounded w0 w i p :
  w_participants w0 = ∅ → reachable w0 w → w_participants w !! i = Some p →
  is_Some (w_conversations w !! p_conversationId p)
  ∧ 0 <= p_unreadCount p
    <= Z.of_nat (size (from_others (w_messages w) (p_conversationId p) (p_userId p))).
Proof.
  intros Hp0 Hr. revert i p. change (participants_ok w). revert Hr.
  apply (reachable_invariant participants_ok).
  - intros o. apply preserves_run_op; apply _.
  - intros j q. by rewrite Hp0, lookup_empty.
Qed.
End unread_ops.

(** ** Witnesses *)

#[local] Instance demo_host_inst : Host := demo_host demo_env.
#[local] Instance demo_mongo_inst : Mongo := list_mongo.
#[local] Instance demo_laws_inst : MongoLaws := list_mongo_laws.
#[local] Instance demo_oids_inst : OidLaws := demo_oid_laws demo_env.

(** A user registers and opens a group. *)
Definition demo_request : Request := mkReq None None None true None.
Definition demo_registration : Op := Register demo_reg demo_request.
Definition demo_auth : option jsstring :=
  match (registerLocal demo_reg demo_request empty_world).1 with
  | Ok r => Some (bearer ++ rsp_accessToken r)
  | _ => None
  end.
Definition demo_creation : Op :=
  CreateConversation demo_auth (mkCreateDto group (Some (js "team")) []).
Definition demo_group : World := (run_op demo_creation (run_op demo_registration empty_world).2).2.

Lemma demo_group_reachable : reachable empty_world demo_group.
Proof. do 2 apply reachable_step. apply reachable_start. Qed.

Lemma unread_bounded_witness :
  ∃ i p, w_participants demo_group !! i = Some p
    ∧ is_Some (w_conversations demo_group !! p_conversationId p)
    ∧ 0 <= p_unreadCount p
      <= Z.of_nat (size (from_others (w_messages demo_group) (p_conversationId p) (p_userId p))).
Proof.
  destruct (map_to_list (w_participants demo_group)) as [|[i p] l] eqn:E; [by vm_compute in E|].
  assert (w_participants demo_group !! i = Some p) as Hp.
  { apply elem_of_map_to_list. rewrite E. by left. }
  exists i, p. split; [done|].
  by apply (unread_bounded empty_world demo_group i p eq_refl demo_group_reachable).
Defined.

(** The user sends two files, and sends the first one again. *)
Definition demo_room : jsstring := oid_show (Oid 1011).
Definition demo_image (name : jsstring) : Op :=
  PresignUpload demo_auth (mkUploadDto demo_room name (js "image/png") (num 2048)).
Definition demo_filing : list Op :=
  [demo_image (js "a.png"); MarkUploaded demo_auth demo_room (oid_show (Oid 1018));
   ConfirmAttachment demo_auth demo_room (Some (oid_show (Oid 1018)));
   demo_image (js "b.png"); MarkUploaded demo_auth demo_room (oid_show (Oid 1033));
   ConfirmAttachment demo_auth demo_room (Some (oid_show (Oid 1033)));
   ConfirmAttachment demo_auth demo_room (Some (oid_show (Oid 1018)))].
Definition demo_filed : World := foldl (λ w o, (run_op o w).2) demo_group demo_filing.

Lemma demo_filed_reachable : reachable empty_world demo_filed.
Proof.
  unfold demo_filed. generalize demo_filing as ops. intros ops.
  induction ops as [|o ops IH] using rev_ind; [exact demo_group_reachable|].
  rewrite foldl_snoc. by apply reachable_step.
Qed.

(** The files that messages carry. *)
Definition carried (w : World) : list oid :=
  omap (λ x : doc Message, ma_attachmentId <$> m_attachment x.2) (map_to_list (w_messages w)).

Lemma attachments_consistent_witness :
  size (w_messages demo_filed) = 2%nat ∧ carried demo_filed ≡ₚ [Oid 1018; Oid 1033] ∧
  attachments_ok demo_filed ∧
  ∀ i j m n ma na, w_messages demo_filed !! i = Some m → w_messages demo_filed !! j = Some n →
    m_attachment m = Some ma → m_attachment n = Some na →
    ma_attachmentId ma = ma_attachmentId na → i = j.
Proof.
  split; [vm_compute; reflexivity|]. split.
  - apply (bool_decide_eq_true_1 _). vm_compute. reflexivity.
  - by apply (attachments_consistent empty_world demo_filed eq_refl eq_refl demo_filed_reachable).
Defined.
