(* ===== verification/StoreFacts.v ===== *)
(** * The references of the store

    A database of documents has no foreign keys; the services keep them.  [skeleton] keeps of
    a state what refers to what, [well_typed] says that every reference resolves, and every
    operation of the backend preserves it: an update moves nothing of the skeleton, and an
    insertion is well typed in the skeleton that the checks before it have established. *)

From S2P Require Import Prelude JsText Wire Driver Env Store Model Instance Encryption Auth AuthFacts AuthController Chat ChatSend ChatFacts Attachment Ai Gateway ChatController Invariants UnreadFacts.
Open Scope Z_scope.

(** ** The skeleton of a state *)

(** What each document refers to: a participant its conversation and user; a message its
    conversation, its sender and whether the assistant wrote it; an attachment its
    conversation and uploader; an event everything. *)
Definition participant_refs (p : Participant) : oid * oid := (p_conversationId p, p_userId p).
Definition message_refs (m : Message) : oid * oid * bool :=
  (m_conversationId m, m_senderId m, m_isAIBotMessage m).
Definition attachment_refs (a : ChatAttachment) : oid * oid := (ca_conversationId a, ca_uploaderId a).

Record Skeleton := mkSkeleton {
  sk_conversations : gset oid;
  sk_participants : gmap oid (oid * oid);
  sk_messages : gmap oid (oid * oid * bool);
  sk_events : collection MembershipEvent;
  sk_attachments : gmap oid (oid * oid);
}.

Definition skeleton (w : World) : Skeleton :=
  mkSkeleton (dom (w_conversations w)) (participant_refs <$> w_participants w)
    (message_refs <$> w_messages w) (w_events w) (attachment_refs <$> w_attachments w).

(** The user takes or took part in the conversation. *)
Definition took_part (s : Skeleton) (cu : oid * oid) : Prop :=
  ∃ i, sk_participants s !! i = Some cu.

(** An event of another type than [removed] is about somebody who took part, and whoever is
    named as the one who acted did. *)
Definition event_typed (s : Skeleton) (e : MembershipEvent) : Prop :=
  me_conversationId e ∈ sk_conversations s ∧
  (me_type e = ev_removed ∨ took_part s (me_conversationId e, me_targetUserId e)) ∧
  ∀ actor, me_actorUserId e = Some actor → took_part s (me_conversationId e, actor).

Record well_typed (s : Skeleton) : Prop := {
  wt_participant i c u : sk_participants s !! i = Some (c, u) → c ∈ sk_conversations s;
  wt_message i c u : sk_messages s !! i = Some (c, u, false) → took_part s (c, u);
  wt_event i e : sk_events s !! i = Some e → event_typed s e;
  wt_attachment i cu : sk_attachments s !! i = Some cu → took_part s cu;
}.

(** Nothing is taken away. *)
Record extends (s s' : Skeleton) : Prop := {
  ext_conversations : sk_conversations s ⊆ sk_conversations s';
  ext_participants : sk_participants s ⊆ sk_participants s';
}.

Lemma took_part_extends s s' cu : extends s s' → took_part s cu → took_part s' cu.
Proof. intros He [i Hi]. exists i. by eapply lookup_weaken, ext_participants. Qed.

Lemma event_extends s s' e : extends s s' → event_typed s e → event_typed s' e.
Proof.
  intros He (Hc & Ht & Ha). split_and!.
  - by apply (ext_conversations _ _ He).
  - destruct Ht; [by left|right]. by eapply took_part_extends.
  - intros a Ea. by eapply took_part_extends, Ha.
Qed.

(** ** The invariant, with what is known at a point of a handler *)

(** The store is well typed, and the conversations [cs] and the memberships [us] are in it. *)
Definition refs (cs : list oid) (us : list (oid * oid)) (w : World) : Prop :=
  well_typed (skeleton w) ∧ Forall (λ c, c ∈ sk_conversations (skeleton w)) cs
  ∧ Forall (took_part (skeleton w)) us.

Lemma refs_same cs us w w' : skeleton w' = skeleton w → refs cs us w → refs cs us w'.
Proof. unfold refs. by intros ->. Qed.

Lemma refs_extends cs us w w' :
  extends (skeleton w) (skeleton w') → well_typed (skeleton w') → refs cs us w → refs cs us w'.
Proof.
  intros He Hw (_ & Hc & Hu). split_and!; [done| |].
  - eapply Forall_impl; [exact Hc|]. intros c. apply (ext_conversations _ _ He).
  - eapply Forall_impl; [exact Hu|]. intros cu. by apply took_part_extends.
Qed.

(** More that is known, and forgetting it. *)
Lemma refs_know cs us cs' us' w :
  refs (cs' ++ cs) (us' ++ us) w ↔
  refs cs us w ∧ Forall (λ c, c ∈ sk_conversations (skeleton w)) cs'
  ∧ Forall (took_part (skeleton w)) us'.
Proof. unfold refs. rewrite !Forall_app. tauto. Qed.

Section insertions.
Context (cs : list oid) (us : list (oid * oid)) (w : World).

Lemma refs_new_conversation i c : refs cs us w → w_conversations w !! i = None →
  refs (i :: cs) us (upd_conversations <[i := c]> w).
Proof.
  intros Hw Hi. assert (extends (skeleton w) (skeleton (upd_conversations <[i := c]> w))) as He.
  { split; [|done]. cbn. rewrite dom_insert_L. set_solver. }
  apply (refs_know cs us [i] []). split_and!; [|constructor; [|constructor]|constructor].
  2: { cbn. rewrite dom_insert_L. set_solver. }
  eapply refs_extends; [exact He| |exact Hw]. destruct Hw as [[Hp Hm Hev Ha] _]. split.
  - intros j c' u Hj. by apply (ext_conversations _ _ He), (Hp j c' u).
  - intros j c' u Hj. eapply took_part_extends, Hm; done.
  - intros j e Hj. eapply event_extends, Hev; done.
  - intros j cu Hj. eapply took_part_extends, Ha; done.
Qed.

Lemma refs_new_participant i p : refs cs us w → w_participants w !! i = None →
  p_conversationId p ∈ cs →
  refs cs (participant_refs p :: us) (upd_participants <[i := p]> w).
Proof.
  intros Hw Hi Hin.
  assert (extends (skeleton w) (skeleton (upd_participants <[i := p]> w))) as He.
  { split; [done|]. cbn. rewrite fmap_insert. apply insert_subseteq. by rewrite lookup_fmap, Hi. }
  assert (took_part (skeleton (upd_participants <[i := p]> w)) (participant_refs p)) as Ht.
  { exists i. cbn. by rewrite fmap_insert, lookup_insert_eq. }
  apply (refs_know cs us [] [participant_refs p]). split_and!; [|constructor|by constructor].
  eapply refs_extends; [exact He| |exact Hw]. destruct Hw as ([Hp Hm Hev Ha] & Hc & _). split.
  - intros j c u Hj. cbn in Hj |- *. rewrite fmap_insert in Hj.
    apply lookup_insert_Some in Hj as [[_ [= <- <-]]|[_ Hj]]; [|by apply (Hp j c u)].
    rewrite Forall_forall in Hc. by apply Hc.
  - intros j c u Hj. eapply took_part_extends, Hm; done.
  - intros j e Hj. eapply event_extends, Hev; done.
  - intros j cu Hj. eapply took_part_extends, Ha; done.
Qed.

Lemma refs_new_message i m : refs cs us w → w_messages w !! i = None →
  m_isAIBotMessage m = true ∨ (m_conversationId m, m_senderId m) ∈ us →
  refs cs us (upd_messages <[i := m]> w).
Proof.
  intros Hw Hi Hm. apply (refs_extends _ _ w); [by split| |exact Hw].
  destruct Hw as ([Hp Hms Hev Ha] & _ & Hu). split; [done| |done|done].
  intros j c u Hj. cbn in Hj. rewrite fmap_insert in Hj.
  apply lookup_insert_Some in Hj as [[_ E]|[_ Hj]]; [|by apply (Hms j)].
  unfold message_refs in E. injection E as <- <- Eb. destruct Hm as [Hm|Hm]; [congruence|].
  rewrite Forall_forall in Hu. by apply Hu.
Qed.

Definition event_known (e : MembershipEvent) : Prop :=
  me_conversationId e ∈ cs ∧
  (me_type e = ev_removed ∨ (me_conversationId e, me_targetUserId e) ∈ us) ∧
  ∀ actor, me_actorUserId e = Some actor → (me_conversationId e, actor) ∈ us.

Lemma refs_new_event i e : refs cs us w → w_events w !! i = None → event_known e →
  refs cs us (upd_events <[i := e]> w).
Proof.
  intros Hw Hi (Hc & Ht & Ha). apply (refs_extends _ _ w); [by split| |exact Hw].
  destruct Hw as ([Hp Hms Hev Hat] & Hcs & Hus). rewrite Forall_forall in Hcs; rewrite Forall_forall in Hus.
  split; [done|done| |done]. intros j e' Hj. cbn in Hj.
  apply lookup_insert_Some in Hj as [[_ <-]|[_ Hj]]; [|by apply (Hev j)].
  split_and!; [by apply Hcs| |].
  - destruct Ht; [by left|right]. by apply Hus.
  - intros a Ea. by apply Hus, Ha.
Qed.

Lemma refs_new_attachment i a : refs cs us w → w_attachments w !! i = None →
  attachment_refs a ∈ us → refs cs us (upd_attachments <[i := a]> w).
Proof.
  intros Hw Hi Hin. apply (refs_extends _ _ w); [by split| |exact Hw].
  destruct Hw as ([Hp Hms Hev Hat] & _ & Hus). rewrite Forall_forall in Hus.
  split; [done|done|done|]. intros j cu Hj. cbn in Hj. rewrite fmap_insert in Hj.
  apply lookup_insert_Some in Hj as [[_ <-]|[_ Hj]]; [by apply Hus|by apply (Hat j)].
Qed.
End insertions.

(** ** Updates leave the skeleton alone *)

Lemma fmap_updateMany {D K} (key : D → K) q (f : D → D) (c : collection D) :
  (∀ d, key (f d) = key d) → key <$> updateMany q f c = key <$> c.
Proof.
  intros Hf. apply map_eq. intros i. rewrite !lookup_fmap, lookup_updateMany.
  destruct (c !! i) as [d|]; [|done]. cbn. by destruct (q (i, d)); rewrite ?Hf.
Qed.
Lemma fmap_alter_key {D K} (key : D → K) i (f : D → D) (c : collection D) :
  (∀ d, key (f d) = key d) → key <$> alter f i c = key <$> c.
Proof.
  intros Hf. apply map_eq. intros j. rewrite !lookup_fmap, lookup_alter.
  case_decide; [|done]. subst j. destruct (c !! i) as [d|]; [|done]. cbn. by rewrite Hf.
Qed.
Lemma fmap_updateOne `{Mongo} {D K} (key : D → K) q (f : D → D) (c : collection D) :
  (∀ d, key (f d) = key d) → key <$> updateOne q f c = key <$> c.
Proof. intros Hf. unfold updateOne. destruct (mg_findOne q c) as [[i d]|]; [by apply fmap_alter_key|done]. Qed.
Lemma dom_updateOne `{Mongo} {D} q (f : D → D) (c : collection D) : dom (updateOne q f c) = dom c.
Proof. unfold updateOne. destruct (mg_findOne q c) as [[i d]|]; [apply dom_alter_L|done]. Qed.

#[export] Instance refs_store cs us : StoreInvariant (refs cs us).
Proof.
  intros w w' E. apply refs_same. injection E as ??? Ec Ep Em Ee Ea.
  unfold skeleton. by rewrite Ec, Ep, Em, Ee, Ea.
Qed.
#[export] Instance refs_user cs us : Ignores (refs cs us) userModel.
Proof. by intros f w. Qed.
#[export] Instance refs_session cs us : Ignores (refs cs us) refreshSessionModel.
Proof. by intros f w. Qed.
#[export] Instance refs_attempts cs us : IgnoresAttempts (refs cs us).
Proof. by intros f w. Qed.

Section updates.
Context `{Host} `{Mongo} (cs : list oid) (us : list (oid * oid)).

Lemma refs_participant_updateOne q f : (∀ p, participant_refs (f p) = participant_refs p) →
  preserves (refs cs us) (model_updateOne participantModel q f).
Proof.
  intros Hf. apply preserves_modify. intros w. apply refs_same. unfold skeleton. cbn.
  by rewrite fmap_updateOne.
Qed.
Lemma refs_participant_updateMany q f : (∀ p, participant_refs (f p) = participant_refs p) →
  preserves (refs cs us) (model_updateMany participantModel q f).
Proof.
  intros Hf. apply preserves_modify. intros w. apply refs_same. unfold skeleton. cbn.
  by rewrite fmap_updateMany.
Qed.
Lemma refs_message_updateOne q f : (∀ m, message_refs (f m) = message_refs m) →
  preserves (refs cs us) (model_updateOne messageModel q f).
Proof.
  intros Hf. apply preserves_modify. intros w. apply refs_same. unfold skeleton. cbn.
  by rewrite fmap_updateOne.
Qed.
Lemma refs_message_updateMany q f : (∀ m, message_refs (f m) = message_refs m) →
  preserves (refs cs us) (model_updateMany messageModel q f).
Proof.
  intros Hf. apply preserves_modify. intros w. apply refs_same. unfold skeleton. cbn.
  by rewrite fmap_updateMany.
Qed.
Lemma refs_conversation_updateOne q f : preserves (refs cs us) (model_updateOne conversationModel q f).
Proof.
  apply preserves_modify. intros w. apply refs_same. unfold skeleton. cbn. by rewrite dom_updateOne.
Qed.
Lemma refs_attachment_save i f : (∀ a, attachment_refs (f a) = attachment_refs a) →
  preserves (refs cs us) (model_save attachmentModel i f).
Proof.
  intros Hf. apply preserves_modify. intros w. apply refs_same. unfold skeleton. cbn.
  by rewrite fmap_alter_key.
Qed.
Lemma refs_event_create e : event_known cs us e → preserves (refs cs us) (model_create membershipEventModel e).
Proof. intros He. apply preserves_create; [apply _|]. intros w i Hw Hi. by apply refs_new_event. Qed.
Lemma refs_message_create m :
  m_isAIBotMessage m = true ∨ (m_conversationId m, m_senderId m) ∈ us →
  preserves (refs cs us) (model_create messageModel m).
Proof. intros Hm. apply preserves_create; [apply _|]. intros w i Hw Hi. by apply refs_new_message. Qed.
Lemma refs_attachment_insert i a : attachment_refs a ∈ us →
  preserves (refs cs us) (model_insert attachmentModel i a).
Proof. intros Ha. apply preserves_insert. intros w Hw Hi. by apply refs_new_attachment. Qed.
End updates.

#[export] Hint Resolve refs_participant_updateOne refs_participant_updateMany refs_message_updateOne
  refs_message_updateMany refs_conversation_updateOne refs_attachment_save : inv.
#[export] Hint Extern 0 (∀ d, participant_refs _ = _) => reflexivity : inv.
#[export] Hint Extern 0 (∀ d, message_refs _ = _) => reflexivity : inv.
#[export] Hint Extern 0 (∀ d, attachment_refs _ = _) => reflexivity : inv.

(** ** What a handler learns *)

Section learning.
Context `{Host} `{!OidLaws} `{MongoLaws}.

Lemma preserves_parse {A} (I : World → Prop) s (k : oid → M World A) :
  (∀ x, oid_parse s = Some x → preserves I (k x)) → preserves I (parse_oid s ≫= k).
Proof.
  intros Hk w Hw. unfold parse_oid. destruct (oid_parse s) as [x|]; [|done]. by apply Hk.
Qed.

Lemma preserves_assoc {A B C} (I : World → Prop) (m : M World A) (f : A → M World B) (k : B → M World C) :
  preserves I (m ≫= λ a, f a ≫= k) → preserves I ((m ≫= f) ≫= k).
Proof.
  intros Hm w Hw. specialize (Hm w Hw). revert Hm. unfold mbind, M_bind.
  by destruct (m w) as [[a|e|] w'].
Qed.

(** Knowing more for the rest of a handler. *)
Lemma refs_learn {A B} cs us cs' us' (m : M World A) (k : A → M World B) :
  preserves (refs cs us) m →
  (∀ w a w', refs cs us w → m w = (Ok a, w') → refs (cs' a ++ cs) (us' a ++ us) w') →
  (∀ a, preserves (refs (cs' a ++ cs) (us' a ++ us)) (k a)) →
  preserves (refs cs us) (m ≫= k).
Proof.
  intros Hm Hl Hk w Hw. rewrite run_bind. specialize (Hm w Hw).
  destruct (m w) as [[a|e|] w'] eqn:E; [|done|done].
  apply (refs_know cs us (cs' a) (us' a)). apply Hk. by eapply Hl.
Qed.

(** An active participant was found. *)
Lemma found_took_part cs us c u i p w : refs cs us w →
  mg_findOne (active_participant c u) (w_participants w) = Some (i, p) →
  refs (c :: cs) ((c, u) :: us) w.
Proof.
  intros Hw Hf. apply findOne_Some in Hf as [Hi Ha].
  unfold active_participant, in_conversation in Ha.
  apply andb_true_iff in Ha as [[Hc Hu]%andb_true_iff _].
  apply bool_decide_eq_true in Hc, Hu. cbn in Hc, Hu.
  assert (sk_participants (skeleton w) !! i = Some (c, u)) as Hs.
  { cbn. rewrite lookup_fmap, Hi. cbn. unfold participant_refs. by rewrite Hc, Hu. }
  apply (refs_know cs us [c] [(c, u)]). split_and!; [done| |constructor; [by exists i|constructor]].
  constructor; [|constructor]. by eapply (wt_participant _ (proj1 Hw)).
Qed.

Lemma refs_guard {A} cs us c u (k : doc Participant → M World A) :
  (∀ c' u' p, oid_parse c = Some c' → oid_parse u = Some u' →
    preserves (refs (c' :: cs) ((c', u') :: us)) (k p)) →
  preserves (refs cs us) (requireActiveParticipant c u ≫= k).
Proof.
  intros Hk w Hw. rewrite run_bind. unfold requireActiveParticipant. rewrite run_bind, run_getActive.
  destruct (oid_parse c) as [c'|] eqn:Ec; [|done]. destruct (oid_parse u) as [u'|] eqn:Eu; [|done].
  destruct (mg_findOne _ _) as [[i p]|] eqn:Ef; cbn [or_throw mret M_ret throw]; [|done].
  apply (refs_know cs us [c'] [(c', u')]). apply (Hk c' u' (i, p) eq_refl eq_refl).
  by eapply found_took_part.
Qed.

Lemma refs_guard_admin {A} cs us c u (k : ParticipantRole → M World A) :
  (∀ c' u' r, oid_parse c = Some c' → oid_parse u = Some u' →
    preserves (refs (c' :: cs) ((c', u') :: us)) (k r)) →
  preserves (refs cs us) (requireAdminOrOwner c u ≫= k).
Proof.
  intros Hk w Hw. rewrite run_bind. unfold requireAdminOrOwner, getParticipantRole.
  rewrite !run_bind, run_getActive.
  destruct (oid_parse c) as [c'|] eqn:Ec; [|done]. destruct (oid_parse u) as [u'|] eqn:Eu; [|done].
  destruct (mg_findOne _ _) as [[i p]|] eqn:Ef; cbn; [|done].
  assert (∀ r, refs cs us (k r w).2) as Hr.
  { intros r. apply (refs_know cs us [c'] [(c', u')]). apply (Hk c' u' r eq_refl eq_refl).
    by eapply found_took_part. }
  destruct (p_role p); try apply Hr; done.
Qed.

(** A new participant took part from then on, a new conversation exists. *)
Lemma refs_join {A} cs us p (k : doc Participant → M World A) :
  p_conversationId p ∈ cs →
  (∀ d, preserves (refs cs (participant_refs p :: us)) (k d)) →
  preserves (refs cs us) (model_create participantModel p ≫= k).
Proof.
  intros Hc Hk. assert (preserves (refs cs us) (model_create participantModel p)) as Hp.
  { apply preserves_create; [apply _|]. intros w i Hw Hi.
    by apply (refs_know cs us [] [participant_refs p]), refs_new_participant. }
  apply (refs_learn cs us (λ _, []) (λ _, [participant_refs p])); [done| |done].
  intros w d w' Hw E. apply run_create_Ok in E as (_ & Hf & ->).
  apply refs_new_participant; [|done|done]. by apply (store_invariant w).
Qed.

Lemma refs_open {A} cs us cv (k : doc Conversation → M World A) :
  (∀ d, preserves (refs (d.1 :: cs) us) (k d)) →
  preserves (refs cs us) (model_create conversationModel cv ≫= k).
Proof.
  intros Hk. assert (preserves (refs cs us) (model_create conversationModel cv)) as Hp.
  { apply preserves_create; [apply _|]. intros w i Hw Hi.
    by apply (refs_know cs us [i] []), refs_new_conversation. }
  apply (refs_learn cs us (λ d, [d.1]) (λ _, [])); [done| |done].
  intros w d w' Hw E. apply run_create_Ok in E as (_ & Hf & ->).
  apply refs_new_conversation; [|done]. by apply (store_invariant w).
Qed.
End learning.

(** ** The operations *)

Section operations.
Context `{Host} `{!OidLaws} `{MongoLaws}.

Lemma refs_sendMessage c s t a ai : preserves (refs [] []) (sendMessage c s t a ai).
Proof.
  intros w Hw. pose proof (sendMessage_cases c s t a ai w) as Hc.
  assert (∀ c', participant_refs <$> restore_peers w c' s = participant_refs <$> w_participants w) as Hr.
  { intros c'. unfold restore_peers. destruct (w_conversations w !! c') as [cv|]; [|done].
    case_bool_decide; [|done]. by apply fmap_updateMany. }
  destruct (sendMessage c s t a ai w) as [[r|e|] w']; cbn [snd].
  2,3: destruct Hc as [Hfr Hps]; injection Hfr as ??? Ec Em Ee Ea; revert Hw; apply refs_same;
    unfold skeleton; rewrite Ec, Em, Ee, Ea;
    destruct Hps as [->|(c' & _ & ->)]; by rewrite ?Hr.
  destruct Hc as (c' & s' & [mi me] & att & st & ts & tc &
    [Hcv Hsn Hme Hatt Hst Hm Hf Hms Hats Hps [updated Hcs] Hfr]).
  pose proof (found_took_part [] [] c' s' mi me w Hw Hme) as Hw1.
  apply (refs_new_message [c'] [(c', s')] w (sr_message r).1 (sr_message r).2) in Hw1; [|exact Hf|].
  2: { right. rewrite Hm. by left. }
  apply (refs_know [] [] [c'] [(c', s')]) in Hw1 as [Hw1 _].
  revert Hw1. apply refs_same. unfold skeleton. injection Hfr as ??? He.
  rewrite Hms, Hps, Hcs, He. cbn. rewrite dom_alter_L.
  rewrite fmap_updateMany, fmap_alter_key, Hr by done. f_equal.
  rewrite Hats. destruct att as [a'|]; [|done]. by apply fmap_alter_key.
Qed.

Lemma refs_bot c s t : preserves (refs [] []) (sendAiBotMessage c s t).
Proof.
  unfold sendAiBotMessage, touch_conversation, incrementUnreadForOtherParticipants. keep_solve.
  apply refs_message_create. by left.
Qed.

Lemma refs_add c u a : preserves (refs [] []) (requireActiveParticipant c a ;; addMember c u a).
Proof.
  apply refs_guard. intros c' a' _ Ec Ea. unfold addMember.
  apply preserves_parse. intros x Ex. apply preserves_parse. intros u' Eu.
  rewrite Ec in Ex. injection Ex as <-.
  apply preserves_bind; [keep_solve|intros [e|]; [apply preserves_ret|]].
  apply preserves_parse. intros x Ex. rewrite Ea in Ex. injection Ex as <-.
  apply preserves_bind; [keep_solve|intros joinedAt].
  apply refs_join; [by left|intros _]. unfold record_event. keep_solve.
  apply refs_event_create. split_and!; [by left|by right; left|].
  intros actor [= <-]. by right; left.
Qed.

Lemma refs_remove c u a : preserves (refs [] []) (requireAdminOrOwner c a ;; removeMember c u a).
Proof.
  apply refs_guard_admin. intros c' a' _ Ec Ea. unfold removeMember.
  apply preserves_parse. intros x Ex. apply preserves_parse. intros u' Eu.
  rewrite Ec in Ex. injection Ex as <-. do 2 (keep_step; [keep_solve|]).
  apply preserves_parse. intros x Ex. rewrite Ea in Ex. injection Ex as <-.
  unfold record_event. keep_solve. apply refs_event_create.
  split_and!; [by left|by left|]. intros actor [= <-]. by left.
Qed.

Lemma refs_left c u :
  preserves (refs [] []) (requireActiveParticipant c u ;; Chat.markConversationLeft c u).
Proof.
  apply refs_guard. intros c' u' _ Ec Eu. unfold Chat.markConversationLeft.
  apply preserves_parse. intros x Ex. rewrite Ec in Ex. injection Ex as <-.
  apply preserves_parse. intros x Ex. rewrite Eu in Ex. injection Ex as <-.
  unfold record_event. keep_solve. apply refs_event_create.
  split_and!; [by left|by right; left|done].
Qed.

(** Inserting the participants of a new conversation, then its events. *)
Lemma refs_join_all {A} cs us ps (k : list (doc Participant) → M World A) :
  Forall (λ p, p_conversationId p ∈ cs) ps →
  (∀ ds us', (∀ p, p ∈ ps → participant_refs p ∈ us') → preserves (refs cs us') (k ds)) →
  preserves (refs cs us) (model_insertMany participantModel ps ≫= k).
Proof.
  intros Hps. revert us k.
  assert (∀ us k, (∀ ds us', (∀ p, p ∈ ps → participant_refs p ∈ us') → (∀ x, x ∈ us → x ∈ us') →
      preserves (refs cs us') (k ds)) →
    preserves (refs cs us) (model_insertMany participantModel ps ≫= (k : _ → M World A))) as Hall.
  { induction Hps as [|p ps Hp _ IH]; intros us k Hk.
    - intros w Hw. by apply Hk; [intros p ?%elem_of_nil| |].
    - unfold model_insertMany in *. cbn [forM]. apply preserves_assoc, refs_join; [done|intros d].
      apply preserves_assoc, IH. intros ds us' Hin Hus w Hw. cbn. apply Hk; [| |done].
      + intros q [->|Hq]%elem_of_cons; [apply Hus; by left|by apply Hin].
      + intros x Hx. apply Hus. by right. }
  intros us k Hk. apply Hall. auto.
Qed.

Lemma refs_events_all cs us es :
  Forall (event_known cs us) es → preserves (refs cs us) (model_insertMany membershipEventModel es).
Proof.
  unfold model_insertMany. induction 1 as [|e es He _ IH]; cbn [forM]; [apply preserves_ret|].
  apply preserves_bind; [by apply refs_event_create|intros ?]. keep_solve.
Qed.

Lemma forM_Forall2 {A B} (R : A → B → Prop) (f : A → M World B) l w bs w' :
  (∀ a w b w', f a w = (Ok b, w') → R a b) → forM l f w = (Ok bs, w') → Forall2 R l bs.
Proof.
  intros Hf. revert w bs w'. induction l as [|a l IH]; intros w bs w' E; cbn [forM] in E.
  { injection E as <- <-. constructor. }
  apply bind_Ok_inv in E as (b & w1 & Eb & E). apply bind_Ok_inv in E as (bs' & w2 & Es & E).
  injection E as <- <-. constructor; eauto.
Qed.

Lemma refs_new ty u ps title : preserves (refs [] []) (new_conversation ty u ps title).
Proof.
  unfold new_conversation. apply preserves_parse. intros creator Ecr. keep_step; [keep_solve|].
  apply refs_open. intros [c cv]. cbn [fst]. cbv zeta. set (ids := js_set (u :: ps)).
  apply (preserves_bind_value _ (λ docs, Forall2 (λ uid p, ∃ x, oid_parse uid = Some x ∧
    participant_refs p = (c, x)) ids docs)).
  { keep_solve. }
  { intros w docs w'. apply forM_Forall2. intros uid w1 p w2 E.
    apply bind_Ok_inv in E as (x & w3 & Ex & E). apply bind_Ok_inv in E as (y & w4 & _ & E).
    injection E as <- _. exists x. split; [|done]. unfold parse_oid in Ex.
    destruct (oid_parse uid); [by injection Ex as -> _|done]. }
  intros docs Hdocs. apply refs_join_all.
  { apply Forall_forall. intros p Hp. apply list_elem_of_lookup in Hp as [i Hi].
    destruct (Forall2_lookup_r _ _ _ _ _ Hdocs Hi) as (uid & _ & x & _ & E).
    injection E as -> _. by left. }
  intros ds us Hus.
  assert (∀ uid x, uid ∈ ids → oid_parse uid = Some x → (c, x) ∈ us) as Hin.
  { intros uid x Hu Ex. apply list_elem_of_lookup in Hu as [i Hi].
    destruct (Forall2_lookup_l _ _ _ _ _ Hdocs Hi) as (p & Hp & x' & Ex' & E).
    rewrite Ex in Ex'. injection Ex' as <-. rewrite <-E. by apply Hus, (list_elem_of_lookup_2 _ i). }
  apply (preserves_bind_value _ (λ es, Forall (event_known [c] us) es)).
  { keep_solve. }
  { intros w es w' E. apply (forM_Forall2 (λ uid e, uid ∈ ids → event_known [c] us e)) in E.
    - apply Forall_forall. intros e He. apply list_elem_of_lookup in He as [i Hi].
      destruct (Forall2_lookup_r _ _ _ _ _ E Hi) as (uid & Hu & Hk).
      by apply Hk, (list_elem_of_lookup_2 _ i).
    - clear E. intros uid w1 e w2 E Hu. apply bind_Ok_inv in E as (x & w3 & Ex & E).
      apply bind_Ok_inv in E as (y & w4 & _ & E). injection E as <- _.
      unfold parse_oid in Ex. destruct (oid_parse uid) as [x'|] eqn:Ep; [|done].
      injection Ex as -> _. split_and!; [by left|right; by apply (Hin uid)|].
      intros actor. cbn. case_bool_decide; [done|]. intros [= <-].
      apply (Hin u); [|done]. unfold ids. by left. }
  intros es Hes. apply preserves_bind; [by apply refs_events_all|intros ?]. keep_solve.
Qed.

Lemma refs_create ty u ps title : preserves (refs [] []) (createConversation ty u ps title).
Proof.
  unfold createConversation, existing_direct, findDirectConversation.
  keep_solve; try apply refs_new.
  match goal with |- preserves _ (first_direct ?l _ _) => induction l end;
    cbn [first_direct]; keep_solve.
Qed.

Lemma refs_upload u dto : preserves (refs [] []) (generatePresignedUploadUrl u dto).
Proof.
  unfold generatePresignedUploadUrl, requireConversationId, requireObjectId, getBucketName,
    getSignedUrl, getS3Client, link_expiry.
  apply preserves_bind; [keep_solve|intros c].
  do 4 (keep_step; [keep_solve|]). keep_step; [keep_solve|].
  change (getRequiredActiveParticipant (oid_show c) u) with (requireActiveParticipant (oid_show c) u).
  apply refs_guard. intros c' u' _ Ec Eu. rewrite oid_parse_show in Ec. injection Ec as <-.
  keep_step; [keep_solve|]. cbv zeta. apply preserves_parse. intros x Ex. rewrite Eu in Ex.
  injection Ex as <-. keep_step; [keep_solve|].
  apply preserves_bind; [apply refs_attachment_insert; by left|intros ?]. keep_solve.
Qed.

Lemma refs_mark c a u : preserves (refs [] []) (markAttachmentUploaded c a u).
Proof.
  unfold markAttachmentUploaded, requireConversationId, requireAttachmentId, requireObjectId. keep_solve.
Qed.
#[local] Hint Resolve refs_sendMessage refs_bot refs_add refs_remove refs_left refs_create refs_upload
  refs_mark : inv.

#[local] Instance refs_chat : ChatInvariant (refs [] []).
Proof.
  split; try apply _; intros *; auto with inv nocore.
  - unfold saveMessageModerationResult. keep_solve.
  - unfold markConversationRead, latest_message. keep_solve.
Qed.

(** Why [removed] is the exception: a removal records its event whoever it names. *)
Lemma removal_names_anybody c u a w :
  match removeMember (oid_show c) (oid_show u) (oid_show a) w with
  | (Ok _, w') => ∃ i e, w_events w' !! i = Some e ∧ me_type e = ev_removed ∧
      me_conversationId e = c ∧ me_targetUserId e = u
  | _ => True
  end.
Proof.
  destruct (removeMember _ _ _ w) as [[[]|e|] w'] eqn:E; [|done..].
  unfold removeMember, parse_oid, record_event, now, tick, model_updateOne in E.
  rewrite !oid_parse_show in E. revert E. run_simpl. unfold mret, M_ret. cbn. intros E.
  match type of E with (let (_, _) := model_create ?m ?d ?x in _) = _ =>
    destruct (model_create m d x) as [[[i e]|?|] w1] eqn:Ec end; [|done..].
  injection E as <-. apply run_create_Ok in Ec as (He & _ & ->). cbn in He. subst e.
  eexists i, _. split; [cbn; by rewrite lookup_insert_eq|]. by split_and!.
Qed.

(** C14: In every state the backend reaches from an empty store the references between
    documents resolve: a participant's conversation exists; the sender of a message that a
    person wrote, the uploader of an attachment and whoever acted in a membership event
    takes or took part in its conversation; and so does whomever the event is about, unless
    it says that they were removed. *)
Theorem references_resolve w0 w :
  well_typed (skeleton w0) → reachable w0 w →
  well_typed (skeleton w) ∧
  (∀ i p, w_participants w !! i = Some p → is_Some (w_conversations w !! p_conversationId p)) ∧
  (∀ i m, w_messages w !! i = Some m → m_isAIBotMessage m = false →
     ∃ j p, w_participants w !! j = Some p ∧ p_conversationId p = m_conversationId m
            ∧ p_userId p = m_senderId m) ∧
  (∀ i a, w_attachments w !! i = Some a →
     ∃ j p, w_participants w !! j = Some p ∧ p_conversationId p = ca_conversationId a
            ∧ p_userId p = ca_uploaderId a) ∧
  (∀ i e, w_events w !! i = Some e → is_Some (w_conversations w !! me_conversationId e) ∧
     ∀ u, me_type e ≠ ev_removed ∧ u = me_targetUserId e ∨ me_actorUserId e = Some u →
       ∃ j p, w_participants w !! j = Some p ∧ p_conversationId p = me_conversationId e
              ∧ p_userId p = u).
Proof.
  intros Hw0 Hr. assert (refs [] [] w) as [Hw _].
  { revert Hr. apply (reachable_invariant (refs [] [])).
    - intros o. apply preserves_run_op; apply _.
    - by split_and!. }
  assert (∀ c u, took_part (skeleton w) (c, u) → ∃ j p, w_participants w !! j = Some p ∧
    p_conversationId p = c ∧ p_userId p = u) as Ht.
  { intros c u [j Hj]. cbn in Hj. rewrite lookup_fmap in Hj. apply fmap_Some in Hj as (p & Hp & E).
    injection E as -> ->. by exists j, p. }
  assert (∀ c, c ∈ sk_conversations (skeleton w) → is_Some (w_conversations w !! c)) as Hc
    by (intros c; apply elem_of_dom).
  split; [done|]. destruct Hw as [Hp Hm Hev Ha]. split_and!.
  - intros i p Hi. apply Hc, (Hp i _ (p_userId p)). cbn. by rewrite lookup_fmap, Hi.
  - intros i m Hi Hb. apply Ht, (Hm i). cbn. rewrite lookup_fmap, Hi. cbn. unfold message_refs. by rewrite Hb.
  - intros i a Hi. apply Ht, (Ha i). cbn. by rewrite lookup_fmap, Hi.
  - intros i e Hi. destruct (Hev i e Hi) as (Hce & Hte & Hae). split; [by apply Hc|].
    intros u [[Hn ->]|Hu]; apply Ht; [|by apply Hae]. by destruct Hte.
Qed.
End operations.

(** ** At a concrete input: the group of [UnreadFacts] *)

Lemma empty_typed : well_typed (skeleton empty_world).
Proof. by split; intros *; cbn; rewrite ?fmap_empty, lookup_empty. Qed.

Lemma references_resolve_witness :
  (∃ i e, w_events demo_group !! i = Some e ∧ me_type e = ev_joined ∧
     is_Some (w_conversations demo_group !! me_conversationId e) ∧
     ∃ j p, w_participants demo_group !! j = Some p ∧
       p_conversationId p = me_conversationId e ∧ p_userId p = me_targetUserId e).
Proof.
  destruct (map_to_list (w_events demo_group)) as [|[i e] l] eqn:E; [by vm_compute in E|].
  assert (w_events demo_group !! i = Some e) as He.
  { apply elem_of_map_to_list. rewrite E. by left. }
  assert (me_type e = ev_joined) as Ht by (vm_compute in E; by injection E as _ <- _).
  exists i, e. split; [exact He|]. split; [exact Ht|].
  destruct (proj2 (proj2 (proj2 (proj2 (@references_resolve (demo_host demo_env)
    (demo_oid_laws demo_env) list_mongo list_mongo_laws empty_world demo_group empty_typed
    demo_group_reachable)))) i e He) as [Hc Hu].
  split; [exact Hc|]. apply Hu. left. split; [by rewrite Ht|reflexivity].
Defined.
