(* ===== verification/AttachmentFacts.v ===== *)
(** * Attachment theorems

    Storage keys, the upload and download checks, the pages of a conversation's files,
    and what two concurrent sends can do to one attachment. *)

From Stdlib Require Import QArith_base.
From S2P Require Import Prelude JsText Wire Driver Env Store Model Instance Encryption Auth AuthFacts AuthController Chat ChatSend ChatFacts Attachment Ai Gateway ChatController Invariants.
Open Scope Z_scope.

(** ** Storage keys *)

Section keys.
Context `{Host}.

Lemma replace_runs_chars P bad pending s :
  (∀ u, bad u = false → P u) → P 95 → Forall P (replace_runs bad pending s).
Proof.
  intros Hb H95. revert pending. induction s as [|u s IH]; intros pending; cbn [replace_runs];
    [constructor|].
  destruct (bad u) eqn:E; [destruct pending; [done|by constructor]|].
  constructor; [by apply Hb|done].
Qed.

Lemma replace_runs_keep P bad pending s :
  P 95 → Forall P s → Forall P (replace_runs bad pending s).
Proof.
  intros H95 Hs. revert pending. induction Hs as [|u s Hu _ IH]; intros pending;
    cbn [replace_runs]; [constructor|].
  destruct (bad u); [destruct pending; [done|by constructor]|by constructor].
Qed.

Lemma strip_leading_Forall P s : Forall P s → Forall P (strip_leading s).
Proof.
  induction 1 as [|u s Hu Hs IH]; cbn [strip_leading]; [constructor|].
  destruct (u =? 95); [done|by constructor].
Qed.

Lemma strip_underscores_Forall P s : Forall P s → Forall P (strip_underscores s).
Proof.
  intros Hs. unfold strip_underscores.
  apply Forall_reverse, strip_leading_Forall, Forall_reverse, strip_leading_Forall, Hs.
Qed.

Lemma key_char_slash u : key_char u = true → u ≠ 47.
Proof. by intros Hk ->. Qed.

Lemma sanitizedName_spec fileName :
  let s := sanitizedName fileName in
  Forall (λ u, key_char u = true) s ∧ s ≠ [] ∧ (length s ≤ 128)%nat.
Proof.
  cbn zeta. unfold sanitizedName. set (s := take 128 _).
  assert (Forall (λ u, key_char u = true) s) as Hs.
  { apply Forall_take, strip_underscores_Forall, replace_runs_keep; [done|].
    apply replace_runs_chars; [|done]. intros u. by rewrite negb_false_iff. }
  assert (length s ≤ 128)%nat by (unfold s; rewrite length_take; lia).
  destruct s as [|u r] eqn:E; cbn [truthy].
  - split; [|split; [done|vm_compute; lia]].
    apply Forall_forall. intros u Hu. vm_compute in Hu.
    repeat (apply elem_of_cons in Hu as [->|Hu]; [done|]). by apply elem_of_nil in Hu.
  - by split_and!.
Qed.

(** Segments without a slash can be read back. *)
Lemma segment_inj (c c' r r' : jsstring) :
  47 ∉ c → 47 ∉ c' → c ++ js "/" ++ r = c' ++ js "/" ++ r' → c = c' ∧ r = r'.
Proof.
  revert c'. induction c as [|u c IH]; intros [|u' c'] Hc Hc' E.
  - by injection E.
  - injection E as <- _. exfalso. apply Hc'. by left.
  - injection E as -> _. exfalso. apply Hc. by left.
  - injection E as <- E. apply not_elem_of_cons in Hc as [_ Hc], Hc' as [_ Hc'].
    by destruct (IH c' Hc Hc' E) as [-> ->].
Qed.

(** The storage key of an upload lies under its conversation and its attachment id,
    its last segment is a non-empty name of at most 128 characters of [a-zA-Z0-9._-]
    whatever the file is called, and no two attachments share a key. *)
Theorem r2_key_confined conversationId attachmentId fileName :
  (∃ name, buildR2Key conversationId attachmentId fileName
           = js "attachments/" ++ conversationId ++ js "/" ++ attachmentId ++ js "/" ++ name
     ∧ Forall (λ u, key_char u = true) name ∧ name ≠ [] ∧ (length name ≤ 128)%nat)
  ∧ ∀ conversationId' attachmentId' fileName',
      47 ∉ conversationId → 47 ∉ conversationId' → 47 ∉ attachmentId → 47 ∉ attachmentId' →
      buildR2Key conversationId attachmentId fileName
      = buildR2Key conversationId' attachmentId' fileName' →
      conversationId = conversationId' ∧ attachmentId = attachmentId'.
Proof.
  split; [exists (sanitizedName fileName); split; [done|apply sanitizedName_spec]|].
  intros c' a' f' Hc Hc' Ha Ha' E. unfold buildR2Key in E. apply app_inv_head in E.
  apply segment_inj in E as [-> E]; [|done..]. by apply segment_inj in E as [-> _].
Qed.
End keys.

(** ** The life of an attachment *)

Definition status_rank (s : AttachmentStatus) : nat :=
  match s with draft => 0 | uploaded => 1 | attached => 2 end.

(** What may happen to an attachment: it keeps what it is and whose it is, its status only
    advances, and once attached it does not change at all. *)
Record attachment_later (a b : ChatAttachment) : Prop := {
  later_conversation : ca_conversationId b = ca_conversationId a;
  later_uploader : ca_uploaderId b = ca_uploaderId a;
  later_key : ca_r2Key b = ca_r2Key a;
  later_name : ca_originalName b = ca_originalName a;
  later_type : ca_mimeType b = ca_mimeType a;
  later_size : ca_sizeBytes b = ca_sizeBytes a;
  later_status : (status_rank (ca_status a) ≤ status_rank (ca_status b))%nat;
  later_attached : ca_status a = attached → b = a;
}.

#[export] Instance attachment_later_preorder : PreOrder attachment_later.
Proof.
  split; [intros a; by split|]. intros a b c [] []. split; try congruence; [lia|].
  intros Ha. rewrite later_attached1; [auto|]. by rewrite later_attached0.
Qed.

Lemma later_set_uploaded t a : ca_status a ≠ attached → attachment_later a (set_uploaded t a).
Proof. intros Ha. split; try done. simpl. destruct (ca_status a); simpl; [lia|lia|done]. Qed.
Lemma later_set_attached m t a : ca_status a = uploaded → attachment_later a (set_attached m t a).
Proof. intros Ha. split; try done; rewrite Ha; simpl; [lia|done]. Qed.

(** The attachment [i], which was [a] at some point. *)
Definition later_than (i : oid) (a : ChatAttachment) (w : World) : Prop :=
  ∃ b, w_attachments w !! i = Some b ∧ attachment_later a b.

Section life.
Context `{Host} `{!OidLaws} `{MongoLaws} (i : oid) (a : ChatAttachment).

#[local] Instance later_than_store : StoreInvariant (later_than i a).
Proof. intros w w' E. injection E as ??????? Ea. unfold later_than. by rewrite Ea. Qed.
#[local] Instance later_than_user : Ignores (later_than i a) userModel.
Proof. by intros f w. Qed.
#[local] Instance later_than_session : Ignores (later_than i a) refreshSessionModel.
Proof. by intros f w. Qed.
#[local] Instance later_than_conversation : Ignores (later_than i a) conversationModel.
Proof. by intros f w. Qed.
#[local] Instance later_than_participant : Ignores (later_than i a) participantModel.
Proof. by intros f w. Qed.
#[local] Instance later_than_message : Ignores (later_than i a) messageModel.
Proof. by intros f w. Qed.
#[local] Instance later_than_event : Ignores (later_than i a) membershipEventModel.
Proof. by intros f w. Qed.
#[local] Instance later_than_attempts : IgnoresAttempts (later_than i a).
Proof. by intros f w. Qed.

Lemma later_than_alter w w' f j :
  w_attachments w' = alter f j (w_attachments w) →
  (∀ b, w_attachments w !! j = Some b → attachment_later b (f b)) →
  later_than i a w → later_than i a w'.
Proof.
  intros E Hf (b & Hb & Hl). unfold later_than. rewrite E, lookup_alter. case_decide as Hj; [|by exists b].
  subst j. rewrite Hb. exists (f b). split; [done|]. etrans; [done|]. by apply Hf.
Qed.

Lemma later_than_send c s t v ai : preserves (later_than i a) (sendMessage c s t v ai).
Proof.
  intros w Hw. pose proof (sendMessage_cases c s t v ai w) as Hc.
  destruct (sendMessage c s t v ai w) as [[r|e|] w']; cbn [snd].
  2,3: destruct Hc as [Hfr _]; injection Hfr as ?????? Ea; unfold later_than in *; by rewrite Ea.
  destruct Hc as (c' & s' & me & att & st & ts & tc & [_ _ _ Hatt _ _ _ _ Hats _ _ _]).
  destruct att as [[j b]|]; [|unfold later_than in *; by rewrite Hats].
  eapply later_than_alter; [exact Hats| |done]. intros b' Hb'.
  destruct (given v); [|done]. destruct Hatt as (? & [= <-] & _ & [Hst _ _ Hup]).
  cbn [fst snd] in *. apply later_set_attached. congruence.
Qed.

Lemma later_than_mark c v u : preserves (later_than i a) (markAttachmentUploaded c v u).
Proof.
  intros w Hw. pose proof (markAttachmentUploaded_cases c v u w) as Hc.
  destruct (markAttachmentUploaded c v u w) as [[r|e|] w']; cbn [snd];
    [|by apply (store_invariant w)..].
  destruct Hc as (j & b & t & _ & Hj & _ & _ & Hst & Hd & _).
  apply (store_invariant _ _ (eq_sym Hd)).
  eapply later_than_alter; [done| |done]. intros b' Hb'. apply later_set_uploaded. congruence.
Qed.

Lemma later_than_upload u dto : preserves (later_than i a) (generatePresignedUploadUrl u dto).
Proof.
  unfold generatePresignedUploadUrl, requireConversationId, requireObjectId, getBucketName,
    getSignedUrl, getS3Client, link_expiry.
  keep_solve. apply preserves_insert. intros w (b & Hb & Hl) Hf. exists b. split; [|done].
  cbn in *. by rewrite lookup_insert_ne by congruence.
Qed.
#[local] Hint Resolve later_than_send later_than_mark later_than_upload : inv.

#[local] Instance later_than_chat : ChatInvariant (later_than i a).
Proof.
  split; try apply _; intros *; auto with inv nocore.
  - unfold sendAiBotMessage, touch_conversation, incrementUnreadForOtherParticipants. keep_solve.
  - unfold saveMessageModerationResult. keep_solve.
  - unfold markConversationRead, latest_message. keep_solve.
  - unfold createConversation, existing_direct, findDirectConversation, new_conversation,
      model_insertMany. keep_solve.
    match goal with |- preserves _ (first_direct ?l _ _) => induction l end;
      cbn [first_direct]; keep_solve.
  - unfold addMember, record_event. keep_solve.
  - unfold removeMember, record_event. keep_solve.
  - unfold Chat.markConversationLeft, record_event. keep_solve.
Qed.

(** An attachment is never deleted, keeps its conversation, uploader, key, name, type
    and size, its status only advances (draft, uploaded, attached), and an attached file
    never changes again, whatever the clients do. *)
Lemma attachment_life w w' :
  w_attachments w !! i = Some a → reachable w w' →
  ∃ b, w_attachments w' !! i = Some b ∧ attachment_later a b.
Proof.
  intros Hi. apply (reachable_invariant (later_than i a)).
  - intros o. apply preserves_run_op; apply _.
  - by exists a.
Qed.
End life.

(** ** Two concurrent sends *)

(** C33: [sendMessage] checks an attachment before it waits for the processor and attaches
    it after, so two sends whose checks both came first put one file on two messages. *)
Theorem attachment_race `{Host} `{!OidLaws} `{MongoLaws} c s v a me st1 st2 ai1 ai2 w m1 w1 m2 w2 :
  attachment_for_send (oid_show c) (oid_show s) v w = (Ok a, w) →
  commit_send (oid_show c) (oid_show s) me (Some a) st1 ai1 w = (Ok m1, w1) →
  commit_send (oid_show c) (oid_show s) me (Some a) st2 ai2 w1 = (Ok m2, w2) →
  m1.1 ≠ m2.1
  ∧ ∃ ma, w_messages w2 !! m1.1 = Some m1.2 ∧ w_messages w2 !! m2.1 = Some m2.2
      ∧ m_attachment m1.2 = Some ma ∧ m_attachment m2.2 = Some ma ∧ ma_attachmentId ma = a.1.
Proof.
  intros _ E1 E2.
  pose proof (run_commit_send (oid_show c) (oid_show s) c s me (Some a) st1 ai1 w
    (oid_parse_show c) (oid_parse_show s)) as H1'.
  pose proof (run_commit_send (oid_show c) (oid_show s) c s me (Some a) st2 ai2 w1
    (oid_parse_show c) (oid_parse_show s)) as H2'.
  rewrite E1 in H1'. rewrite E2 in H2'.
  destruct H1' as (t1 & _ & _ & Hm1 & Hf1 & Hw1 & _).
  destruct H2' as (t2 & _ & _ & Hm2 & Hf2 & Hw2 & _).
  assert (m1.1 ≠ m2.1) as Hne.
  { intros E. by rewrite Hw1, <-E, lookup_insert_eq in Hf2. }
  split; [done|]. exists (message_attachment a).
  rewrite Hw2, lookup_insert_eq, lookup_insert_ne, Hw1, lookup_insert_eq by done.
  by rewrite Hm1, Hm2.
Qed.

(** ** Pages of files *)

Lemma num_succ_num k : num_succ (num k) = num (k + 1).
Proof.
  unfold num_succ, num, inject_Z, Qplus. simpl. f_equal. unfold Qplus. f_equal. lia.
Qed.

Lemma slice_to_num {A} k (l : list A) : slice_to (num k) l = take (Z.to_nat k) l.
Proof. unfold slice_to, num, inject_Z. cbn [Qnum Qden]. by rewrite Z.quot_1_r. Qed.

Lemma num_or_num k d : num_or (num k) d = if k =? 0 then d else num k.
Proof.
  unfold num_or, num. assert (Qeq_bool (inject_Z k) 0 = (k =? 0)) as ->; [|by destruct (k =? 0)].
  unfold Qeq_bool, inject_Z. simpl. rewrite Z.mul_1_r. by destruct k.
Qed.

(** The number of files a page shows: the limit of the request within 1 and 50; 20 when
    there is none or it is 0. *)
Definition page_size (limit : option Z) : Z :=
  match limit with
  | Some n => if n =? 0 then 20 else Z.min (Z.max n 1) 50
  | None => 20
  end.

Lemma safe_limit_num limit : safe_limit (num <$> limit) = num (page_size limit).
Proof.
  unfold safe_limit, page_size. destruct limit as [n|].
  - change (default (num 20) (num <$> Some n)) with (num n). rewrite num_or_num.
    destruct (n =? 0); rewrite Math_max_num, Math_min_num; f_equal; lia.
  - change (default (num 20) (num <$> None)) with (num 20).
    rewrite num_or_num. change (20 =? 0) with false. cbn iota.
    by rewrite Math_max_num, Math_min_num.
Qed.

(** A page shows the latest attached files of the conversation before the cursor, as
    many as asked for but between 1 and 50, and says that there is more exactly when
    there is. *)
Theorem listAttachments_page `{Host} `{MongoLaws} conversationId userId before limit w page w' :
  listConversationAttachments conversationId userId before (num <$> limit) w = (Ok page, w') →
  ∃ c cursor files, oid_parse conversationId = Some c ∧ before_cursor before w = (Ok cursor, w)
    ∧ files = mg_sort (desc ca_createdAt) (mg_find (attached_in c cursor) (w_attachments w))
    ∧ 1 <= page_size limit <= 50
    ∧ pg_attachments page = attachment_item <$> take (Z.to_nat (page_size limit)) files
    ∧ (pg_hasMore page = true ↔ page_size limit < Z.of_nat (length files)).
Proof.
  unfold listConversationAttachments, requireConversationId, requireObjectId. intros E.
  apply bind_Ok_inv in E as (c & w1 & Ec & E).
  destruct (oid_parse conversationId) as [c'|] eqn:Ep; [|done]. injection Ec as <- <-.
  apply bind_Ok_inv in E as (p & w1 & Er & E).
  assert (w1 = w) as ->.
  { rewrite run_getRequired in Er. destruct (oid_parse (oid_show c')), (oid_parse userId); try done.
    by destruct (mg_findOne _ _); injection Er. }
  cbv zeta in E. apply bind_Ok_inv in E as (cursor & w1 & Eb & E).
  assert (w1 = w) as ->.
  { unfold before_cursor in Eb. destruct (given before); [|by injection Eb].
    rewrite run_bind in Eb. by destruct (date_parse _); injection Eb. }
  apply bind_Ok_inv in E as (files & w1 & Ef & E). injection Ef as <- <-. injection E as <- <-.
  assert (1 <= page_size limit <= 50) as Hk.
  { unfold page_size. destruct limit; [|lia]. case_match; lia. }
  rewrite safe_limit_num, num_succ_num, limit_pos by lia. cbn [m_get attachmentModel].
  set (files := mg_sort _ _).
  exists c', cursor, files. split_and!; [done|done|done|lia|lia| |].
  - cbn [pg_attachments]. rewrite slice_to_num, take_take. do 2 f_equal. lia.
  - cbn [pg_hasMore]. rewrite num_lt_num, Z.ltb_lt, length_take. lia.
Qed.

(** ** Who may upload and download *)

Lemma bad_size_num n : bad_size (num n) = false ↔ 0 < n <= 26214400.
Proof.
  unfold bad_size, MAX_FILE_SIZE_BYTES. rewrite num_le_num, num_lt_num. simpl.
  rewrite orb_false_iff, Z.leb_gt, Z.ltb_ge. lia.
Qed.

Section access.
Context `{Host} `{!OidLaws} `{MongoLaws}.

Lemma getRequired_Ok c u w p w' :
  getRequiredActiveParticipant (oid_show c) (oid_show u) w = (Ok p, w') →
  w' = w ∧ mg_findOne (active_participant c u) (w_participants w) = Some p.
Proof.
  rewrite run_getRequired, !oid_parse_show.
  destruct (mg_findOne _ _); intros E; [|done]. by injection E as <- <-.
Qed.

Lemma bind_throw_if {A} (b : bool) e (k : () → M World A) w r :
  (throw_if b e ≫= k) w = r → b = false ∧ k tt w = r ∨ b = true ∧ r = (Throw e, w).
Proof. rewrite run_bind. destruct b; cbn; [right|left]; auto. Qed.

(** An upload link is given only to an active participant of an existing conversation,
    for a named file of a stated type and of 1 byte to 25 MB; it leaves one draft of that
    file, owned by that user, in that conversation. *)
Theorem upload_accepted u input n w r w' :
  gp_sizeBytes input = num n →
  generatePresignedUploadUrl (oid_show u) input w = (Ok r, w') →
  ∃ c i cv me a, oid_parse (gp_conversationId input) = Some c
    ∧ w_conversations w !! c = Some cv
    ∧ mg_findOne (active_participant c u) (w_participants w) = Some me
    ∧ 0 < n <= 25 * 1024 * 1024
    ∧ ca_originalName a = trim (gp_fileName input) ∧ ca_originalName a ≠ []
    ∧ ca_mimeType a = trim (gp_mimeType input) ∧ ca_mimeType a ≠ []
    ∧ ca_status a = draft ∧ ca_uploaderId a = u ∧ ca_conversationId a = c
    ∧ ca_r2Key a = buildR2Key (oid_show c) (oid_show i) (ca_originalName a)
    ∧ w_attachments w !! i = None ∧ w_attachments w' = <[i:=a]> (w_attachments w)
    ∧ pu_attachmentId r = oid_show i ∧ pu_r2Key r = ca_r2Key a.
Proof.
  intros Hn E. unfold generatePresignedUploadUrl, requireConversationId, requireObjectId in E.
  apply bind_Ok_inv in E as (c & w1 & Ec & E).
  destruct (oid_parse (gp_conversationId input)) as [c'|] eqn:Ep; [|done]. injection Ec as <- <-.
  cbv zeta in E.
  apply bind_throw_if in E as [[Hname E]|[_ ?]]; [|done].
  apply bind_throw_if in E as [[Htype E]|[_ ?]]; [|done].
  apply bind_throw_if in E as [[Hsize E]|[_ ?]]; [|done].
  rewrite Hn in Hsize. apply bad_size_num in Hsize.
  apply bind_Ok_inv in E as (conv & w1 & Ef & E). injection Ef as <- <-.
  apply bind_throw_if in E as [[Hcv E]|[_ ?]]; [|done].
  cbn [m_get conversationModel] in Hcv. unfold findById in Hcv.
  destruct (w_conversations w !! c') as [cv|] eqn:Ecv; [|done].
  apply bind_Ok_inv in E as (me & w1 & Em & E). apply getRequired_Ok in Em as [-> Hme].
  apply bind_Ok_inv in E as (i & w1 & Ei & E). injection Ei as <- <-.
  apply bind_Ok_inv in E as (u' & w1 & Eu & E). unfold parse_oid in Eu.
  rewrite oid_parse_show in Eu. injection Eu as <- <-.
  apply bind_Ok_inv in E as (t & w1 & Et & E). injection Et as <- <-.
  apply bind_Ok_inv in E as ([] & w1 & Eins & E). unfold model_insert in Eins.
  apply bind_Ok_inv in Eins as (at' & w2 & Eg & Eins). injection Eg as <- <-.
  apply bind_throw_if in Eins as [[Hfree Eins]|[_ ?]]; [|done]. injection Eins as <-.
  apply bool_decide_eq_false, eq_None_not_Some in Hfree. cbn in Hfree.
  set (i := fresh_oid _) in *. set (a := mkAttachment _ _ _ _ _ _ _ _ _ _ _ _) in E.
  assert (w_attachments w' = <[i:=a]> (w_attachments w)
          ∧ pu_attachmentId r = oid_show i ∧ pu_r2Key r = ca_r2Key a) as (Hw & Hr1 & Hr2).
  { unfold getBucketName, getSignedUrl, getS3Client, link_expiry in E.
    apply bind_Ok_inv in E as (bucket & w1 & Eb & E).
    apply bind_throw_if in Eb as [[_ Eb]|[_ ?]]; [|done]. injection Eb as <- <-.
    apply bind_Ok_inv in E as (url & w1 & Eu & E).
    apply bind_throw_if in Eu as [[_ Eu]|[_ ?]]; [|done].
    apply bind_Ok_inv in Eu as (k & w2 & Ek & Eu). injection Ek as <- <-.
    destruct (presign _ _); [|done]. injection Eu as <- <-.
    apply bind_Ok_inv in E as (ex & w1 & Ex & E). injection Ex as <- <-. injection E as <- <-. done. }
  exists c', i, cv, me, a. split_and!; try done; try lia.
  - intros Hnil. cbn in Hnil. by rewrite Hnil in Hname.
  - intros Hnil. cbn in Hnil. by rewrite Hnil in Htype.
Qed.

(** A download link is given only for an attached file, and only to an active
    participant of its conversation; asking changes nothing in the store. *)
Theorem download_guarded v u w r w' :
  generatePresignedDownloadUrl v (oid_show u) w = (Ok r, w') →
  database w' = database w
  ∧ ∃ i a me, oid_parse v = Some i ∧ w_attachments w !! i = Some a ∧ ca_status a = attached
      ∧ mg_findOne (active_participant (ca_conversationId a) u) (w_participants w) = Some me
      ∧ pd_fileName r = ca_originalName a ∧ pd_sizeBytes r = ca_sizeBytes a.
Proof.
  intros E. split.
  { pose proof (keeps_download (λ w1, database w1 = database w) v (oid_show u) w eq_refl) as Hk. by rewrite E in Hk. }
  unfold generatePresignedDownloadUrl, requireAttachmentId, requireObjectId in E.
  apply bind_Ok_inv in E as (i & w1 & Ei & E).
  destruct (oid_parse v) as [i'|] eqn:Ep; [|done]. injection Ei as <- <-.
  apply bind_Ok_inv in E as (found & w1 & Ef & E). injection Ef as <- <-.
  unfold findById in E. cbn [m_get attachmentModel] in E.
  apply bind_Ok_inv in E as (a & w1 & Ea & E).
  destruct (w_attachments w !! i') as [b|] eqn:Eb; [|done]. injection Ea as <- <-.
  apply bind_throw_if in E as [[Hst E]|[_ ?]]; [|done]. apply bool_decide_eq_false, dec_stable in Hst.
  apply bind_Ok_inv in E as (me & w1 & Em & E). apply getRequired_Ok in Em as [-> Hme].
  apply bind_Ok_inv in E as (bucket & w1 & _ & E). apply bind_Ok_inv in E as (url & w2 & _ & E).
  apply bind_Ok_inv in E as (ex & w3 & _ & E). injection E as <- <-.
  by exists i', b, me.
Qed.
End access.

(** ** Witnesses *)

#[local] Instance demo_host_inst : Host := demo_host demo_env.
#[local] Instance demo_mongo_inst : Mongo := list_mongo.
#[local] Instance demo_laws_inst : MongoLaws := list_mongo_laws.
#[local] Instance demo_oids_inst : OidLaws := demo_oid_laws demo_env.

(** The demo conversation with an uploaded and an attached file of its first user. *)
Definition demo_file (st : AttachmentStatus) (m : option oid) : ChatAttachment :=
  mkAttachment (Oid 1) m (Oid 10) (js "attachments/k") (js "a.png") (js "image/png") (num 1000) true
    st 7 None None.
Definition demo_files : World :=
  upd_attachments (λ _, {[Oid 41 := demo_file uploaded None; Oid 42 := demo_file attached (Some (Oid 31))]})
    demo_chat.
Definition demo_me : doc Participant := (Oid 21, demo_participant 10 1).

Lemma r2_key_confined_witness :
  (∃ name, buildR2Key [1] [41] (js "../../etc/passwd")
           = js "attachments/" ++ [1] ++ js "/" ++ [41] ++ js "/" ++ name
     ∧ Forall (λ u, key_char u = true) name ∧ name ≠ [] ∧ (length name ≤ 128)%nat)
  ∧ (buildR2Key [1] [41] (js "../../etc/passwd") = buildR2Key [1] [42] (js "x") →
     [1] = [1] ∧ [41] = [42]).
Proof.
  destruct (r2_key_confined [1] [41] (js "../../etc/passwd")) as [Hname Hkey]. split; [done|].
  intros E. apply (Hkey [1] [42] (js "x")); [..|exact E]; by apply not_elem_of_cons.
Defined.

Lemma attachment_life_example :
  ∃ b, w_attachments (run_op (MarkUploaded None [1] [41]) demo_files).2 !! Oid 41 = Some b
       ∧ attachment_later (demo_file uploaded None) b.
Proof.
  apply (attachment_life (Oid 41) (demo_file uploaded None) demo_files).
  - by vm_compute.
  - apply reachable_step, reachable_start.
Defined.

Lemma attachment_race_witness :
  ∃ a m1 w1 m2 w2,
    attachment_for_send (oid_show (Oid 1)) (oid_show (Oid 10)) [41] demo_files = (Ok a, demo_files)
    ∧ commit_send (oid_show (Oid 1)) (oid_show (Oid 10)) demo_me (Some a) (mkStored [] legacy None)
        false demo_files = (Ok m1, w1)
    ∧ commit_send (oid_show (Oid 1)) (oid_show (Oid 10)) demo_me (Some a) (mkStored [] legacy None)
        false w1 = (Ok m2, w2)
    ∧ m1.1 ≠ m2.1
    ∧ ∃ ma, w_messages w2 !! m1.1 = Some m1.2 ∧ w_messages w2 !! m2.1 = Some m2.2
        ∧ m_attachment m1.2 = Some ma ∧ m_attachment m2.2 = Some ma ∧ ma_attachmentId ma = a.1.
Proof.
  set (a := (Oid 41, demo_file uploaded None)).
  assert (attachment_for_send (oid_show (Oid 1)) (oid_show (Oid 10)) [41] demo_files
          = (Ok a, demo_files)) as Ea by by vm_compute.
  destruct (commit_send (oid_show (Oid 1)) (oid_show (Oid 10)) demo_me (Some a)
    (mkStored [] legacy None) false demo_files) as [[m1|e|] w1] eqn:E1; [|by vm_compute in E1..].
  destruct (commit_send (oid_show (Oid 1)) (oid_show (Oid 10)) demo_me (Some a)
    (mkStored [] legacy None) false w1) as [[m2|e|] w2] eqn:E2.
  2, 3: apply (f_equal snd) in E1; cbn [snd] in E1; rewrite <-E1 in E2; by vm_compute in E2.
  exists a, m1, w1, m2, w2. split; [exact Ea|]. split; [done|]. split; [exact E2|].
  exact (attachment_race (Oid 1) (Oid 10) [41] a demo_me _ _ false false demo_files m1 w1 m2 w2
    Ea E1 E2).
Defined.

Lemma listAttachments_page_witness :
  ∃ page w' c cursor files,
    listConversationAttachments (oid_show (Oid 1)) (oid_show (Oid 10)) None (num <$> Some 5) demo_files
    = (Ok page, w')
    ∧ oid_parse (oid_show (Oid 1)) = Some c ∧ before_cursor None demo_files = (Ok cursor, demo_files)
    ∧ files = mg_sort (desc ca_createdAt) (mg_find (attached_in c cursor) (w_attachments demo_files))
    ∧ 1 <= page_size (Some 5) <= 50
    ∧ pg_attachments page = attachment_item <$> take (Z.to_nat (page_size (Some 5))) files
    ∧ (pg_hasMore page = true ↔ page_size (Some 5) < Z.of_nat (length files)).
Proof.
  destruct (listConversationAttachments (oid_show (Oid 1)) (oid_show (Oid 10)) None (num <$> Some 5)
    demo_files) as [[page|e|] w'] eqn:E; [|by vm_compute in E..].
  destruct (listAttachments_page _ _ _ _ _ _ _ E) as (c & cursor & files & Hall).
  by exists page, w', c, cursor, files.
Defined.

Definition demo_upload : GeneratePresignedUploadDto :=
  mkUploadDto (oid_show (Oid 1)) (js " cat.png ") (js "image/png") (num 2048).

Lemma upload_accepted_witness :
  ∃ r w' c i cv me a, generatePresignedUploadUrl (oid_show (Oid 10)) demo_upload demo_files = (Ok r, w')
    ∧ oid_parse (gp_conversationId demo_upload) = Some c
    ∧ w_conversations demo_files !! c = Some cv
    ∧ mg_findOne (active_participant c (Oid 10)) (w_participants demo_files) = Some me
    ∧ ca_originalName a = trim (gp_fileName demo_upload)
    ∧ w_attachments w' = <[i:=a]> (w_attachments demo_files).
Proof.
  destruct (generatePresignedUploadUrl (oid_show (Oid 10)) demo_upload demo_files)
    as [[r|e|] w'] eqn:E; [|by vm_compute in E..].
  destruct (upload_accepted (Oid 10) demo_upload 2048 demo_files r w' eq_refl E)
    as (c & i & cv & me & a & Hc & Hcv & Hme & _ & Hn & _ & _ & _ & _ & _ & _ & _ & _ & Hw & _).
  by exists r, w', c, i, cv, me, a.
Defined.

Lemma download_guarded_witness :
  ∃ r w', generatePresignedDownloadUrl [42] (oid_show (Oid 10)) demo_files = (Ok r, w')
    ∧ database w' = database demo_files
    ∧ ∃ i a me, oid_parse [42] = Some i ∧ w_attachments demo_files !! i = Some a
        ∧ ca_status a = attached
        ∧ mg_findOne (active_participant (ca_conversationId a) (Oid 10)) (w_participants demo_files)
          = Some me
        ∧ pd_fileName r = ca_originalName a ∧ pd_sizeBytes r = ca_sizeBytes a.
Proof.
  destruct (generatePresignedDownloadUrl [42] (oid_show (Oid 10)) demo_files) as [[r|e|] w'] eqn:E;
    [|by vm_compute in E..].
  exists r, w'. split; [done|]. exact (download_guarded [42] (Oid 10) demo_files r w' E).
Defined.
