(* ===== verification/GatewayFacts.v ===== *)
(** * What the gateways guarantee

    The services never touch a socket; what the gateways do to the rooms of a socket
    agrees with its bookkeeping; an acknowledgement agrees with the store and with who is
    hearing the conversation; a send that fails leaves no trace. *)

From S2P Require Import Prelude JsText Wire Driver Env Store Model Instance Encryption Auth AuthFacts AuthController Chat ChatSend ChatFacts Attachment Ai Gateway ChatController Invariants UnreadFacts.
Open Scope Z_scope.

(** ** The services leave the sockets alone *)

(** An invariant that looks at no collection. *)
Class IgnoresStore (I : World → Prop) : Prop := {
  ignores_users :: Ignores I userModel;
  ignores_sessions :: Ignores I refreshSessionModel;
  ignores_conversations :: Ignores I conversationModel;
  ignores_participants :: Ignores I participantModel;
  ignores_messages :: Ignores I messageModel;
  ignores_events :: Ignores I membershipEventModel;
  ignores_attachments :: Ignores I attachmentModel;
  ignores_all_attempts :: IgnoresAttempts I;
}.

Section services.
Context `{Host} `{Mongo} (I : World → Prop) `{!ReadInvariant I} `{!IgnoresStore I}.

Lemma quiet_sendMessage c s t a ai : preserves I (sendMessage c s t a ai).
Proof.
  unfold sendMessage, restoreDirectParticipantsIfNeeded, commit_send, touch_conversation,
    incrementUnreadForOtherParticipants. keep_solve.
Qed.
Lemma quiet_bot c s t : preserves I (sendAiBotMessage c s t).
Proof.
  unfold sendAiBotMessage, touch_conversation, incrementUnreadForOtherParticipants. keep_solve.
Qed.
Lemma quiet_moderation m r : preserves I (saveMessageModerationResult m r).
Proof. unfold saveMessageModerationResult. keep_solve. Qed.
Lemma quiet_markRead c u : preserves I (markConversationRead c u).
Proof. unfold markConversationRead, latest_message. keep_solve. Qed.
Lemma quiet_createConversation ty u ps title : preserves I (createConversation ty u ps title).
Proof.
  unfold createConversation, existing_direct, findDirectConversation, new_conversation,
    model_insertMany. keep_solve.
  match goal with |- preserves _ (first_direct ?l _ _) => induction l end;
    cbn [first_direct]; keep_solve.
Qed.
Lemma quiet_addMember c u a : preserves I (addMember c u a).
Proof. unfold addMember, record_event. keep_solve. Qed.
Lemma quiet_removeMember c u a : preserves I (removeMember c u a).
Proof. unfold removeMember, record_event. keep_solve. Qed.
Lemma quiet_markLeft c u : preserves I (Chat.markConversationLeft c u).
Proof. unfold Chat.markConversationLeft, record_event. keep_solve. Qed.
Lemma quiet_upload u dto : preserves I (generatePresignedUploadUrl u dto).
Proof.
  unfold generatePresignedUploadUrl, requireConversationId, requireObjectId, getBucketName,
    getSignedUrl, getS3Client, link_expiry. keep_solve.
Qed.
Lemma quiet_markUploaded c a u : preserves I (markAttachmentUploaded c a u).
Proof.
  unfold markAttachmentUploaded, requireConversationId, requireAttachmentId, requireObjectId.
  keep_solve.
Qed.
End services.

#[export] Hint Extern 0 (IgnoresStore _) => typeclasses eauto : inv.
#[export] Hint Resolve quiet_sendMessage quiet_bot quiet_moderation quiet_markRead
  quiet_createConversation quiet_addMember quiet_removeMember quiet_markLeft quiet_upload
  quiet_markUploaded : inv.

#[export] Instance quiet_chat `{Host} `{Mongo} I `{!ReadInvariant I} `{!IgnoresStore I}
  `{!IgnoresEmitted I} `{!IgnoresHttp I} : ChatInvariant I.
Proof. split; try apply _; intros; keep_solve. Qed.

(** The sockets, and the emissions. *)
#[export] Instance clients_read (P : gmap nat Client → Prop) : ReadInvariant (λ w, P (w_clients w)).
Proof. split; [split|..]; by intros f w. Qed.
#[export] Instance clients_store (P : gmap nat Client → Prop) : IgnoresStore (λ w, P (w_clients w)).
Proof. split; by intros f w. Qed.
#[export] Instance clients_emitted (P : gmap nat Client → Prop) : IgnoresEmitted (λ w, P (w_clients w)).
Proof. by intros f w. Qed.
#[export] Instance clients_http (P : gmap nat Client → Prop) : IgnoresHttp (λ w, P (w_clients w)).
Proof. by intros f w. Qed.
#[export] Instance emitted_read (P : list Emission → Prop) : ReadInvariant (λ w, P (w_emitted w)).
Proof. split; [split|..]; by intros f w. Qed.
#[export] Instance emitted_store (P : list Emission → Prop) : IgnoresStore (λ w, P (w_emitted w)).
Proof. split; by intros f w. Qed.

(** ** Rooms *)

(** The rooms of a socket: on the chat side its user's and those of the conversations it
    has joined, on the assistant side its user's at most. *)
Definition socket_ok (c : Client) : Prop :=
  ∃ u, c_user c = Some u ∧
    match c_namespace c with
    | ns_chat => ∃ joined, c_joinedConversationIds c = Some joined
        ∧ (∀ id, getConversationRoom id ∈ c_rooms c ↔ id ∈ joined)
        ∧ (∀ v, getUserRoom v ∈ c_rooms c → v = su_id u)
    | ns_ai => Forall (λ room, room = getUserRoom (su_id u)) (c_rooms c)
    end.
Definition sockets_ok (w : World) : Prop := map_Forall (λ _, socket_ok) (w_clients w).

Lemma conversation_room_inj a b : getConversationRoom a = getConversationRoom b ↔ a = b.
Proof. unfold getConversationRoom. naive_solver. Qed.
Lemma user_room_inj a b : getUserRoom a = getUserRoom b ↔ a = b.
Proof. unfold getUserRoom. naive_solver. Qed.
Lemma rooms_differ a b : getConversationRoom a ≠ getUserRoom b.
Proof. by intros E. Qed.

Lemma elem_of_join_room room c r : r ∈ c_rooms (join_room room c) ↔ r = room ∨ r ∈ c_rooms c.
Proof. cbn. case_bool_decide; rewrite ?elem_of_app, ?list_elem_of_singleton; naive_solver. Qed.
Lemma elem_of_leave_room room c r : r ∈ c_rooms (leave_room room c) ↔ r ≠ room ∧ r ∈ c_rooms c.
Proof. cbn. by rewrite list_elem_of_filter. Qed.

Lemma socket_ok_new ns u :
  socket_ok (mkClient ns (Some u) (match ns with ns_chat => Some [] | ns_ai => None end) []).
Proof.
  exists u. split; [done|]. destruct ns; cbn.
  - exists []. split; [done|]. split; [intros id|intros v]; by rewrite ?elem_of_nil.
  - constructor.
Qed.

Lemma socket_ok_own_room u c : c_user c = Some u → socket_ok c → socket_ok (join_room (getUserRoom (su_id u)) c).
Proof.
  intros Hu (u' & Hu' & Hok). rewrite Hu in Hu'. injection Hu' as <-. exists u. split; [done|].
  cbn [c_namespace join_room]. destruct (c_namespace c).
  - destruct Hok as (joined & Hj & Hr & Hown). exists joined. split; [done|]. split.
    + intros id. rewrite elem_of_join_room, <-Hr. split; [|by right].
      intros [Hid|Hid]; [by destruct (rooms_differ id (su_id u))|done].
    + intros v. rewrite elem_of_join_room, user_room_inj. intros [->|Hv]; [done|by apply Hown].
  - rewrite Forall_forall in Hok |- *. intros r. rewrite elem_of_join_room. naive_solver.
Qed.

Lemma socket_ok_join id c :
  c_namespace c = ns_chat → socket_ok c →
  socket_ok (markConversationJoined id (join_room (getConversationRoom id) c)).
Proof.
  intros Hns (u & Hu & Hok). rewrite Hns in Hok. destruct Hok as (joined & Hj & Hr & Hown).
  assert (∀ v, getUserRoom v ∈ c_rooms (join_room (getConversationRoom id) c) → v = su_id u) as Hown'.
  { intros v. rewrite elem_of_join_room. intros [Hv|Hv]; [|by apply Hown].
    by destruct (rooms_differ id v). }
  exists u. unfold markConversationJoined, getJoinedConversationIds. cbn [c_joinedConversationIds join_room].
  rewrite Hj. cbn [default]. case_bool_decide as Hin; (split; [done|]); cbn; rewrite Hns.
  - exists joined. split; [done|]. split; [|exact Hown'].
    intros id'. pose proof (elem_of_join_room (getConversationRoom id) c (getConversationRoom id')) as E.
    cbn in E. rewrite E, conversation_room_inj, Hr. naive_solver.
  - exists (joined ++ [id]). split; [done|]. split; [|exact Hown'].
    intros id'. pose proof (elem_of_join_room (getConversationRoom id) c (getConversationRoom id')) as E.
    cbn in E. rewrite E, conversation_room_inj, Hr, elem_of_app, list_elem_of_singleton. naive_solver.
Qed.

Lemma socket_ok_leave id c :
  c_namespace c = ns_chat → socket_ok c →
  socket_ok (markConversationLeft id (leave_room (getConversationRoom id) c)).
Proof.
  intros Hns (u & Hu & Hok). rewrite Hns in Hok. destruct Hok as (joined & Hj & Hr & Hown).
  exists u. split; [done|]. unfold markConversationLeft, getJoinedConversationIds.
  cbn [c_joinedConversationIds leave_room]. rewrite Hj. cbn. rewrite Hns.
  exists (filter (λ joinedId, joinedId ≠ id) joined). split; [done|]. split.
  - intros id'. rewrite !list_elem_of_filter, conversation_room_inj, Hr. naive_solver.
  - intros v. rewrite list_elem_of_filter. intros [_ Hv]. by apply Hown.
Qed.

(** While a socket of a namespace is being served. *)
Definition serving (ns : Namespace) (k : nat) (w : World) : Prop :=
  sockets_ok w ∧ ∀ c, w_clients w !! k = Some c → c_namespace c = ns.
#[local] Instance serving_read ns k : ReadInvariant (serving ns k).
Proof. split; [split|..]; by intros f w. Qed.
#[local] Instance serving_emitted ns k : IgnoresEmitted (serving ns k).
Proof. by intros f w. Qed.

Lemma serving_on_client ns k f :
  (∀ c, c_namespace c = ns → socket_ok c → socket_ok (f c) ∧ c_namespace (f c) = ns) →
  preserves (serving ns k) (on_client k f).
Proof.
  intros Hf. apply preserves_modify. intros w [Hw Hk].
  assert (∀ c, w_clients w !! k = Some c → socket_ok (f c) ∧ c_namespace (f c) = ns) as Hfk.
  { intros c Hc. apply Hf; [by apply Hk|by apply (Hw k)]. }
  split.
  - intros i c. cbn. rewrite lookup_alter. case_decide as Hi; [|by apply (Hw i)].
    subst i. intros (c' & Hc' & ->)%fmap_Some. by apply Hfk.
  - intros c. cbn. rewrite lookup_alter_eq. intros (c' & Hc' & ->)%fmap_Some. by apply Hfk.
Qed.

Lemma serving_dispatched ns k m :
  preserves (serving ns k) m → preserves sockets_ok (dispatched ns k m).
Proof.
  intros Hm w Hw. unfold dispatched. rewrite run_bind. cbn [gets].
  destruct (w_clients w !! k) as [c|] eqn:Ec; [|done]. case_bool_decide as Hns; [|done].
  apply Hm. split; [done|]. intros c' Hc'. congruence.
Qed.

Section rooms.
Context `{Host} `{Mongo}.

Lemma run_getClientUser k w :
  getClientUser k w
  = match w_clients w !! k ≫= c_user with
    | Some u => (Ok u, w)
    | None => (Throw (PlainError (js "Socket user is missing")), w)
    end.
Proof. unfold getClientUser. rewrite run_bind. cbn [gets]. by destruct (_ ≫= c_user). Qed.

(** Joining one's own room. *)
Lemma serving_own_room ns k (rest : M World ()) :
  preserves (serving ns k) rest →
  preserves (serving ns k)
    (user ← getClientUser k; on_client k (join_room (getUserRoom (su_id user))) ;; rest).
Proof.
  intros Hrest w Hw. rewrite run_bind, run_getClientUser.
  destruct (w_clients w !! k) as [c|] eqn:Ec; [|done]. cbn [mbind option_bind].
  destruct (c_user c) as [u|] eqn:Eu; [|done]. rewrite run_bind. cbn [on_client modify].
  apply Hrest. destruct Hw as [Hw Hk]. split.
  - intros i c'. cbn. rewrite lookup_alter. case_decide as Hi; [|by apply (Hw i)].
    subst i. rewrite Ec. intros [= <-]. apply socket_ok_own_room; [done|]. by apply (Hw k).
  - intros c'. cbn. rewrite lookup_alter_eq, Ec. intros [= <-]. by apply (Hk c).
Qed.

Lemma run_on_clients {A} k (g : A → Client → Client) l w :
  ∃ f, forM_ l (λ a, on_client k (g a)) w = (Ok tt, upd_clients (alter f k) w).
Proof.
  revert w. induction l as [|a l IH]; intros w.
  - exists (λ c, c). cbn [forM_]. unfold upd_clients. rewrite alter_id by done. by destruct w.
  - destruct (IH (upd_clients (alter (g a) k) w)) as [f Hf]. exists (f ∘ g a).
    cbn [forM_]. rewrite run_bind. cbn [on_client modify]. rewrite Hf.
    destruct w; unfold upd_clients; cbn. do 2 f_equal. apply map_eq. intros i.
    destruct (decide (k = i)) as [->|]; [|by rewrite !lookup_alter_ne by done].
    rewrite !lookup_alter_eq. by destruct (_ !! i).
Qed.

#[export] Instance sockets_ok_invariant : SocketInvariant sockets_ok.
Proof.
  split.
  - intros ns k h. unfold connect, authenticateSocketClient.
    apply preserves_bind; [keep_solve|intros [u|]; [|apply preserves_ret]].
    apply preserves_bind; [|intros ?; apply preserves_ret].
    apply preserves_modify. intros w Hw i c Hi. cbn in Hi.
    apply lookup_insert_Some in Hi as [[<- <-]|[_ Hi]].
    + apply socket_ok_new.
    + by apply (Hw i).
  - intros k. apply serving_dispatched. apply serving_own_room. keep_solve.
  - intros k w Hw. unfold handleDisconnect. rewrite run_bind. cbn [gets]. rewrite run_bind.
    destruct (run_on_clients k (λ id c, markConversationLeft id (leave_room (getConversationRoom id) c))
      (default [] (getJoinedConversationIds <$> w_clients w !! k)) w) as [f ->].
    intros i c. cbn. rewrite lookup_delete_Some, lookup_alter.
    case_decide; [naive_solver|]. intros [_ Hi]. by apply (Hw i).
  - intros k c. apply serving_dispatched. unfold handleJoinConversation, acknowledged. keep_solve.
    apply serving_on_client. intros cl Hns Hok. split; [by apply socket_ok_join|].
    unfold markConversationJoined. by case_bool_decide.
  - intros k c. apply serving_dispatched. unfold handleLeaveConversation. keep_solve.
    apply serving_on_client. intros cl Hns Hok. split; [by apply socket_ok_leave|done].
  - intros k. apply serving_dispatched. intros w Hw.
    pose proof (serving_own_room ns_ai k (mret tt) (preserves_ret _ _) w Hw) as Hr.
    unfold ai_handleConnection. rewrite run_bind in Hr |- *. by destruct (getClientUser k w) as [[?|?|] ?].
Qed.

Lemma reachable_sockets_ok w0 w : w_clients w0 = ∅ → reachable w0 w → sockets_ok w.
Proof.
  intros Hempty. apply (reachable_invariant sockets_ok).
  - intros o. apply preserves_run_op; apply _.
  - intros k c. by rewrite Hempty, lookup_empty.
Qed.

Lemma no_ai_conversation_room w k id :
  sockets_ok w → reaches (w_clients w) (ToRoom ns_ai (getConversationRoom id)) k = false.
Proof.
  intros Hok. unfold reaches. destruct (w_clients w !! k) as [c|] eqn:Hc; [|done].
  destruct (Hok k c Hc) as (u & Hu & Hns). case_bool_decide as E; [|done].
  rewrite E in Hns. apply bool_decide_eq_false. rewrite Forall_forall in Hns.
  intros Hin. by apply Hns, rooms_differ in Hin.
Qed.

(** C18: in every state the backend reaches, each chat socket is in the room of a conversation
    exactly when its bookkeeping lists the conversation, and no socket is in the room of
    another user; but no assistant socket is ever in a conversation's room, so that the
    [ai:response] which [handleAiChat] sends there reaches nobody. *)
Theorem rooms_consistent w0 w :
  w_clients w0 = ∅ → reachable w0 w →
  (∀ k c, w_clients w !! k = Some c → ∃ u, c_user c = Some u
     ∧ (∀ v, getUserRoom v ∈ c_rooms c → v = su_id u)
     ∧ (c_namespace c = ns_chat →
        ∀ id, getConversationRoom id ∈ c_rooms c ↔ id ∈ getJoinedConversationIds c))
  ∧ ∀ k id, reaches (w_clients w) (ToRoom ns_ai (getConversationRoom id)) k = false.
Proof.
  intros Hempty Hr. pose proof (reachable_sockets_ok w0 w Hempty Hr) as Hok. split.
  - intros k c Hc. destruct (Hok k c Hc) as (u & Hu & Hns). exists u. split; [done|].
    destruct (c_namespace c).
    + destruct Hns as (joined & Hj & Hrooms & Hown). split; [done|]. intros _ id.
      unfold getJoinedConversationIds. by rewrite Hj.
    + rewrite Forall_forall in Hns. split; [|done]. intros v Hv.
      by apply user_room_inj, Hns.
  - intros k id. by apply no_ai_conversation_room.
Qed.
End rooms.

(** ** Sending through the socket *)

Section delivery.
Context `{Host} `{!OidLaws} `{MongoLaws}.

Lemma run_sender i w : ∃ s, buildSenderPresentation i w = (Ok s, w).
Proof.
  unfold buildSenderPresentation, auth_findById, cast_oid, model_findById.
  rewrite oid_parse_show. by eexists.
Qed.

Lemma sender_safe P i : throws_only P (buildSenderPresentation i).
Proof. intros w e w' E. destruct (run_sender i w) as [s Hs]. by rewrite Hs in E. Qed.
Lemma display_safe P m : throws_only P (toDisplayMessage m).
Proof. apply throws_bind; [apply sender_safe|intros s]. apply throws_try. intros e. apply throws_ret. Qed.
Lemma realtime_safe P m : throws_only P (toRealtimeMessagePayload m).
Proof.
  apply throws_try. intros e. apply throws_bind; [apply sender_safe|intros s]. apply throws_ret.
Qed.

Lemma realtime_Ok m w r w' :
  toRealtimeMessagePayload m w = (Ok r, w') →
  rt_messageId r = oid_show m.1 ∧ rt_conversationId r = oid_show (m_conversationId m.2)
  ∧ rt_senderId r = oid_show (m_senderId m.2).
Proof.
  intros [E|(e & w1 & _ & E)]%try_Ok_inv.
  - apply bind_Ok_inv in E as (d & w1 & _ & E). apply bind_Ok_inv in E as (s & w2 & _ & E).
    by injection E as <- _.
  - apply bind_Ok_inv in E as (s & w2 & _ & E). by injection E as <- _.
Qed.

(** The previews: one for each active participant, and nothing else happens. *)
Lemma preview_safe P c conversationId userId :
  oid_parse conversationId = Some c →
  throws_only P (buildConversationPreviewPayload conversationId (oid_show userId)).
Proof.
  intros Hc. unfold buildConversationPreviewPayload, latest_message, parse_oid, cast_oid,
    getActiveParticipant, parse_oid. rewrite Hc, oid_parse_show. cbn [or_throw].
  repeat first [apply display_safe|exn_step|intros w e w' E; discriminate E].
Qed.

Lemma previews_run c conversationId w :
  oid_parse conversationId = Some c →
  match buildConversationPreviewPayloads conversationId w with
  | (Ok l, w') => l.*1 = (λ p, oid_show (p_userId p.2)) <$> mg_find (active_in c) (w_participants w)
  | (Throw _, _) => False
  | (Hang, _) => True
  end.
Proof.
  intros Hc. unfold buildConversationPreviewPayloads, getActiveParticipants, parse_oid.
  rewrite Hc. cbn [or_throw]. rewrite run_bind, run_bind. cbn [mret M_ret model_find gets m_get participantModel].
  generalize (mg_find (active_in c) (w_participants w)) as ps. intros ps. revert w.
  induction ps as [|p ps IH]; intros w; [reflexivity|]. cbn [forM]. cbv zeta.
  rewrite run_bind, run_bind.
  pose proof (preview_safe (λ _, False) c conversationId (p_userId p.2) Hc w) as Hs.
  destruct (buildConversationPreviewPayload _ _ w) as [[v|e|] w1]; [|by eapply Hs|done].
  cbn [mret M_ret]. specialize (IH w1). rewrite run_bind.
  destruct (forM ps _ w1) as [[l|e|] w2]; [|done|done].
  cbn [mret M_ret]. by rewrite !fmap_cons, IH.
Qed.

(** [sendRealtimeMessage]: a message and its payload, or no message at all. *)
Lemma sendRealtime_cases conversationId s t a ai w :
  match sendRealtimeMessage conversationId s t a ai w with
  | (Ok r, w') => ∃ c i m,
      oid_parse conversationId = Some c ∧ oid_parse s = Some (m_senderId m)
      ∧ m_conversationId m = c ∧ w_messages w !! i = None
      ∧ w_messages w' = <[i:=m]> (w_messages w)
      ∧ rt_messageId (rr_message r) = oid_show i
      ∧ rt_conversationId (rr_message r) = oid_show c
      ∧ rt_senderId (rr_message r) = oid_show (m_senderId m)
      ∧ (rr_previewByUserId r).*1
        = (λ p, oid_show (p_userId p.2)) <$> mg_find (active_in c) (w_participants w')
  | (Throw _, w') => NotSent conversationId s w w'
  | (Hang, _) => True
  end.
Proof.
  assert (∃ a', sendRealtimeMessage conversationId s t a ai
    = (sent ← sendMessage conversationId s t a' ai;
       message ← toRealtimeMessagePayload (sr_message sent);
       previews ← buildConversationPreviewPayloads conversationId;
       mret (mkRealtimeResult message previews (sr_restoredParticipants sent)))) as [a' ->].
  { unfold sendRealtimeMessage. case_bool_decide; [by eexists|]. by destruct ai; eexists. }
  rewrite run_bind. pose proof (sendMessage_cases conversationId s t a' ai w) as Hs.
  destruct (sendMessage conversationId s t a' ai w) as [[sent|e|] w1]; [|done|done].
  destruct Hs as (c & s' & me & att & st & t1 & t2 & S).
  rewrite run_bind. pose proof (realtime_safe (λ _, False) (sr_message sent) w1) as Hsafe.
  pose proof (keeps_toRealtime (λ w2, database w2 = database w1) (sr_message sent) w1 eq_refl) as Hd.
  destruct (toRealtimeMessagePayload (sr_message sent) w1) as [[r|e|] w2] eqn:Er;
    [|by destruct (Hsafe e w2)|done].
  cbn [snd] in Hd. rewrite run_bind. pose proof S as Hc%sent_conversation.
  pose proof (previews_run c conversationId w2 Hc) as Hp.
  pose proof (keeps_previews (λ w3, database w3 = database w2) conversationId w2 eq_refl) as Hd2.
  destruct (buildConversationPreviewPayloads conversationId w2) as [[l|e|] w3]; [|done|done].
  cbn [mret M_ret snd] in *. apply realtime_Ok in Er as (H1' & H2' & H3').
  destruct S as [_ Hsn _ _ _ Hm Hf Hms _ _ _ _].
  injection Hd as _ _ _ _ Hpa Hme _ _. injection Hd2 as _ _ _ _ Hpa2 Hme2 _ _.
  exists c, (sr_message sent).1, (sr_message sent).2. rewrite Hm in *. cbn in *.
  split_and!; try done; [by rewrite Hme2, Hme|by rewrite Hpa2].
Qed.

Lemma run_emits {A} (to : A → Target) (ev : A → Event) l w :
  forM_ l (λ x, emit (to x) (ev x)) w
  = (Ok tt, upd_emitted (λ es, es ++ ((λ x, mkEmission (to x) (ev x)) <$> l)) w).
Proof.
  revert w. induction l as [|x l IH]; intros w; cbn [forM_].
  - unfold upd_emitted. cbn. rewrite app_nil_r. by destruct w.
  - rewrite run_bind. cbn [emit modify]. rewrite IH. unfold upd_emitted. cbn.
    by rewrite <-app_assoc.
Qed.

(** The emissions of a delivery: the previews, then the message to the conversation and to
    each user. *)
Definition deliveries (conversationId : jsstring)
    (previews : list (jsstring * ConversationPreviewPayload)) (message : RealtimeMessagePayload)
    : list Emission :=
  ((λ p, mkEmission (ToRoom ns_chat (getUserRoom p.1)) (conversation_preview_updated p.2))
     <$> previews)
  ++ mkEmission (ToRoom ns_chat (getConversationRoom conversationId)) (message_delivered message)
  :: ((λ u, mkEmission (ToRoom ns_chat (getUserRoom u)) (message_delivered message))
        <$> previews.*1).

Lemma run_deliver conversationId previews message w :
  (emitConversationPreviews previews ;;
   emitRealtimeMessage conversationId (fst <$> previews) message ;; mret message) w
  = (Ok message, upd_emitted (λ es, es ++ deliveries conversationId previews message) w).
Proof.
  unfold emitConversationPreviews, emitRealtimeMessage.
  rewrite run_bind, run_emits, run_bind, run_bind. cbn [emit modify]. rewrite run_emits.
  cbn [mret M_ret]. unfold upd_emitted, deliveries. cbn. by rewrite <-!app_assoc.
Qed.

Lemma elem_of_deliveries conversationId previews message to m :
  mkEmission to (message_delivered m) ∈ deliveries conversationId previews message
  ↔ m = message ∧ (to = ToRoom ns_chat (getConversationRoom conversationId)
                   ∨ ∃ u, u ∈ previews.*1 ∧ to = ToRoom ns_chat (getUserRoom u)).
Proof.
  unfold deliveries. rewrite elem_of_app, elem_of_cons, !list_elem_of_fmap. split.
  - intros [(p & E & _)|[E|(u & E & Hu)]]; [done|injection E as -> ->; auto|].
    injection E as -> ->. eauto.
  - intros [-> [->|(u & Hu & ->)]]; eauto.
Qed.

(** Of a send, the sockets and the emissions stay as they are. *)
Lemma sendMessage_sockets conversationId s t a ai w :
  let w' := (sendMessage conversationId s t a ai w).2 in
  w_clients w' = w_clients w ∧ w_emitted w' = w_emitted w.
Proof.
  split.
  - by apply (@quiet_sendMessage _ _ (λ w', w_clients w' = w_clients w) (clients_read (λ cl, cl = w_clients w))
                (clients_store (λ cl, cl = w_clients w))).
  - by apply (@quiet_sendMessage _ _ (λ w', w_emitted w' = w_emitted w) (emitted_read (λ es, es = w_emitted w))
                (emitted_store (λ es, es = w_emitted w))).
Qed.

(** C28: a send that throws (no participant, bad attachment, processor unreachable, ...)
    stores no message, touches no attachment, no conversation and no membership event,
    emits nothing and moves no unread counter.  The one thing it may have done is to make
    active again the peers who had left a direct conversation. *)
Theorem failed_send_no_trace conversationId senderId content attachmentId isAICommand w e w' :
  sendMessage conversationId senderId content attachmentId isAICommand w = (Throw e, w') →
  w_messages w' = w_messages w ∧ w_attachments w' = w_attachments w
  ∧ w_conversations w' = w_conversations w ∧ w_events w' = w_events w
  ∧ w_emitted w' = w_emitted w ∧ w_clients w' = w_clients w
  ∧ dom (w_participants w') = dom (w_participants w)
  ∧ ∀ i p, w_participants w !! i = Some p →
      ∃ p', w_participants w' !! i = Some p' ∧ p_unreadCount p' = p_unreadCount p ∧
        (p' = p ∨ p' = set_status active p ∧ ∃ c, oid_parse conversationId = Some c ∧
           is_direct w c = true ∧ peer_to_restore c senderId (i, p) = true).
Proof.
  intros E. pose proof (sendMessage_cases conversationId senderId content attachmentId
    isAICommand w) as Hc. rewrite E in Hc. destruct Hc as [Hf Hp].
  pose proof (sendMessage_sockets conversationId senderId content attachmentId isAICommand w) as [Hcl Hem].
  rewrite E in Hcl, Hem. injection Hf as ???????. split_and!; try done.
  - destruct Hp as [Hp|(c & _ & Hp)]; rewrite Hp; [done|]. apply set_eq. intros i.
    rewrite !elem_of_dom, lookup_restore_peers. by destruct (w_participants w !! i).
  - intros i p Hi. destruct Hp as [Hp|(c & Hcv & Hp)]; rewrite Hp; [exists p; auto|].
    rewrite lookup_restore_peers, Hi. cbn. eexists. split; [done|].
    destruct (is_direct w c && peer_to_restore c senderId (i, p)) eqn:Eb; [|auto].
    apply andb_prop in Eb as [Hd Hr]. split; [done|]. right. split; [done|]. by exists c.
Qed.

(** A send leaves the sockets and, until it is done, the emissions alone. *)
Lemma sendRealtime_sockets conversationId s t a ai w :
  let w' := (sendRealtimeMessage conversationId s t a ai w).2 in
  w_clients w' = w_clients w ∧ w_emitted w' = w_emitted w.
Proof.
  assert (∀ I, ReadInvariant I → IgnoresStore I →
    preserves I (sendRealtimeMessage conversationId s t a ai)) as Hq.
  { intros I ? ?. unfold sendRealtimeMessage. keep_solve. }
  split.
  - by apply (Hq (λ w', w_clients w' = w_clients w) (clients_read (λ cl, cl = w_clients w))
                (clients_store (λ cl, cl = w_clients w))).
  - by apply (Hq (λ w', w_emitted w' = w_emitted w) (emitted_read (λ es, es = w_emitted w))
                (emitted_store (λ es, es = w_emitted w))).
Qed.

(** The two ways a send through the socket ends. *)
Lemma handleSend_run client payload w ack tasks w' :
  handleSendMessage client payload w = (Ok (ack, tasks), w') →
  ∃ user, w_clients w !! client ≫= c_user = Some user ∧
    let content := trim (sp_content payload) in
    let sent := sendRealtimeMessage (sp_conversationId payload) (su_id user) content
                  (sp_attachmentId payload) (shouldReply content) w in
    (∃ r w1, sent = (Ok r, w1) ∧ ack = Success (rr_message r)
       ∧ w' = upd_emitted (λ es, es ++ deliveries (sp_conversationId payload)
                                         (rr_previewByUserId r) (rr_message r)) w1)
    ∨ ∃ e, sent = (Throw e, w') ∧ ack = toErrorAck e (Some (sp_conversationId payload)) ∧ tasks = [].
Proof.
  unfold handleSendMessage, send_and_deliver. rewrite run_bind, run_getClientUser.
  destruct (_ ≫= c_user) as [user|]; [|done]. cbv zeta. intros E. exists user. split; [done|].
  unfold try_catch in E. rewrite run_bind, run_bind in E.
  destruct (sendRealtimeMessage _ _ _ _ _ w) as [[r|e|] w1]; [left|right|done].
  - rewrite run_deliver in E. injection E as <- _ <-. by exists r, w1.
  - injection E as <- <- <-. by exists e.
Qed.

(** The users a delivery goes to. *)
Lemma elem_of_users (P : jsstring → Prop) c (ps : collection Participant) :
  (∃ u, u ∈ (λ p : doc Participant, oid_show (p_userId p.2)) <$> mg_find (active_in c) ps ∧ P u)
  ↔ ∃ j p, ps !! j = Some p ∧ active_in c (j, p) = true ∧ P (oid_show (p_userId p)).
Proof.
  setoid_rewrite list_elem_of_fmap. split.
  - intros (u & ((j & p) & -> & [Hj Hq]%elem_of_find) & HP). eauto.
  - intros (j & p & Hj & Hq & HP). eexists. split; [|done]. exists (j, p). split; [done|].
    by apply elem_of_find.
Qed.

Lemma api_removeMember_clients authorization c u w :
  w_clients (api_removeMember authorization c u w).2 = w_clients w.
Proof.
  pose proof (clients_read (λ cl, cl = w_clients w)). pose proof (clients_store (λ cl, cl = w_clients w)).
  assert (preserves (λ w', w_clients w' = w_clients w) (api_removeMember authorization c u)) as Hq.
  { unfold api_removeMember, guarded. keep_solve. }
  by apply Hq.
Qed.

(** C17: the acknowledgement of [send_message] tells the truth: after a success exactly one
    message has been added, from the socket's user to that conversation, and it has been
    delivered to the room of the conversation and to each of its active participants and
    to nobody else; after a failure no message was stored, nothing was emitted and no
    assistant work was started. *)
Theorem ack_matches_store client payload w ack tasks w' :
  handleSendMessage client payload w = (Ok (ack, tasks), w') →
  ∃ user, w_clients w !! client ≫= c_user = Some user ∧ w_clients w' = w_clients w ∧
  match ack with
  | Success r => ∃ c i m emitted,
      oid_parse (sp_conversationId payload) = Some c ∧ m_conversationId m = c
      ∧ oid_parse (su_id user) = Some (m_senderId m)
      ∧ w_messages w !! i = None ∧ w_messages w' = <[i:=m]> (w_messages w)
      ∧ rt_messageId r = oid_show i ∧ rt_conversationId r = oid_show c
      ∧ rt_senderId r = oid_show (m_senderId m)
      ∧ w_emitted w' = w_emitted w ++ emitted
      ∧ ∀ to r', mkEmission to (message_delivered r') ∈ emitted ↔
          r' = r ∧ (to = ToRoom ns_chat (getConversationRoom (sp_conversationId payload))
                    ∨ ∃ j p, w_participants w' !! j = Some p ∧ active_in c (j, p) = true
                        ∧ to = ToRoom ns_chat (getUserRoom (oid_show (p_userId p))))
  | Failure _ => NotSent (sp_conversationId payload) (su_id user) w w'
      ∧ w_emitted w' = w_emitted w ∧ tasks = []
  end.
Proof.
  intros E. apply handleSend_run in E as (user & Hu & E). exists user. split; [done|]. cbv zeta in E.
  set (content := trim (sp_content payload)) in *. set (ai := shouldReply content) in *.
  pose proof (sendRealtime_cases (sp_conversationId payload) (su_id user) content
    (sp_attachmentId payload) ai w) as Hs.
  pose proof (sendRealtime_sockets (sp_conversationId payload) (su_id user) content
    (sp_attachmentId payload) ai w) as [Hcl Hem].
  destruct E as [(r & w1 & Es & -> & ->)|(e & Es & -> & ->)]; rewrite Es in Hs, Hcl, Hem;
    cbn [snd] in Hcl, Hem; [|by split_and!].
  split; [done|]. destruct Hs as (c & i & m & H1' & H2' & H3' & H4' & H5' & H6' & H7' & H8' & H9').
  exists c, i, m. eexists. split_and!; try done; [cbn; by rewrite Hem|].
  intros to r'. rewrite elem_of_deliveries, H9', elem_of_users. done.
Qed.

(** C32: removing a member does not take the member's sockets out of the conversation's room:
    the member has no access any more, and a socket that was in the room still receives
    what is sent there. *)
Theorem departed_member_keeps_hearing authorization c u k client sender payload w w1 r tasks w2 :
  active_once w c u →
  w_clients w !! k = Some client → c_namespace client = ns_chat →
  getConversationRoom (oid_show c) ∈ c_rooms client →
  api_removeMember authorization (oid_show c) (oid_show u) w = (Ok tt, w1) →
  sp_conversationId payload = oid_show c →
  handleSendMessage sender payload w1 = (Ok (Success r, tasks), w2) →
  requireActiveParticipant (oid_show c) (oid_show u) w1 = (Throw not_active_participant, w1)
  ∧ ∃ to, mkEmission to (message_delivered r) ∈ drop (length (w_emitted w1)) (w_emitted w2)
          ∧ reaches (w_clients w2) to k = true.
Proof.
  intros Honce Hk Hns Hroom E Hc Es. split.
  - apply (no_access_refused c u (js "text") None false); [|by left].
    unfold api_removeMember, guarded in E.
    apply bind_Ok_inv in E as (actor & w3 & E1 & E).
    pose proof (keeps_canActivate (λ w', database w' = database w) authorization w eq_refl) as Hd.
    rewrite E1 in Hd. apply bind_Ok_inv in E as (role & w4 & E2 & E).
    pose proof (keeps_requireAdmin (λ w', database w' = database w) (oid_show c) (su_id actor) w3 Hd)
      as Hd2. rewrite E2 in Hd2. cbn [snd] in Hd2. injection Hd2 as _ _ _ _ Hp _ _ _.
    apply (departed_no_access c u (su_id actor) false w4); [|done].
    unfold active_once. by rewrite Hp.
  - pose proof (api_removeMember_clients authorization (oid_show c) (oid_show u) w) as Hcl.
    rewrite E in Hcl. cbn [snd] in Hcl. apply handleSend_run in Es as (user & _ & Es).
    pose proof (sendRealtime_sockets (sp_conversationId payload) (su_id user) (trim (sp_content payload))
      (sp_attachmentId payload) (shouldReply (trim (sp_content payload))) w1) as [Hcl2 Hem].
    destruct Es as [(r' & w3 & Es & [= ->] & ->)|(e & _ & ? & _)]; [|done].
    rewrite Es in Hcl2, Hem. cbn [snd] in Hcl2, Hem.
    exists (ToRoom ns_chat (getConversationRoom (oid_show c))). cbn [w_emitted w_clients upd_emitted].
    split.
    + rewrite Hem, drop_app_length. rewrite elem_of_deliveries, Hc. auto.
    + unfold reaches. rewrite Hcl2, Hcl, Hk. by rewrite !bool_decide_eq_true_2.
Qed.
End delivery.

(** ** Witnesses *)

#[local] Instance demo_host_inst : Host := demo_host demo_env.
#[local] Instance demo_mongo_inst : Mongo := list_mongo.
#[local] Instance demo_laws_inst : MongoLaws := list_mongo_laws.
#[local] Instance demo_oids_inst : OidLaws := demo_oid_laws demo_env.

(** A stranger sends to the conversation of [ChatSend]. *)
Lemma failed_send_no_trace_witness :
  ∃ e w', sendMessage [1] [12] (js "hello") None false demo_chat = (Throw e, w')
    ∧ w_messages w' = w_messages demo_chat ∧ w_emitted w' = w_emitted demo_chat
    ∧ ∃ p, w_participants demo_chat !! Oid 21 = Some p ∧
        ∃ p', w_participants w' !! Oid 21 = Some p' ∧ p_unreadCount p' = p_unreadCount p.
Proof.
  destruct (sendMessage [1] [12] (js "hello") None false demo_chat) as [[r|e|] w'] eqn:E;
    [by vm_compute in E| |by vm_compute in E].
  exists e, w'. split; [done|].
  destruct (failed_send_no_trace [1] [12] (js "hello") None false demo_chat e w') as
    (Hm & _ & _ & _ & He & _ & _ & Hp); [exact E|]. split; [exact Hm|]. split; [exact He|].
  exists (demo_participant 10 1). split; [vm_compute; reflexivity|].
  destruct (Hp (Oid 21) (demo_participant 10 1)) as (p' & Hp' & Hu & _); [vm_compute; reflexivity|].
  by exists p'.
Defined.

(** A second user registers, the first opens a group with both, both connect a socket, and
    the second joins the conversation's room. *)
Definition demo_reg2 : RegisterLocalAuthDto :=
  mkRegisterDto (js "Binh@example.com") (js "binh") (js "Binh") (js "secret") (js "secret").
Definition demo_two : World :=
  (run_op (Register demo_reg2 demo_request) (run_op demo_registration empty_world).2).2.
Definition demo_token2 : option jsstring :=
  match (registerLocal demo_reg2 demo_request (run_op demo_registration empty_world).2).1 with
  | Ok r => Some (rsp_accessToken r)
  | _ => None
  end.
Definition demo_team_ops : list Op :=
  [demo_registration; Register demo_reg2 demo_request;
   CreateConversation demo_auth (mkCreateDto group (Some (js "team")) [oid_show (Oid 1010)]);
   SocketConnect ns_chat 0 (mkHandshake None demo_auth); ChatConnection 0;
   SocketConnect ns_chat 1 (mkHandshake demo_token2 None); ChatConnection 1;
   JoinConversation 1 (oid_show (Oid 1019));
   SocketConnect ns_ai 2 (mkHandshake demo_token2 None); AiConnection 2].
Definition demo_team : World := foldl (λ w o, (run_op o w).2) empty_world demo_team_ops.

Lemma demo_team_reachable : reachable empty_world demo_team.
Proof.
  unfold demo_team. generalize demo_team_ops as ops.
  enough (∀ ops w, reachable empty_world w → reachable empty_world (foldl (λ w o, (run_op o w).2) w ops))
    as Hg by (intros ops; apply Hg, reachable_start).
  intros ops. induction ops as [|o ops IH]; intros w Hw; [done|]. cbn [foldl].
  by apply IH, reachable_step.
Qed.

Lemma active_once_check w c u :
  let l := filter (λ x, active_participant c u x = true) (map_to_list (w_participants w)) in
  forallb (λ x : doc Participant, forallb (λ y : doc Participant, bool_decide (x.1 = y.1)) l) l = true →
  active_once w c u.
Proof.
  intros l Hl i j p q Hi Hj Hp Hq. rewrite forallb_forall in Hl.
  assert (∀ k r, w_participants w !! k = Some r → active_participant c u (k, r) = true →
    In (k, r) l) as Hin.
  { intros k r Hk Hr. apply list_elem_of_In, list_elem_of_filter. split; [done|].
    by apply elem_of_map_to_list. }
  specialize (Hl _ (Hin i p Hi Hp)). rewrite forallb_forall in Hl.
  by specialize (Hl _ (Hin j q Hj Hq)); apply bool_decide_eq_true in Hl.
Qed.

Lemma demo_team_client :
  ∃ c, w_clients demo_team !! 1%nat = Some c ∧ c_namespace c = ns_chat
       ∧ getConversationRoom (oid_show (Oid 1019)) ∈ c_rooms c.
Proof.
  destruct (w_clients demo_team !! 1%nat) as [c|] eqn:Ec; vm_compute in Ec; [|discriminate Ec].
  injection Ec as <-. eexists. split; [reflexivity|]. split; [reflexivity|].
  apply (bool_decide_eq_true_1 _). reflexivity.
Qed.

Lemma rooms_consistent_witness :
  ∃ c, w_clients demo_team !! 1%nat = Some c
    ∧ oid_show (Oid 1019) ∈ getJoinedConversationIds c
    ∧ reaches (w_clients demo_team) (ToRoom ns_ai (getConversationRoom (oid_show (Oid 1019)))) 1 = false.
Proof.
  destruct (rooms_consistent empty_world demo_team eq_refl demo_team_reachable) as [Hrooms Hai].
  destruct demo_team_client as (c & Hc & Hns & Hin). exists c.
  destruct (Hrooms 1%nat c Hc) as (u & _ & _ & Hj).
  split; [exact Hc|]. split; [exact (proj1 (Hj Hns _) Hin)|apply Hai].
Defined.

Definition demo_payload : SendMessagePayload :=
  mkSendPayload (oid_show (Oid 1019)) (js "hello") None.

(** The first user sends to the group, and sends again after removing the second. *)
Definition demo_sent : outcome (Ack RealtimeMessagePayload * list Task) * World :=
  handleSendMessage 0 demo_payload demo_team.
Definition demo_removed : World :=
  (api_removeMember demo_auth (oid_show (Oid 1019)) (oid_show (Oid 1010)) demo_team).2.
Definition demo_sent_after : outcome (Ack RealtimeMessagePayload * list Task) * World :=
  handleSendMessage 0 demo_payload demo_removed.
Definition is_success (o : outcome (Ack RealtimeMessagePayload * list Task)) : bool :=
  match o with Ok (Success _, _) => true | _ => false end.

Lemma success_inv (p : outcome (Ack RealtimeMessagePayload * list Task) * World) :
  is_success p.1 = true → ∃ r tasks w', p = (Ok (Success r, tasks), w').
Proof. destruct p as [[[[r|f] tasks]|e|] w']; cbn; try discriminate. eauto. Qed.

Lemma demo_sent_success : is_success demo_sent.1 = true.
Proof. vm_compute. reflexivity. Qed.
Lemma demo_removed_run :
  api_removeMember demo_auth (oid_show (Oid 1019)) (oid_show (Oid 1010)) demo_team
  = (Ok tt, demo_removed).
Proof.
  unfold demo_removed.
  assert ((api_removeMember demo_auth (oid_show (Oid 1019)) (oid_show (Oid 1010)) demo_team).1 = Ok tt)
    as E by (vm_compute; reflexivity).
  revert E. generalize (api_removeMember demo_auth (oid_show (Oid 1019)) (oid_show (Oid 1010)) demo_team).
  intros [o w'] E. cbn in E. by rewrite E.
Qed.
Lemma demo_sent_after_success : is_success demo_sent_after.1 = true.
Proof. vm_compute. reflexivity. Qed.
Lemma demo_once : active_once demo_team (Oid 1019) (Oid 1010).
Proof. apply active_once_check. vm_compute. reflexivity. Qed.

Lemma ack_matches_store_witness :
  ∃ r tasks w', demo_sent = (Ok (Success r, tasks), w')
    ∧ ∃ user, w_clients demo_team !! 0%nat ≫= c_user = Some user
      ∧ ∃ c i m emitted, oid_parse (sp_conversationId demo_payload) = Some c
        ∧ oid_parse (su_id user) = Some (m_senderId m)
        ∧ w_messages w' = <[i:=m]> (w_messages demo_team)
        ∧ w_emitted w' = w_emitted demo_team ++ emitted
        ∧ mkEmission (ToRoom ns_chat (getConversationRoom (sp_conversationId demo_payload)))
            (message_delivered r) ∈ emitted.
Proof.
  destruct (success_inv demo_sent demo_sent_success) as (r & tasks & w' & E).
  exists r, tasks, w'. split; [exact E|]. unfold demo_sent in E.
  destruct (ack_matches_store 0 demo_payload demo_team (Success r) tasks w' E)
    as (user & Hu & _ & c & i & m & em & Hc & _ & Hs & _ & Hm & _ & _ & _ & He & Hd).
  exists user. split; [exact Hu|]. exists c, i, m, em.
  split; [exact Hc|]. split; [exact Hs|]. split; [exact Hm|]. split; [exact He|].
  apply Hd. split; [reflexivity|]. left. reflexivity.
Defined.

Lemma departed_member_keeps_hearing_witness :
  ∃ r tasks w2, demo_sent_after = (Ok (Success r, tasks), w2)
    ∧ requireActiveParticipant (oid_show (Oid 1019)) (oid_show (Oid 1010)) demo_removed
      = (Throw not_active_participant, demo_removed)
    ∧ ∃ to, mkEmission to (message_delivered r) ∈ drop (length (w_emitted demo_removed)) (w_emitted w2)
            ∧ reaches (w_clients w2) to 1 = true.
Proof.
  destruct (success_inv demo_sent_after demo_sent_after_success) as (r & tasks & w2 & E).
  exists r, tasks, w2. split; [exact E|]. unfold demo_sent_after in E.
  destruct demo_team_client as (c & Hc & Hns & Hin).
  exact (departed_member_keeps_hearing demo_auth (Oid 1019) (Oid 1010) 1 c 0 demo_payload demo_team
    demo_removed r tasks w2 demo_once Hc Hns Hin demo_removed_run eq_refl E).
Defined.
