(* ===== verification/Browser.v ===== *)
(** * The browser's session

    [frontend/src/services/http.ts], [services/auth.service.ts] and [store/auth.store.ts]:
    the access token, the calls in flight, the refresh that calls with an expired token
    share, and the store that says who is signed in.

    JavaScript runs to completion between two replies of the network, so an event is one
    step: what the user starts, or a reply with every continuation it resumes.  A call
    that is retried keeps its id.  The store's module installs the two handlers
    ([setRefreshSessionHandler], [setAuthFailureHandler]) when it loads, so they are
    written into the steps. *)

From S2P Require Import Prelude JsText.
Open Scope Z_scope.

(** ** Data *)

Record AuthUser := mkAuthUser {
  us_id : jsstring;
  us_email : jsstring;
  us_username : jsstring;
  us_displayName : jsstring;
  us_avatarUrl : option jsstring;
}.

(** The fields the client reads of a response, and what a call ends with: a response, or
    an error with the status and the [code] of its body, when there is a response. *)
Record Body := mkResponse {
  bd_user : option AuthUser;
  bd_accessToken : option jsstring;
}.
Inductive Reply :=
  | ReplyOk (data : Body)
  | ReplyError (status : option Z) (code : option jsstring).

(** [InternalAxiosRequestConfig]. *)
Record Config := mkConfig {
  cf_skipAuthRefresh : bool;
  cf_retry : bool;
  cf_authorization : option jsstring;
}.

(** Who waits for a refresh, and what a call was made for: an endpoint of the services, a
    refresh, [getCurrentUser] inside [hydrateSession] (with the token of its refresh), a
    registration or login, a logout. *)
Inductive RefreshOwner := SharedRefresh | HydrateRefresh | StoreRefresh.
Inductive Purpose :=
  | AppRequest
  | RefreshRequest (owner : RefreshOwner)
  | MeRequest (token : jsstring)
  | SignInRequest
  | LogoutRequest.

#[export] Instance RefreshOwner_eq_dec : EqDecision RefreshOwner.
Proof. solve_decision. Defined.
#[export] Instance Purpose_eq_dec : EqDecision Purpose.
Proof. solve_decision. Defined.

Inductive Phase :=
  | OnWire
  | AwaitingRefresh (error : option Z * option jsstring)
  | Settled (reply : Reply).

Record Call := mkCall {
  ca_purpose : Purpose;
  ca_config : Config;
  ca_phase : Phase;
}.

(** The variables of [http.ts], the state of the store, the calls, the calls that wait for
    the shared refresh in the order they will be resumed, and the requests sent so far. *)
Record Browser := mkBrowser {
  b_accessToken : option jsstring;
  b_storage : option jsstring;
  b_refreshPromise : option nat;
  b_currentUser : option AuthUser;
  b_storeToken : option jsstring;
  b_isAuthenticated : bool;
  b_isHydrating : bool;
  b_errorMessage : option jsstring;
  b_next : nat;
  b_calls : gmap nat Call;
  b_waiting : list nat;
  b_wire : list (nat * option jsstring);
}.

(** What the network says of a call that the browser has; and what the user does. *)
Inductive BrowserEvent :=
  | HydrateSession
  | StartCall (skipAuthRefresh : bool)
  | StartRefresh
  | StartSignIn
  | StartLogout
  | SetErrorMessage (message : option jsstring)
  | NetworkReply (id : nat) (reply : Reply).

(** ** Changes of the state *)

Definition with_token (token storage : option jsstring) (b : Browser) : Browser :=
  mkBrowser token storage (b_refreshPromise b) (b_currentUser b) (b_storeToken b)
    (b_isAuthenticated b) (b_isHydrating b) (b_errorMessage b) (b_next b) (b_calls b)
    (b_waiting b) (b_wire b).
Definition with_store (user : option AuthUser) (token : option jsstring)
    (authenticated hydrating : bool) (error : option jsstring) (b : Browser) : Browser :=
  mkBrowser (b_accessToken b) (b_storage b) (b_refreshPromise b) user token authenticated
    hydrating error (b_next b) (b_calls b) (b_waiting b) (b_wire b).
Definition with_calls (promise : option nat) (next : nat) (calls : gmap nat Call)
    (waiting : list nat) (wire : list (nat * option jsstring)) (b : Browser) : Browser :=
  mkBrowser (b_accessToken b) (b_storage b) promise (b_currentUser b) (b_storeToken b)
    (b_isAuthenticated b) (b_isHydrating b) (b_errorMessage b) next calls waiting wire.

(** A string that is neither absent nor empty. *)
Definition given_token (token : option jsstring) : option jsstring :=
  match token with Some t => if truthy t then Some t else None | None => None end.

(** ** [http.ts] *)

(** Also keeps the copy in the local storage. *)
Definition setAccessToken (token : option jsstring) (b : Browser) : Browser :=
  with_token token (given_token token) b.

Definition bearer_of (token : jsstring) : jsstring := js "Bearer " ++ token.

(** The request interceptor. *)
Definition authorize (b : Browser) (config : Config) : Config :=
  match given_token (b_accessToken b) with
  | Some token =>
      if cf_skipAuthRefresh config then config
      else mkConfig (cf_skipAuthRefresh config) (cf_retry config) (Some (bearer_of token))
  | None => config
  end.

(** [http.request(config)] of the call [id]. *)
Definition send (id : nat) (purpose : Purpose) (config : Config) (b : Browser) : Browser :=
  let config := authorize b config in
  with_calls (b_refreshPromise b) (b_next b) (<[id := mkCall purpose config OnWire]> (b_calls b))
    (b_waiting b) (b_wire b ++ [(id, cf_authorization config)]) b.

(** A call that is made for the first time. *)
Definition start (purpose : Purpose) (skipAuthRefresh : bool) (b : Browser) : Browser :=
  let b' := send (b_next b) purpose (mkConfig skipAuthRefresh false None) b in
  with_calls (b_refreshPromise b') (S (b_next b)) (b_calls b') (b_waiting b') (b_wire b') b'.

Definition set_phase (id : nat) (phase : Phase) (b : Browser) : Browser :=
  with_calls (b_refreshPromise b) (b_next b)
    (alter (λ c, mkCall (ca_purpose c) (ca_config c) phase) id (b_calls b)) (b_waiting b)
    (b_wire b) b.

(** ** [auth.store.ts] *)

Definition clearSession (b : Browser) : Browser :=
  let b := setAccessToken None b in
  with_store None None false false (b_errorMessage b) b.

Definition setAuthenticatedSession (data : Body) (b : Browser) : Browser :=
  let b := setAccessToken (bd_accessToken data) b in
  with_store (bd_user data) (bd_accessToken data) true false None b.

(** [refreshAccessToken] once its call has ended. *)
Definition refreshAccessToken (reply : Reply) (b : Browser) : option jsstring * Browser :=
  match reply with
  | ReplyOk data => (bd_accessToken data, setAuthenticatedSession data b)
  | ReplyError _ _ => (None, clearSession b)
  end.

(** What the caller of a call does when it ends. *)
Definition after_call (purpose : Purpose) (reply : Reply) (b : Browser) : Browser :=
  match purpose, reply with
  | MeRequest token, ReplyOk data => with_store (bd_user data) (Some token) true false None b
  | MeRequest _, ReplyError _ _ => clearSession b
  | SignInRequest, ReplyOk data => setAuthenticatedSession data b
  | LogoutRequest, ReplyOk _ =>
      let b := clearSession (setAccessToken None b) in
      with_store (b_currentUser b) (b_storeToken b) (b_isAuthenticated b) (b_isHydrating b) None b
  | _, _ => b
  end.

Definition settle (id : nat) (purpose : Purpose) (reply : Reply) (b : Browser) : Browser :=
  after_call purpose reply (set_phase id (Settled reply) b).

(** ** The response interceptor *)

Definition token_expired (status : option Z) (code : option jsstring) : bool :=
  bool_decide (status = Some 401) && bool_decide (code = Some (js "access_token_expired")).

(** Its [catch]: whatever failed, the session is dropped and the call fails. *)
Definition refresh_catch (id : nat) (purpose : Purpose) (error : Reply) (b : Browser) : Browser :=
  settle id purpose error (clearSession (setAccessToken None b)).

(** [runSharedRefresh] up to its [await]. *)
Definition runSharedRefresh (b : Browser) : Browser :=
  match b_refreshPromise b with
  | Some _ => b
  | None =>
      let id := b_next b in
      let b := start (RefreshRequest SharedRefresh) true b in
      with_calls (Some id) (b_next b) (b_calls b) (b_waiting b) (b_wire b) b
  end.

(** A call whose token has expired waits for the refresh. *)
Definition await_refresh (id : nat) (c : Call) (error : option Z * option jsstring)
    (b : Browser) : Browser :=
  let config := mkConfig (cf_skipAuthRefresh (ca_config c)) true (cf_authorization (ca_config c)) in
  let call := mkCall (ca_purpose c) config (AwaitingRefresh error) in
  let b := runSharedRefresh b in
  with_calls (b_refreshPromise b) (b_next b) (<[id := call]> (b_calls b)) (b_waiting b ++ [id])
    (b_wire b) b.

(** ... and goes on when it has ended. *)
Definition resume (token : option jsstring) (b : Browser) (id : nat) : Browser :=
  match b_calls b !! id with
  | Some (mkCall purpose config (AwaitingRefresh error)) =>
      match given_token token with
      | Some token =>
          send id purpose (mkConfig (cf_skipAuthRefresh config) (cf_retry config)
                             (Some (bearer_of token))) b
      | None => refresh_catch id purpose (ReplyError error.1 error.2) (clearSession b)
      end
  | _ => b
  end.

(** The end of a refresh, for the one who started it. *)
Definition refresh_ended (owner : RefreshOwner) (reply : Reply) (b : Browser) : Browser :=
  let '(token, b) := refreshAccessToken reply b in
  match owner with
  | SharedRefresh =>
      let waiting := b_waiting b in
      foldl (resume token) (with_calls None (b_next b) (b_calls b) [] (b_wire b) b) waiting
  | HydrateRefresh =>
      match given_token token with
      | Some token => start (MeRequest token) false b
      | None => clearSession b
      end
  | StoreRefresh => b
  end.

(** The reply to a call on the wire. *)
Definition on_reply (id : nat) (c : Call) (reply : Reply) (b : Browser) : Browser :=
  match ca_purpose c with
  | RefreshRequest owner => refresh_ended owner reply (set_phase id (Settled reply) b)
  | purpose =>
      match reply with
      | ReplyOk _ => settle id purpose reply b
      | ReplyError status code =>
          if cf_skipAuthRefresh (ca_config c) then settle id purpose reply b
          else if cf_retry (ca_config c) then refresh_catch id purpose reply b
          else if negb (token_expired status code) then settle id purpose reply b
          else await_refresh id c (status, code) b
      end
  end.

(** ** The steps *)

Definition browser_step (b : Browser) (e : BrowserEvent) : Browser :=
  match e with
  | HydrateSession =>
      start (RefreshRequest HydrateRefresh) true
        (with_store (b_currentUser b) (b_storeToken b) (b_isAuthenticated b) true
           (b_errorMessage b) b)
  | StartCall skip => start AppRequest skip b
  | StartRefresh => start (RefreshRequest StoreRefresh) true b
  | StartSignIn => start SignInRequest false b
  | StartLogout => start LogoutRequest true b
  | SetErrorMessage message =>
      with_store (b_currentUser b) (b_storeToken b) (b_isAuthenticated b) (b_isHydrating b)
        message b
  | NetworkReply id reply =>
      match b_calls b !! id with
      | Some c => match ca_phase c with OnWire => on_reply id c reply b | _ => b end
      | None => b
      end
  end.

(** The state when the page loads: the token that the local storage still holds. *)
Definition page_load (storage : option jsstring) : Browser :=
  mkBrowser storage storage None None None false true None 0 ∅ [] [].

Definition browse (storage : option jsstring) (events : list BrowserEvent) : Browser :=
  foldl browser_step (page_load storage) events.
