(* ===== verification/BrowserFacts.v ===== *)
(** * The browser's session: what holds in every state

    No call is lost, no call is sent more than twice, refreshes that expired calls ask for
    are shared, and the store agrees with itself; and two ways in which the session ends
    up where the user did not put it. *)

From S2P Require Import Prelude JsText Browser.
Open Scope Z_scope.

(** ** The calls *)

Definition sends (b : Browser) (id : nat) : nat :=
  length (filter (λ s : nat * option jsstring, s.1 = id) (b_wire b)).

Arguments sends : simpl never.

Definition awaiting (c : Call) : Prop := ∃ error, ca_phase c = AwaitingRefresh error.
Definition on_wire (c : Call) : Prop := ca_phase c = OnWire.
Definition is_refresh (c : Call) : bool :=
  match ca_purpose c with RefreshRequest _ => true | _ => false end.

(** How often a call may have been sent. *)
Definition send_budget (c : Call) : nat :=
  match ca_phase c with
  | OnWire => if cf_retry (ca_config c) then 2 else 1
  | AwaitingRefresh _ => 1
  | Settled _ => 2
  end.

(** [pending] are calls that a refresh that has ended is about to resume. *)
Record calls_ok (pending : list nat) (b : Browser) : Prop := {
  co_fresh id : is_Some (b_calls b !! id) → (id < b_next b)%nat;
  co_wire id : b_calls b !! id = None → sends b id = 0%nat;
  co_sends id c : b_calls b !! id = Some c → (sends b id <= send_budget c)%nat;
  co_waiting id : id ∈ b_waiting b ++ pending ↔ ∃ c, b_calls b !! id = Some c ∧ awaiting c;
  co_nodup : NoDup (b_waiting b ++ pending);
  co_retry id c : b_calls b !! id = Some c → awaiting c →
    cf_retry (ca_config c) = true ∧ is_refresh c = false;
  co_promise id : b_refreshPromise b = Some id ↔
    ∃ c, b_calls b !! id = Some c ∧ ca_purpose c = RefreshRequest SharedRefresh ∧ on_wire c;
  co_waits : b_waiting b ≠ [] → is_Some (b_refreshPromise b);
}.

(** The part of the state that the invariant is about. *)
Definition net (b : Browser) :=
  (b_refreshPromise b, b_next b, b_calls b, b_waiting b, b_wire b).

Lemma calls_ok_net pending b b' : net b = net b' → calls_ok pending b → calls_ok pending b'.
Proof.
  intros E [F W S Q N R P A]. injection E as E1 E2 E3 E4 E5.
  split; unfold sends in *; rewrite <-?E1, <-?E2, <-?E3, <-?E4, <-?E5; assumption.
Qed.

Lemma net_setAccessToken t b : net (setAccessToken t b) = net b.
Proof. done. Qed.
Lemma net_clearSession b : net (clearSession b) = net b.
Proof. done. Qed.
Lemma net_authenticated d b : net (setAuthenticatedSession d b) = net b.
Proof. done. Qed.
Lemma net_after_call p r b : net (after_call p r b) = net b.
Proof. by destruct p, r. Qed.
Lemma net_refresh r b : net (refreshAccessToken r b).2 = net b.
Proof. by destruct r. Qed.
Lemma net_store u t a h e b : net (with_store u t a h e b) = net b.
Proof. done. Qed.

Lemma sends_app b b0 (id id' : nat) h :
  b_wire b = b_wire b0 ++ [(id', h)] →
  sends b id = (sends b0 id + if decide (id' = id) then 1 else 0)%nat.
Proof.
  intros E. unfold sends. rewrite E, filter_app, length_app. f_equal.
  rewrite filter_cons. cbn. by case_decide.
Qed.

Lemma sends_start b purpose skip id :
  sends (start purpose skip b) id = (sends b id + if decide (b_next b = id) then 1 else 0)%nat.
Proof. by apply (sends_app _ _ _ _ (cf_authorization (authorize b (mkConfig skip false None)))). Qed.
Lemma sends_send b id' purpose config id :
  sends (send id' purpose config b) id = (sends b id + if decide (id' = id) then 1 else 0)%nat.
Proof. by apply (sends_app _ _ _ _ (cf_authorization (authorize b config))). Qed.

Lemma lookup_set_phase id phase b i :
  b_calls (set_phase id phase b) !! i
  = if decide (i = id) then (λ c, mkCall (ca_purpose c) (ca_config c) phase) <$> b_calls b !! i
    else b_calls b !! i.
Proof.
  unfold set_phase. cbn. rewrite lookup_alter. repeat case_decide; congruence.
Qed.

(** ** What each step does to the calls *)

Section calls.
Context (b : Browser) (pending : list nat) (Hok : calls_ok pending b).

(** A new call; the shared refresh is one that the promise then waits for. *)
Lemma calls_ok_new purpose skip (promise : option nat) :
  (purpose = RefreshRequest SharedRefresh ∧ b_refreshPromise b = None ∧ promise = Some (b_next b))
  ∨ (purpose ≠ RefreshRequest SharedRefresh ∧ promise = b_refreshPromise b) →
  let b' := start purpose skip b in
  calls_ok pending (with_calls promise (b_next b') (b_calls b') (b_waiting b') (b_wire b') b').
Proof.
  intros Hp b'. destruct Hok as [F W S Q N R P A].
  assert (b_calls b !! b_next b = None) as Hn.
  { apply eq_None_not_Some. intros Hs. apply F in Hs. lia. }
  assert (Hsends := sends_start b purpose skip : ∀ id, sends b' id = _).
  split; cbn [b_calls b_next b_waiting b_refreshPromise b' start send with_calls].
  - intros id. rewrite lookup_insert. case_decide; [lia|]. intros Hs. apply F in Hs. lia.
  - intros id [Hid Hne]%lookup_insert_None. etransitivity; [apply Hsends|].
    rewrite decide_False by done. by rewrite Nat.add_0_r, (W id).
  - intros id c. rewrite lookup_insert.
    match goal with |- _ → (sends ?b1 id <= _)%nat => change (sends b1 id) with (sends b' id) end.
    rewrite Hsends. case_decide as Hid.
    + intros [= <-]. subst id. rewrite W by done. unfold send_budget, authorize. cbn.
      by destruct (given_token _), skip.
    + intros Hc. rewrite Nat.add_0_r. by apply S.
  - intros id. rewrite Q. split; intros (c & Hc & Ha).
    + exists c. rewrite lookup_insert_ne; [done|]. intros <-. congruence.
    + apply lookup_insert_Some in Hc as [[_ <-]|[_ Hc]]; [by destruct Ha|eauto].
  - done.
  - intros id c [[_ <-]|[_ Hc]]%lookup_insert_Some Ha; [by destruct Ha|by eapply R].
  - intros id. destruct Hp as [(-> & Hnone & ->)|[Hp ->]].
    + split.
      * intros [= <-]. rewrite lookup_insert_eq. by eexists.
      * intros (c & Hc & Hr & Ho). f_equal.
        apply lookup_insert_Some in Hc as [[Hid _]|[_ Hc]]; [done|].
        assert (b_refreshPromise b = Some id) by (apply P; eauto). congruence.
    + rewrite P. split; intros (c & Hc & Hr & Ho).
      * exists c. rewrite lookup_insert_ne; [done|]. intros <-. congruence.
      * apply lookup_insert_Some in Hc as [[_ <-]|[_ Hc]]; [done|eauto].
  - destruct Hp as [(_ & _ & ->)|[_ ->]]; [by eexists|done].
Qed.

Lemma calls_ok_start purpose skip :
  purpose ≠ RefreshRequest SharedRefresh → calls_ok pending (start purpose skip b).
Proof. intros Hp. apply (calls_ok_new purpose skip (b_refreshPromise b)). by right. Qed.

Lemma calls_ok_shared :
  calls_ok pending (runSharedRefresh b) ∧ is_Some (b_refreshPromise (runSharedRefresh b)).
Proof.
  unfold runSharedRefresh. destruct (b_refreshPromise b) as [rid|] eqn:Ep; [done|].
  split; [|by eexists]. apply (calls_ok_new (RefreshRequest SharedRefresh) true). by left.
Qed.

(** A call that ends. *)
Lemma calls_ok_settled id c r :
  b_calls b !! id = Some c → on_wire c → ca_purpose c ≠ RefreshRequest SharedRefresh →
  calls_ok pending (set_phase id (Settled r) b).
Proof.
  intros Hc Ho Hp. destruct Hok as [F W S Q N R P A]. unfold on_wire in *. split.
  - intros i. rewrite lookup_set_phase. case_decide; [rewrite fmap_is_Some|]; apply F.
  - intros i Hi. apply W. rewrite lookup_set_phase in Hi. case_decide; [|done].
    by apply fmap_None in Hi.
  - intros i c'. rewrite lookup_set_phase. case_decide; [|apply S].
    intros (c0 & Hc0 & ->)%fmap_Some. subst i. simplify_eq. cbn.
    etransitivity; [by apply (S id c)|]. unfold send_budget. rewrite Ho. case_match; lia.
  - intros i. cbn [b_waiting set_phase with_calls]. rewrite Q. setoid_rewrite lookup_set_phase.
    case_decide as Hi; [|done]. subst i. rewrite Hc. cbn. split.
    + intros (c' & [= <-] & e & He). congruence.
    + intros (c' & [= <-] & e & He). done.
  - done.
  - intros i c'. rewrite lookup_set_phase. case_decide; [|apply R].
    intros (c0 & Hc0 & ->)%fmap_Some [e He]. done.
  - intros i. cbn [b_refreshPromise set_phase with_calls]. rewrite P.
    setoid_rewrite lookup_set_phase. case_decide as Hi; [|done]. subst i. rewrite Hc. cbn. split.
    + intros (c' & [= <-] & Hr & _). congruence.
    + intros (c' & [= <-] & Hr & ?). done.
  - done.
Qed.

(** A call that starts to wait. *)
Lemma calls_ok_await id c error :
  b_calls b !! id = Some c → on_wire c → cf_retry (ca_config c) = false → is_refresh c = false →
  calls_ok pending (await_refresh id c error b).
Proof.
  intros Hc Ho Hretry Hp. unfold await_refresh.
  pose proof calls_ok_shared as [Hok' Hpr].
  assert (b_calls (runSharedRefresh b) !! id = Some c) as Hc'.
  { unfold runSharedRefresh. destruct (b_refreshPromise b); [done|]. cbn.
    rewrite lookup_insert_ne; [done|]. intros E.
    assert (id < b_next b)%nat by (apply (co_fresh _ _ Hok); by eexists). lia. }
  revert Hok' Hpr Hc'. generalize (runSharedRefresh b). clear Hc. clear b Hok. intros b Hok Hpr Hc.
  destruct Hok as [F W S Q N R P A]. unfold on_wire in *.
  assert (id ∉ b_waiting b ++ pending) as Hnw.
  { rewrite Q. intros (c' & Hc' & e & He). congruence. }
  split; cbn [b_calls b_next b_waiting b_refreshPromise with_calls].
  - intros i. rewrite lookup_insert. case_decide; [subst i; intros _; apply F; by eexists|apply F].
  - intros i [Hi _]%lookup_insert_None. by apply W.
  - intros i c'. rewrite lookup_insert. case_decide; [|apply S].
    subst i. intros [= <-]. change (sends b id <= 1)%nat.
    etransitivity; [by apply (S id c)|]. unfold send_budget. by rewrite Ho, Hretry.
  - intros i. rewrite <-app_assoc, elem_of_app, elem_of_app, list_elem_of_singleton.
    pose proof (Q i) as Qi. rewrite elem_of_app in Qi. rewrite lookup_insert. case_decide as Hi.
    + subst i. split; [intros _|by auto]. eexists. split; [done|]. by eexists.
    + rewrite <-Qi. naive_solver.
  - rewrite <-app_assoc. cbn. apply NoDup_app in N as (N1 & N2 & N3).
    rewrite elem_of_app in Hnw. apply NoDup_app. split_and!; [done| |].
    + intros i Hi. rewrite elem_of_cons. intros [->|Hp']; [naive_solver|by eapply N2].
    + apply NoDup_cons. naive_solver.
  - intros i c' [[_ <-]|[_ Hc']]%lookup_insert_Some Ha; [done|by eapply R].
  - intros i. rewrite P. split; intros (c' & Hc' & Hr & Ho').
    + exists c'. rewrite lookup_insert_ne; [done|]. intros <-. simplify_eq.
      unfold is_refresh in Hp. by rewrite Hr in Hp.
    + apply lookup_insert_Some in Hc' as [[_ <-]|[_ Hc']]; [done|eauto].
  - done.
Qed.
End calls.

(** A call that goes on: its refresh has ended. *)
Lemma calls_ok_resumed pending b b' id c c' k :
  calls_ok (id :: pending) b → b_calls b !! id = Some c →
  b_calls b' = <[id := c']> (b_calls b) → b_waiting b' = b_waiting b →
  b_refreshPromise b' = b_refreshPromise b → b_next b' = b_next b →
  (∀ i, sends b' i = sends b i + if decide (id = i) then k else 0)%nat →
  (k + 1 <= send_budget c')%nat → ¬ awaiting c' → is_refresh c' = false →
  calls_ok pending b'.
Proof.
  intros [F W Hs Q N R P A] Hc Hcalls Hw Hpr Hn Hsends Hk Ha Hr.
  assert (awaiting c) as Hac.
  { destruct (Q id) as [(c0 & Hc0 & H0) _]; [|by simplify_eq].
    rewrite elem_of_app. right. by left. }
  destruct (R _ _ Hc Hac) as [_ Hrc].
  assert (∀ i, i ≠ id → i ∈ b_waiting b ++ pending ↔ i ∈ b_waiting b ++ id :: pending) as Hin.
  { intros i Hi. rewrite !elem_of_app, elem_of_cons. naive_solver. }
  rewrite <-Permutation_middle in N. apply NoDup_cons in N as [Nid N].
  split; rewrite ?Hcalls, ?Hw, ?Hpr, ?Hn; try done.
  - intros i. rewrite lookup_insert. case_decide; [subst i; intros _; apply F; by eexists|apply F].
  - intros i. rewrite ?Hcalls. intros [Hi Hne]%lookup_insert_None.
    rewrite Hsends, decide_False, (W i) by done. done.
  - intros i c1. rewrite ?Hcalls, Hsends, lookup_insert. case_decide as Hi.
    + intros [= <-]. subst i. assert (sends b id <= 1)%nat; [|lia]. destruct Hac as [e He].
      etransitivity; [by apply (Hs id c)|]. unfold send_budget. by rewrite He.
    + rewrite Nat.add_0_r. apply Hs.
  - intros i. rewrite ?Hcalls, lookup_insert. case_decide as Hi.
    + subst i. split; [done|]. intros (c1 & [= <-] & H1). done.
    + rewrite Hin by done. apply Q.
  - intros i c1. rewrite ?Hcalls. intros [[_ <-]|[_ H1]]%lookup_insert_Some; [by intros|by eapply R].
  - intros i. rewrite ?Hcalls, P. setoid_rewrite lookup_insert. case_decide as Hi; [|done].
    subst i. rewrite Hc. split; intros (c1 & [= <-] & Hp & _).
    + unfold is_refresh in Hrc. by rewrite Hp in Hrc.
    + unfold is_refresh in Hr. by rewrite Hp in Hr.
Qed.

Lemma calls_ok_resume token pending id b :
  calls_ok (id :: pending) b → calls_ok pending (resume token b id).
Proof.
  intros Hok. destruct (co_waiting _ _ Hok id) as [([purpose config phase] & Hc & Hac) _].
  { rewrite elem_of_app. right. by left. }
  destruct (co_retry _ _ Hok _ _ Hc Hac) as [Hretry Hr]. destruct Hac as [error He].
  cbn in He. subst phase. unfold resume. rewrite Hc. destruct (given_token token) as [t|].
  - eapply (calls_ok_resumed _ _ _ _ _ _ 1 Hok Hc); try done.
    + intros i. apply sends_send.
    + unfold send_budget, authorize. cbn in Hretry |- *.
      destruct (given_token (b_accessToken b)), (cf_skipAuthRefresh config); cbn; by rewrite Hretry.
    + by intros [].
  - eapply (calls_ok_net _ (set_phase id (Settled (ReplyError error.1 error.2)) b)).
    { unfold refresh_catch, settle. by rewrite net_after_call. }
    eapply (calls_ok_resumed _ _ _ _ _ (mkCall purpose config (Settled (ReplyError error.1 error.2))) 0 Hok Hc); try done.
    + cbn. apply map_eq. intros i. rewrite lookup_alter, lookup_insert. case_decide; [|done].
      subst i. by rewrite Hc.
    + intros i. case_decide; change (sends b i = sends b i + 0)%nat; lia.
    + cbn. lia.
    + by intros [].
Qed.

Lemma calls_ok_resume_all token pending b :
  calls_ok pending b → calls_ok [] (foldl (resume token) b pending).
Proof.
  revert b. induction pending as [|id pending IH]; intros b Hok; [done|]. cbn.
  apply IH. by apply calls_ok_resume.
Qed.

(** The end of the shared refresh hands over the calls that wait for it. *)
Lemma calls_ok_refreshed b id c r :
  calls_ok [] b → b_calls b !! id = Some c → on_wire c →
  ca_purpose c = RefreshRequest SharedRefresh →
  let b' := set_phase id (Settled r) b in
  calls_ok (b_waiting b) (with_calls None (b_next b') (b_calls b') [] (b_wire b') b').
Proof.
  intros [F W S Q N R P A] Hc Ho Hp b'. unfold on_wire in *.
  rewrite ?app_nil_r in *. assert (b_refreshPromise b = Some id) as Hpr by (apply P; eauto).
  assert (∀ i, b_calls b' !! i
     = if decide (i = id) then Some (mkCall (ca_purpose c) (ca_config c) (Settled r))
       else b_calls b !! i) as Hcalls.
  { intros i. unfold b'. rewrite lookup_set_phase. case_decide; [subst; by rewrite Hc|done]. }
  split; cbn [b_calls b_next b_waiting b_refreshPromise with_calls app].
  - intros i. rewrite Hcalls. case_decide; [subst i; intros _; apply F; by eexists|apply F].
  - intros i. rewrite Hcalls. case_decide; [done|apply W].
  - intros i c'. rewrite Hcalls. case_decide; [|apply S]. intros [= <-]. subst i.
    etransitivity; [by apply (S id c)|]. unfold send_budget. rewrite Ho. cbn. case_match; lia.
  - intros i. setoid_rewrite Hcalls. specialize (Q i). rewrite ?app_nil_r in Q. rewrite Q.
    case_decide as Hi; [|done]. subst i. rewrite Hc.
    split; intros (c' & [= <-] & e & He); simplify_eq/=; congruence.
  - done.
  - intros i c'. rewrite Hcalls. case_decide; [|apply R]. by intros [= <-] [].
  - intros i. split; [done|]. rewrite Hcalls. case_decide; intros (c' & Hc' & Hp' & Ho').
    + by simplify_eq.
    + assert (b_refreshPromise b = Some i) by (apply P; eauto). congruence.
  - done.
Qed.

Lemma calls_ok_refresh_ended owner reply id c b :
  calls_ok [] b → b_calls b !! id = Some c → on_wire c → ca_purpose c = RefreshRequest owner →
  calls_ok [] (refresh_ended owner reply (set_phase id (Settled reply) b)).
Proof.
  intros Hok Hc Ho Hp. unfold refresh_ended.
  set (b' := set_phase id (Settled reply) b).
  assert (Hn := net_refresh reply b'). destruct (refreshAccessToken reply b') as [token b1].
  cbn in Hn. destruct (decide (owner = SharedRefresh)) as [->|Hne].
  - replace (b_waiting b1) with (b_waiting b) by (unfold net in Hn; by simplify_eq/=).
    apply calls_ok_resume_all. eapply calls_ok_net; [|by eapply (calls_ok_refreshed b id c reply)].
    injection Hn as _ E2 E3 _ E5. unfold net. cbn. by rewrite E2, E3, E5.
  - assert (calls_ok [] b1) as Hb1.
    { eapply calls_ok_net; [symmetry; apply Hn|]. eapply calls_ok_settled; [done..|congruence]. }
    destruct owner; try done. destruct (given_token token).
    + by apply calls_ok_start.
    + by eapply calls_ok_net; [symmetry; apply net_clearSession|].
Qed.

Lemma calls_ok_settle id c r b :
  calls_ok [] b → b_calls b !! id = Some c → on_wire c → is_refresh c = false →
  calls_ok [] (settle id (ca_purpose c) r b).
Proof.
  intros Hok Hc Ho Hr. unfold settle. eapply calls_ok_net; [symmetry; apply net_after_call|].
  eapply calls_ok_settled; [done..|]. unfold is_refresh in Hr. intros E. by rewrite E in Hr.
Qed.

Lemma calls_ok_on_reply id c r b :
  calls_ok [] b → b_calls b !! id = Some c → on_wire c → calls_ok [] (on_reply id c r b).
Proof.
  intros Hok Hc Ho. unfold on_reply. destruct (is_refresh c) eqn:Er.
  - unfold is_refresh in Er. destruct (ca_purpose c) eqn:Ep; try done.
    by eapply calls_ok_refresh_ended.
  - assert (calls_ok [] (match r with
      | ReplyOk _ => settle id (ca_purpose c) r b
      | ReplyError status code =>
          if cf_skipAuthRefresh (ca_config c) then settle id (ca_purpose c) r b
          else if cf_retry (ca_config c) then refresh_catch id (ca_purpose c) r b
          else if negb (token_expired status code) then settle id (ca_purpose c) r b
          else await_refresh id c (status, code) b
      end)) as Hgoal.
    { destruct r; [by apply calls_ok_settle|].
      destruct (cf_skipAuthRefresh _); [by apply calls_ok_settle|].
      destruct (cf_retry _) eqn:Eretry.
      { unfold refresh_catch. apply calls_ok_settle; try done. eapply calls_ok_net; [|exact Hok]; done. }
      destruct (negb _); [by apply calls_ok_settle|by apply calls_ok_await]. }
    unfold is_refresh in Er. by destruct (ca_purpose c).
Qed.

Lemma calls_ok_step e b : calls_ok [] b → calls_ok [] (browser_step b e).
Proof.
  intros Hok. destruct e; cbn [browser_step]; try (by apply calls_ok_start).
  - apply calls_ok_start; [|done]. eapply calls_ok_net; [|exact Hok]; done.
  - eapply calls_ok_net; [|exact Hok]; done.
  - destruct (b_calls b !! id) as [c|] eqn:Ec; [|done].
    destruct (ca_phase c) eqn:Ep; try done. by apply calls_ok_on_reply.
Qed.

Lemma calls_ok_browse storage events : calls_ok [] (browse storage events).
Proof.
  unfold browse.
  assert (calls_ok [] (page_load storage)) as H0.
  { split; cbn; try done.
    - intros id. rewrite lookup_empty. by intros [].
    - intros id. split; [by intros ?%not_elem_of_nil|]. by intros (c & ? & _).
    - constructor.
    - intros id. split; [done|]. by intros (c & ? & _). }
  revert H0. generalize (page_load storage). induction events as [|e events IH]; intros b Hb; [done|].
  cbn. apply IH. by apply calls_ok_step.
Qed.

(** ** Every call ends

    The work a call still has before it ends, in replies of the network: a first request
    may wait for a refresh, which it may have to start, and be sent again. *)
Definition call_work (c : Call) : nat :=
  match ca_phase c with
  | Settled _ => 0
  | AwaitingRefresh _ => 2
  | OnWire =>
      match ca_purpose c with
      | RefreshRequest HydrateRefresh => 5
      | RefreshRequest _ => 1
      | _ => if cf_retry (ca_config c) || cf_skipAuthRefresh (ca_config c) then 1 else 4
      end
  end.

Definition calls_work (calls : gmap nat Call) : nat :=
  map_fold (λ _ c n, call_work c + n)%nat 0%nat calls.
Definition work (b : Browser) : nat := calls_work (b_calls b).

Lemma calls_work_insert calls id c :
  (calls_work (<[id := c]> calls) = call_work c + calls_work (delete id calls))%nat.
Proof.
  unfold calls_work. rewrite <-insert_delete_eq.
  apply (map_fold_insert_L (λ _ c n, call_work c + n)%nat); [lia|apply lookup_delete_eq].
Qed.

Lemma calls_work_split calls id c :
  calls !! id = Some c → (calls_work calls = call_work c + calls_work (delete id calls))%nat.
Proof. intros Hc. rewrite <-calls_work_insert. by rewrite insert_id. Qed.

Lemma calls_work_fresh calls id c :
  calls !! id = None → (calls_work (<[id := c]> calls) = call_work c + calls_work calls)%nat.
Proof. intros Hc. rewrite calls_work_insert, delete_id; done. Qed.

Lemma work_net b b' : net b = net b' → work b = work b'.
Proof. intros E. injection E as _ _ E _ _. unfold work. by rewrite E. Qed.

Lemma next_fresh pending b : calls_ok pending b → b_calls b !! b_next b = None.
Proof. intros Hok. apply eq_None_not_Some. intros Hs. apply (co_fresh _ _ Hok) in Hs. lia. Qed.

Lemma work_start pending b purpose skip :
  calls_ok pending b →
  (work (start purpose skip b) = call_work (mkCall purpose (authorize b (mkConfig skip false None)) OnWire)
                                 + work b)%nat.
Proof. intros Hok. apply calls_work_fresh. by eapply next_fresh. Qed.

Lemma authorize_skip b config : cf_skipAuthRefresh (authorize b config) = cf_skipAuthRefresh config.
Proof. unfold authorize. by destruct (given_token _), (cf_skipAuthRefresh config) eqn:?. Qed.
Lemma authorize_retry b config : cf_retry (authorize b config) = cf_retry config.
Proof. unfold authorize. by destruct (given_token _), (cf_skipAuthRefresh config). Qed.

Lemma work_set_phase id c phase b :
  b_calls b !! id = Some c →
  (work (set_phase id phase b) + call_work c
   = call_work (mkCall (ca_purpose c) (ca_config c) phase) + work b)%nat.
Proof.
  intros Hc. unfold work, set_phase. cbn.
  replace (alter _ id (b_calls b)) with (<[id := mkCall (ca_purpose c) (ca_config c) phase]> (b_calls b)).
  - rewrite calls_work_insert, (calls_work_split (b_calls b) id c Hc). lia.
  - apply map_eq. intros i. rewrite lookup_alter, lookup_insert. case_decide; [|done].
    subst. by rewrite Hc.
Qed.

Lemma work_settle id c r b :
  b_calls b !! id = Some c → (work (settle id (ca_purpose c) r b) + call_work c = work b)%nat.
Proof.
  intros Hc. unfold settle. rewrite (work_net _ _ (net_after_call _ _ _)).
  by rewrite (work_set_phase id c).
Qed.

Lemma call_work_pos c : on_wire c → (0 < call_work c)%nat.
Proof. unfold call_work, on_wire. intros ->. repeat case_match; lia. Qed.

Lemma work_await id c error b :
  calls_ok [] b → b_calls b !! id = Some c → call_work c = 4%nat →
  (work (await_refresh id c error b) < work b)%nat.
Proof.
  intros Hok Hc Hw.
  assert (b_calls (runSharedRefresh b) !! id = Some c ∧ (work (runSharedRefresh b) <= 1 + work b)%nat)
    as [Hc' Hs].
  { unfold runSharedRefresh. destruct (b_refreshPromise b); [split; [done|lia]|]. split.
    - cbn. rewrite lookup_insert_ne; [done|]. intros <-. by rewrite (next_fresh _ _ Hok) in Hc.
    - change (work (start (RefreshRequest SharedRefresh) true b) <= 1 + work b)%nat.
      by rewrite (work_start [] b). }
  unfold await_refresh, work in *. cbn. rewrite calls_work_insert. cbn.
  rewrite (calls_work_split _ _ _ Hc'), Hw in Hs. lia.
Qed.

Lemma work_resume token id pending b :
  calls_ok (id :: pending) b → (work (resume token b id) <= work b)%nat.
Proof.
  intros Hok. destruct (co_waiting _ _ Hok id) as [([purpose config phase] & Hc & Hac) _].
  { rewrite elem_of_app. right. by left. }
  destruct (co_retry _ _ Hok _ _ Hc Hac) as [Hretry Hr]. destruct Hac as [error He].
  cbn in He, Hretry, Hr. subst phase. unfold resume. rewrite Hc. destruct (given_token token) as [t|].
  - unfold work at 1, send. cbn. rewrite calls_work_insert. unfold work.
    rewrite (calls_work_split _ _ _ Hc). cbn. unfold is_refresh in Hr. cbn in Hr.
    rewrite authorize_retry. cbn. rewrite Hretry. destruct purpose; cbn in *; done || lia.
  - pose proof (work_settle id _ (ReplyError error.1 error.2) (clearSession (setAccessToken None (clearSession b))) Hc) as Hs.
    cbn [ca_purpose] in Hs. unfold refresh_catch. change (work b) with
      (work (clearSession (setAccessToken None (clearSession b)))). lia.
Qed.

Lemma work_resume_all token pending b :
  calls_ok pending b → (work (foldl (resume token) b pending) <= work b)%nat.
Proof.
  revert b. induction pending as [|id pending IH]; intros b Hok; [done|]. cbn.
  etransitivity; [apply IH; by apply calls_ok_resume|by eapply work_resume].
Qed.

Lemma work_refresh_ended owner reply id c b :
  calls_ok [] b → b_calls b !! id = Some c → on_wire c → ca_purpose c = RefreshRequest owner →
  (work (refresh_ended owner reply (set_phase id (Settled reply) b)) < work b)%nat.
Proof.
  intros Hok Hc Ho Hp. unfold refresh_ended. set (b' := set_phase id (Settled reply) b).
  assert (Hn := net_refresh reply b').
  pose proof (work_set_phase id c (Settled reply) b Hc) as Hw. fold b' in Hw. cbn in Hw.
  assert (call_work c = match owner with HydrateRefresh => 5 | _ => 1 end)%nat as Hcw.
  { unfold call_work, on_wire in *. rewrite Ho, Hp. by destruct owner. }
  destruct (refreshAccessToken reply b') as [token b1]. cbn in Hn.
  pose proof (work_net _ _ Hn) as Hwn. destruct (decide (owner = SharedRefresh)) as [->|Hne].
  - replace (b_waiting b1) with (b_waiting b) by (unfold net in Hn; by simplify_eq/=).
    set (b2 := with_calls None _ _ _ _ _). change (work b1) with (work b2) in Hwn.
    assert (work (foldl (resume token) b2 (b_waiting b)) <= work b2)%nat; [|lia].
    apply work_resume_all. eapply calls_ok_net; [|by eapply (calls_ok_refreshed b id c reply)].
    injection Hn as _ E2 E3 _ E5. unfold net, b2. cbn. by rewrite E2, E3, E5.
  - assert (calls_ok [] b1) as Hb1.
    { eapply calls_ok_net; [symmetry; apply Hn|]. eapply calls_ok_settled; [done..|congruence]. }
    destruct owner; [done| |lia]. destruct (given_token token).
    + rewrite (work_start [] b1) by done. unfold call_work at 1. cbn.
      rewrite authorize_retry, authorize_skip. cbn. lia.
    + rewrite (work_net _ _ (net_clearSession b1)). lia.
Qed.

Lemma work_on_reply id c r b :
  calls_ok [] b → b_calls b !! id = Some c → on_wire c → (work (on_reply id c r b) < work b)%nat.
Proof.
  intros Hok Hc Ho. unfold on_reply. destruct (is_refresh c) eqn:Er.
  { unfold is_refresh in Er. destruct (ca_purpose c) eqn:Ep; try done.
    by eapply work_refresh_ended. }
  pose proof (call_work_pos c Ho) as Hpos.
  pose proof (work_settle id c r b Hc) as Hset.
  assert (work (match r with
      | ReplyOk _ => settle id (ca_purpose c) r b
      | ReplyError status code =>
          if cf_skipAuthRefresh (ca_config c) then settle id (ca_purpose c) r b
          else if cf_retry (ca_config c) then refresh_catch id (ca_purpose c) r b
          else if negb (token_expired status code) then settle id (ca_purpose c) r b
          else await_refresh id c (status, code) b
      end) < work b)%nat as Hgoal.
  { destruct r; [lia|]. destruct (cf_skipAuthRefresh _) eqn:Es; [lia|].
    destruct (cf_retry _) eqn:Eretry.
    { pose proof (work_settle id c (ReplyError status code) (clearSession (setAccessToken None b)) Hc).
      unfold refresh_catch. change (work (clearSession (setAccessToken None b))) with (work b) in *. lia. }
    destruct (negb _); [lia|]. apply work_await; [done..|].
    unfold call_work, is_refresh, on_wire in *. rewrite Ho, Eretry, Es.
    by destruct (ca_purpose c). }
  unfold is_refresh in Er. by destruct (ca_purpose c).
Qed.

(** Replies that the network gives to calls that are on the wire when they come. *)
Inductive answered : Browser → list (nat * Reply) → Browser → Prop :=
  | answered_none b : answered b [] b
  | answered_reply b id c r replies b' :
      b_calls b !! id = Some c → on_wire c →
      answered (browser_step b (NetworkReply id r)) replies b' →
      answered b ((id, r) :: replies) b'.

Lemma answered_work b replies b' :
  answered b replies b' → calls_ok [] b → calls_ok [] b' ∧ (length replies + work b' <= work b)%nat.
Proof.
  induction 1 as [b|b id c r replies b' Hc Ho _ IH]; intros Hok; [done|].
  cbn [browser_step] in IH. rewrite Hc in IH. unfold on_wire in Ho. rewrite Ho in IH.
  destruct IH as [Hok' Hw]; [by apply calls_ok_on_reply|]. split; [done|].
  pose proof (work_on_reply id c r b Hok Hc Ho). cbn. lia.
Qed.

(** A call that waits, waits for a refresh on the wire. *)
Lemma awaiting_refresh b id c :
  calls_ok [] b → b_calls b !! id = Some c → awaiting c →
  ∃ rid refresh, b_calls b !! rid = Some refresh ∧
    ca_purpose refresh = RefreshRequest SharedRefresh ∧ on_wire refresh.
Proof.
  intros Hok Hc Ha.
  assert (id ∈ b_waiting b ++ []) as Hin by (apply (co_waiting _ _ Hok); eauto).
  assert (is_Some (b_refreshPromise b)) as [rid Hrid].
  { apply (co_waits _ _ Hok). rewrite app_nil_r in Hin. intros E. rewrite E in Hin.
    by apply elem_of_nil in Hin. }
  apply (co_promise _ _ Hok) in Hrid as (c' & Hc' & Hp & Ho). eauto.
Qed.

(** The loading screen is shown while the refresh of [hydrateSession] is on the wire. *)
Definition hydrating (b : Browser) : Prop :=
  ∃ id c, b_calls b !! id = Some c ∧ ca_purpose c = RefreshRequest HydrateRefresh ∧ on_wire c.

(** [b'] comes after [b] and nothing has answered a refresh since. *)
Definition later (b b' : Browser) : Prop :=
  (b_isHydrating b' = true → b_isHydrating b = true) ∧ (hydrating b → hydrating b').

#[export] Instance later_preorder : PreOrder later.
Proof. split; [done|]. intros b1 b2 b3 [H1 H2] [H3 H4]. split; auto. Qed.

Lemma later_calls b b' :
  (b_isHydrating b' = true → b_isHydrating b = true) →
  (∀ id c, b_calls b !! id = Some c → is_refresh c = true → on_wire c →
     b_calls b' !! id = Some c) →
  later b b'.
Proof.
  intros Hh Hk. split; [done|]. intros (id & c & Hc & Hp & Ho). exists id, c. split; [|done].
  apply Hk; [done| |done]. unfold is_refresh. by rewrite Hp.
Qed.

Lemma later_start pending b purpose skip : calls_ok pending b → later b (start purpose skip b).
Proof.
  intros Hok. apply later_calls; [done|]. intros id c Hc _ _. cbn.
  rewrite lookup_insert_ne; [done|]. intros <-. by rewrite (next_fresh _ _ Hok) in Hc.
Qed.

Lemma hydrating_after_call p r b :
  b_isHydrating (after_call p r b) = true → b_isHydrating b = true.
Proof. by destruct p, r. Qed.

Lemma later_settle id c r b :
  b_calls b !! id = Some c → ¬ (is_refresh c = true ∧ on_wire c) →
  later b (settle id (ca_purpose c) r b).
Proof.
  intros Hc Hn. apply later_calls.
  - intros Hh. by apply hydrating_after_call in Hh.
  - intros i c' Hc' Hr Ho. unfold settle.
    assert (b_calls (after_call (ca_purpose c) r (set_phase id (Settled r) b)) = b_calls (set_phase id (Settled r) b))
      as -> by by destruct (ca_purpose c), r.
    rewrite lookup_set_phase. case_decide; [|done]. subst i. simplify_eq. by destruct Hn.
Qed.

Lemma later_clear b : later b (clearSession b).
Proof. by apply later_calls. Qed.
Lemma later_setAccessToken t b : later b (setAccessToken t b).
Proof. by apply later_calls. Qed.

Lemma later_catch id c r b :
  b_calls b !! id = Some c → ¬ (is_refresh c = true ∧ on_wire c) →
  later b (refresh_catch id (ca_purpose c) r b).
Proof.
  intros Hc Hn. unfold refresh_catch. etransitivity; [apply later_setAccessToken|].
  etransitivity; [apply later_clear|]. by apply later_settle.
Qed.

Lemma later_resume token b id : later b (resume token b id).
Proof.
  unfold resume. destruct (b_calls b !! id) as [[purpose config [|error|]]|] eqn:Ec; try done.
  destruct (given_token token).
  - apply later_calls; [done|]. intros i c Hc Hr Ho. cbn.
    rewrite lookup_insert_ne; [done|]. intros <-. by simplify_eq.
  - etransitivity; [apply later_clear|].
    by apply (later_catch id (mkCall purpose config (AwaitingRefresh error))); [|intros [_ ?]].
Qed.

Lemma later_resume_all token b ids : later b (foldl (resume token) b ids).
Proof.
  revert b. induction ids as [|id ids IH]; intros b; [done|]. cbn.
  etransitivity; [apply later_resume|apply IH].
Qed.

Lemma later_await id c error b :
  calls_ok [] b → b_calls b !! id = Some c → is_refresh c = false →
  later b (await_refresh id c error b).
Proof.
  intros Hok Hc Hr. unfold await_refresh. transitivity (runSharedRefresh b).
  - unfold runSharedRefresh. destruct (b_refreshPromise b); [done|].
    etransitivity; [by eapply (later_start [] b)|]. apply later_calls; [done|]. intros i c' Hc' _ _. exact Hc'.
  - apply later_calls; [done|]. intros i c' Hc' Hr' Ho. cbn.
    rewrite lookup_insert_ne; [done|]. intros <-.
    assert (b_calls (runSharedRefresh b) !! id = Some c); [|congruence].
    unfold runSharedRefresh. destruct (b_refreshPromise b); [done|]. cbn.
    rewrite lookup_insert_ne; [done|]. intros <-. by rewrite (next_fresh _ _ Hok) in Hc.
Qed.

(** A refresh that ends, in whatever way, ends the loading. *)
Lemma refresh_ended_hydrated owner r b : b_isHydrating (refresh_ended owner r b) = false.
Proof.
  assert (∀ b', b_isHydrating b' = false → ∀ token ids, b_isHydrating (foldl (resume token) b' ids) = false)
    as Hr.
  { intros b' Hb' token ids. apply not_true_is_false. intros E.
    apply (proj1 (later_resume_all token b' ids)) in E. congruence. }
  unfold refresh_ended. destruct r; cbn; destruct owner; try by apply Hr. all: try done.
  by destruct (given_token _).
Qed.

Lemma hydrating_step e b :
  calls_ok [] b → (b_isHydrating b = true → hydrating b) →
  b_isHydrating (browser_step b e) = true → hydrating (browser_step b e).
Proof.
  intros Hok Hinv.
  assert (∀ b', later b b' → b_isHydrating b' = true → hydrating b') as Hl by (intros b' []; auto).
  destruct e; cbn [browser_step]; try (by apply Hl, (later_start [] b)).
  - intros _. eexists (b_next b), _. split; [apply lookup_insert_eq|done].
  - by apply Hl, later_calls.
  - destruct (b_calls b !! id) as [c|] eqn:Ec; [|done].
    destruct (ca_phase c) eqn:Ep; [|done..]. unfold on_reply.
    destruct (is_refresh c) eqn:Er.
    { unfold is_refresh in Er. destruct (ca_purpose c); try done. by rewrite refresh_ended_hydrated. }
    assert (¬ (is_refresh c = true ∧ on_wire c)) as Hn by (rewrite Er; by intros []).
    intros Hb. unfold is_refresh in Er. destruct (ca_purpose c) eqn:Epp; try done; rewrite <-Epp in *;
      revert Hb; apply Hl; (destruct reply; [by apply later_settle|]);
      (destruct (cf_skipAuthRefresh _); [by apply later_settle|]);
      (destruct (cf_retry _); [by apply later_catch|]);
      (destruct (negb _); [by apply later_settle|]);
      (apply later_await; [done..|]); unfold is_refresh; by rewrite Epp.
Qed.

Lemma hydrating_browse storage events :
  HydrateSession ∈ events → b_isHydrating (browse storage events) = true →
  hydrating (browse storage events).
Proof.
  unfold browse. induction events as [|e events IH] using rev_ind; [by intros ?%elem_of_nil|].
  rewrite foldl_snoc, elem_of_app, list_elem_of_singleton. intros [Hin|<-].
  - apply hydrating_step; [apply calls_ok_browse|auto].
  - intros _. eexists _, _. split; [apply lookup_insert_eq|done].
Qed.

Lemma answered_hydrating b replies b' :
  answered b replies b' → calls_ok [] b → (b_isHydrating b = true → hydrating b) →
  b_isHydrating b' = true → hydrating b'.
Proof.
  induction 1 as [b|b id c r replies b' Hc Ho _ IH]; intros Hok Hh; [done|].
  apply IH; [by apply calls_ok_step|by apply hydrating_step].
Qed.

(** C10: Every call ends, and so does the loading screen.  Whatever the user started, in any
    order and interleaved with any replies, at most [work] further replies of the network
    are given, whatever they say; and when no call is on the wire any more each has ended,
    with a response or an error: none waits for a refresh that nobody runs, and a page
    that has called [hydrateSession] is no longer hydrating. *)
Theorem every_call_ends storage events replies b :
  answered (browse storage events) replies b →
  (length replies <= work (browse storage events))%nat ∧
  ((∀ id c, b_calls b !! id = Some c → ¬ on_wire c) →
   (∀ id c, b_calls b !! id = Some c → ∃ r, ca_phase c = Settled r) ∧
   (HydrateSession ∈ events → b_isHydrating b = false)).
Proof.
  intros Ha. pose proof (calls_ok_browse storage events) as Hok0.
  destruct (answered_work _ _ _ Ha Hok0) as [Hok Hw].
  split; [lia|]. intros Hquiet. split.
  - intros id c Hc.
    destruct (ca_phase c) as [|error|r] eqn:Ep; [by destruct (Hquiet id c)| |eauto].
    destruct (awaiting_refresh b id c Hok Hc) as (rid & c' & Hc' & _ & Ho); [by eexists|].
    by destruct (Hquiet rid c').
  - intros Hin. apply not_true_is_false. intros Hh.
    destruct (answered_hydrating _ _ _ Ha Hok0 (hydrating_browse _ _ Hin) Hh)
      as (id & c & Hc & _ & Ho). by destruct (Hquiet id c).
Qed.

(** C20: Calls that find their token expired share one refresh: there is at most one on the
    wire, a call that waits finds it there, no call is sent
    more than twice, and once only while it has not waited. *)
Theorem refresh_single_flight storage events :
  let b := browse storage events in
  (∀ id1 id2 c1 c2, b_calls b !! id1 = Some c1 → b_calls b !! id2 = Some c2 →
     ca_purpose c1 = RefreshRequest SharedRefresh → ca_purpose c2 = RefreshRequest SharedRefresh →
     on_wire c1 → on_wire c2 → id1 = id2) ∧
  (∀ id c, b_calls b !! id = Some c → awaiting c →
     ∃ rid refresh, b_calls b !! rid = Some refresh ∧
       ca_purpose refresh = RefreshRequest SharedRefresh ∧ on_wire refresh) ∧
  (∀ id, (sends b id <= 2)%nat) ∧
  (∀ id c, b_calls b !! id = Some c → on_wire c → cf_retry (ca_config c) = false → (sends b id <= 1)%nat).
Proof.
  intros b. pose proof (calls_ok_browse storage events) as Hok. fold b in Hok. split_and!.
  - intros id1 id2 c1 c2 H1 H2 P1 P2 W1 W2.
    assert (b_refreshPromise b = Some id1) by (apply (co_promise _ _ Hok); eauto).
    assert (b_refreshPromise b = Some id2) by (apply (co_promise _ _ Hok); eauto). congruence.
  - intros id c Hc Ha. by eapply awaiting_refresh.
  - intros id. destruct (b_calls b !! id) as [c|] eqn:Ec; [|rewrite (co_wire _ _ Hok id Ec); lia].
    etransitivity; [by apply (co_sends _ _ Hok id c)|]. unfold send_budget. repeat case_match; lia.
  - intros id c Hc Ho Hr. etransitivity; [by apply (co_sends _ _ Hok id c)|].
    unfold send_budget, on_wire in *. by rewrite Ho, Hr.
Qed.

(** ** The session *)

(** The replies that the backend's types promise. *)
Definition sound_reply (purpose : Purpose) (reply : Reply) : Prop :=
  match reply, purpose with
  | ReplyOk data, (RefreshRequest _ | SignInRequest) =>
      is_Some (bd_user data) ∧ is_Some (bd_accessToken data)
  | ReplyOk data, MeRequest _ => is_Some (bd_user data)
  | _, _ => True
  end.

Fixpoint sound_run (b : Browser) (events : list BrowserEvent) : Prop :=
  match events with
  | [] => True
  | e :: events =>
      match e with
      | NetworkReply id r => ∀ c, b_calls b !! id = Some c → sound_reply (ca_purpose c) r
      | _ => True
      end ∧ sound_run (browser_step b e) events
  end.

(** The copy in the local storage is the token, and the store says that nobody is signed in
    or who is, with a token. *)
Record session_ok (b : Browser) : Prop := {
  so_storage : b_storage b = given_token (b_accessToken b);
  so_in : b_isAuthenticated b = true → is_Some (b_currentUser b) ∧ is_Some (b_storeToken b);
  so_out : b_isAuthenticated b = false → b_currentUser b = None ∧ b_storeToken b = None;
}.

Definition session (b : Browser) :=
  (b_accessToken b, b_storage b, b_currentUser b, b_storeToken b, b_isAuthenticated b).

Lemma session_ok_same b b' : session b' = session b → session_ok b → session_ok b'.
Proof.
  intros E [S1 S2 S3]. injection E as E1 E2 E3 E4 E5.
  split; rewrite ?E1, ?E2, ?E3, ?E4, ?E5; assumption.
Qed.

Lemma session_ok_clear b : session_ok (clearSession b).
Proof. by split. Qed.

Lemma session_ok_settle id purpose r b :
  sound_reply purpose r → session_ok b → session_ok (settle id purpose r b).
Proof.
  intros Hr Hok. unfold settle.
  assert (session_ok (set_phase id (Settled r) b)) as Hok' by by apply (session_ok_same b).
  destruct purpose, r; cbn in *; try done.
  destruct Hok'. by split.
Qed.

Lemma session_ok_catch id purpose status code b :
  session_ok (refresh_catch id purpose (ReplyError status code) b).
Proof. apply session_ok_settle; [by destruct purpose|apply session_ok_clear]. Qed.

Lemma session_ok_resume_all token b ids : session_ok b → session_ok (foldl (resume token) b ids).
Proof.
  revert b. induction ids as [|id ids IH]; intros b Hok; [done|]. cbn. apply IH.
  unfold resume. destruct (_ !! id) as [[purpose config []]|]; try done.
  destruct (given_token token); [by apply (session_ok_same b)|apply session_ok_catch].
Qed.

Lemma session_ok_step b e : sound_run b [e] → session_ok b → session_ok (browser_step b e).
Proof.
  intros [Hr _] Hok. destruct e; try by apply (session_ok_same b). cbn in *.
  destruct (b_calls b !! id) as [c|] eqn:Ec; [|done]. specialize (Hr c eq_refl).
  destruct (ca_phase c); try done. unfold on_reply.
  destruct (ca_purpose c) as [|owner| | |] eqn:Ep.
  2: { unfold refresh_ended. destruct reply as [data|status code]; cbn.
       - destruct Hr as [H1 H2].
         destruct owner; [apply session_ok_resume_all; by split
           |destruct (given_token _); by split|by split].
       - destruct owner; [apply session_ok_resume_all|..]; by split. }
  all: destruct reply as [data|status code]; [by apply session_ok_settle|].
  all: destruct (cf_skipAuthRefresh _); [by apply session_ok_settle|].
  all: destruct (cf_retry _); [apply session_ok_catch|].
  all: destruct (negb _); [by apply session_ok_settle|].
  all: unfold await_refresh, runSharedRefresh; destruct (b_refreshPromise b);
    by apply (session_ok_same b).
Qed.

(** C19: The session agrees with itself.  While the backend answers as its types promise, in
    whatever order the replies and the user's actions come, the local storage holds
    exactly the token that requests are sent with, somebody is signed in when and only when
    the store has the user and a token, and signed out it has neither. *)
Theorem session_agrees storage events :
  given_token storage = storage → sound_run (page_load storage) events →
  let b := browse storage events in
  b_storage b = given_token (b_accessToken b) ∧
  (b_isAuthenticated b = true ↔ is_Some (b_currentUser b)) ∧
  (b_isAuthenticated b = true ↔ is_Some (b_storeToken b)).
Proof.
  intros Hs Hrun b.
  assert (session_ok b) as [S1 S2 S3].
  { unfold b, browse. assert (session_ok (page_load storage)) as H0 by by split.
    revert Hrun H0. generalize (page_load storage).
    induction events as [|e events IH]; intros b0 Hrun H0; [done|]. cbn.
    destruct Hrun as [He Hrun]. apply IH; [done|]. by apply session_ok_step. }
  split_and!; [done| |]; destruct (b_isAuthenticated b); split; intros H; try done; try (by apply S2).
  - destruct S3 as [E _]; [done|]. rewrite E in H. by destruct H.
  - destruct S3 as [_ E]; [done|]. rewrite E in H. by destruct H.
Qed.

(** When a call that was retried with the refreshed token fails, for whatever reason (the
    network is down, the server answers 500), the session that the refresh renewed is
    dropped: the token, its copy and the user. *)
Theorem retry_failure_logs_out b id c status code :
  b_calls b !! id = Some c → on_wire c → ca_purpose c = AppRequest →
  cf_retry (ca_config c) = true → cf_skipAuthRefresh (ca_config c) = false →
  let b' := browser_step b (NetworkReply id (ReplyError status code)) in
  b_accessToken b' = None ∧ b_storage b' = None ∧ b_isAuthenticated b' = false ∧
  b_currentUser b' = None ∧
  (b_calls b' !! id = Some (mkCall AppRequest (ca_config c) (Settled (ReplyError status code)))).
Proof.
  intros Hc Ho Hp Hr Hs b'. unfold b', browser_step, on_wire in *.
  rewrite Hc, Ho. unfold on_reply. rewrite Hp, Hs, Hr.
  repeat (split; [done|]). cbn. rewrite lookup_alter_eq, Hc. cbn. by rewrite Hp.
Qed.

Lemma session_resume_all token t b ids :
  given_token token = Some t → session (foldl (resume token) b ids) = session b.
Proof.
  intros Ht. revert b. induction ids as [|id ids IH]; intros b; [done|]. cbn. rewrite IH.
  unfold resume. rewrite Ht. by destruct (_ !! id) as [[? ? []]|].
Qed.

(** A logout does not stop a refresh that is on the wire: when its reply comes after the
    logout's, the user who logged out is signed in again, with the token stored. *)
Theorem logout_undone b out rid co cr closed data t :
  b_calls b !! out = Some co → ca_purpose co = LogoutRequest → on_wire co →
  b_calls b !! rid = Some cr → ca_purpose cr = RefreshRequest SharedRefresh → on_wire cr →
  bd_accessToken data = Some t → truthy t = true →
  let b1 := browser_step b (NetworkReply out (ReplyOk closed)) in
  let b2 := browser_step b1 (NetworkReply rid (ReplyOk data)) in
  (b_isAuthenticated b1 = false ∧ b_currentUser b1 = None ∧ b_storage b1 = None) ∧
  (b_isAuthenticated b2 = true ∧ b_currentUser b2 = bd_user data ∧ b_storage b2 = Some t).
Proof.
  intros Ho Hop How Hr Hrp Hrw Ht Htt b1 b2. unfold on_wire in *.
  assert (b1 = settle out LogoutRequest (ReplyOk closed) b) as E1.
  { unfold b1. cbn. rewrite Ho, How. unfold on_reply. by rewrite Hop. }
  split; [by rewrite E1|].
  assert (b_calls b1 !! rid = Some cr) as Hr1.
  { rewrite E1. cbn. rewrite lookup_alter_ne; [done|]. intros ->. congruence. }
  assert (given_token (Some t) = Some t) as Hg by (cbn; by rewrite Htt).
  assert (session b2 = (Some t, Some t, bd_user data, Some t, true)) as E2.
  { unfold b2, browser_step. rewrite Hr1, Hrw. unfold on_reply. rewrite Hrp. unfold refresh_ended.
    cbn [refreshAccessToken]. rewrite (session_resume_all _ t); [|by rewrite Ht].
    unfold session. cbn. rewrite Ht. cbn. by rewrite Htt. }
  injection E2 as _ E3 E4 _ E5. by rewrite E3, E4, E5.
Qed.

(** ** At concrete inputs

    A user signs in; the token expires; two calls find out, and share a refresh; one of
    them fails when it is sent again. *)
#[export] Instance on_wire_dec c : Decision (on_wire c).
Proof. unfold on_wire. destruct (ca_phase c); [by left|by right..]. Defined.

Definition demo_user : AuthUser := mkAuthUser (js "u1") (js "a@b.c") (js "a") (js "A") None.
Definition demo_session (token : jsstring) : Reply :=
  ReplyOk (mkResponse (Some demo_user) (Some token)).
Definition demo_expired : Reply := ReplyError (Some 401) (Some (js "access_token_expired")).

Definition demo_events : list BrowserEvent :=
  [HydrateSession; NetworkReply 0 (ReplyError (Some 401) None);
   StartSignIn; NetworkReply 1 (demo_session (js "t1"));
   StartCall false; StartCall false; NetworkReply 2 demo_expired; NetworkReply 3 demo_expired].

Definition demo_replies : list (nat * Reply) :=
  [(4%nat, demo_session (js "t2")); (2%nat, ReplyOk (mkResponse None None));
   (3%nat, ReplyError (Some 500) None)].

Definition demo_end : Browser :=
  browse None (demo_events ++ map (λ r, NetworkReply r.1 r.2) demo_replies).

Lemma demo_answered :
  answered (browse None demo_events) demo_replies demo_end.
Proof.
  unfold demo_end, browse. rewrite foldl_app. unfold demo_replies. cbn [map foldl fst snd].
  do 3 (eapply answered_reply; [vm_compute; reflexivity|vm_compute; reflexivity|]).
  apply answered_none.
Qed.

Lemma every_call_ends_witness :
  answered (browse None demo_events) demo_replies demo_end ∧
  HydrateSession ∈ demo_events ∧
  (∀ id c, b_calls demo_end !! id = Some c → ¬ on_wire c) ∧
  (∀ id c, b_calls demo_end !! id = Some c → ∃ r, ca_phase c = Settled r) ∧
  b_isHydrating demo_end = false.
Proof.
  assert (map_Forall (λ (_ : nat) c, ¬ on_wire c) (b_calls demo_end)) as Hq
    by (apply (bool_decide_unpack _); vm_compute; exact I).
  destruct (every_call_ends None demo_events demo_replies demo_end demo_answered) as [_ He].
  destruct (He Hq) as [H1 H2].
  split; [exact demo_answered|]. split; [left|]. split; [exact Hq|]. split; [exact H1|].
  apply H2. left.
Defined.

Lemma session_agrees_witness :
  given_token None = None ∧ sound_run (page_load None) demo_events ∧
  (b_isAuthenticated (browse None demo_events) = true ↔
     is_Some (b_currentUser (browse None demo_events))) ∧
  b_currentUser (browse None demo_events) = Some demo_user.
Proof.
  assert (sound_run (page_load None) demo_events) as Hs.
  { vm_compute. repeat split; intros c Hc; injection Hc as <-; vm_compute; eauto. }
  destruct (session_agrees None demo_events eq_refl Hs) as (_ & H2 & _).
  split; [reflexivity|]. split; [exact Hs|]. split; [exact H2|]. vm_compute. reflexivity.
Defined.

Lemma retry_failure_logs_out_witness :
  b_storage (browse None (demo_events ++ map (λ r, NetworkReply r.1 r.2) (take 2 demo_replies)))
    = Some (js "t2") ∧
  b_storage (browser_step
    (browse None (demo_events ++ map (λ r, NetworkReply r.1 r.2) (take 2 demo_replies)))
    (NetworkReply 3 (ReplyError (Some 500) None))) = None.
Proof.
  split; [vm_compute; reflexivity|].
  eapply (retry_failure_logs_out _ 3); vm_compute; reflexivity.
Defined.

Lemma logout_undone_witness :
  let b := browse None (demo_events ++ [StartLogout]) in
  b_isAuthenticated (browser_step (browser_step b (NetworkReply 5 (ReplyOk (mkResponse None None))))
    (NetworkReply 4 (demo_session (js "t2")))) = true.
Proof.
  intros b. unfold demo_session.
  eapply (logout_undone b 5 4 _ _ (mkResponse None None) (mkResponse (Some demo_user) (Some (js "t2"))));
    vm_compute; reflexivity.
Defined.
