(* ===== verification/View.v ===== *)
(** * The chat page: its data and the functions that update it

    [frontend/src/types/chat.ts], [mapRealtimeMessage] of [services/chat.service.ts] and
    the functions at the top of [features/chat/chat.page.tsx]: the list of messages of the
    open conversation, the previews of the conversations, the unread counters and the
    title they give the window; and the state of the page, with one setter per field. *)

From S2P Require Import Prelude JsText.
From stdpp Require Import pretty.
Open Scope Z_scope.

(** ** What the page takes from the browser: the time of a date (every date the backend sends
    is an ISO string, so never NaN) and the lower case of a string. *)
Class Window := {
  getTime : jsstring → Z;
  toLowerCase : jsstring → jsstring;
}.

(** ** Data *)

Inductive ConversationType := direct | group.
Inductive DeliveryStatus := sent | failed.
Inductive SeenState := seen_sent | seen.
Inductive MessageDisplayState := ready | decode_failed.
Inductive MembershipEventType := added | joined | left_ | removed.
Inductive UnreadTitleVariant := default_variant | single_sender | multi_sender.
Inductive DraftAttachmentStatus := pending | uploading | uploaded | upload_failed.
Inductive ChatConnectionState := connecting | connected | reconnecting | disconnected.

#[export] Instance ConversationType_eq_dec : EqDecision ConversationType.
Proof. solve_decision. Defined.
#[export] Instance ChatConnectionState_eq_dec : EqDecision ChatConnectionState.
Proof. solve_decision. Defined.

Record ConversationPeer := mkPeer {
  pe_id : jsstring;
  pe_username : jsstring;
  pe_displayName : jsstring;
  pe_email : option jsstring;
  pe_avatarUrl : option jsstring;
}.

Record Conversation := mkConversation {
  vc_id : jsstring;
  vc_type : ConversationType;
  vc_title : option jsstring;
  vc_createdBy : jsstring;
  vc_lastMessageAt : option jsstring;
  vc_createdAt : jsstring;
  vc_updatedAt : jsstring;
  vc_displayTitle : option jsstring;
  vc_displayAvatarUrl : option jsstring;
  vc_lastMessagePreview : option jsstring;
  vc_unreadCount : option Z;
  vc_hasUnread : option bool;
  vc_directPeer : option ConversationPeer;
}.

Record ChatAttachment := mkAttachment {
  va_attachmentId : jsstring;
  va_fileName : jsstring;
  va_mimeType : jsstring;
  va_sizeBytes : number;
  va_isImage : bool;
  va_uploaderId : option jsstring;
  va_conversationId : option jsstring;
  va_messageId : option jsstring;
}.

Record MessageModerationResult := mkModerationResult {
  mo_messageId : jsstring;
  mo_sentiment : option jsstring;
  mo_sentimentScore : option number;
  mo_toxicityScore : option number;
  mo_isToxic : option bool;
  mo_warningMessage : option jsstring;
}.

Record Message := mkMessage {
  vm_id : jsstring;
  vm_conversationId : jsstring;
  vm_senderId : jsstring;
  vm_senderDisplayName : option jsstring;
  vm_senderAvatarUrl : option jsstring;
  vm_content : jsstring;
  vm_sentAt : jsstring;
  vm_deliveryStatus : DeliveryStatus;
  vm_seenState : option SeenState;
  vm_attachment : option ChatAttachment;
  vm_isTailOfSenderGroup : option bool;
  vm_decodeErrorCode : option jsstring;
  vm_displayState : option MessageDisplayState;
  vm_isAIBotMessage : option bool;
  vm_isAICommand : option bool;
  vm_moderationResult : option MessageModerationResult;
}.

Record RealtimeMessage := mkRealtime {
  rm_messageId : jsstring;
  rm_conversationId : jsstring;
  rm_senderId : jsstring;
  rm_senderDisplayName : option jsstring;
  rm_senderAvatarUrl : option jsstring;
  rm_content : jsstring;
  rm_sentAt : jsstring;
  rm_seenState : option SeenState;
  rm_attachment : option ChatAttachment;
  rm_isTailOfSenderGroup : option bool;
  rm_decodeErrorCode : option jsstring;
  rm_displayState : option MessageDisplayState;
  rm_isAIBotMessage : option bool;
  rm_isAICommand : option bool;
  rm_moderationResult : option MessageModerationResult;
}.

Record MembershipEvent := mkMembershipEvent {
  me_id : jsstring;
  me_conversationId : jsstring;
  me_type : MembershipEventType;
  me_targetUserId : jsstring;
  me_actorUserId : option jsstring;
  me_occurredAt : jsstring;
}.

Record ConversationPreviewUpdate := mkPreviewUpdate {
  pu_conversationId : jsstring;
  pu_lastMessagePreview : jsstring;
  pu_lastMessageAt : jsstring;
  pu_unreadCount : option Z;
  pu_hasUnread : option bool;
}.

Record UnreadSummary := mkUnreadSummary {
  un_totalUnreadMessages : Z;
  un_unreadConversationIds : list jsstring;
  un_unreadSourceCount : Z;
  un_singleSenderName : option jsstring;
  un_titleVariant : UnreadTitleVariant;
}.

Record TypingPresenceUpdate := mkTyping {
  ty_conversationId : jsstring;
  ty_userId : jsstring;
  ty_isTyping : bool;
  ty_expiresAt : option jsstring;
}.

Record ChatSocketError := mkSocketError {
  er_code : jsstring;
  er_message : jsstring;
  er_conversationId : option jsstring;
}.

(** The parts of a [File] that the page reads. *)
Record File := mkFile {
  fl_name : jsstring;
  fl_type : jsstring;
  fl_size : Z;
  fl_webkitRelativePath : option jsstring;
}.

Record DraftAttachment := mkDraft {
  da_localId : jsstring;
  da_file : File;
  da_progress : Z;
  da_status : DraftAttachmentStatus;
  da_attachmentId : option jsstring;
  da_error : option jsstring;
}.

Record SuggestionCacheEntry := mkCacheEntry {
  sc_suggestions : list jsstring;
  sc_baseMessageCount : Z;
}.

Record SlashCommandOption := mkSlash {
  sl_command : jsstring;
  sl_label : jsstring;
  sl_description : jsstring;
}.

(** A [Record<string, T | undefined>] maps a key to nothing when its value is [undefined]. *)
Record ChatState := mkChatState {
  conversations : list Conversation;
  selectedConversationId : option jsstring;
  messages : list Message;
  membershipEvents : list MembershipEvent;
  loadingConversations : bool;
  loadingMessages : bool;
  sendingMessage : bool;
  draftAttachment : option DraftAttachment;
  hasMoreMessages : bool;
  typingByConversationId : gmap jsstring TypingPresenceUpdate;
  aiSuggestions : list jsstring;
  loadingAiSuggestions : bool;
  aiUnavailable : bool;
  aiEnabled : bool;
  waitingForAiConversationId : option jsstring;
  suggestionCacheByConversationId : gmap jsstring SuggestionCacheEntry;
  slashCommandsVisible : bool;
  slashCommandQuery : jsstring;
}.

(** [{ ...prev, field }]. *)
Definition set_conversations (v : list Conversation) (s : ChatState) : ChatState :=
  mkChatState v (selectedConversationId s) (messages s) (membershipEvents s)
    (loadingConversations s) (loadingMessages s) (sendingMessage s) (draftAttachment s)
    (hasMoreMessages s) (typingByConversationId s) (aiSuggestions s)
    (loadingAiSuggestions s) (aiUnavailable s) (aiEnabled s) (waitingForAiConversationId s)
    (suggestionCacheByConversationId s) (slashCommandsVisible s) (slashCommandQuery s).
Definition set_selectedConversationId (v : option jsstring) (s : ChatState) : ChatState :=
  mkChatState (conversations s) v (messages s) (membershipEvents s) (loadingConversations s)
    (loadingMessages s) (sendingMessage s) (draftAttachment s) (hasMoreMessages s)
    (typingByConversationId s) (aiSuggestions s) (loadingAiSuggestions s) (aiUnavailable s)
    (aiEnabled s) (waitingForAiConversationId s) (suggestionCacheByConversationId s)
    (slashCommandsVisible s) (slashCommandQuery s).
Definition set_messages (v : list Message) (s : ChatState) : ChatState :=
  mkChatState (conversations s) (selectedConversationId s) v (membershipEvents s)
    (loadingConversations s) (loadingMessages s) (sendingMessage s) (draftAttachment s)
    (hasMoreMessages s) (typingByConversationId s) (aiSuggestions s)
    (loadingAiSuggestions s) (aiUnavailable s) (aiEnabled s) (waitingForAiConversationId s)
    (suggestionCacheByConversationId s) (slashCommandsVisible s) (slashCommandQuery s).
Definition set_membershipEvents (v : list MembershipEvent) (s : ChatState) : ChatState :=
  mkChatState (conversations s) (selectedConversationId s) (messages s) v
    (loadingConversations s) (loadingMessages s) (sendingMessage s) (draftAttachment s)
    (hasMoreMessages s) (typingByConversationId s) (aiSuggestions s)
    (loadingAiSuggestions s) (aiUnavailable s) (aiEnabled s) (waitingForAiConversationId s)
    (suggestionCacheByConversationId s) (slashCommandsVisible s) (slashCommandQuery s).
Definition set_loadingConversations (v : bool) (s : ChatState) : ChatState :=
  mkChatState (conversations s) (selectedConversationId s) (messages s) (membershipEvents s)
    v (loadingMessages s) (sendingMessage s) (draftAttachment s) (hasMoreMessages s)
    (typingByConversationId s) (aiSuggestions s) (loadingAiSuggestions s) (aiUnavailable s)
    (aiEnabled s) (waitingForAiConversationId s) (suggestionCacheByConversationId s)
    (slashCommandsVisible s) (slashCommandQuery s).
Definition set_loadingMessages (v : bool) (s : ChatState) : ChatState :=
  mkChatState (conversations s) (selectedConversationId s) (messages s) (membershipEvents s)
    (loadingConversations s) v (sendingMessage s) (draftAttachment s) (hasMoreMessages s)
    (typingByConversationId s) (aiSuggestions s) (loadingAiSuggestions s) (aiUnavailable s)
    (aiEnabled s) (waitingForAiConversationId s) (suggestionCacheByConversationId s)
    (slashCommandsVisible s) (slashCommandQuery s).
Definition set_sendingMessage (v : bool) (s : ChatState) : ChatState :=
  mkChatState (conversations s) (selectedConversationId s) (messages s) (membershipEvents s)
    (loadingConversations s) (loadingMessages s) v (draftAttachment s) (hasMoreMessages s)
    (typingByConversationId s) (aiSuggestions s) (loadingAiSuggestions s) (aiUnavailable s)
    (aiEnabled s) (waitingForAiConversationId s) (suggestionCacheByConversationId s)
    (slashCommandsVisible s) (slashCommandQuery s).
Definition set_draftAttachment (v : option DraftAttachment) (s : ChatState) : ChatState :=
  mkChatState (conversations s) (selectedConversationId s) (messages s) (membershipEvents s)
    (loadingConversations s) (loadingMessages s) (sendingMessage s) v (hasMoreMessages s)
    (typingByConversationId s) (aiSuggestions s) (loadingAiSuggestions s) (aiUnavailable s)
    (aiEnabled s) (waitingForAiConversationId s) (suggestionCacheByConversationId s)
    (slashCommandsVisible s) (slashCommandQuery s).
Definition set_hasMoreMessages (v : bool) (s : ChatState) : ChatState :=
  mkChatState (conversations s) (selectedConversationId s) (messages s) (membershipEvents s)
    (loadingConversations s) (loadingMessages s) (sendingMessage s) (draftAttachment s) v
    (typingByConversationId s) (aiSuggestions s) (loadingAiSuggestions s) (aiUnavailable s)
    (aiEnabled s) (waitingForAiConversationId s) (suggestionCacheByConversationId s)
    (slashCommandsVisible s) (slashCommandQuery s).
Definition set_typingByConversationId (v : gmap jsstring TypingPresenceUpdate) (s : ChatState) : ChatState :=
  mkChatState (conversations s) (selectedConversationId s) (messages s) (membershipEvents s)
    (loadingConversations s) (loadingMessages s) (sendingMessage s) (draftAttachment s)
    (hasMoreMessages s) v (aiSuggestions s) (loadingAiSuggestions s) (aiUnavailable s)
    (aiEnabled s) (waitingForAiConversationId s) (suggestionCacheByConversationId s)
    (slashCommandsVisible s) (slashCommandQuery s).
Definition set_aiSuggestions (v : list jsstring) (s : ChatState) : ChatState :=
  mkChatState (conversations s) (selectedConversationId s) (messages s) (membershipEvents s)
    (loadingConversations s) (loadingMessages s) (sendingMessage s) (draftAttachment s)
    (hasMoreMessages s) (typingByConversationId s) v (loadingAiSuggestions s)
    (aiUnavailable s) (aiEnabled s) (waitingForAiConversationId s)
    (suggestionCacheByConversationId s) (slashCommandsVisible s) (slashCommandQuery s).
Definition set_loadingAiSuggestions (v : bool) (s : ChatState) : ChatState :=
  mkChatState (conversations s) (selectedConversationId s) (messages s) (membershipEvents s)
    (loadingConversations s) (loadingMessages s) (sendingMessage s) (draftAttachment s)
    (hasMoreMessages s) (typingByConversationId s) (aiSuggestions s) v (aiUnavailable s)
    (aiEnabled s) (waitingForAiConversationId s) (suggestionCacheByConversationId s)
    (slashCommandsVisible s) (slashCommandQuery s).
Definition set_aiUnavailable (v : bool) (s : ChatState) : ChatState :=
  mkChatState (conversations s) (selectedConversationId s) (messages s) (membershipEvents s)
    (loadingConversations s) (loadingMessages s) (sendingMessage s) (draftAttachment s)
    (hasMoreMessages s) (typingByConversationId s) (aiSuggestions s)
    (loadingAiSuggestions s) v (aiEnabled s) (waitingForAiConversationId s)
    (suggestionCacheByConversationId s) (slashCommandsVisible s) (slashCommandQuery s).
Definition set_aiEnabled (v : bool) (s : ChatState) : ChatState :=
  mkChatState (conversations s) (selectedConversationId s) (messages s) (membershipEvents s)
    (loadingConversations s) (loadingMessages s) (sendingMessage s) (draftAttachment s)
    (hasMoreMessages s) (typingByConversationId s) (aiSuggestions s)
    (loadingAiSuggestions s) (aiUnavailable s) v (waitingForAiConversationId s)
    (suggestionCacheByConversationId s) (slashCommandsVisible s) (slashCommandQuery s).
Definition set_waitingForAiConversationId (v : option jsstring) (s : ChatState) : ChatState :=
  mkChatState (conversations s) (selectedConversationId s) (messages s) (membershipEvents s)
    (loadingConversations s) (loadingMessages s) (sendingMessage s) (draftAttachment s)
    (hasMoreMessages s) (typingByConversationId s) (aiSuggestions s)
    (loadingAiSuggestions s) (aiUnavailable s) (aiEnabled s) v
    (suggestionCacheByConversationId s) (slashCommandsVisible s) (slashCommandQuery s).
Definition set_suggestionCacheByConversationId (v : gmap jsstring SuggestionCacheEntry) (s : ChatState) : ChatState :=
  mkChatState (conversations s) (selectedConversationId s) (messages s) (membershipEvents s)
    (loadingConversations s) (loadingMessages s) (sendingMessage s) (draftAttachment s)
    (hasMoreMessages s) (typingByConversationId s) (aiSuggestions s)
    (loadingAiSuggestions s) (aiUnavailable s) (aiEnabled s) (waitingForAiConversationId s)
    v (slashCommandsVisible s) (slashCommandQuery s).
Definition set_slashCommandsVisible (v : bool) (s : ChatState) : ChatState :=
  mkChatState (conversations s) (selectedConversationId s) (messages s) (membershipEvents s)
    (loadingConversations s) (loadingMessages s) (sendingMessage s) (draftAttachment s)
    (hasMoreMessages s) (typingByConversationId s) (aiSuggestions s)
    (loadingAiSuggestions s) (aiUnavailable s) (aiEnabled s) (waitingForAiConversationId s)
    (suggestionCacheByConversationId s) v (slashCommandQuery s).
Definition set_slashCommandQuery (v : jsstring) (s : ChatState) : ChatState :=
  mkChatState (conversations s) (selectedConversationId s) (messages s) (membershipEvents s)
    (loadingConversations s) (loadingMessages s) (sendingMessage s) (draftAttachment s)
    (hasMoreMessages s) (typingByConversationId s) (aiSuggestions s)
    (loadingAiSuggestions s) (aiUnavailable s) (aiEnabled s) (waitingForAiConversationId s)
    (suggestionCacheByConversationId s) (slashCommandsVisible s) v.

(** The state a page starts with. *)
Definition initialState : ChatState :=
  mkChatState [] None [] [] true false false None true ∅ [] false false true None ∅ false [].

(** ** [services/chat.service.ts] *)

Definition mapRealtimeMessage (message : RealtimeMessage) : Message :=
  mkMessage (rm_messageId message) (rm_conversationId message) (rm_senderId message)
    (rm_senderDisplayName message) (rm_senderAvatarUrl message) (rm_content message)
    (rm_sentAt message) sent (rm_seenState message) (rm_attachment message)
    (rm_isTailOfSenderGroup message) (rm_decodeErrorCode message) (rm_displayState message)
    (rm_isAIBotMessage message) (rm_isAICommand message) (rm_moderationResult message).

(** ** [features/chat/chat.page.tsx] *)

(** [list.sort(compare)]: stable. *)
Fixpoint insert_by {A} (compare : A → A → Z) (x : A) (l : list A) : list A :=
  match l with
  | [] => [x]
  | y :: l' => if compare x y <=? 0 then x :: l else y :: insert_by compare x l'
  end.
Definition sort_by {A} (compare : A → A → Z) (l : list A) : list A :=
  foldr (insert_by compare) [] l.

Definition or_zero (n : option Z) : Z := default 0 n.
Definition is_true (b : option bool) : bool := default false b.

(** [option?.trim()], when it is there and not empty. *)
Definition trimmed (s : option jsstring) : option jsstring :=
  match s with Some s => if truthy (trim s) then Some (trim s) else None | None => None end.

Definition FALLBACK_SENDER_NAME : jsstring := js "người dùng".

Definition SLASH_COMMANDS : list SlashCommandOption :=
  [mkSlash (js "/ai") (js "ChatAI") (js "Hỏi AI trong đoạn chat hiện tại")].

Section view.
Context `{Window}.

Definition by_sentAt (a b : Message) : Z := getTime (vm_sentAt a) - getTime (vm_sentAt b).

Definition upsertMessage (messages : list Message) (message : Message) : list Message :=
  if existsb (λ item, bool_decide (vm_id item = vm_id message)) messages then messages
  else sort_by by_sentAt (messages ++ [message]).

Definition lastMessageTime (c : Conversation) : Z :=
  match vc_lastMessageAt c with Some t => if truthy t then getTime t else 0 | None => 0 end.

Definition by_latest (a b : Conversation) : Z := lastMessageTime b - lastMessageTime a.

Definition with_preview (preview : ConversationPreviewUpdate) (c : Conversation) : Conversation :=
  mkConversation (vc_id c) (vc_type c) (vc_title c) (vc_createdBy c)
    (Some (pu_lastMessageAt preview)) (vc_createdAt c) (vc_updatedAt c) (vc_displayTitle c)
    (vc_displayAvatarUrl c) (Some (pu_lastMessagePreview preview)) (pu_unreadCount preview)
    (pu_hasUnread preview) (vc_directPeer c).

Definition find_conversation (conversations : list Conversation) (id : jsstring)
    : option Conversation :=
  find (λ c, bool_decide (vc_id c = id)) conversations.

(** [conversations.map((c) => c._id === id ? f(c) : c)]. *)
Definition map_conversation (id : jsstring) (f : Conversation → Conversation)
    (conversations : list Conversation) : list Conversation :=
  map (λ c, if bool_decide (vc_id c = id) then f c else c) conversations.

Definition updateConversationPreview (conversations : list Conversation)
    (preview : ConversationPreviewUpdate) : option (list Conversation) :=
  match find_conversation conversations (pu_conversationId preview) with
  | None => None
  | Some _ =>
      Some (sort_by by_latest
        (map_conversation (pu_conversationId preview) (with_preview preview) conversations))
  end.

Definition with_unread (count : Z) (c : Conversation) : Conversation :=
  mkConversation (vc_id c) (vc_type c) (vc_title c) (vc_createdBy c) (vc_lastMessageAt c)
    (vc_createdAt c) (vc_updatedAt c) (vc_displayTitle c) (vc_displayAvatarUrl c)
    (vc_lastMessagePreview c) (Some count) (Some (0 <? count)) (vc_directPeer c).

Definition resolveConversationSenderName (c : Conversation) : jsstring :=
  match trimmed (pe_displayName <$> vc_directPeer c) with
  | Some name => name
  | None =>
      match trimmed (vc_displayTitle c) with
      | Some name => name
      | None => default FALLBACK_SENDER_NAME (trimmed (vc_title c))
      end
  end.

Definition is_unread (c : Conversation) : bool := 0 <? or_zero (vc_unreadCount c).

Definition buildUnreadSummary (conversations : list Conversation) : UnreadSummary :=
  let unread := filter (λ c, is_unread c = true) conversations in
  let total := foldl (λ total c, total + or_zero (vc_unreadCount c)) 0 unread in
  if total =? 0 then mkUnreadSummary 0 [] 0 None default_variant
  else
    match unread with
    | [c] =>
        mkUnreadSummary total [vc_id c] 1 (Some (resolveConversationSenderName c)) single_sender
    | _ =>
        mkUnreadSummary total (map vc_id unread) (Z.of_nat (length unread)) None multi_sender
    end.

Definition js_number (n : Z) : jsstring := js_literal (pretty n).

Definition formatUnreadTitle (summary : UnreadSummary) (defaultTitle : jsstring) : jsstring :=
  let count := js_number (un_totalUnreadMessages summary) in
  let plain := js "Bạn có " ++ count ++ js " tin nhắn chưa đọc" in
  match un_titleVariant summary with
  | default_variant => defaultTitle
  | variant =>
      if un_totalUnreadMessages summary =? 0 then defaultTitle
      else
        match variant, un_singleSenderName summary with
        | single_sender, Some name =>
            if truthy name then js "Bạn có " ++ count ++ js " tin nhắn mới từ " ++ name
            else plain
        | _, _ => plain
        end
  end.

(** ** What the page shows *)

Definition selectedConversation (s : ChatState) : option Conversation :=
  match selectedConversationId s with
  | Some id => find_conversation (conversations s) id
  | None => None
  end.

Definition unreadSummary (s : ChatState) : UnreadSummary := buildUnreadSummary (conversations s).

Inductive TimelineItem := EventItem (event : MembershipEvent) | MessageItem (message : Message).

Definition item_date (i : TimelineItem) : jsstring :=
  match i with EventItem e => me_occurredAt e | MessageItem m => vm_sentAt m end.
Definition by_date (a b : TimelineItem) : Z := getTime (item_date a) - getTime (item_date b).

Definition combinedTimeline (s : ChatState) : list TimelineItem :=
  let eventItems :=
    match selectedConversation s with
    | Some c => if bool_decide (vc_type c = group) then map EventItem (membershipEvents s) else []
    | None => []
    end in
  sort_by by_date (eventItems ++ map MessageItem (messages s)).

Definition filteredSlashCommands (s : ChatState) : list SlashCommandOption :=
  let query := toLowerCase (trim (slashCommandQuery s)) in
  if negb (slashCommandsVisible s) then []
  else if negb (truthy query) then SLASH_COMMANDS
  else
    filter (λ item, includes (toLowerCase (sl_command item)) query
                    || includes (toLowerCase (sl_label item)) query = true) SLASH_COMMANDS.
End view.
