(* ===== verification/ViewFacts.v ===== *)
(** * The chat page: what its functions compute

    Sorting, the list of messages after a message arrives, the previews after an update,
    and what the window's title says about unread messages. *)

From S2P Require Import Prelude JsText View.
From stdpp Require Import pretty.
Open Scope Z_scope.

(** ** Filters *)

Lemma filter_Forall {A} (P Q : A → Prop) `{∀ x, Decision (P x)} l :
  Forall Q l → Forall Q (filter P l).
Proof. rewrite !Forall_forall. intros HQ x [_ Hx]%list_elem_of_filter. auto. Qed.

Lemma filter_keeps {A} (P : A → Prop) `{∀ x, Decision (P x)} l : Forall P l → filter P l = l.
Proof. induction 1 as [|x l Hx _ IH]; [done|]. by rewrite filter_cons_True, IH. Qed.

Lemma filter_drops {A} (P : A → Prop) `{∀ x, Decision (P x)} l :
  Forall (λ x, ¬ P x) l → filter P l = [].
Proof. induction 1 as [|x l Hx _ IH]; [done|]. by rewrite filter_cons_False. Qed.

(** ** Sorting by a key *)

Section sorting.
Context {A : Type} (key : A → Z).

Definition key_sorted (l : list A) : Prop := StronglySorted (λ a b, key a <= key b) l.
Definition by_key (a b : A) : Z := key a - key b.

Lemma insert_by_Permutation compare (x : A) l : insert_by compare x l ≡ₚ x :: l.
Proof.
  induction l as [|y l IH]; [done|]. cbn. case_match; [done|].
  rewrite IH. by rewrite (Permutation_swap x y l).
Qed.

Lemma sort_by_Permutation compare (l : list A) : sort_by compare l ≡ₚ l.
Proof. induction l as [|x l IH]; [done|]. cbn. rewrite insert_by_Permutation. by constructor. Qed.

Lemma sort_by_ext (f g : A → A → Z) l : (∀ a b, f a b = g a b) → sort_by f l = sort_by g l.
Proof.
  intros Hfg. assert (∀ x l, insert_by f x l = insert_by g x l) as Hi.
  { intros x l'. induction l' as [|y l' IH]; [done|]. cbn. by rewrite Hfg, IH. }
  induction l as [|x l IH]; [done|]. cbn. rewrite Hi. by f_equal.
Qed.

Lemma insert_by_sorted x l : key_sorted l → key_sorted (insert_by by_key x l).
Proof.
  induction 1 as [|y l Hs IH Hy]; cbn; [repeat constructor|].
  destruct (by_key x y <=? 0) eqn:E; unfold by_key in E.
  - constructor; [by constructor|]. constructor; [lia|].
    eapply Forall_impl; [exact Hy|]. cbn. lia.
  - constructor; [exact IH|]. rewrite insert_by_Permutation. constructor; [lia|done].
Qed.

Lemma sort_by_sorted l : key_sorted (sort_by by_key l).
Proof. induction l as [|x l IH]; [constructor|]. by apply insert_by_sorted. Qed.

Lemma insert_by_least x l : Forall (λ y, key x <= key y) l → insert_by by_key x l = x :: l.
Proof. destruct 1 as [|y l Hy _]; [done|]. cbn. unfold by_key. by rewrite (proj2 (Z.leb_le _ _)) by lia. Qed.

(** A new element goes after everything that is not later. *)
Lemma sort_by_snoc l x :
  key_sorted l →
  sort_by by_key (l ++ [x])
  = filter (λ y, key y <= key x) l ++ x :: filter (λ y, key x < key y) l.
Proof.
  induction 1 as [|y l Hs IH Hy]; [done|]. cbn [app sort_by foldr].
  change (foldr (insert_by by_key) [] (l ++ [x])) with (sort_by by_key (l ++ [x])). rewrite IH.
  rewrite !filter_cons. destruct (decide (key y <= key x)) as [Hle|Hgt].
  - rewrite decide_False by lia. cbn. apply insert_by_least.
    apply Forall_app. split; [by apply filter_Forall|].
    constructor; [done|]. by apply filter_Forall.
  - rewrite decide_True by lia.
    assert (filter (λ z, key z <= key x) l = []) as ->.
    { apply filter_drops. eapply Forall_impl; [exact Hy|]. cbn. lia. }
    assert (filter (λ z, key x < key z) l = l) as ->.
    { apply filter_keeps. eapply Forall_impl; [exact Hy|]. cbn. lia. }
    cbn. unfold by_key at 1. rewrite (proj2 (Z.leb_gt _ _)) by lia. f_equal. by apply insert_by_least.
Qed.

(** An ordered list is cut at any key. *)
Lemma key_sorted_cut l k :
  key_sorted l → l = filter (λ y, key y <= k) l ++ filter (λ y, k < key y) l.
Proof.
  induction 1 as [|y l Hs IH Hy]; [done|]. rewrite !filter_cons.
  destruct (decide (key y <= k)) as [Hle|Hgt].
  - rewrite decide_False by lia. cbn. by f_equal.
  - rewrite decide_True by lia. rewrite Forall_forall in Hy.
    rewrite (filter_drops (λ z, key z <= k)), (filter_keeps (λ z, k < key z)); [done| |];
      apply Forall_forall; intros z Hz; specialize (Hy z Hz); cbn in *; lia.
Qed.

Lemma key_sorted_app l1 l2 :
  key_sorted l1 → key_sorted l2 → (∀ a b, a ∈ l1 → b ∈ l2 → key a <= key b) →
  key_sorted (l1 ++ l2).
Proof.
  intros H1 H2 H. induction H1 as [|a l1 Hs IH Ha]; [done|]. cbn. constructor.
  - apply IH. intros x y Hx Hy. apply H; [by right|done].
  - apply Forall_app. split; [done|]. apply Forall_forall. intros b Hb. apply H; [left|done].
Qed.

Lemma key_sorted_head l a : key_sorted (a :: l) → Forall (λ b, key a <= key b) (a :: l).
Proof. inversion 1; subst. by constructor. Qed.
End sorting.

Arguments key_sorted {A} key l.

Lemma key_sorted_map {A B} (f : A → B) (key : B → Z) (key' : A → Z) l :
  (∀ a, key (f a) = key' a) → key_sorted key' l → key_sorted key (map f l).
Proof.
  intros Hf. induction 1 as [|a l Hs IH Ha]; [constructor|]. cbn. constructor; [done|].
  apply Forall_map. eapply Forall_impl; [exact Ha|]. cbn. by intros b; rewrite !Hf.
Qed.

(** ** The open conversation *)

Section messages.
Context `{Window}.

Definition sent_time (m : Message) : Z := getTime (vm_sentAt m).

(** A list of messages as the page means to show it. *)
Record timeline_ok (c : jsstring) (ms : list Message) : Prop := {
  tl_sorted : key_sorted sent_time ms;
  tl_nodup : NoDup (vm_id <$> ms);
  tl_of : Forall (λ m, vm_conversationId m = c) ms;
}.

Lemma timeline_nil c : timeline_ok c [].
Proof. split; constructor. Qed.

Lemma known_message ms m :
  existsb (λ item, bool_decide (vm_id item = vm_id m)) ms = bool_decide (vm_id m ∈ vm_id <$> ms).
Proof.
  apply eq_true_iff_eq. rewrite existsb_exists, bool_decide_eq_true, list_elem_of_fmap.
  setoid_rewrite bool_decide_eq_true. setoid_rewrite <-list_elem_of_In. naive_solver.
Qed.

Lemma upsertMessage_known ms m : vm_id m ∈ vm_id <$> ms → upsertMessage ms m = ms.
Proof. intros Hin. unfold upsertMessage. by rewrite known_message, bool_decide_true. Qed.

Lemma upsertMessage_new ms m :
  vm_id m ∉ vm_id <$> ms → key_sorted sent_time ms →
  upsertMessage ms m = filter (λ x, sent_time x <= sent_time m) ms
                       ++ m :: filter (λ x, sent_time m < sent_time x) ms.
Proof.
  intros Hin Hs. unfold upsertMessage. rewrite known_message, bool_decide_false by done.
  exact (sort_by_snoc sent_time ms m Hs).
Qed.

Lemma upsertMessage_Permutation ms m :
  upsertMessage ms m ≡ₚ if bool_decide (vm_id m ∈ vm_id <$> ms) then ms else ms ++ [m].
Proof.
  unfold upsertMessage. rewrite known_message. case_match; [done|]. apply sort_by_Permutation.
Qed.

Lemma upsertMessage_in ms m : vm_id m ∈ vm_id <$> upsertMessage ms m.
Proof.
  rewrite upsertMessage_Permutation. case_bool_decide; [done|].
  rewrite fmap_app, elem_of_app. right. by left.
Qed.

Lemma upsertMessage_twice ms m : upsertMessage (upsertMessage ms m) m = upsertMessage ms m.
Proof. apply upsertMessage_known, upsertMessage_in. Qed.

Lemma timeline_upsert c ms m :
  timeline_ok c ms → vm_conversationId m = c → timeline_ok c (upsertMessage ms m).
Proof.
  intros [Hs Hn Ho] Hc. split.
  - unfold upsertMessage. case_match; [done|]. exact (sort_by_sorted sent_time (ms ++ [m])).
  - rewrite upsertMessage_Permutation. case_bool_decide as Hin; [done|].
    rewrite fmap_app. apply NoDup_app. split_and!; [done| |apply NoDup_singleton].
    intros x Hx ->%list_elem_of_singleton. done.
  - rewrite upsertMessage_Permutation. case_bool_decide; [done|].
    apply Forall_app. split; [done|]. by constructor.
Qed.

Lemma timeline_app c older ms :
  timeline_ok c older → timeline_ok c ms →
  (∀ a b, a ∈ older → b ∈ ms → sent_time a < sent_time b) → NoDup (vm_id <$> older ++ ms) →
  timeline_ok c (older ++ ms).
Proof.
  intros [S1 N1 O1] [S2 N2 O2] Hlt Hn. split; [|done|by apply Forall_app].
  apply key_sorted_app; [done..|]. intros a b Ha Hb. specialize (Hlt a b Ha Hb). lia.
Qed.

Lemma timeline_map c f ms :
  (∀ m, vm_id (f m) = vm_id m ∧ vm_sentAt (f m) = vm_sentAt m
        ∧ vm_conversationId (f m) = vm_conversationId m) →
  timeline_ok c ms → timeline_ok c (map f ms).
Proof.
  intros Hf [S N O]. split.
  - eapply key_sorted_map; [|exact S]. intros m. unfold sent_time. by destruct (Hf m) as (_ & -> & _).
  - rewrite <-list_fmap_compose. erewrite list_fmap_ext; [exact N|]. intros i m _. apply Hf.
  - apply Forall_map. eapply Forall_impl; [exact O|]. intros m <-. apply Hf.
Qed.

(** ** Previews *)

Lemma find_conversation_Some cs id :
  is_Some (find_conversation cs id) ↔ id ∈ vc_id <$> cs.
Proof.
  unfold find_conversation. induction cs as [|c cs IH]; cbn.
  - split; [by intros []|by intros ?%elem_of_nil].
  - rewrite elem_of_cons. case_bool_decide as E; [split; [by left|by eexists]|].
    rewrite IH. naive_solver.
Qed.

Lemma map_conversation_ids id f cs :
  (∀ c, vc_id (f c) = vc_id c) → vc_id <$> map_conversation id f cs = vc_id <$> cs.
Proof.
  intros Hf. unfold map_conversation. rewrite <-list_fmap_compose. apply list_fmap_ext.
  intros i c _. cbn. case_match; auto.
Qed.

Lemma updateConversationPreview_spec cs preview :
  match updateConversationPreview cs preview with
  | None => pu_conversationId preview ∉ vc_id <$> cs
  | Some cs' =>
      pu_conversationId preview ∈ vc_id <$> cs ∧
      cs' ≡ₚ map_conversation (pu_conversationId preview) (with_preview preview) cs ∧
      key_sorted (λ c, - lastMessageTime c) cs'
  end.
Proof.
  unfold updateConversationPreview. pose proof (find_conversation_Some cs (pu_conversationId preview)) as Hf.
  destruct (find_conversation cs _) as [c|].
  - split; [by apply Hf|]. split; [apply sort_by_Permutation|].
    rewrite (sort_by_ext _ (by_key (λ c, - lastMessageTime c))); [apply sort_by_sorted|].
    intros a b. unfold by_latest, by_key. lia.
  - intros Hin. apply Hf in Hin. by destruct Hin.
Qed.

(** ** Unread messages *)

Definition unread_of (c : Conversation) : Z := Z.max 0 (or_zero (vc_unreadCount c)).

Lemma unread_total cs : ∀ n,
  foldl (λ total c, total + or_zero (vc_unreadCount c)) n (filter (λ c, is_unread c = true) cs)
  = n + foldr (λ c total, unread_of c + total) 0 cs.
Proof.
  unfold unread_of. induction cs as [|c cs IH]; intros n; [cbn; lia|].
  rewrite filter_cons. unfold is_unread at 1. case_decide as E; cbn; rewrite IH; lia.
Qed.

Lemma unread_total_pos cs :
  0 <= foldr (λ c total, unread_of c + total) 0 cs ∧
  (foldr (λ c total, unread_of c + total) 0 cs = 0 ↔ filter (λ c, is_unread c = true) cs = []).
Proof.
  unfold unread_of. induction cs as [|c cs IH]; [done|]. rewrite filter_cons. cbn [foldr].
  unfold is_unread at 1. case_decide as E; [split; [lia|]; split; [lia|done]|].
  split; [lia|]. rewrite <-(proj2 IH). lia.
Qed.

Lemma trimmed_truthy s t : trimmed s = Some t → truthy t = true.
Proof. unfold trimmed. destruct s; [|done]. destruct (truthy (trim _)) eqn:E; [|done]. by intros [= <-]. Qed.

Lemma senderName_truthy c : truthy (resolveConversationSenderName c) = true.
Proof.
  unfold resolveConversationSenderName.
  destruct (trimmed (pe_displayName <$> vc_directPeer c)) eqn:E1; [by eapply trimmed_truthy|].
  destruct (trimmed (vc_displayTitle c)) eqn:E2; [by eapply trimmed_truthy|].
  destruct (trimmed (vc_title c)) eqn:E3; [by eapply trimmed_truthy|done].
Qed.

(** The window's title counts what is unread.  The total is the sum of the positive
    counters and the sources are the conversations that have one; without any the title is
    the page's own; from one conversation it names the sender, and otherwise only the
    number. *)
Theorem unread_title cs defaultTitle :
  let unread := filter (λ c, is_unread c = true) cs in
  let total := foldr (λ c total, unread_of c + total) 0 cs in
  let summary := buildUnreadSummary cs in
  un_totalUnreadMessages summary = total ∧
  un_unreadConversationIds summary = vc_id <$> unread ∧
  un_unreadSourceCount summary = Z.of_nat (length unread) ∧
  formatUnreadTitle summary defaultTitle =
    match unread with
    | [] => defaultTitle
    | [c] => js "Bạn có " ++ js_number total ++ js " tin nhắn mới từ " ++ resolveConversationSenderName c
    | _ => js "Bạn có " ++ js_number total ++ js " tin nhắn chưa đọc"
    end.
Proof.
  intros unread total summary. unfold summary, buildUnreadSummary. cbv zeta.
  rewrite (unread_total cs 0), Z.add_0_l. fold unread total.
  destruct (unread_total_pos cs) as [Hpos Hzero]. fold unread total in Hpos, Hzero.
  destruct (Z.eqb_spec total 0) as [E|E].
  - apply Hzero in E as Hu. rewrite Hu, E. done.
  - assert (unread ≠ []) as Hu by (intros Hu; by apply Hzero in Hu).
    apply Z.eqb_neq in E.
    destruct unread as [|c [|c' unread']]; [done| |]; unfold formatUnreadTitle;
      cbn [un_titleVariant un_totalUnreadMessages un_singleSenderName]; rewrite ?E; [|done].
    by rewrite senderName_truthy.
Qed.
End messages.
