(* ===== verification/Page.v ===== *)
(** * The chat page: its handlers

    [features/chat/chat.page.tsx] and [components/chat-composer.tsx]: what each handler
    does to the state, with every [await] cut into the part before it and the part that its
    answer runs, so that answers of the backend, events of the socket and clicks can
    interleave as they do in the browser.

    A step is one turn of the event loop, followed by the render it causes and the effects
    of that render, so a handler reads the state of the last render.  One thing depends on
    React itself: whether the function given to [setState] runs at once or at the next
    render.  [eager] says which, where the code that follows reads what the function has
    written. *)

From S2P Require Import Prelude JsText View.
Open Scope Z_scope.

(** ** The page *)

(** What goes on when [selectConversation] has ended: nothing, the modal of
    [handleStartConversation], the search result of [handleOpenSearchResult]. *)
Inductive After :=
  | AfterNothing
  | AfterStart
  | AfterSearchResult (messageId : jsstring).

(** A send: the conversation and the text it was started with. *)
Record Sending := mkSending {
  sg_conversationId : jsstring;
  sg_content : jsstring;
}.

(** The awaits of the page: what is asked, and what the rest of the handler needs. *)
Inductive Task :=
  | ListConversations
  | GetMessages (conversationId : jsstring) (preload : bool) (after : After)
  | MarkRead (conversationId : jsstring) (after : After)
  | GetSuggestions (conversationId : jsstring) (baseMessageCount : Z)
  | RereadMessages (conversationId : jsstring)
  | OlderMessages (conversationId : jsstring) (before : jsstring)
  | PresignUpload (sending : Sending) (file : File)
  | UploadFile (sending : Sending) (attachmentId : jsstring)
  | MarkUploaded (sending : Sending) (attachmentId : jsstring)
  | GetStatus (sending : Sending) (attachmentId : jsstring)
  | SendMessage (sending : Sending) (attachmentId : option jsstring)
  | StopTyping (sending : Sending)
  | LeaveRoom (conversationId : jsstring)
  | LeaveConversation (conversationId : jsstring)
  | DeleteLeaveRoom (conversationId : jsstring)
  | DeleteConversation (conversationId : jsstring)
  | ListAfterDelete (conversationId : jsstring)
  | CreateConversation (userId : jsstring)
  | ListAfterCreate (conversationId : jsstring)
  | SyncLeave (previous next : jsstring)
  | SyncJoin (next : jsstring)
  | UpdateTyping.

(** What a promise is fulfilled with, or the [code], [message] and [detailMessage] it is
    rejected with. *)
Inductive Answer :=
  | Conversations (conversations : list Conversation)
  | Messages (messages : list Message) (events : list MembershipEvent)
  | ReadState (unreadCount : Z)
  | Suggestions (suggestions : list jsstring)
  | Presigned (attachmentId : jsstring)
  | Created (conversationId : jsstring)
  | Done
  | Failed (code message detailMessage : option jsstring).

(** The state, the other [useState]s and [useRef]s that handlers read, the conversation in
    the address bar, the notifications opened so far, and the awaits. *)
Record Page := mkPage {
  p_currentUser : option jsstring;
  p_state : ChatState;
  p_inputValue : jsstring;
  p_connectionState : ChatConnectionState;
  p_shownNotificationIds : gset jsstring;
  p_notifications : list jsstring;
  p_joinedConversation : option jsstring;
  p_hasRestored : bool;
  p_requestedConversationId : option jsstring;
  p_location : option jsstring;
  p_typingTimeouts : gset jsstring;
  p_selectedUser : option jsstring;
  p_startingConversation : bool;
  p_highlightedMessageId : option jsstring;
  p_next : nat;
  p_tasks : gmap nat Task;
}.

Inductive PageEvent :=
  | Mounted
  | Selected (conversationId : jsstring)
  | Answered (id : nat) (answer : Answer)
  | UploadProgress (id : nat) (progress : Z)
  | MessageDelivered (eager : bool) (message : RealtimeMessage)
  | PreviewUpdated (eager : bool) (preview : ConversationPreviewUpdate)
  | ConversationRead (conversationId : jsstring)
  | TypingPresence (typing : TypingPresenceUpdate)
  | TypingTimeout (conversationId : jsstring)
  | SocketError (error : ChatSocketError)
  | ModerationResult (conversationId : jsstring) (result : MessageModerationResult)
  | AiError (code : jsstring)
  | ConnectionState (state : ChatConnectionState)
  | ScrolledToTop
  | FileSelected (now : jsstring) (file : File)
  | DraftRemoved
  | InputChanged (value : jsstring)
  | InputFocused
  | SlashCommandSelected (command : jsstring)
  | SuggestionSelected (suggestion : jsstring)
  | EnterPressed (shift : bool)
  | SendClicked
  | LeaveClicked
  | DeleteClicked (conversationId : jsstring)
  | UserSelected (userId : option jsstring)
  | StartClicked
  | SearchResultOpened (conversationId messageId : jsstring)
  | AiToggled.

(** [setState(f)] and the other setters. *)
Definition setState (f : ChatState → ChatState) (p : Page) : Page :=
  mkPage (p_currentUser p) (f (p_state p)) (p_inputValue p) (p_connectionState p)
    (p_shownNotificationIds p) (p_notifications p) (p_joinedConversation p)
    (p_hasRestored p) (p_requestedConversationId p) (p_location p) (p_typingTimeouts p)
    (p_selectedUser p) (p_startingConversation p) (p_highlightedMessageId p) (p_next p)
    (p_tasks p).
Definition setInputValue (v : jsstring) (p : Page) : Page :=
  mkPage (p_currentUser p) (p_state p) v (p_connectionState p) (p_shownNotificationIds p)
    (p_notifications p) (p_joinedConversation p) (p_hasRestored p)
    (p_requestedConversationId p) (p_location p) (p_typingTimeouts p) (p_selectedUser p)
    (p_startingConversation p) (p_highlightedMessageId p) (p_next p) (p_tasks p).
Definition setConnectionState (v : ChatConnectionState) (p : Page) : Page :=
  mkPage (p_currentUser p) (p_state p) (p_inputValue p) v (p_shownNotificationIds p)
    (p_notifications p) (p_joinedConversation p) (p_hasRestored p)
    (p_requestedConversationId p) (p_location p) (p_typingTimeouts p) (p_selectedUser p)
    (p_startingConversation p) (p_highlightedMessageId p) (p_next p) (p_tasks p).
Definition notify (id : jsstring) (p : Page) : Page :=
  mkPage (p_currentUser p) (p_state p) (p_inputValue p) (p_connectionState p)
    ({[id]} ∪ p_shownNotificationIds p) (p_notifications p ++ [id]) (p_joinedConversation p)
    (p_hasRestored p) (p_requestedConversationId p) (p_location p) (p_typingTimeouts p)
    (p_selectedUser p) (p_startingConversation p) (p_highlightedMessageId p) (p_next p)
    (p_tasks p).
Definition set_joined (v : option jsstring) (p : Page) : Page :=
  mkPage (p_currentUser p) (p_state p) (p_inputValue p) (p_connectionState p)
    (p_shownNotificationIds p) (p_notifications p) v (p_hasRestored p)
    (p_requestedConversationId p) (p_location p) (p_typingTimeouts p) (p_selectedUser p)
    (p_startingConversation p) (p_highlightedMessageId p) (p_next p) (p_tasks p).
Definition set_restored (p : Page) : Page :=
  mkPage (p_currentUser p) (p_state p) (p_inputValue p) (p_connectionState p)
    (p_shownNotificationIds p) (p_notifications p) (p_joinedConversation p) true
    (p_requestedConversationId p) (p_location p) (p_typingTimeouts p) (p_selectedUser p)
    (p_startingConversation p) (p_highlightedMessageId p) (p_next p) (p_tasks p).
Definition set_location (v : option jsstring) (p : Page) : Page :=
  mkPage (p_currentUser p) (p_state p) (p_inputValue p) (p_connectionState p)
    (p_shownNotificationIds p) (p_notifications p) (p_joinedConversation p)
    (p_hasRestored p) v (match v with Some [] => None | _ => v end) (p_typingTimeouts p)
    (p_selectedUser p) (p_startingConversation p) (p_highlightedMessageId p) (p_next p)
    (p_tasks p).
Definition set_timeouts (v : gset jsstring) (p : Page) : Page :=
  mkPage (p_currentUser p) (p_state p) (p_inputValue p) (p_connectionState p)
    (p_shownNotificationIds p) (p_notifications p) (p_joinedConversation p)
    (p_hasRestored p) (p_requestedConversationId p) (p_location p) v (p_selectedUser p)
    (p_startingConversation p) (p_highlightedMessageId p) (p_next p) (p_tasks p).
Definition set_modal (user : option jsstring) (starting : bool) (p : Page) : Page :=
  mkPage (p_currentUser p) (p_state p) (p_inputValue p) (p_connectionState p)
    (p_shownNotificationIds p) (p_notifications p) (p_joinedConversation p)
    (p_hasRestored p) (p_requestedConversationId p) (p_location p) (p_typingTimeouts p) user
    starting (p_highlightedMessageId p) (p_next p) (p_tasks p).
Definition set_highlighted (v : option jsstring) (p : Page) : Page :=
  mkPage (p_currentUser p) (p_state p) (p_inputValue p) (p_connectionState p)
    (p_shownNotificationIds p) (p_notifications p) (p_joinedConversation p)
    (p_hasRestored p) (p_requestedConversationId p) (p_location p) (p_typingTimeouts p)
    (p_selectedUser p) (p_startingConversation p) v (p_next p) (p_tasks p).

(** Starts an await, and ends one. *)
Definition ask (t : Task) (p : Page) : Page :=
  mkPage (p_currentUser p) (p_state p) (p_inputValue p) (p_connectionState p)
    (p_shownNotificationIds p) (p_notifications p) (p_joinedConversation p) (p_hasRestored
    p) (p_requestedConversationId p) (p_location p) (p_typingTimeouts p) (p_selectedUser p)
    (p_startingConversation p) (p_highlightedMessageId p) (S (p_next
    p)) (<[p_next p := t]> (p_tasks p)).
Definition forget (id : nat) (p : Page) : Page :=
  mkPage (p_currentUser p) (p_state p) (p_inputValue p) (p_connectionState p)
    (p_shownNotificationIds p) (p_notifications p) (p_joinedConversation p)
    (p_hasRestored p) (p_requestedConversationId p) (p_location p) (p_typingTimeouts p)
    (p_selectedUser p) (p_startingConversation p) (p_highlightedMessageId p) (p_next p)
    (delete id (p_tasks p)).

(** ** The handlers *)

Section page.
Context `{Window}.

Definition is_selected (id : jsstring) (s : ChatState) : bool :=
  bool_decide (selectedConversationId s = Some id).

Definition loadConversations (p : Page) : Page := ask ListConversations p.

(** The [then] of [loadConversations]; [conversationsRef] is never read. *)
Definition conversations_loaded (cs : list Conversation) (s : ChatState) : ChatState :=
  set_loadingConversations false (set_conversations cs s).

Definition requestSuggestions (conversationId : jsstring) (baseMessageCount : Z)
    (showLoading : bool) (p : Page) : Page :=
  ask (GetSuggestions conversationId baseMessageCount)
    (if showLoading then setState (set_loadingAiSuggestions true) p else p).

Definition suggestions_arrived (conversationId : jsstring) (baseMessageCount : Z)
    (suggestions : list jsstring) (s : ChatState) : ChatState :=
  let active := is_selected conversationId s in
  let s := if active then set_loadingAiSuggestions false (set_aiSuggestions suggestions s) else s in
  set_aiUnavailable false
    (set_suggestionCacheByConversationId
       (<[conversationId := mkCacheEntry suggestions baseMessageCount]>
          (suggestionCacheByConversationId s)) s).

(** The errors after which the assistant is shown as unavailable. *)
Definition ai_unavailable_code (code : option jsstring) : bool :=
  match code with
  | Some code =>
      bool_decide (code = js "RATE_LIMITED") || bool_decide (code = js "TIMEOUT")
      || bool_decide (code = js "SERVICE_UNAVAILABLE")
  | None => false
  end.

Definition suggestions_failed (conversationId : jsstring) (code : option jsstring)
    (s : ChatState) : ChatState :=
  let active := is_selected conversationId s in
  let s := if active then set_loadingAiSuggestions false (set_aiSuggestions [] s) else s in
  set_aiUnavailable (ai_unavailable_code code) s.

(** The first [setState] of [selectConversation], and what it writes to
    [shouldPreloadSuggestions]. *)
Definition should_preload (conversationId : jsstring) (s : ChatState) : bool :=
  match suggestionCacheByConversationId s !! conversationId with
  | Some _ => false
  | None => aiEnabled s
  end.
Definition conversation_selected (conversationId : jsstring) (s : ChatState) : ChatState :=
  let cached := suggestionCacheByConversationId s !! conversationId in
  let preload := should_preload conversationId s in
  let waiting :=
    if bool_decide (waitingForAiConversationId s = Some conversationId)
    then waitingForAiConversationId s else None in
  set_selectedConversationId (Some conversationId)
    (set_loadingMessages true
       (set_messages []
          (set_membershipEvents []
             (set_hasMoreMessages true
                (set_aiSuggestions (from_option sc_suggestions [] cached)
                   (set_loadingAiSuggestions preload (set_waitingForAiConversationId waiting s))))))).

Definition selectConversation (conversationId : jsstring) (after : After) (p : Page) : Page :=
  ask (GetMessages conversationId (should_preload conversationId (p_state p)) after)
    (setState (conversation_selected conversationId) p).

(** ... once its first [await] is fulfilled. *)
Definition messages_loaded (ms : list Message) (events : list MembershipEvent) (s : ChatState)
    : ChatState :=
  set_messages ms
    (set_membershipEvents events
       (set_loadingMessages false
          (set_hasMoreMessages (10 <=? Z.of_nat (length ms)) s))).

Definition finish (after : After) (p : Page) : Page :=
  match after with
  | AfterNothing => p
  | AfterStart => set_modal None false p
  | AfterSearchResult messageId => set_highlighted (Some messageId) p
  end.

(** The function that [handleIncomingMessage] gives to [setState]. *)
Definition incoming_preview (message : Message) (s : ChatState) : list Conversation :=
  match find_conversation (conversations s) (vm_conversationId message) with
  | Some existing =>
      default (conversations s)
        (updateConversationPreview (conversations s)
           (mkPreviewUpdate (vm_conversationId message) (vm_content message) (vm_sentAt message)
              (vc_unreadCount existing) (vc_hasUnread existing)))
  | None => conversations s
  end.

Definition incoming_cache (message : Message) (next : list Message) (s : ChatState)
    : gmap jsstring SuggestionCacheEntry :=
  match suggestionCacheByConversationId s !! vm_conversationId message with
  | Some cached =>
      if 3 <? Z.of_nat (length next) - sc_baseMessageCount cached
      then delete (vm_conversationId message) (suggestionCacheByConversationId s)
      else suggestionCacheByConversationId s
  | None => suggestionCacheByConversationId s
  end.

Definition message_received (message : Message) (s : ChatState) : ChatState :=
  let next :=
    if is_selected (vm_conversationId message) s then upsertMessage (messages s) message
    else messages s in
  let waiting :=
    if is_true (vm_isAIBotMessage message)
       && bool_decide (waitingForAiConversationId s = Some (vm_conversationId message))
    then None else waitingForAiConversationId s in
  set_conversations (incoming_preview message s)
    (set_suggestionCacheByConversationId (incoming_cache message next s)
       (set_messages next (set_waitingForAiConversationId waiting s))).

Definition is_current_user (userId : jsstring) (p : Page) : bool :=
  bool_decide (p_currentUser p = Some userId).

Definition shouldShowNotification (m : RealtimeMessage) (p : Page) : bool :=
  negb (is_current_user (rm_senderId m) p) && negb (is_true (rm_isAIBotMessage m))
  && negb (is_true (rm_isAICommand m))
  && bool_decide (rm_messageId m ∉ p_shownNotificationIds p)
  && negb (is_selected (rm_conversationId m) (p_state p)).

Definition knows_conversation (id : jsstring) (s : ChatState) : bool :=
  bool_decide (is_Some (find_conversation (conversations s) id)).

Definition handleIncomingMessage (eager : bool) (incoming : RealtimeMessage) (p : Page) : Page :=
  let message := mapRealtimeMessage incoming in
  let reload := eager && negb (knows_conversation (vm_conversationId message) (p_state p)) in
  let show := shouldShowNotification incoming p in
  let own := is_current_user (rm_senderId incoming) p in
  let p := setState (message_received message) p in
  let p := if reload then loadConversations p else p in
  let p := if show then notify (rm_messageId incoming) p else p in
  if own then
    setState (λ s, set_sendingMessage false (set_draftAttachment None s)) (setInputValue [] p)
  else p.

Definition preview_received (preview : ConversationPreviewUpdate) (s : ChatState) : ChatState :=
  match updateConversationPreview (conversations s) preview with
  | Some cs => set_conversations cs s
  | None => s
  end.

Definition handlePreviewUpdate (eager : bool) (preview : ConversationPreviewUpdate) (p : Page)
    : Page :=
  let reload := eager && negb (knows_conversation (pu_conversationId preview) (p_state p)) in
  let p := setState (preview_received preview) p in
  if reload then loadConversations p else p.

Definition unread_set (conversationId : jsstring) (count : Z) (s : ChatState) : ChatState :=
  set_conversations (map_conversation conversationId (with_unread count) (conversations s)) s.

Definition handleConversationRead (conversationId : jsstring) (p : Page) : Page :=
  let selected := is_selected conversationId (p_state p) in
  let p := setState (unread_set conversationId 0) p in
  if selected then ask (RereadMessages conversationId) p else p.

Definition typing_set (conversationId : jsstring) (typing : option TypingPresenceUpdate)
    (s : ChatState) : ChatState :=
  set_typingByConversationId
    (match typing with
     | Some t => <[conversationId := t]> (typingByConversationId s)
     | None => delete conversationId (typingByConversationId s)
     end) s.

Definition handleTypingPresence (t : TypingPresenceUpdate) (p : Page) : Page :=
  if is_current_user (ty_userId t) p then p
  else
    let c := ty_conversationId t in
    let p := setState (typing_set c (if ty_isTyping t then Some t else None)) p in
    set_timeouts (if ty_isTyping t then {[c]} ∪ p_typingTimeouts p else p_typingTimeouts p ∖ {[c]}) p.

Definition typing_timeout (conversationId : jsstring) (p : Page) : Page :=
  if bool_decide (conversationId ∈ p_typingTimeouts p) then
    set_timeouts (p_typingTimeouts p ∖ {[conversationId]})
      (setState (typing_set conversationId None) p)
  else p.

Definition with_moderation (conversationId : jsstring) (r : MessageModerationResult) (m : Message)
    : Message :=
  if bool_decide (vm_id m = mo_messageId r) && bool_decide (vm_conversationId m = conversationId)
  then
    mkMessage (vm_id m) (vm_conversationId m) (vm_senderId m) (vm_senderDisplayName m)
      (vm_senderAvatarUrl m) (vm_content m) (vm_sentAt m) (vm_deliveryStatus m)
      (vm_seenState m) (vm_attachment m) (vm_isTailOfSenderGroup m) (vm_decodeErrorCode m)
      (vm_displayState m) (vm_isAIBotMessage m) (vm_isAICommand m) (Some r)
  else m.

Definition moderated (conversationId : jsstring) (r : MessageModerationResult) (s : ChatState)
    : ChatState :=
  set_messages (map (with_moderation conversationId r) (messages s)) s.

Definition ai_error (code : jsstring) (s : ChatState) : ChatState :=
  if bool_decide (code = js "DISABLED") then s
  else if ai_unavailable_code (Some code) then set_aiUnavailable true s else s.

(** [handleScroll] at the top, and [loadMoreMessages]. *)
Definition loadMoreMessages (p : Page) : Page :=
  let s := p_state p in
  match selectedConversationId s, head (messages s) with
  | Some conversationId, Some oldest =>
      if negb (hasMoreMessages s) || loadingMessages s then p
      else ask (OlderMessages conversationId (vm_sentAt oldest)) (setState (set_loadingMessages true) p)
  | _, _ => p
  end.

Definition older_loaded (older : list Message) (s : ChatState) : ChatState :=
  set_messages (older ++ messages s)
    (set_loadingMessages false (set_hasMoreMessages (10 <=? Z.of_nat (length older)) s)).

(** *** The composer *)

Definition handleUploadFile (now : jsstring) (file : File) (p : Page) : Page :=
  match selectedConversationId (p_state p) with
  | None => p
  | Some _ =>
      if sendingMessage (p_state p) then p
      else setState (set_draftAttachment (Some (mkDraft now file 0 pending None None))) p
  end.

(** A slash and then no white space: what follows the slash. *)
Definition slash_match (value : jsstring) : option jsstring :=
  match value with
  | 47 :: query => if existsb is_space query then None else Some query
  | _ => None
  end.

Definition input_changed (value : jsstring) (s : ChatState) : ChatState :=
  set_slashCommandsVisible (bool_decide (is_Some (slash_match value)))
    (set_slashCommandQuery (default [] (slash_match value))
       (set_waitingForAiConversationId
          (if startsWith (trim value) (js "/ai") || sendingMessage s
           then waitingForAiConversationId s else None) s)).

Definition handleInputChange (value : jsstring) (p : Page) : Page :=
  let p := setState (input_changed value) (setInputValue value p) in
  match selectedConversationId (p_state p) with
  | Some _ => if bool_decide (p_connectionState p = connected) then ask UpdateTyping p else p
  | None => p
  end.

Definition handleInputFocus (p : Page) : Page :=
  let s := p_state p in
  match selectedConversationId s with
  | None => p
  | Some id =>
      let count := Z.of_nat (length (messages s)) in
      if negb (aiEnabled s) || aiUnavailable s then p
      else
        match suggestionCacheByConversationId s !! id with
        | Some cached =>
            if count - sc_baseMessageCount cached <=? 3 then
              setState (λ s, set_loadingAiSuggestions false
                               (set_aiSuggestions (sc_suggestions cached) s)) p
            else requestSuggestions id count true p
        | None => requestSuggestions id count true p
        end
  end.

Definition slash_selected (command : jsstring) (s : ChatState) : ChatState :=
  set_slashCommandsVisible false
    (set_slashCommandQuery []
       (set_waitingForAiConversationId
          (if bool_decide (command = js "/ai") then waitingForAiConversationId s else None) s)).

Definition handleSelectSlashCommand (command : jsstring) (p : Page) : Page :=
  setState (slash_selected command) (setInputValue (command ++ js " ") p).

Definition ai_toggled (s : ChatState) : ChatState :=
  set_aiEnabled (negb (aiEnabled s))
    (set_aiUnavailable (if aiEnabled s then false else aiUnavailable s)
       (set_aiSuggestions (if negb (aiEnabled s) then aiSuggestions s else [])
          (set_loadingAiSuggestions false s))).

(** *** [handleSend] *)

Definition handleSend (p : Page) : Page :=
  let s := p_state p in
  let content := trim (p_inputValue p) in
  match selectedConversationId s with
  | None => p
  | Some conversationId =>
      if negb (truthy content) && bool_decide (draftAttachment s = None) then p
      else if sendingMessage s then p
      else if negb (bool_decide (p_connectionState p = connected)) then p
      else
        let waiting :=
          if aiEnabled s && startsWith content (js "/ai") then Some conversationId
          else waitingForAiConversationId s in
        let p := setState (λ s, set_sendingMessage true (set_waitingForAiConversationId waiting s)) p in
        let sending := mkSending conversationId content in
        match draftAttachment s with
        | Some draft => ask (PresignUpload sending (da_file draft)) p
        | None => ask (SendMessage sending None) p
        end
  end.

(** [prev.draftAttachment ? { ...prev.draftAttachment, ... } : prev]. *)
Definition draft_updated (attachmentId : option jsstring) (progress : Z)
    (status : DraftAttachmentStatus) (s : ChatState) : ChatState :=
  match draftAttachment s with
  | Some d =>
      set_draftAttachment
        (Some (mkDraft (da_localId d) (da_file d) progress status
                 (match attachmentId with Some a => Some a | None => da_attachmentId d end)
                 (da_error d))) s
  | None => s
  end.

(** [error.detailMessage || error.message || '...']. *)
Definition upload_error_text (message detailMessage : option jsstring) : jsstring :=
  match detailMessage, message with
  | Some (u :: d), _ => u :: d
  | _, Some (u :: m) => u :: m
  | _, _ => js "Không thể gửi tệp lúc này."
  end.

Definition send_failed (conversationId : jsstring) (message detailMessage : option jsstring)
    (s : ChatState) : ChatState :=
  set_sendingMessage false
    (set_waitingForAiConversationId
       (if bool_decide (waitingForAiConversationId s = Some conversationId) then None
        else waitingForAiConversationId s)
       (set_draftAttachment
          (match draftAttachment s with
           | Some d =>
               Some (mkDraft (da_localId d) (da_file d) (da_progress d) upload_failed
                       (da_attachmentId d) (Some (upload_error_text message detailMessage)))
           | None => None
           end) s)).

(** *** [components/chat-composer.tsx] *)

Definition MAX_FILE_SIZE_BYTES : Z := 25 * 1024 * 1024.

(** Why [handleFileChange] refuses a file. *)
Definition file_refused (file : File) : option jsstring :=
  if match fl_webkitRelativePath file with Some path => includes path (js "/") | None => false end
  then Some (js "Không hỗ trợ gửi thư mục.")
  else if fl_size file <=? 0 then Some (js "Tệp không hợp lệ hoặc rỗng.")
  else if MAX_FILE_SIZE_BYTES <? fl_size file then Some (js "Chỉ hỗ trợ gửi tệp tối đa 25MB.")
  else None.

Definition composer_disabled (s : ChatState) : bool := bool_decide (selectedConversationId s = None).

(** The input of the file dialog is disabled while a message is being sent. *)
Definition handleFileChange (now : jsstring) (file : File) (p : Page) : Page :=
  if composer_disabled (p_state p) || sendingMessage (p_state p) then p
  else match file_refused file with Some _ => p | None => handleUploadFile now file p end.

Definition handleKeyDown (shift : bool) (p : Page) : Page :=
  if negb shift && truthy (trim (p_inputValue p)) && negb (composer_disabled (p_state p))
     && negb (sendingMessage (p_state p))
  then handleSend p else p.

Definition send_button_disabled (p : Page) : bool :=
  let s := p_state p in
  composer_disabled s || sendingMessage s
  || negb (truthy (trim (p_inputValue p))) && bool_decide (draftAttachment s = None)
  || bool_decide (p_connectionState p = connecting).

Definition handleSendClick (p : Page) : Page :=
  if send_button_disabled p then p else handleSend p.

(** The draft can be removed before it is sent and after it has failed. *)
Definition handleRemoveDraft (p : Page) : Page :=
  match draftAttachment (p_state p) with
  | Some d =>
      match da_status d with
      | pending | upload_failed => setState (set_draftAttachment None) p
      | _ => p
      end
  | None => p
  end.

(** *** Leaving, deleting, starting *)

Definition conversation_left (s : ChatState) : ChatState :=
  set_selectedConversationId None (set_messages [] (set_membershipEvents [] s)).

Definition conversation_deleted (conversationId : jsstring) (cs : list Conversation)
    (s : ChatState) : ChatState :=
  let s' := set_loadingConversations false (set_conversations cs s) in
  if is_selected conversationId s then conversation_left s' else s'.

Definition handleLeave (p : Page) : Page :=
  match selectedConversationId (p_state p) with
  | Some id => ask (LeaveRoom id) p
  | None => p
  end.

Definition handleDeleteConversation (conversationId : jsstring) (p : Page) : Page :=
  if bool_decide (p_joinedConversation p = Some conversationId)
  then ask (DeleteLeaveRoom conversationId) p
  else ask (DeleteConversation conversationId) p.

Definition handleStartConversation (p : Page) : Page :=
  match p_selectedUser p with
  | Some user =>
      if p_startingConversation p then p
      else ask (CreateConversation user)
             (set_modal (p_selectedUser p) true p)
  | None => p
  end.

Definition handleOpenSearchResult (conversationId messageId : jsstring) (p : Page) : Page :=
  if is_selected conversationId (p_state p) then finish (AfterSearchResult messageId) p
  else selectConversation conversationId (AfterSearchResult messageId) p.

(** ** The answers *)

(** What the handler that awaited [t] does with the answer; an answer of another shape
    does not occur. *)
Definition on_answer (t : Task) (a : Answer) (p : Page) : Page :=
  match t, a with
  | ListConversations, Conversations cs => setState (conversations_loaded cs) p
  | ListConversations, Failed _ _ _ => setState (set_loadingConversations false) p
  | GetMessages c preload after, Messages ms events =>
      let p := setState (messages_loaded ms events) p in
      let p := if preload then requestSuggestions c (Z.of_nat (length ms)) false p else p in
      ask (MarkRead c after) p
  | GetMessages c preload after, Failed _ _ _ =>
      finish after (setState (set_loadingMessages false) p)
  | MarkRead c after, ReadState count => finish after (setState (unread_set c count) p)
  | MarkRead c after, Failed _ _ _ => finish after (setState (set_loadingMessages false) p)
  | GetSuggestions c base, Suggestions l => setState (suggestions_arrived c base l) p
  | GetSuggestions c base, Failed code _ _ => setState (suggestions_failed c code) p
  | RereadMessages c, Messages ms _ => setState (set_messages ms) p
  | OlderMessages c before, Messages older _ => setState (older_loaded older) p
  | OlderMessages c before, Failed _ _ _ => setState (set_loadingMessages false) p
  | PresignUpload sending file, Presigned attachmentId =>
      ask (UploadFile sending attachmentId)
        (setState (draft_updated (Some attachmentId) 0 uploading) p)
  | UploadFile sending attachmentId, Done => ask (MarkUploaded sending attachmentId) p
  | MarkUploaded sending attachmentId, Done => ask (GetStatus sending attachmentId) p
  | GetStatus sending _, Presigned attachmentId =>
      ask (SendMessage sending (Some attachmentId))
        (setState (draft_updated (Some attachmentId) 100 uploaded) p)
  | SendMessage sending _, Done => ask (StopTyping sending) p
  | (PresignUpload sending _ | UploadFile sending _ | MarkUploaded sending _
     | GetStatus sending _ | SendMessage sending _ | StopTyping sending), Failed _ message detail =>
      setState (send_failed (sg_conversationId sending) message detail) p
  | LeaveRoom c, Done => ask (LeaveConversation c) (set_joined None p)
  | LeaveConversation c, Done => loadConversations (setState conversation_left p)
  | DeleteLeaveRoom c, Done => ask (DeleteConversation c) (set_joined None p)
  | DeleteConversation c, Done => ask (ListAfterDelete c) p
  | ListAfterDelete c, Conversations cs => setState (conversation_deleted c cs) p
  | CreateConversation user, Created c => ask (ListAfterCreate c) p
  | ListAfterCreate c, Conversations cs =>
      selectConversation c AfterStart (setState (conversations_loaded cs) p)
  | (CreateConversation _ | ListAfterCreate _), Failed _ _ _ =>
      set_modal (p_selectedUser p) false p
  | SyncLeave _ next, Done => ask (SyncJoin next) p
  | SyncJoin next, Done => set_joined (Some next) p
  | _, _ => p
  end.

(** ** The effects of a render *)

(** Opening the conversation that the address bar names, once the list has come. *)
Definition restore_effect (p : Page) : Page :=
  if loadingConversations (p_state p) || p_hasRestored p then p
  else
    let p := set_restored p in
    match p_requestedConversationId p with
    | Some id =>
        if negb (truthy id) then p
        else if knows_conversation id (p_state p) then selectConversation id AfterNothing p
        else set_location None p
    | None => p
    end.

(** The address bar follows the selection of the render. *)
Definition location_effect (selected : option jsstring) (p : Page) : Page :=
  if negb (p_hasRestored p) then p
  else if bool_decide (selected = None) && bool_decide (p_requestedConversationId p ≠ None) then p
  else set_location selected p.

(** [syncConversationSubscription]. *)
Definition sync_effect (selected : option jsstring) (p : Page) : Page :=
  match selected with
  | Some next =>
      if negb (truthy next) then p
      else if bool_decide (p_joinedConversation p = Some next) then p
      else
        match p_joinedConversation p with
        | Some previous => ask (if truthy previous then SyncLeave previous next else SyncJoin next) p
        | None => ask (SyncJoin next) p
        end
  | None => p
  end.

(** The effects that depend on the selection, if it has changed. *)
Definition selection_effects (before selected : option jsstring) (p : Page) : Page :=
  if bool_decide (selected = before) then p else sync_effect selected (location_effect selected p).

(** The effects of a render, and of the render that restoring the selection causes. *)
Definition effects (before : ChatState) (p : Page) : Page :=
  let selected := selectedConversationId (p_state p) in
  let p := restore_effect p in
  let p := selection_effects (selectedConversationId before) selected p in
  selection_effects selected (selectedConversationId (p_state p)) p.

(** ** The steps *)

Definition handle (e : PageEvent) (p : Page) : Page :=
  match e with
  | Mounted => loadConversations p
  | Selected c => selectConversation c AfterNothing p
  | Answered id a =>
      match p_tasks p !! id with
      | Some t => on_answer t a (forget id p)
      | None => p
      end
  | UploadProgress id progress =>
      match p_tasks p !! id with
      | Some (UploadFile _ _) => setState (draft_updated None progress uploading) p
      | _ => p
      end
  | MessageDelivered eager m => handleIncomingMessage eager m p
  | PreviewUpdated eager preview => handlePreviewUpdate eager preview p
  | ConversationRead c => handleConversationRead c p
  | TypingPresence t => handleTypingPresence t p
  | TypingTimeout c => typing_timeout c p
  | SocketError _ => setState (set_sendingMessage false) p
  | ModerationResult c r => setState (moderated c r) p
  | AiError code => setState (ai_error code) p
  | ConnectionState c => setConnectionState c p
  | ScrolledToTop => loadMoreMessages p
  | FileSelected now file => handleFileChange now file p
  | DraftRemoved => handleRemoveDraft p
  | InputChanged value => handleInputChange value p
  | InputFocused => handleInputFocus p
  | SlashCommandSelected command => handleSelectSlashCommand command p
  | SuggestionSelected suggestion => setInputValue suggestion p
  | EnterPressed shift => handleKeyDown shift p
  | SendClicked => handleSendClick p
  | LeaveClicked => handleLeave p
  | DeleteClicked c => handleDeleteConversation c p
  | UserSelected user =>
      set_modal user (p_startingConversation p) p
  | StartClicked => handleStartConversation p
  | SearchResultOpened c m => handleOpenSearchResult c m p
  | AiToggled => setState ai_toggled p
  end.

Definition page_step (p : Page) (e : PageEvent) : Page := effects (p_state p) (handle e p).

(** The page that opens at an address. *)
Definition open_page (user : option jsstring) (location : option jsstring) : Page :=
  mkPage user initialState [] disconnected ∅ [] None false location location ∅ None false
    None 0 ∅.

Definition run_page (p : Page) (events : list PageEvent) : Page := foldl page_step p events.
End page.
