(* ===== verification/PageFacts.v ===== *)
(** * The chat page: what holds however its events interleave

    What the effects of a render can change; the messages on screen; the notifications;
    the lock of the composer; and the answer that comes too late. *)

From S2P Require Import Prelude JsText View ViewFacts Page.
Open Scope Z_scope.

Section page.
Context `{Window}.

(** ** The effects *)

Lemma location_effect_state selected p : p_state (location_effect selected p) = p_state p.
Proof. unfold location_effect. by repeat case_match. Qed.
Lemma sync_effect_state selected p : p_state (sync_effect selected p) = p_state p.
Proof. unfold sync_effect. by repeat case_match. Qed.
Lemma selection_effects_state before selected p :
  p_state (selection_effects before selected p) = p_state p.
Proof.
  unfold selection_effects. case_match; [done|]. by rewrite sync_effect_state, location_effect_state.
Qed.

Lemma restore_effect_state p :
  p_state (restore_effect p) = p_state p ∨
  (p_hasRestored p = false ∧ ∃ c, p_state (restore_effect p) = conversation_selected c (p_state p)).
Proof.
  unfold restore_effect. destruct (_ || _) eqn:E; [by left|].
  apply orb_false_elim in E as [_ E].
  destruct (p_requestedConversationId (set_restored p)) as [c|]; [|by left].
  destruct (negb (truthy c)); [by left|]. destruct (knows_conversation _ _); [|by left].
  right. split; [done|]. by exists c.
Qed.

(** A render changes the state only by opening the conversation of the address bar. *)
Lemma effects_state before p :
  p_state (effects before p) = p_state p ∨
  (p_hasRestored p = false ∧ ∃ c, p_state (effects before p) = conversation_selected c (p_state p)).
Proof. unfold effects. rewrite !selection_effects_state. apply restore_effect_state. Qed.

Lemma effects_restored before p : p_hasRestored p = true → p_state (effects before p) = p_state p.
Proof. intros Hr. destruct (effects_state before p) as [?|[Hf _]]; [done|congruence]. Qed.
Lemma effects_same before p : p_hasRestored p = true →
  selectedConversationId (p_state p) = selectedConversationId before → effects before p = p.
Proof.
  intros Hr Hs. unfold effects, restore_effect. rewrite Hr, orb_true_r.
  assert (∀ a q, selection_effects a a q = q) as He
    by (intros a q; unfold selection_effects; by rewrite bool_decide_true).
  by rewrite Hs, He, Hs, He.
Qed.

(** What no effect touches. *)
Lemma effects_keep {A} (f : Page → A) before p :
  (∀ p, f (set_restored p) = f p) → (∀ v p, f (set_location v p) = f p) →
  (∀ t p, f (ask t p) = f p) → (∀ c p, f (setState (conversation_selected c) p) = f p) →
  f (effects before p) = f p.
Proof.
  intros H1 H2 H3 H4.
  assert (∀ b s q, f (selection_effects b s q) = f q) as Hs.
  { intros b s q. unfold selection_effects. case_match; [done|].
    transitivity (f (location_effect s q)).
    - unfold sync_effect. repeat case_match; auto.
    - unfold location_effect. repeat case_match; auto. }
  unfold effects. rewrite !Hs. unfold restore_effect, selectConversation.
  repeat case_match; rewrite ?H3, ?H4, ?H2, ?H1; done.
Qed.

Lemma effects_hasRestored before p : p_hasRestored p = true → p_hasRestored (effects before p) = true.
Proof.
  intros Hr. assert (∀ b s q, p_hasRestored (selection_effects b s q) = p_hasRestored q) as Hs.
  { intros b s q. unfold selection_effects. case_match; [done|].
    unfold sync_effect, location_effect. by repeat case_match. }
  unfold effects. rewrite !Hs. unfold restore_effect. by rewrite Hr, orb_true_r.
Qed.

Lemma effects_sending before p :
  sendingMessage (p_state (effects before p)) = sendingMessage (p_state p).
Proof. by apply (effects_keep (λ p, sendingMessage (p_state p))). Qed.
Lemma effects_draft before p :
  draftAttachment (p_state (effects before p)) = draftAttachment (p_state p).
Proof. by apply (effects_keep (λ p, draftAttachment (p_state p))). Qed.
Lemma effects_input before p : p_inputValue (effects before p) = p_inputValue p.
Proof. by apply (effects_keep p_inputValue). Qed.
Lemma effects_notifications before p : p_notifications (effects before p) = p_notifications p.
Proof. by apply (effects_keep p_notifications). Qed.
Lemma effects_shown before p : p_shownNotificationIds (effects before p) = p_shownNotificationIds p.
Proof. by apply (effects_keep p_shownNotificationIds). Qed.

(** ** The composer *)

(** The tasks of a send. *)
Definition send_task (t : Task) : bool :=
  match t with
  | PresignUpload _ _ | UploadFile _ _ | MarkUploaded _ _ | GetStatus _ _ | SendMessage _ _
  | StopTyping _ => true
  | _ => false
  end.

(** The events that end a send: the delivery of a message of the user, an error of the
    socket, a rejection in the send. *)
Definition ends_send (p : Page) (e : PageEvent) : bool :=
  match e with
  | MessageDelivered _ m => is_current_user (rm_senderId m) p
  | SocketError _ => true
  | Answered id (Failed _ _ _) =>
      match p_tasks p !! id with Some t => send_task t | None => false end
  | _ => false
  end.

Lemma handleSend_locked p : sendingMessage (p_state p) = true → handleSend p = p.
Proof.
  intros Hs. unfold handleSend. rewrite Hs. repeat case_match; done.
Qed.

Lemma requestSuggestions_sending c n b p :
  sendingMessage (p_state (requestSuggestions c n b p)) = sendingMessage (p_state p).
Proof. by destruct b. Qed.

Lemma incoming_sending eager m p :
  sendingMessage (p_state (handleIncomingMessage eager m p))
  = if is_current_user (rm_senderId m) p then false else sendingMessage (p_state p).
Proof. unfold handleIncomingMessage. by repeat case_match. Qed.

Lemma on_answer_sending t a p :
  sendingMessage (p_state (on_answer t a p))
  = match a with Failed _ _ _ => negb (send_task t) && sendingMessage (p_state p)
                | _ => sendingMessage (p_state p) end.
Proof.
  destruct t, a; try done; cbn [on_answer];
    unfold draft_updated, conversation_deleted, suggestions_arrived, suggestions_failed, finish; cbn;
    repeat case_match; done.
Qed.

(** C34: While a message is being sent the composer stays locked, whatever else happens: only
    the delivery of a message of the user, a rejection in the send or an error of the
    socket unlocks it.  A delivery also empties it; the acknowledgement of the message
    alone does not unlock it. *)
Theorem composer_lock p e :
  sendingMessage (p_state p) = true →
  sendingMessage (p_state (page_step p e)) = negb (ends_send p e) ∧
  (∀ eager m, e = MessageDelivered eager m → ends_send p e = true →
     p_inputValue (page_step p e) = [] ∧ draftAttachment (p_state (page_step p e)) = None) ∧
  handleSend p = p.
Proof.
  intros Hs. split_and!.
  - unfold page_step. rewrite effects_sending. destruct e; cbn [handle ends_send]; try done.
    + destruct (p_tasks p !! id) as [t|]; [|by destruct answer]. rewrite on_answer_sending.
      change (p_state (forget id p)) with (p_state p). rewrite Hs. by destruct answer, (send_task t).
    + repeat case_match; try done. cbn. unfold draft_updated. by case_match.
    + rewrite incoming_sending, Hs. by case_match.
    + unfold handlePreviewUpdate, preview_received. by repeat (case_match; cbn; try done).
    + unfold handleConversationRead. by case_match.
    + unfold handleTypingPresence. by repeat case_match.
    + unfold typing_timeout. by repeat case_match.
    + unfold ai_error. cbn. by repeat case_match.
    + unfold loadMoreMessages. by repeat case_match.
    + unfold handleFileChange. by rewrite Hs, orb_true_r.
    + unfold handleRemoveDraft. by repeat case_match.
    + unfold handleInputChange. by repeat case_match.
    + unfold handleInputFocus. repeat case_match; by rewrite ?requestSuggestions_sending.
    + unfold handleKeyDown. rewrite Hs, andb_false_r. done.
    + unfold handleSendClick. case_match; [done|]. by rewrite handleSend_locked.
    + unfold handleLeave. by repeat case_match.
    + unfold handleDeleteConversation. by repeat case_match.
    + unfold handleStartConversation. by repeat case_match.
    + unfold handleOpenSearchResult. by case_match.
  - intros eager m -> He. unfold page_step. rewrite effects_input, effects_draft. cbn in He |- *.
    unfold handleIncomingMessage. rewrite He. by repeat case_match.
  - by apply handleSend_locked.
Qed.

(** ** Notifications *)

Lemma on_answer_notifications t a p :
  p_notifications (on_answer t a p) = p_notifications p ∧
  p_shownNotificationIds (on_answer t a p) = p_shownNotificationIds p.
Proof.
  destruct t, a; try done; cbn [on_answer]; unfold finish, requestSuggestions;
    by repeat case_match.
Qed.

Lemma handleSend_notifications p :
  p_notifications (handleSend p) = p_notifications p ∧
  p_shownNotificationIds (handleSend p) = p_shownNotificationIds p.
Proof. unfold handleSend. cbn. by repeat case_match. Qed.

(** Whether an event opens a notification, and for which message. *)
Definition notifies (p : Page) (e : PageEvent) : option jsstring :=
  match e with
  | MessageDelivered _ m => if shouldShowNotification m p then Some (rm_messageId m) else None
  | _ => None
  end.

Lemma handle_notifications p e :
  p_notifications (handle e p) = p_notifications p ++ option_list (notifies p e) ∧
  p_shownNotificationIds (handle e p)
  = match notifies p e with Some id => {[id]} ∪ p_shownNotificationIds p | None => p_shownNotificationIds p end.
Proof.
  destruct e; cbn [notifies option_list]; rewrite ?app_nil_r; try done; cbn [handle].
  - destruct (p_tasks p !! id) as [t|]; [|done]. apply (on_answer_notifications t answer (forget id p)).
  - by repeat case_match.
  - unfold handleIncomingMessage. destruct (shouldShowNotification message p); rewrite ?app_nil_r;
      by repeat case_match.
  - unfold handlePreviewUpdate. by case_match.
  - unfold handleConversationRead. by case_match.
  - unfold handleTypingPresence. by case_match.
  - unfold typing_timeout. by case_match.
  - unfold loadMoreMessages. by repeat case_match.
  - unfold handleFileChange, handleUploadFile. by repeat case_match.
  - unfold handleRemoveDraft. by repeat case_match.
  - unfold handleInputChange. by repeat case_match.
  - unfold handleInputFocus, requestSuggestions. by repeat case_match.
  - unfold handleKeyDown. case_match; [apply handleSend_notifications|done].
  - unfold handleSendClick. case_match; [done|apply handleSend_notifications].
  - unfold handleLeave. by case_match.
  - unfold handleDeleteConversation. by case_match.
  - unfold handleStartConversation. by repeat case_match.
  - unfold handleOpenSearchResult. by case_match.
Qed.

Lemma step_notifications p e :
  p_notifications (page_step p e) = p_notifications p ++ option_list (notifies p e).
Proof. unfold page_step. rewrite effects_notifications. apply handle_notifications. Qed.

Lemma run_page_snoc p events e : run_page p (events ++ [e]) = page_step (run_page p events) e.
Proof. unfold run_page. by rewrite foldl_snoc. Qed.

Lemma notifications_shown user location events :
  let p := run_page (open_page user location) events in
  NoDup (p_notifications p) ∧ ∀ id, id ∈ p_notifications p ↔ id ∈ p_shownNotificationIds p.
Proof.
  induction events as [|e events IH] using rev_ind.
  { cbn. split; [constructor|]. intros id. by rewrite elem_of_nil, elem_of_empty. }
  rewrite run_page_snoc. revert IH. generalize (run_page (open_page user location) events).
  intros p [Hn Hi]. unfold page_step. rewrite effects_notifications, effects_shown.
  destruct (handle_notifications p e) as [-> ->].
  destruct (notifies p e) as [id|] eqn:E; [|by rewrite app_nil_r].
  change (option_list (Some id)) with [id].
  assert (id ∉ p_shownNotificationIds p) as Hid.
  { destruct e; try done. cbn in E. unfold shouldShowNotification in E.
    destruct (_ && _) eqn:Es; [|done]. injection E as <-.
    apply andb_prop in Es as [Es _]. apply andb_prop in Es as [_ Es]. by apply bool_decide_eq_true in Es. }
  split.
  - apply NoDup_app. split_and!; [done| |apply NoDup_singleton].
    intros x Hx ->%list_elem_of_singleton. by apply Hid, Hi.
  - intros x. rewrite elem_of_app, list_elem_of_singleton, elem_of_union, elem_of_singleton, Hi. tauto.
Qed.

(** C36: Notifications.  However the events interleave, no message is notified twice, and a
    notification is opened only by the delivery of a message that another person sent,
    that the assistant did not write or is not asked in, and whose conversation is not the
    one on screen. *)
Theorem notified_once user location events e :
  let p := run_page (open_page user location) events in
  let p' := page_step p e in
  NoDup (p_notifications p') ∧
  (p_notifications p' = p_notifications p ∨
   ∃ eager m, e = MessageDelivered eager m ∧
     p_notifications p' = p_notifications p ++ [rm_messageId m] ∧
     p_currentUser p ≠ Some (rm_senderId m) ∧
     selectedConversationId (p_state p) ≠ Some (rm_conversationId m) ∧
     is_true (rm_isAIBotMessage m) = false ∧ is_true (rm_isAICommand m) = false).
Proof.
  intros p p'. split.
  - unfold p', p. rewrite <-run_page_snoc. apply notifications_shown.
  - unfold p'. rewrite step_notifications. destruct e; cbn [notifies option_list];
      rewrite ?app_nil_r; try by left.
    destruct (shouldShowNotification message p) eqn:E; [right|left; by rewrite app_nil_r].
    exists eager, message. unfold shouldShowNotification, is_current_user, is_selected in E.
    rewrite !andb_true_iff, !negb_true_iff, !bool_decide_eq_false in E. naive_solver.
Qed.

(** ** The messages on screen *)

(** Everything that the open conversation shows. *)
Definition page_ok (p : Page) : Prop :=
  match selectedConversationId (p_state p) with
  | Some c => timeline_ok c (messages (p_state p))
  | None => messages (p_state p) = []
  end.

(** An answer with messages finds the conversation it was asked for on screen, still with
    the oldest message it was asked from, and is what the backend promises: messages of
    that conversation in order, for an older page all older than the cursor. *)
Definition orderly_answer (p : Page) (t : Task) (a : Answer) : Prop :=
  match t, a with
  | (GetMessages c _ _ | RereadMessages c), Messages ms _ =>
      selectedConversationId (p_state p) = Some c ∧ timeline_ok c ms
  | OlderMessages c before, Messages ms _ =>
      selectedConversationId (p_state p) = Some c ∧ timeline_ok c ms ∧
      (vm_sentAt <$> head (messages (p_state p))) = Some before ∧
      Forall (λ m, sent_time m < getTime before) ms ∧
      (∀ a b, a ∈ ms → b ∈ messages (p_state p) → vm_id a = vm_id b → vm_sentAt a = vm_sentAt b)
  | _, _ => True
  end.

Definition orderly (p : Page) (e : PageEvent) : Prop :=
  match e with
  | Answered id a =>
      match p_tasks p !! id with Some t => orderly_answer p t a | None => True end
  | _ => True
  end.

Fixpoint orderly_run (p : Page) (events : list PageEvent) : Prop :=
  match events with
  | [] => True
  | e :: events => orderly p e ∧ orderly_run (page_step p e) events
  end.

(** [shows p] is what [page_ok] is about. *)
Definition shows (p : Page) := (selectedConversationId (p_state p), messages (p_state p)).

Lemma page_ok_shows p p' : shows p' = shows p → page_ok p → page_ok p'.
Proof. unfold page_ok. intros [= -> ->]. done. Qed.

Lemma page_ok_selected c p : page_ok (setState (conversation_selected c) p).
Proof. apply timeline_nil. Qed.

Lemma page_ok_effects before p : page_ok p → page_ok (effects before p).
Proof.
  intros Hp. destruct (effects_state before p) as [E|(_ & c & E)]; unfold page_ok; rewrite E;
    [exact Hp|apply timeline_nil].
Qed.

Lemma older_first c before older ms :
  timeline_ok c older → timeline_ok c ms → (vm_sentAt <$> head ms) = Some before →
  Forall (λ m, sent_time m < getTime before) older →
  (∀ a b, a ∈ older → b ∈ ms → vm_id a = vm_id b → vm_sentAt a = vm_sentAt b) →
  timeline_ok c (older ++ ms).
Proof.
  intros Ho Hm Hh Hlt Hid.
  assert (∀ a b, a ∈ older → b ∈ ms → sent_time a < sent_time b) as Hab.
  { intros a b Ha Hb. rewrite Forall_forall in Hlt. specialize (Hlt a Ha).
    destruct ms as [|m ms]; [done|]. injection Hh as <-.
    pose proof (key_sorted_head _ _ _ (tl_sorted _ _ Hm)) as Hs. rewrite Forall_forall in Hs.
    specialize (Hs b Hb). unfold sent_time in *. lia. }
  apply timeline_app; [done..|]. rewrite fmap_app. apply NoDup_app.
  split_and!; [apply Ho| |apply Hm].
  intros x (a & -> & Ha)%list_elem_of_fmap (b & E & Hb)%list_elem_of_fmap.
  specialize (Hab a b Ha Hb). unfold sent_time in Hab. rewrite (Hid a b Ha Hb E) in Hab. lia.
Qed.

Lemma page_ok_answer t a p : orderly_answer p t a → page_ok p → page_ok (on_answer t a p).
Proof.
  intros Ho Hp. destruct t, a; try exact Hp; cbn [orderly_answer] in Ho.
  all: try (eapply page_ok_shows; [|exact Hp]; unfold shows; cbn [on_answer]; unfold finish,
    suggestions_arrived, suggestions_failed, draft_updated; cbn; repeat case_match; done).
  - destruct Ho as [Hsel Hms]. unfold page_ok. destruct preload; cbn; by rewrite Hsel.
  - destruct Ho as [Hsel Hms]. unfold page_ok. cbn. by rewrite Hsel.
  - destruct Ho as (Hsel & Hms & Hh & Hlt & Hid). unfold page_ok in *. cbn. rewrite Hsel in Hp |- *.
    by eapply older_first.
  - done.
  - unfold page_ok. cbn. unfold conversation_deleted. destruct (is_selected _ _); [exact eq_refl|exact Hp].
  - apply timeline_nil.
Qed.

Lemma incoming_shows eager m p :
  shows (handleIncomingMessage eager m p) = shows (setState (message_received (mapRealtimeMessage m)) p).
Proof. unfold handleIncomingMessage. by repeat case_match. Qed.

Lemma page_ok_incoming eager m p : page_ok p → page_ok (handleIncomingMessage eager m p).
Proof.
  intros Hp. apply (page_ok_shows (setState (message_received (mapRealtimeMessage m)) p)).
  { apply incoming_shows. }
  unfold page_ok in *. cbn. unfold is_selected.
  destruct (selectedConversationId (p_state p)) as [c|]; [|done].
  case_bool_decide as E; [|done]. injection E as ->. by apply timeline_upsert.
Qed.

Lemma page_ok_moderated c r p : page_ok p → page_ok (setState (moderated c r) p).
Proof.
  unfold page_ok. cbn. destruct (selectedConversationId (p_state p)); [|by intros ->].
  apply timeline_map. intros m. unfold with_moderation. by case_match.
Qed.

Lemma handleSend_shows p : shows (handleSend p) = shows p.
Proof. unfold handleSend. by repeat case_match. Qed.

Lemma page_ok_handle e p : orderly p e → page_ok p → page_ok (handle e p).
Proof.
  intros Ho Hp. destruct e; cbn [handle orderly] in *; try exact Hp.
  - apply timeline_nil.
  - destruct (p_tasks p !! id) as [t|]; [|done]. by apply page_ok_answer.
  - repeat case_match; try exact Hp. eapply page_ok_shows; [|exact Hp].
    unfold shows. cbn. unfold draft_updated. by case_match.
  - by apply page_ok_incoming.
  - eapply page_ok_shows; [|exact Hp]. unfold handlePreviewUpdate, preview_received, shows.
    by repeat (case_match; cbn).
  - eapply page_ok_shows; [|exact Hp]. unfold handleConversationRead. by case_match.
  - eapply page_ok_shows; [|exact Hp]. unfold handleTypingPresence. by repeat case_match.
  - eapply page_ok_shows; [|exact Hp]. unfold typing_timeout. by repeat case_match.
  - by apply page_ok_moderated.
  - eapply page_ok_shows; [|exact Hp]. unfold shows, ai_error. cbn. by repeat case_match.
  - eapply page_ok_shows; [|exact Hp]. unfold loadMoreMessages. by repeat case_match.
  - eapply page_ok_shows; [|exact Hp]. unfold handleFileChange, handleUploadFile. by repeat case_match.
  - eapply page_ok_shows; [|exact Hp]. unfold handleRemoveDraft. by repeat case_match.
  - eapply page_ok_shows; [|exact Hp]. unfold handleInputChange. by repeat case_match.
  - eapply page_ok_shows; [|exact Hp]. unfold handleInputFocus, requestSuggestions. by repeat case_match.
  - eapply page_ok_shows; [|exact Hp]. unfold handleKeyDown. case_match; [apply handleSend_shows|done].
  - eapply page_ok_shows; [|exact Hp]. unfold handleSendClick. case_match; [done|apply handleSend_shows].
  - eapply page_ok_shows; [|exact Hp]. unfold handleLeave. by repeat case_match.
  - eapply page_ok_shows; [|exact Hp]. unfold handleDeleteConversation. by repeat case_match.
  - eapply page_ok_shows; [|exact Hp]. unfold handleStartConversation. by repeat case_match.
  - unfold handleOpenSearchResult. case_match; [exact Hp|apply timeline_nil].
Qed.

(** C9: The open conversation.  Every answer with messages comes for the conversation that is
    on screen and holds messages of it in order, and an older page finds the message it was
    asked from still the oldest: while that is so the page shows messages of that
    conversation only, in the order of their times, none twice, whatever is delivered by the
    socket in between, in whatever order and however often; and without a conversation it
    shows none.  (What comes otherwise is shown all the same: [stale_messages_shown],
    [older_page_twice].) *)
Theorem timeline_orderly user location events :
  orderly_run (open_page user location) events →
  page_ok (run_page (open_page user location) events).
Proof.
  assert (∀ p, page_ok p → orderly_run p events → page_ok (run_page p events)) as Hrun.
  { induction events as [|e events IH]; intros p Hp Ho; [done|]. destruct Ho as [He Ho]. cbn.
    apply IH; [|done]. apply page_ok_effects. by apply page_ok_handle. }
  intros Ho. by apply Hrun.
Qed.

(** An answer that comes too late is shown all the same.  When another conversation has
    been opened since, the page shows the messages of the old one under the new one, and
    lets the user scroll and write there. *)
Theorem stale_messages_shown p id c preload after c' ms events :
  p_hasRestored p = true →
  p_tasks p !! id = Some (GetMessages c preload after) →
  selectedConversationId (p_state p) = Some c' → c' ≠ c →
  let p' := page_step p (Answered id (Messages ms events)) in
  selectedConversationId (p_state p') = Some c' ∧
  messages (p_state p') = ms ∧ membershipEvents (p_state p') = events ∧
  loadingMessages (p_state p') = false.
Proof.
  intros Hr Ht Hs Hne p'.
  assert (p_state p' = messages_loaded ms events (p_state p)) as E; [|by rewrite E].
  unfold p', page_step. cbn [handle]. rewrite Ht. cbn [on_answer].
  rewrite effects_restored; [|by destruct preload]. by destruct preload.
Qed.

(** An older page is put before whatever is there.  When it was asked for twice, which takes
    no more than to leave the conversation and to come back while it is on its way, the page
    shows its messages twice. *)
Theorem older_page_twice p i j c before older events events' :
  p_hasRestored p = true → i ≠ j →
  p_tasks p !! i = Some (OlderMessages c before) → p_tasks p !! j = Some (OlderMessages c before) →
  let p' := run_page p [Answered i (Messages older events); Answered j (Messages older events')] in
  messages (p_state p') = older ++ older ++ messages (p_state p) ∧
  selectedConversationId (p_state p') = selectedConversationId (p_state p).
Proof.
  intros Hr Hne Hi Hj p'. unfold p', run_page. cbn [foldl]. set (p1 := page_step p _).
  assert (p_state p1 = older_loaded older (p_state p) ∧ p_hasRestored p1 = true ∧
          p_tasks p1 !! j = Some (OlderMessages c before)) as (E & Hr1 & Hj1).
  { unfold p1, page_step. cbn [handle]. rewrite Hi. cbn [on_answer].
    rewrite effects_same by done. split_and!; [done..|]. cbn. by rewrite lookup_delete_ne. }
  clearbody p1. unfold page_step. cbn [handle]. rewrite Hj1. cbn [on_answer].
  rewrite effects_same by done. cbn. by rewrite E.
Qed.

(** What a delivery does to what the page shows. *)
Lemma incoming_step eager m p :
  p_hasRestored p = true →
  let p' := page_step p (MessageDelivered eager m) in
  p_hasRestored p' = true ∧
  selectedConversationId (p_state p') = selectedConversationId (p_state p) ∧
  messages (p_state p') = (if is_selected (rm_conversationId m) (p_state p)
    then upsertMessage (messages (p_state p)) (mapRealtimeMessage m) else messages (p_state p)).
Proof.
  intros Hq p'. unfold p', page_step. cbn [handle].
  assert (p_hasRestored (handleIncomingMessage eager m p) = true) as Hq'.
  { unfold handleIncomingMessage. by repeat case_match. }
  rewrite effects_restored by done. split.
  - by apply effects_hasRestored.
  - pose proof (incoming_shows eager m p) as E. by injection E.
Qed.

(** Every message is delivered twice to a member who has its conversation open; the page
    shows it once, opens at most one notification, and leaves the rest as the first
    delivery left it. *)
Theorem double_delivery p eager eager' m :
  p_hasRestored p = true → NoDup (vm_id <$> messages (p_state p)) →
  let p1 := page_step p (MessageDelivered eager m) in
  let p2 := page_step p1 (MessageDelivered eager' m) in
  messages (p_state p2) = messages (p_state p1) ∧
  p_notifications p2 = p_notifications p1 ∧
  (selectedConversationId (p_state p) = Some (rm_conversationId m) →
   length (filter (λ x, vm_id x = rm_messageId m) (messages (p_state p2))) = 1%nat).
Proof.
  intros Hr Hn p1 p2.
  destruct (incoming_step eager m p Hr) as (Hr1 & Hs1 & Hm1). fold p1 in Hr1, Hs1, Hm1.
  destruct (incoming_step eager' m p1 Hr1) as (_ & _ & Hm2). fold p2 in Hm2.
  assert (is_selected (rm_conversationId m) (p_state p1) = is_selected (rm_conversationId m) (p_state p))
    as Hsel by (unfold is_selected; by rewrite Hs1).
  rewrite Hsel, Hm1 in Hm2. split_and!.
  - rewrite Hm2, Hm1. case_match; [apply upsertMessage_twice|done].
  - unfold p2. rewrite step_notifications. cbn.
    assert (shouldShowNotification m p1 = false) as ->; [|apply app_nil_r].
    assert (p_currentUser p1 = p_currentUser p) as Hu.
    { unfold p1, page_step. rewrite (effects_keep p_currentUser) by done. cbn [handle].
      unfold handleIncomingMessage. by repeat case_match. }
    assert (p_shownNotificationIds p1 = match notifies p (MessageDelivered eager m) with
      | Some id => {[id]} ∪ p_shownNotificationIds p | None => p_shownNotificationIds p end) as Hsh.
    { unfold p1, page_step. rewrite effects_shown. apply handle_notifications. }
    unfold shouldShowNotification, is_current_user. rewrite Hsel, Hu, Hsh. cbn [notifies].
    destruct (shouldShowNotification m p) eqn:E.
    + rewrite (bool_decide_eq_false_2 (rm_messageId m ∉ _)); [by rewrite andb_false_r|].
      intros Hnot. apply Hnot. apply elem_of_union. left. by apply elem_of_singleton.
    + unfold shouldShowNotification in E. by rewrite <-E.
  - intros Hc. rewrite Hm2. unfold is_selected. rewrite Hc, bool_decide_true by done.
    rewrite upsertMessage_twice. change (rm_messageId m) with (vm_id (mapRealtimeMessage m)).
    generalize (mapRealtimeMessage m). intros v.
    assert (vm_id v ∈ vm_id <$> upsertMessage (messages (p_state p)) v) as Hin by apply upsertMessage_in.
    assert (NoDup (vm_id <$> upsertMessage (messages (p_state p)) v)) as Hnd.
    { rewrite upsertMessage_Permutation. case_bool_decide as Hk; [done|]. rewrite fmap_app.
      apply NoDup_app. split_and!; [done| |apply NoDup_singleton].
      by intros x Hx ->%list_elem_of_singleton. }
    revert Hin Hnd. generalize (upsertMessage (messages (p_state p)) v). intros l. clear.
    induction l as [|x l IH]; [by intros ?%elem_of_nil|]. cbn [fmap list_fmap].
    intros Hin [Hx Hnd]%NoDup_cons. rewrite filter_cons. case_decide as E.
    + cbn. rewrite filter_drops; [done|]. apply Forall_forall. intros y Hy Ey.
      apply Hx. rewrite E, <-Ey. by apply list_elem_of_fmap_2.
    + apply IH; [|done]. apply elem_of_cons in Hin as [?|?]; [congruence|done].
Qed.
End page.

(** ** Checking that a run is orderly *)

Section check.
Context `{Window}.

Fixpoint sorted_check (ms : list Message) : bool :=
  match ms with
  | [] => true
  | m :: ms => forallb (λ x, sent_time m <=? sent_time x) ms && sorted_check ms
  end.

Definition timeline_check (c : jsstring) (ms : list Message) : bool :=
  sorted_check ms && bool_decide (NoDup (vm_id <$> ms))
  && forallb (λ m, bool_decide (vm_conversationId m = c)) ms.

Lemma timeline_check_ok c ms : timeline_check c ms = true → timeline_ok c ms.
Proof.
  unfold timeline_check. rewrite !andb_true_iff, bool_decide_eq_true.
  intros [[Hs Hn] Ho]. split; [|done|].
  - clear Hn Ho. induction ms as [|m ms IH]; [constructor|]. cbn in Hs.
    apply andb_true_iff in Hs as [Hm Hs]. constructor; [by apply IH|].
    rewrite forallb_forall in Hm. apply Forall_forall. intros x Hx%list_elem_of_In.
    apply Hm in Hx. by apply Z.leb_le.
  - rewrite forallb_forall in Ho. apply Forall_forall. intros x Hx%list_elem_of_In.
    by apply Ho, bool_decide_eq_true in Hx.
Qed.

Definition orderly_answer_check (p : Page) (t : Task) (a : Answer) : bool :=
  match t, a with
  | (GetMessages c _ _ | RereadMessages c), Messages ms _ =>
      is_selected c (p_state p) && timeline_check c ms
  | OlderMessages c before, Messages ms _ =>
      is_selected c (p_state p) && timeline_check c ms
      && bool_decide ((vm_sentAt <$> head (messages (p_state p))) = Some before)
      && forallb (λ m, sent_time m <? getTime before) ms
      && forallb (λ a, forallb (λ b, negb (bool_decide (vm_id a = vm_id b))
                                     || bool_decide (vm_sentAt a = vm_sentAt b))
                         (messages (p_state p))) ms
  | _, _ => true
  end.

Lemma orderly_answer_check_ok p t a : orderly_answer_check p t a = true → orderly_answer p t a.
Proof.
  unfold is_selected. destruct t, a; try done; cbn; unfold is_selected.
  1, 2: rewrite andb_true_iff, bool_decide_eq_true; intros [? ?%timeline_check_ok]; done.
  rewrite !andb_true_iff, !bool_decide_eq_true, !forallb_forall.
  intros [[[[Hs Ht%timeline_check_ok] Hh] Hlt] Hid]. split_and!; [done..| |].
  - apply Forall_forall. intros m Hm%list_elem_of_In. apply Hlt in Hm. by apply Z.ltb_lt.
  - intros m m' Hm%list_elem_of_In Hm'%list_elem_of_In E. apply Hid in Hm.
    rewrite forallb_forall in Hm. apply Hm in Hm'.
    rewrite bool_decide_true in Hm' by done. by apply bool_decide_eq_true in Hm'.
Qed.

Fixpoint orderly_run_check (p : Page) (events : list PageEvent) : bool :=
  match events with
  | [] => true
  | e :: events =>
      match e with
      | Answered id a =>
          match p_tasks p !! id with Some t => orderly_answer_check p t a | None => true end
      | _ => true
      end && orderly_run_check (page_step p e) events
  end.

Lemma orderly_run_check_ok p events : orderly_run_check p events = true → orderly_run p events.
Proof.
  revert p. induction events as [|e events IH]; intros p; [done|]. cbn.
  intros [He Hr]%andb_true_iff. split; [|by apply IH]. destruct e; try done. cbn.
  destruct (p_tasks p !! id); [|done]. by apply orderly_answer_check_ok.
Qed.
End check.

(** ** At concrete inputs *)

#[local] Instance demo_window : Window := {|
  getTime s := match s with [t] => t | _ => 0 end;
  toLowerCase s := s;
|}.

Definition demo_conversation (id : jsstring) : Conversation :=
  mkConversation id direct None (js "u1") None [1] [1] None None None (Some 2) (Some true) None.
Definition demo_message (c : jsstring) (sender : jsstring) (t : Z) : Message :=
  mkMessage (c ++ [t]) c sender None None (js "hi") [t] sent None None None None None None None None.
Definition demo_delivery (c : jsstring) (sender : jsstring) (t : Z) : RealtimeMessage :=
  mkRealtime (c ++ [t]) c sender None None (js "hi") [t] None None None None None None None None.

(** The user [u1] opens conversation [A], scrolls up once, is written to, and writes. *)
Definition demo_open : list PageEvent :=
  [Mounted; Answered 0 (Conversations [demo_conversation (js "A"); demo_conversation (js "B")]);
   ConnectionState connected; Selected (js "A"); Answered 2 Done;
   Answered 1 (Messages (map (demo_message (js "A") (js "u2")) (seqZ 11 10)) [])].
Definition demo_chat : list PageEvent :=
  demo_open ++
  [ScrolledToTop; MessageDelivered true (demo_delivery (js "A") (js "u2") 21);
   MessageDelivered true (demo_delivery (js "A") (js "u2") 21);
   Answered 5 (Messages (map (demo_message (js "A") (js "u2")) (seqZ 1 10)) []);
   InputChanged (js "hello"); SendClicked].
Definition demo_page (events : list PageEvent) : Page :=
  run_page (open_page (Some (js "u1")) None) events.

Lemma older_page_twice_example :
  let page := map (demo_message (js "A") (js "u2")) (seqZ 1 10) in
  let again := [ScrolledToTop; Selected (js "B"); Selected (js "A");
    Answered 8 (Messages (map (demo_message (js "A") (js "u2")) (seqZ 11 10)) []); ScrolledToTop] in
  ∃ j, map vm_sentAt (messages (p_state (demo_page
    (demo_open ++ again ++ [Answered 5 (Messages page []); Answered j (Messages page [])]))))
  = map (λ t, [t]) (seqZ 1 10 ++ seqZ 1 10 ++ seqZ 11 10).
Proof. exists 11%nat. vm_compute. reflexivity. Qed.

Lemma timeline_orderly_witness :
  orderly_run (open_page (Some (js "u1")) None) demo_chat ∧
  page_ok (demo_page demo_chat) ∧
  map vm_sentAt (messages (p_state (demo_page demo_chat))) = map (λ t, [t]) (seqZ 1 21).
Proof.
  assert (orderly_run (open_page (Some (js "u1")) None) demo_chat) as Ho
    by (apply orderly_run_check_ok; vm_compute; reflexivity).
  split; [exact Ho|]. split; [exact (timeline_orderly _ _ _ Ho)|]. vm_compute. reflexivity.
Defined.

Lemma composer_lock_witness :
  sendingMessage (p_state (demo_page demo_chat)) = true ∧
  sendingMessage (p_state (page_step (demo_page demo_chat) (Answered 7 Done))) = true ∧
  sendingMessage (p_state (page_step (demo_page demo_chat)
    (MessageDelivered true (demo_delivery (js "A") (js "u1") 22)))) = false.
Proof.
  assert (sendingMessage (p_state (demo_page demo_chat)) = true) as Hs by (vm_compute; reflexivity).
  split; [exact Hs|]. split.
  - rewrite (proj1 (composer_lock _ (Answered 7 Done) Hs)). vm_compute. reflexivity.
  - rewrite (proj1 (composer_lock _ (MessageDelivered true _) Hs)). vm_compute. reflexivity.
Defined.

(** [A] and then [B] are opened; the messages of [A] come last. *)
Definition demo_switch : list PageEvent :=
  [Mounted; Answered 0 (Conversations [demo_conversation (js "A"); demo_conversation (js "B")]);
   Selected (js "A"); Selected (js "B");
   Answered 3 (Messages [demo_message (js "B") (js "u3") 5] [])].

Lemma stale_messages_shown_witness :
  let p := page_step (demo_page demo_switch)
    (Answered 1 (Messages [demo_message (js "A") (js "u2") 4] [])) in
  selectedConversationId (p_state p) = Some (js "B") ∧
  map vm_conversationId (messages (p_state p)) = [js "A"].
Proof.
  cbv zeta.
  edestruct (stale_messages_shown (demo_page demo_switch) 1) as (H1 & H2 & _);
    [vm_compute; reflexivity|vm_compute; reflexivity|vm_compute; reflexivity|vm_compute; discriminate|].
  split; [exact H1|]. rewrite H2. vm_compute. reflexivity.
Defined.

Lemma double_delivery_witness :
  let m := demo_delivery (js "A") (js "u2") 21 in
  let p := page_step (demo_page demo_open) (MessageDelivered true m) in
  messages (p_state (page_step p (MessageDelivered true m))) = messages (p_state p) ∧
  length (messages (p_state p)) = 11%nat.
Proof.
  cbv zeta. split; [|vm_compute; reflexivity].
  apply (double_delivery (demo_page demo_open)); [vm_compute; reflexivity|].
  apply (bool_decide_unpack _). vm_compute. exact I.
Defined.
