(* ===== verification/Upload.v ===== *)
(** * Uploading a file, and why it failed

    The part of [frontend/src/services/chat-attachment.service.ts] that talks to R2: the
    request that carries the file, its progress, and the text that the page shows when the
    upload fails ([buildAttachmentUploadError], [extractUploadErrorMessage]).  The regular
    expressions are the ones of the source; their matches are proved to be the leftmost
    and the shortest. *)

From S2P Require Import Prelude JsText View ViewFacts Page PageFacts.
Open Scope Z_scope.

(** ** The request *)

Record UploadConfig := mkUploadConfig {
  uc_baseURL : jsstring;
  uc_contentType : jsstring;
  uc_withCredentials : bool;
  uc_skipAuthRefresh : bool;
}.

(** The [config] of [uploadFileToPresignedUrl]. *)
Definition upload_config (file : File) : UploadConfig :=
  mkUploadConfig [] (if truthy (fl_type file) then fl_type file else js "application/octet-stream")
    false true.

(** [Math.round(x / y)] of two integers, [y] positive. *)
Definition round_div (x y : Z) : Z := (2 * x + y) / (2 * y).

(** [onUploadProgress]: what the page is told, if it is told anything; the quotient is the
    exact one. *)
Definition upload_progress (loaded : Z) (total : option Z) : option Z :=
  match total with
  | Some t => if t =? 0 then None else Some (Z.min 100 (round_div (loaded * 100) t))
  | None => None
  end.

(** ** [text.match(/open(.* ?)close/)] *)

(** What [.] does not match. *)
Definition line_end (u : Z) : bool :=
  (u =? 10) || (u =? 13) || (u =? 0x2028) || (u =? 0x2029).

Fixpoint lazy_until (close s : jsstring) : option jsstring :=
  if startsWith s close then Some []
  else match s with
       | [] => None
       | u :: s' => if line_end u then None else cons u <$> lazy_until close s'
       end.

Fixpoint match_between (open close s : jsstring) : option jsstring :=
  match (if startsWith s open then lazy_until close (drop (length open) s) else None) with
  | Some c => Some c
  | None => match s with [] => None | _ :: s' => match_between open close s' end
  end.

(** ** The text of a failure *)

(** What [http.put] rejects with: not an error of axios, or one with the status and the
    content type of the response, its body when it is a string, and the message. *)
Inductive UploadFailure :=
  | NotAxios
  | AxiosFailure (statusCode : option nat) (contentType : option jsstring)
      (data : option jsstring) (message : jsstring).

Record AttachmentUploadError := mkUploadError {
  ue_message : jsstring;
  ue_detailMessage : jsstring;
  ue_statusCode : option nat;
}.

Definition is_xml (trimmed contentType : jsstring) : bool :=
  includes contentType (js "xml") || startsWith trimmed (js "<?xml")
  || startsWith trimmed (js "<Error>").

(** [tag?.[1]?.trim()], in a sentence of its own if it is there. *)
Definition segment (before : jsstring) (matched : option jsstring) : list jsstring :=
  match matched with
  | Some c => if truthy (trim c) then [before ++ trim c ++ js "."] else []
  | None => []
  end.

Definition extractUploadErrorMessage (payload contentType : jsstring) : jsstring :=
  let trimmed := trim payload in
  if negb (truthy trimmed) then js "Dịch vụ upload không trả về nội dung lỗi."
  else if is_xml trimmed contentType then
    let segments :=
      segment (js "R2 code: ") (match_between (js "<Code>") (js "</Code>") trimmed)
      ++ segment (js "Message: ") (match_between (js "<Message>") (js "</Message>") trimmed)
      ++ segment (js "Request ID: ") (match_between (js "<RequestId>") (js "</RequestId>") trimmed) in
    match join (js " ") segments with
    | [] => js "R2 trả về lỗi XML nhưng không đọc được nội dung chi tiết."
    | text => text
    end
  else if (300 <? length trimmed)%nat then take 300 trimmed ++ js "…" else trimmed.

Definition network_error_text : jsstring :=
  js "Trình duyệt không thể kết nối tới R2. Hãy kiểm tra CORS bucket, presigned URL còn hạn, và mạng.".

Definition buildAttachmentUploadError (e : UploadFailure) : AttachmentUploadError :=
  match e with
  | NotAxios =>
      mkUploadError (js "Không thể upload tệp.")
        (js "Không nhận được phản hồi hợp lệ từ dịch vụ upload.") None
  | AxiosFailure statusCode contentType data message =>
      let detail :=
        match data with
        | Some body => extractUploadErrorMessage body (default [] contentType)
        | None =>
            if bool_decide (message = js "Network Error") then network_error_text
            else match statusCode with
                 | Some (S n) => js "Dịch vụ upload trả về lỗi HTTP " ++ show_nat (S n) ++ js "."
                 | _ => if truthy message then message else js "Upload thất bại."
                 end
        end in
      mkUploadError (js "Không thể upload tệp.") detail statusCode
  end.

(** What the page, which awaits the upload, gets. *)
Definition upload_answer (result : option UploadFailure) : Answer :=
  match result with
  | None => Done
  | Some e =>
      let error := buildAttachmentUploadError e in
      Failed None (Some (ue_message error)) (Some (ue_detailMessage error))
  end.

(** ** Lemmas *)

Definition one_line (c : jsstring) : Prop := Forall (λ u, line_end u = false) c.

(** The shortest text without a line end before [close]. *)
Lemma lazy_until_Some close s c :
  lazy_until close s = Some c ↔
  one_line c ∧ (∃ post, s = c ++ close ++ post) ∧
  (∀ c' post, s = c' ++ close ++ post → (length c <= length c')%nat).
Proof.
  revert c. induction s as [|u s IH]; intros c.
  all: assert (∀ s0 : jsstring, startsWith s0 close = true → one_line [] ∧
      (∃ post, s0 = [] ++ close ++ post) ∧
      (∀ c' post, s0 = c' ++ close ++ post → (@length Z [] <= length c')%nat)) as Hnil.
  1, 3: intros s0 Hs; split_and!; [constructor|by apply startsWith_spec|intros; cbn; lia].
  all: cbn [lazy_until]; destruct (startsWith _ close) eqn:Es.
  - split; [by intros [= <-]; apply Hnil|]. intros (_ & _ & Hmin).
    apply startsWith_spec in Es as [t Et]. specialize (Hmin [] t Et).
    by destruct c; cbn in Hmin; [|lia].
  - split; [done|]. intros (_ & (post & E) & _). symmetry in E.
    apply app_eq_nil in E as [-> [-> _]%app_eq_nil]. done.
  - split; [by intros [= <-]; apply Hnil|]. intros (_ & _ & Hmin).
    apply startsWith_spec in Es as [t Et]. specialize (Hmin [] t Et).
    by destruct c; cbn in Hmin; [|lia].
  - assert (∀ post, u :: s ≠ close ++ post) as Hno.
    { intros post E. assert (startsWith (u :: s) close = true); [|congruence].
      apply startsWith_spec. by exists post. }
    destruct (line_end u) eqn:Eu.
    { split; [done|]. intros (Hc & (post & E) & _). destruct c as [|v c]; [by destruct (Hno post)|].
      injection E as -> _. inversion Hc. congruence. }
    rewrite fmap_Some. split.
    + intros (c' & Hc' & ->). apply IH in Hc' as (H1 & (post & ->) & H3). split_and!.
      * by constructor.
      * by exists post.
      * intros [|v c''] post' E; [by destruct (Hno post')|]. injection E as _ E.
        apply H3 in E. cbn. lia.
    + intros (Hc & (post & E) & Hmin). destruct c as [|v c]; [by destruct (Hno post)|].
      injection E as <- E. exists c. split; [|done]. apply IH. inversion Hc; subst. split_and!; try done.
      * by exists post.
      * intros c' post' E'. assert (length (u :: c) <= length (u :: c'))%nat; [|cbn in *; lia].
        apply (Hmin _ post'). by rewrite E'.
Qed.

Lemma lazy_until_complete close c post :
  one_line c → is_Some (lazy_until close (c ++ close ++ post)).
Proof.
  induction 1 as [|u c Hu _ IH]; cbn [app].
  - destruct (close ++ post) eqn:E; cbn [lazy_until]; rewrite <-E;
      by rewrite (proj2 (startsWith_spec _ _)) by by exists post.
  - cbn [lazy_until]. case_match; [done|]. rewrite Hu. by apply fmap_is_Some.
Qed.

(** An occurrence of the expression. *)
Definition occurs (open close s pre c : jsstring) : Prop :=
  one_line c ∧ ∃ post, s = pre ++ open ++ c ++ close ++ post.

(** The leftmost one, and there the shortest. *)
Definition first_match (open close s c : jsstring) : Prop :=
  ∃ pre, occurs open close s pre c ∧
    (∀ pre' c', occurs open close s pre' c' → (length pre <= length pre')%nat) ∧
    (∀ c', occurs open close s pre c' → (length c <= length c')%nat).

Lemma occurs_head open close s c :
  occurs open close s [] c ↔
  startsWith s open = true ∧ one_line c ∧ ∃ post, drop (length open) s = c ++ close ++ post.
Proof.
  unfold occurs. rewrite startsWith_spec. cbn [app]. split.
  - intros (Hc & post & ->). rewrite drop_app_length. eauto.
  - intros ([t ->] & Hc & post & E). rewrite drop_app_length in E. subst t. eauto.
Qed.

Lemma occurs_cons open close u s v pre c :
  occurs open close (u :: s) (v :: pre) c ↔ u = v ∧ occurs open close s pre c.
Proof. unfold occurs. naive_solver. Qed.

Lemma match_between_spec open close s :
  match match_between open close s with
  | Some c => first_match open close s c
  | None => ∀ pre c, ¬ occurs open close s pre c
  end.
Proof.
  induction s as [|u s IH].
  all: cbn [match_between]; match goal with |- context [startsWith ?s _] => set (s0 := s) end.
  all: destruct (if startsWith s0 open then _ else None) as [c|] eqn:Eh.
  1, 3: destruct (startsWith s0 open) eqn:Es; [|done];
    apply lazy_until_Some in Eh as (Hc & Hpost & Hmin); exists [];
    split_and!; [by apply occurs_head|cbn; lia|];
    intros c' (_ & _ & post & E)%occurs_head; by eapply Hmin.
  all: assert (∀ c, ¬ occurs open close s0 [] c) as Hhead by
    (intros c (Hs & Hc & post & E)%occurs_head; rewrite Hs, E in Eh;
     destruct (lazy_until_complete close c post Hc) as [? Ec]; congruence).
  - intros [|v pre] c Hocc; [by apply (Hhead c)|]. by destruct Hocc as (_ & post & ?).
  - unfold s0 in *. destruct (match_between open close s) as [c|].
    + destruct IH as (pre & Hocc & Hleft & Hshort). exists (u :: pre). split_and!.
      * by apply occurs_cons.
      * intros [|v pre'] c' Hc'; [by destruct (Hhead c')|].
        apply occurs_cons in Hc' as [_ Hc']. apply Hleft in Hc'. cbn. lia.
      * intros c' [_ Hc']%occurs_cons. by apply Hshort.
    + intros [|v pre] c Hocc; [by apply (Hhead c)|]. apply occurs_cons in Hocc as [_ Hocc].
      by apply (IH pre c).
Qed.

Lemma first_match_unique open close s c c' :
  first_match open close s c → first_match open close s c' → c = c'.
Proof.
  intros (pre & Ho & Hl & Hs) (pre' & Ho' & Hl' & Hs').
  assert (length pre = length pre') as El by (apply Nat.le_antisymm; eauto).
  destruct Ho as (Hc & post & E). destruct Ho' as (Hc' & post' & E').
  assert (pre = pre') as ->.
  { rewrite E in E'. by apply app_inj_1 in E' as [-> _]. }
  assert (length c = length c') as Elc.
  { apply Nat.le_antisymm; [apply Hs|apply Hs']; split; eauto. }
  rewrite E in E'. apply app_inv_head, app_inv_head in E'. by apply app_inj_1 in E' as [-> _].
Qed.

Lemma match_between_first open close s c :
  first_match open close s c → match_between open close s = Some c.
Proof.
  intros Hf. pose proof (match_between_spec open close s) as Hm.
  destruct (match_between open close s) as [c'|].
  - f_equal. by eapply first_match_unique.
  - destruct Hf as (pre & Ho & _). by destruct (Hm pre c).
Qed.

(** ** What the page shows *)

Lemma trim_truthy_text s : trim s ≠ [] → truthy (trim s) = true.
Proof. by destruct (trim s). Qed.

Lemma extract_nonempty payload contentType : extractUploadErrorMessage payload contentType ≠ [].
Proof.
  unfold extractUploadErrorMessage. cbv zeta.
  destruct (truthy (trim payload)) eqn:E; [|done]. cbn [negb].
  destruct (is_xml _ _); [by case_match|]. destruct (_ <? _)%nat eqn:Hl.
  - intros [_ H]%app_eq_nil. done.
  - by intros E'; rewrite E' in E.
Qed.

Lemma detail_nonempty e : ue_detailMessage (buildAttachmentUploadError e) ≠ [].
Proof.
  destruct e as [|status type data message]; [done|]. cbn.
  destruct data as [body|]; [apply extract_nonempty|].
  case_bool_decide; [discriminate|].
  destruct status as [[|n]|]; [destruct message; discriminate| |destruct message; discriminate].
  intros [E _]%app_eq_nil. discriminate E.
Qed.

Lemma upload_progress_bounds loaded t n :
  0 <= loaded → 0 <= t → upload_progress loaded (Some t) = Some n → 0 <= n <= 100.
Proof.
  intros Hl Ht. unfold upload_progress, round_div. destruct (t =? 0) eqn:E; [done|].
  apply Z.eqb_neq in E. intros [= <-]. assert (0 <= (2 * (loaded * 100) + t) / (2 * t)).
  { apply Z.div_pos; lia. }
  lia.
Qed.

(** A body that is not XML is cut; in R2's XML the code and the message are found. *)
Lemma extract_plain payload contentType :
  is_xml (trim payload) contentType = false → trim payload ≠ [] →
  let text := extractUploadErrorMessage payload contentType in
  take 300 text = take 300 (trim payload) ∧ (length text <= 301)%nat.
Proof.
  intros Hx Ht. unfold extractUploadErrorMessage. cbv zeta.
  rewrite (trim_truthy_text _ Ht), Hx. cbn [negb]. destruct (_ <? _)%nat eqn:Hl.
  - apply Nat.ltb_lt in Hl. rewrite take_app_le by (rewrite length_take; lia).
    rewrite take_take, length_app, length_take. change (length (js "…")) with 1%nat.
    split; [f_equal|]; lia.
  - apply Nat.ltb_ge in Hl. split; [done|lia].
Qed.

Lemma extract_xml payload contentType c m :
  is_xml (trim payload) contentType = true →
  first_match (js "<Code>") (js "</Code>") (trim payload) c → trim c ≠ [] →
  first_match (js "<Message>") (js "</Message>") (trim payload) m → trim m ≠ [] →
  ∃ rest, extractUploadErrorMessage payload contentType
          = js "R2 code: " ++ trim c ++ js ". Message: " ++ trim m ++ js "." ++ rest.
Proof.
  intros Hx Hc Hcn Hm Hmn. unfold extractUploadErrorMessage. cbv zeta.
  assert (truthy (trim payload) = true) as ->.
  { destruct (trim payload); [|done]. by destruct Hc as (pre & (_ & post & E) & _); destruct pre. }
  rewrite Hx. cbn [negb]. rewrite (match_between_first _ _ _ _ Hc), (match_between_first _ _ _ _ Hm).
  unfold segment at 1 2. rewrite !trim_truthy_text by done.
  generalize (segment (js "Request ID: ") (match_between (js "<RequestId>") (js "</RequestId>") (trim payload))).
  intros l. cbn [app join]. destruct l as [|r l].
  - exists []. rewrite <-!app_assoc, app_nil_r. reflexivity.
  - exists (js " " ++ join (js " ") (r :: l)). rewrite <-!app_assoc. reflexivity.
Qed.

(** An upload that fails says why.  Whatever [http.put] rejects with, the page unlocks
    the composer and marks the attachment as failed with a text that is not empty: of an
    answer that is not XML its first 300 characters; of R2's XML the code and the message,
    where the texts are the leftmost and shortest between their tags, as the source's
    regular expressions demand. *)
Theorem upload_failure_explained `{Window} p id sending attachmentId e d :
  p_tasks p !! id = Some (UploadFile sending attachmentId) →
  draftAttachment (p_state p) = Some d →
  let p' := page_step p (Answered id (upload_answer (Some e))) in
  sendingMessage (p_state p') = false ∧
  ∃ text d', draftAttachment (p_state p') = Some d' ∧ da_status d' = upload_failed ∧
    da_localId d' = da_localId d ∧ da_error d' = Some text ∧ text ≠ [] ∧
    ∀ status type body message, e = AxiosFailure status type (Some body) message →
      trim body ≠ [] →
      if is_xml (trim body) (default [] type) then
        ∀ c m, first_match (js "<Code>") (js "</Code>") (trim body) c → trim c ≠ [] →
          first_match (js "<Message>") (js "</Message>") (trim body) m → trim m ≠ [] →
          ∃ rest, text = js "R2 code: " ++ trim c ++ js ". Message: " ++ trim m ++ js "." ++ rest
      else take 300 text = take 300 (trim body) ∧ (length text <= 301)%nat.
Proof.
  intros Ht Hd p'. unfold p', page_step. rewrite effects_sending, effects_draft.
  cbn [handle]. rewrite Ht. cbn [upload_answer on_answer setState p_state].
  pose proof (detail_nonempty e) as Hne.
  destruct (ue_detailMessage (buildAttachmentUploadError e)) as [|u text] eqn:Etext; [done|].
  split; [done|]. exists (u :: text), (mkDraft (da_localId d) (da_file d) (da_progress d) upload_failed
    (da_attachmentId d) (Some (u :: text))). split_and!; [|reflexivity..| |].
  - unfold send_failed. cbn. change (p_state (forget id p)) with (p_state p). by rewrite Hd.
  - done.
  - intros status type body message -> Hb. cbn in Etext. rewrite <-Etext.
    destruct (is_xml _ _) eqn:Hx; [|by apply extract_plain].
    intros c m. by apply extract_xml.
Qed.

(** ** At a concrete input: R2 refuses the signature *)

#[local] Instance demo_window_inst : Window := demo_window.

Definition demo_file : File := mkFile (js "a.png") (js "image/png") 10 None.
Definition demo_uploading : Page :=
  demo_page (demo_open ++ [FileSelected (js "1") demo_file; SendClicked; Answered 5 (Presigned (js "att"))]).
Definition demo_body : jsstring :=
  js "<Error><Code> SignatureDoesNotMatch </Code><Message>No</Message></Error>".
Definition demo_failure : UploadFailure := AxiosFailure (Some 403%nat) None (Some demo_body) [].

Lemma demo_first_match tag_open tag_close c :
  match_between tag_open tag_close (trim demo_body) = Some c →
  first_match tag_open tag_close (trim demo_body) c.
Proof.
  intros E. pose proof (match_between_spec tag_open tag_close (trim demo_body)) as Hm.
  rewrite E in Hm. exact Hm.
Qed.

Lemma upload_failure_explained_witness :
  let p' := page_step demo_uploading (Answered 6 (upload_answer (Some demo_failure))) in
  sendingMessage (p_state p') = false ∧
  ∃ d' rest, draftAttachment (p_state p') = Some d' ∧ da_status d' = upload_failed ∧
    da_error d' = Some (js "R2 code: SignatureDoesNotMatch. Message: No." ++ rest).
Proof.
  destruct (upload_failure_explained demo_uploading 6 (mkSending (js "A") []) (js "att") demo_failure
    (mkDraft (js "1") demo_file 0 uploading (Some (js "att")) None))
    as (Hs & text & d' & Hd & Hst & _ & He & _ & Hx); [vm_compute; reflexivity..|].
  split; [exact Hs|]. exists d'.
  assert (trim demo_body ≠ []) as Hb by (vm_compute; discriminate).
  specialize (Hx (Some 403%nat) None demo_body [] eq_refl Hb).
  assert (is_xml (trim demo_body) (default [] None) = true) as Hxml by (vm_compute; reflexivity).
  rewrite Hxml in Hx.
  destruct (Hx (js " SignatureDoesNotMatch ")) with (m := js "No") as [rest Hrest].
  - apply demo_first_match. vm_compute. reflexivity.
  - vm_compute. discriminate.
  - apply demo_first_match. vm_compute. reflexivity.
  - vm_compute. discriminate.
  - exists rest. split; [exact Hd|]. split; [exact Hst|]. rewrite He, Hrest. vm_compute. reflexivity.
Defined.
