(* ===== verification/SocketClient.v ===== *)
(** * The realtime client

    [frontend/src/services/chat-socket.service.ts]: the connection of the chat page, its
    listeners, the calls that wait for the connection and then for an acknowledgement, and
    the conversation that is joined again after every reconnection.

    The socket itself is socket.io-client's: whether it is connected, and whether it will
    reconnect by itself, is what its events say ([SocketEvent]).  The service makes a new
    one after [disconnect], so a socket has a number; the service hears nothing of a socket
    it has dropped, because it has removed its listeners. *)

From S2P Require Import Prelude JsText View.
Open Scope Z_scope.

(** ** Data *)

(** [socket.connected] and [socket.active]. *)
Record Socket := mkSocket {
  sk_id : nat;
  sk_connected : bool;
  sk_active : bool;
}.

(** The payload of a call of [emitWithAck]. *)
Inductive Emission :=
  | join_conversation (conversationId : jsstring)
  | leave_conversation (conversationId : jsstring)
  | send_message (conversationId content : jsstring) (attachmentId : option jsstring)
  | mark_conversation_read (conversationId : jsstring)
  | typing_presence_updated (conversationId : jsstring) (isTyping : bool).

(** How far a call is: in [waitForConnection], sent, or settled; it fails with an error
    payload, or with the error of the acknowledgement's timeout. *)
Inductive CallState :=
  | WaitingForConnection
  | WaitingForAck
  | Fulfilled
  | RejectedWith (error : ChatSocketError)
  | AckTimedOut.

Record SocketCall := mkSocketCall {
  sc_socket : nat;
  sc_emission : Emission;
  sc_state : CallState;
}.

(** The sets of listeners, and what a listener is called with. *)
Inductive ListenerKind := KMessage | KPreview | KConnection | KRead | KTyping | KModeration | KError.
#[export] Instance ListenerKind_eq_dec : EqDecision ListenerKind.
Proof. solve_decision. Defined.

Inductive Notice :=
  | NMessage (message : RealtimeMessage)
  | NPreview (preview : ConversationPreviewUpdate)
  | NConnection (state : ChatConnectionState)
  | NRead (conversationId : jsstring)
  | NTyping (typing : TypingPresenceUpdate)
  | NModeration (conversationId : jsstring) (result : MessageModerationResult)
  | NError (error : ChatSocketError).

Definition kind_of (n : Notice) : ListenerKind :=
  match n with
  | NMessage _ => KMessage | NPreview _ => KPreview | NConnection _ => KConnection
  | NRead _ => KRead | NTyping _ => KTyping | NModeration _ _ => KModeration | NError _ => KError
  end.

(** [ChatSocketService], with the calls made so far, what has been put on the wire (by
    which socket), and what the listeners have been called with. *)
Record ChatSocketService := mkService {
  cs_socket : option Socket;
  cs_connectionState : ChatConnectionState;
  cs_activeConversationId : option jsstring;
  cs_listeners : list (ListenerKind * nat);
  cs_sockets : nat;
  cs_next : nat;
  cs_calls : gmap nat SocketCall;
  cs_wire : list (nat * Emission);
  cs_notices : list (nat * Notice);
}.

Definition new_service : ChatSocketService :=
  mkService None disconnected None [] 0 0 ∅ [] [].

Inductive ServiceEvent :=
  | ConnectCalled
  | DisconnectCalled
  | Subscribed (kind : ListenerKind) (listener : nat)
  | Unsubscribed (kind : ListenerKind) (listener : nat)
  | Called (emission : Emission)
  (* of the socket of the service *)
  | SocketConnect
  | SocketDisconnect (active : bool)
  | ReconnectAttempt
  | ConnectError (active : bool) (data : option ChatSocketError) (message : jsstring)
  | ConnectionStatusChanged (state : option ChatConnectionState)
  | ServerEvent (notice : Notice)
  (* of a call *)
  | CallTimeout (id : nat)
  | AckReceived (id : nat) (error : option ChatSocketError).

(** ** Changes of the state *)

Definition with_socket (socket : option Socket) (s : ChatSocketService) : ChatSocketService :=
  mkService socket (cs_connectionState s) (cs_activeConversationId s) (cs_listeners s)
    (cs_sockets s) (cs_next s) (cs_calls s) (cs_wire s) (cs_notices s).
Definition with_active (id : option jsstring) (s : ChatSocketService) : ChatSocketService :=
  mkService (cs_socket s) (cs_connectionState s) id (cs_listeners s) (cs_sockets s)
    (cs_next s) (cs_calls s) (cs_wire s) (cs_notices s).
Definition with_listeners (l : list (ListenerKind * nat)) (s : ChatSocketService)
    : ChatSocketService :=
  mkService (cs_socket s) (cs_connectionState s) (cs_activeConversationId s) l (cs_sockets s)
    (cs_next s) (cs_calls s) (cs_wire s) (cs_notices s).
Definition with_calls (calls : gmap nat SocketCall) (wire : list (nat * Emission))
    (s : ChatSocketService) : ChatSocketService :=
  mkService (cs_socket s) (cs_connectionState s) (cs_activeConversationId s) (cs_listeners s)
    (cs_sockets s) (cs_next s) calls wire (cs_notices s).

(** [for (const listener of this.listeners) listener(payload)]. *)
Definition call_listeners (n : Notice) (s : ChatSocketService) : ChatSocketService :=
  let called := filter (λ l : ListenerKind * nat, l.1 = kind_of n) (cs_listeners s) in
  mkService (cs_socket s) (cs_connectionState s) (cs_activeConversationId s) (cs_listeners s)
    (cs_sockets s) (cs_next s) (cs_calls s) (cs_wire s)
    (cs_notices s ++ map (λ l, (l.2, n)) called).

Definition emitError (error : ChatSocketError) (s : ChatSocketService) : ChatSocketService :=
  call_listeners (NError error) s.

Definition setConnectionState (state : ChatConnectionState) (s : ChatSocketService)
    : ChatSocketService :=
  call_listeners (NConnection state)
    (mkService (cs_socket s) state (cs_activeConversationId s) (cs_listeners s) (cs_sockets s)
       (cs_next s) (cs_calls s) (cs_wire s) (cs_notices s)).

Definition socket_not_ready : ChatSocketError :=
  mkSocketError (js "SOCKET_NOT_READY") (js "Realtime chat is not connected") None.

(** [socket.connect()]. *)
Definition lib_connect (k : Socket) : Socket := mkSocket (sk_id k) (sk_connected k) true.

(** ** Calls *)

Definition new_call (c : SocketCall) (wire : list (nat * Emission)) (s : ChatSocketService)
    : ChatSocketService :=
  mkService (cs_socket s) (cs_connectionState s) (cs_activeConversationId s) (cs_listeners s)
    (cs_sockets s) (S (cs_next s)) (<[cs_next s := c]> (cs_calls s)) (cs_wire s ++ wire)
    (cs_notices s).

(** [emitWithAck], up to its first wait: [waitForConnection] runs at once. *)
Definition emitWithAck (e : Emission) (s : ChatSocketService) : ChatSocketService :=
  match cs_socket s with
  | None =>
      new_call (mkSocketCall 0 e (RejectedWith socket_not_ready)) [] (emitError socket_not_ready s)
  | Some k =>
      if sk_connected k then new_call (mkSocketCall (sk_id k) e WaitingForAck) [(sk_id k, e)] s
      else
        new_call (mkSocketCall (sk_id k) e WaitingForConnection) []
          (if sk_active k then s else with_socket (Some (lib_connect k)) s)
  end.

(** [joinConversation], [leaveConversation] and the other methods that emit. *)
Definition call (e : Emission) (s : ChatSocketService) : ChatSocketService :=
  match e with
  | join_conversation c => emitWithAck e (with_active (Some c) s)
  | leave_conversation c =>
      emitWithAck e
        (if bool_decide (cs_activeConversationId s = Some c) then with_active None s else s)
  | _ => emitWithAck e s
  end.

Definition waiting_on (k : nat) (c : SocketCall) : bool :=
  bool_decide (sc_socket c = k) && match sc_state c with WaitingForConnection => true | _ => false end.

Definition set_call_state (st : CallState) (c : SocketCall) : SocketCall :=
  mkSocketCall (sc_socket c) (sc_emission c) st.

(** The calls that wait for a socket, oldest first. *)
Definition waiting_emissions (k : nat) (s : ChatSocketService) : list (nat * Emission) :=
  omap (λ id, c ← cs_calls s !! id; if waiting_on k c then Some (k, sc_emission c) else None)
    (seq 0 (cs_next s)).

(** [handleConnect] of every call that waits for the socket. *)
Definition release_waiting (k : nat) (s : ChatSocketService) : ChatSocketService :=
  with_calls ((λ c, if waiting_on k c then set_call_state WaitingForAck c else c) <$> cs_calls s)
    (cs_wire s ++ waiting_emissions k s) s.

(** [handleDisconnect] and [handleConnectError]. *)
Definition reject_waiting (k : nat) (error : ChatSocketError) (s : ChatSocketService)
    : ChatSocketService :=
  with_calls ((λ c, if waiting_on k c then set_call_state (RejectedWith error) c else c) <$> cs_calls s)
    (cs_wire s) s.

(** ** The steps *)

Definition connect (s : ChatSocketService) : ChatSocketService :=
  match cs_socket s with
  | Some k => if sk_connected k then s else with_socket (Some (lib_connect k)) s
  | None =>
      let s := setConnectionState connecting s in
      mkService (Some (mkSocket (S (cs_sockets s)) false true)) (cs_connectionState s)
        (cs_activeConversationId s) (cs_listeners s) (S (cs_sockets s)) (cs_next s)
        (cs_calls s) (cs_wire s) (cs_notices s)
  end.

Definition disconnect (s : ChatSocketService) : ChatSocketService :=
  setConnectionState disconnected (with_socket None (with_active None s)).

(** [Set.add] and [Set.delete]; [onConnectionState] calls its listener at once. *)
Definition subscribe (kind : ListenerKind) (l : nat) (s : ChatSocketService) : ChatSocketService :=
  let listeners :=
    if bool_decide ((kind, l) ∈ cs_listeners s) then cs_listeners s
    else cs_listeners s ++ [(kind, l)] in
  let s := with_listeners listeners s in
  match kind with
  | KConnection =>
      mkService (cs_socket s) (cs_connectionState s) (cs_activeConversationId s) (cs_listeners s)
        (cs_sockets s) (cs_next s) (cs_calls s) (cs_wire s)
        (cs_notices s ++ [(l, NConnection (cs_connectionState s))])
  | _ => s
  end.
Definition unsubscribe (kind : ListenerKind) (l : nat) (s : ChatSocketService)
    : ChatSocketService :=
  with_listeners (filter (λ x, x ≠ (kind, l)) (cs_listeners s)) s.

(** The [connect] handler of the service, then those of the calls. *)
Definition on_connect (k : Socket) (s : ChatSocketService) : ChatSocketService :=
  let s := with_socket (Some (mkSocket (sk_id k) true true)) s in
  let s := setConnectionState connected s in
  let s :=
    match cs_activeConversationId s with
    | Some c => if truthy c then call (join_conversation c) s else s
    | None => s
    end in
  release_waiting (sk_id k) s.

Definition on_disconnect (k : Socket) (active : bool) (s : ChatSocketService)
    : ChatSocketService :=
  reject_waiting (sk_id k) socket_not_ready
    (setConnectionState disconnected (with_socket (Some (mkSocket (sk_id k) false active)) s)).

Definition connection_error (data : option ChatSocketError) (message : jsstring)
    : ChatSocketError :=
  match data with
  | Some error => error
  | None => mkSocketError (js "CONNECTION_ERROR") message None
  end.

Definition on_connect_error (k : Socket) (active : bool) (error : ChatSocketError)
    (s : ChatSocketService) : ChatSocketService :=
  let s := with_socket (Some (mkSocket (sk_id k) false active)) s in
  reject_waiting (sk_id k) error
    (emitError error (setConnectionState (if active then reconnecting else disconnected) s)).

Definition settle_call (id : nat) (st : CallState) (s : ChatSocketService) : ChatSocketService :=
  with_calls (alter (set_call_state st) id (cs_calls s)) (cs_wire s) s.

Definition service_step (s : ChatSocketService) (e : ServiceEvent) : ChatSocketService :=
  match e with
  | ConnectCalled => connect s
  | DisconnectCalled => disconnect s
  | Subscribed kind l => subscribe kind l s
  | Unsubscribed kind l => unsubscribe kind l s
  | Called e => call e s
  | CallTimeout id =>
      match sc_state <$> cs_calls s !! id with
      | Some WaitingForConnection => settle_call id (RejectedWith socket_not_ready) s
      | Some WaitingForAck => settle_call id AckTimedOut s
      | _ => s
      end
  | AckReceived id error =>
      match sc_state <$> cs_calls s !! id, error with
      | Some WaitingForAck, None => settle_call id Fulfilled s
      | Some WaitingForAck, Some error => settle_call id (RejectedWith error) (emitError error s)
      | _, _ => s
      end
  | SocketConnect | SocketDisconnect _ | ReconnectAttempt | ConnectError _ _ _
  | ConnectionStatusChanged _ | ServerEvent _ =>
      match cs_socket s with
      | None => s
      | Some k =>
          match e with
          | SocketConnect => on_connect k s
          | SocketDisconnect active => on_disconnect k active s
          | ReconnectAttempt => setConnectionState reconnecting s
          | ConnectError active data message =>
              on_connect_error k active (connection_error data message) s
          | ConnectionStatusChanged (Some state) => setConnectionState state s
          | ServerEvent n => call_listeners n s
          | _ => s
          end
      end
  end.

Definition serve (events : list ServiceEvent) : ChatSocketService :=
  foldl service_step new_service events.
