(* ===== verification/SocketFacts.v ===== *)
(** * The realtime client: what holds however its events interleave

    The state that the page is told is the state of the socket; no call waits for a socket
    that is connected, and none waits for ever; after a reconnection the conversation that
    is open is joined again. *)

From S2P Require Import Prelude JsText View SocketClient.
Open Scope Z_scope.

(** ** What the helpers leave alone *)

Lemma emitWithAck_active e s : cs_activeConversationId (emitWithAck e s) = cs_activeConversationId s.
Proof. unfold emitWithAck. by repeat case_match. Qed.
Lemma emitWithAck_state e s : cs_connectionState (emitWithAck e s) = cs_connectionState s.
Proof. unfold emitWithAck. by repeat case_match. Qed.
Lemma emitWithAck_sockets e s : cs_sockets (emitWithAck e s) = cs_sockets s.
Proof. unfold emitWithAck. by repeat case_match. Qed.

(** What a call does to the conversation that will be joined again. *)
Definition active_after (e : Emission) (active : option jsstring) : option jsstring :=
  match e with
  | join_conversation c => Some c
  | leave_conversation c => if bool_decide (active = Some c) then None else active
  | _ => active
  end.

Lemma call_active e s : cs_activeConversationId (call e s) = active_after e (cs_activeConversationId s).
Proof. unfold call. destruct e; rewrite emitWithAck_active; try done. cbn. by case_match. Qed.
Lemma call_state e s : cs_connectionState (call e s) = cs_connectionState s.
Proof. unfold call. destruct e; rewrite emitWithAck_state; try done. by case_match. Qed.
Lemma call_sockets e s : cs_sockets (call e s) = cs_sockets s.
Proof. unfold call. destruct e; rewrite emitWithAck_sockets; try done. by case_match. Qed.

(** A call may start the reconnection of the socket, nothing else. *)
Lemma call_socket e s :
  cs_socket (call e s) = cs_socket s ∨
  ∃ k, cs_socket s = Some k ∧ sk_connected k = false ∧ cs_socket (call e s) = Some (lib_connect k).
Proof.
  assert (∀ s', cs_socket s' = cs_socket s →
    cs_socket (emitWithAck e s') = cs_socket s ∨
    ∃ k, cs_socket s = Some k ∧ sk_connected k = false ∧ cs_socket (emitWithAck e s') = Some (lib_connect k)).
  { intros s' E. unfold emitWithAck. rewrite E. destruct (cs_socket s) as [k|]; [|by left].
    destruct (sk_connected k) eqn:Ek; [by left|]. destruct (sk_active k); [by left|]. right. by exists k. }
  unfold call. destruct e; auto. case_match; auto.
Qed.

(** ** The conversation to join again *)

(** The conversation that was joined last and neither left nor given up by a disconnection
    since: what the events that the page causes say. *)
Definition wanted (events : list ServiceEvent) : option jsstring :=
  foldl (λ active e,
           match e with
           | Called e => active_after e active
           | DisconnectCalled => None
           | _ => active
           end) None events.

Lemma on_connect_active k s : cs_activeConversationId (on_connect k s) = cs_activeConversationId s.
Proof.
  unfold on_connect. set (s1 := setConnectionState _ _).
  change (cs_activeConversationId s) with (cs_activeConversationId s1).
  assert (∀ k s, cs_activeConversationId (release_waiting k s) = cs_activeConversationId s) as -> by done.
  destruct (cs_activeConversationId s1) as [c|] eqn:E; [|done].
  destruct (truthy c); [|done]. by rewrite call_active.
Qed.

Lemma step_active e s :
  cs_activeConversationId (service_step s e)
  = match e with
    | Called e => active_after e (cs_activeConversationId s)
    | DisconnectCalled => None
    | _ => cs_activeConversationId s
    end.
Proof.
  destruct e; cbn [service_step]; try done; try apply call_active.
  - unfold connect. by repeat case_match.
  - unfold subscribe. by repeat case_match.
  - destruct (cs_socket s); [apply on_connect_active|done].
  - by destruct (cs_socket s).
  - by destruct (cs_socket s).
  - by destruct (cs_socket s).
  - destruct (cs_socket s), state; done.
  - by destruct (cs_socket s).
  - by repeat case_match.
  - by repeat case_match.
Qed.

Lemma active_wanted events : cs_activeConversationId (serve events) = wanted events.
Proof.
  unfold serve, wanted. induction events as [|e events IH] using rev_ind; [done|].
  rewrite !foldl_snoc, step_active, IH. by destruct e.
Qed.

(** ** The state that the page is told *)

Definition socket_connected (s : ChatSocketService) : bool :=
  match cs_socket s with Some k => sk_connected k | None => false end.

(** The backend tells a socket only that it is connected, over a connected socket. *)
Definition honest (s : ChatSocketService) (e : ServiceEvent) : Prop :=
  match e with
  | ConnectionStatusChanged (Some state) => state = connected ∧ socket_connected s = true
  | ConnectError _ _ _ | ReconnectAttempt => socket_connected s = false
  | _ => True
  end.
Fixpoint honest_run (s : ChatSocketService) (events : list ServiceEvent) : Prop :=
  match events with
  | [] => True
  | e :: events => honest s e ∧ honest_run (service_step s e) events
  end.

Record service_ok (s : ChatSocketService) : Prop := {
  sv_state : cs_connectionState s = connected ↔ socket_connected s = true;
  sv_socket k : cs_socket s = Some k → sk_id k = cs_sockets s;
  sv_calls id c : cs_calls s !! id = Some c → (id < cs_next s)%nat ∧ (sc_socket c <= cs_sockets s)%nat;
  sv_waiting id c : cs_calls s !! id = Some c → sc_state c = WaitingForConnection →
    socket_connected s = true → sc_socket c ≠ cs_sockets s;
}.

(** The part of the state that the invariant is about. *)
Definition core (s : ChatSocketService) :=
  (cs_socket s, cs_connectionState s, cs_sockets s, cs_next s, cs_calls s).

Lemma service_ok_core s s' : core s' = core s → service_ok s → service_ok s'.
Proof.
  intros E [S1 S2 S3 S4]. injection E as E1 E2 E3 E4 E5.
  split; unfold socket_connected in *; rewrite ?E1, ?E2, ?E3, ?E4, ?E5; assumption.
Qed.

Lemma service_ok_emit e s : service_ok s → service_ok (emitWithAck e s).
Proof.
  intros [S1 S2 S3 S4]. unfold emitWithAck. destruct (cs_socket s) as [k|] eqn:Es.
  - specialize (S2 k eq_refl) as Hk. destruct (sk_connected k) eqn:Ek.
    + split; unfold socket_connected in *; cbn; rewrite ?Es in *; try done.
      * intros id c [[<- <-]|[_ Hc]]%lookup_insert_Some; cbn; [lia|]. apply S3 in Hc. lia.
      * intros id c [[_ <-]|[_ Hc]]%lookup_insert_Some; [done|by eapply S4].
    + destruct (sk_active k); split; unfold socket_connected in *; cbn; rewrite ?Es, ?Ek in *; try done.
      all: try (intros k' [= <-]; done).
      all: intros id c [[<- <-]|[_ Hc]]%lookup_insert_Some; cbn; [lia|]; apply S3 in Hc; lia.
  - split; unfold socket_connected in *; cbn; rewrite ?Es in *; try done.
    intros id c [[<- <-]|[_ Hc]]%lookup_insert_Some; cbn; [lia|]. apply S3 in Hc. lia.
Qed.

Lemma service_ok_call e s : service_ok s → service_ok (call e s).
Proof.
  intros Hs. unfold call. destruct e; try (by apply service_ok_emit);
    apply service_ok_emit; [by apply (service_ok_core s)|]. case_match; [by apply (service_ok_core s)|done].
Qed.

(** Changing the states of calls, none back to waiting for the connection. *)
Lemma service_ok_calls f wire s :
  (∀ c, sc_socket (f c) = sc_socket c ∧
        (sc_state (f c) = WaitingForConnection → sc_state c = WaitingForConnection)) →
  service_ok s → service_ok (with_calls (f <$> cs_calls s) wire s).
Proof.
  intros Hf [S1 S2 S3 S4]. split; cbn; try done.
  - intros id c. rewrite lookup_fmap. intros (c0 & Hc & ->)%fmap_Some.
    destruct (Hf c0) as [-> _]. by apply S3.
  - intros id c. rewrite lookup_fmap. intros (c0 & Hc & ->)%fmap_Some Hw.
    destruct (Hf c0) as [-> Hf']. by apply (S4 id c0 Hc), Hf'.
Qed.

Lemma service_ok_settle id st s :
  st ≠ WaitingForConnection → service_ok s → service_ok (settle_call id st s).
Proof.
  intros Hst [S1 S2 S3 S4]. split; cbn; try done.
  - intros i c. rewrite lookup_alter. case_decide; [subst i|apply S3].
    intros (c0 & Hc & ->)%fmap_Some. apply S3 in Hc. exact Hc.
  - intros i c. rewrite lookup_alter. case_decide; [|apply S4].
    intros (c0 & Hc & ->)%fmap_Some. done.
Qed.

(** The service's socket changes its state, and the page is told so. *)
Lemma service_ok_socket k connected' active state s :
  service_ok s → cs_socket s = Some k → (state = connected ↔ connected' = true) →
  (connected' = true → ∀ id c, cs_calls s !! id = Some c → sc_state c = WaitingForConnection →
     sc_socket c ≠ cs_sockets s) →
  service_ok (setConnectionState state (with_socket (Some (mkSocket (sk_id k) connected' active)) s)).
Proof.
  intros [S1 S2 S3 S4] Hk Hst Hw. split; unfold socket_connected in *; cbn; try done.
  - intros k' [= <-]. cbn. by apply S2.
  - intros id c Hc Hcw Hconn. by eapply Hw.
Qed.

Lemma service_ok_on_connect k s : service_ok s → cs_socket s = Some k → service_ok (on_connect k s).
Proof.
  intros Hs Hk. pose proof (sv_socket _ Hs k Hk) as Hid. unfold on_connect.
  set (s1 := setConnectionState _ _).
  (* until the calls that wait are released, only they break the invariant *)
  assert (∀ s', cs_sockets s' = cs_sockets s → cs_connectionState s' = connected →
    (∃ k', cs_socket s' = Some k' ∧ sk_id k' = sk_id k ∧ sk_connected k' = true) →
    (∀ id c, cs_calls s' !! id = Some c → (id < cs_next s')%nat ∧ (sc_socket c <= cs_sockets s')%nat) →
    service_ok (release_waiting (sk_id k) s')) as Hrel.
  { intros s' Hn Hst (k' & Hk' & Hkid & Hkc) Hc.
    split; unfold socket_connected; cbn; rewrite ?Hk', ?Hst, ?Hkc; try done.
    - intros k0 [= <-]. by rewrite Hkid, Hid, Hn.
    - intros id c. rewrite lookup_fmap. intros (c0 & Hc0 & ->)%fmap_Some. apply Hc in Hc0.
      by destruct (waiting_on (sk_id k) c0).
    - intros id c. rewrite lookup_fmap. intros (c0 & Hc0 & ->)%fmap_Some.
      destruct (waiting_on (sk_id k) c0) eqn:Ew; [done|]. intros Hw _ Hsock.
      unfold waiting_on in Ew. rewrite Hw, andb_true_r in Ew. apply bool_decide_eq_false in Ew.
      apply Ew. by rewrite Hsock, Hn, Hid. }
  assert (∀ id c, cs_calls s1 !! id = Some c → (id < cs_next s1)%nat ∧ (sc_socket c <= cs_sockets s1)%nat)
    as Hc1 by apply (sv_calls _ Hs).
  assert (∃ k', cs_socket s1 = Some k' ∧ sk_id k' = sk_id k ∧ sk_connected k' = true) as Hk1
    by (eexists; done).
  destruct (cs_activeConversationId s1) as [c|]; [|by apply Hrel].
  destruct (truthy c); [|by apply Hrel]. apply Hrel; try done.
  intros id c0. cbn. intros [[<- <-]|[_ Hc]]%lookup_insert_Some; cbn; [lia|].
  apply (sv_calls _ Hs) in Hc. lia.
Qed.

Lemma call_listeners_core n s : core (call_listeners n s) = core s.
Proof. done. Qed.

Lemma service_ok_connect s : service_ok s → service_ok (connect s).
Proof.
  intros Hs. unfold connect. destruct (cs_socket s) as [k|] eqn:Ek.
  - destruct (sk_connected k) eqn:Ec; [done|]. destruct Hs as [S1 S2 S3 S4].
    split; unfold socket_connected in *; cbn; rewrite ?Ek, ?Ec in *; try done.
    intros k' [= <-]. exact (S2 k eq_refl).
  - destruct Hs as [S1 S2 S3 S4]. split; unfold socket_connected in *; cbn; try done.
    + by intros k' [= <-].
    + intros id c Hc. apply S3 in Hc. lia.
Qed.

Lemma service_ok_step e s : honest s e → service_ok s → service_ok (service_step s e).
Proof.
  intros He Hs. destruct e; cbn [service_step].
  - by apply service_ok_connect.
  - destruct Hs as [S1 S2 S3 S4]. by split.
  - apply (service_ok_core s); [|done]. unfold subscribe. by repeat case_match.
  - by apply (service_ok_core s).
  - by apply service_ok_call.
  - destruct (cs_socket s) as [k|] eqn:Ek; [by apply service_ok_on_connect|done].
  - destruct (cs_socket s) as [k|] eqn:Ek; [|done]. unfold on_disconnect, reject_waiting.
    apply service_ok_calls; [intros c; by destruct (waiting_on _ c)|]. by apply service_ok_socket.
  - destruct (cs_socket s) as [k|] eqn:Ek; [|done]. cbn in He. destruct Hs as [S1 S2 S3 S4].
    split; unfold socket_connected in *; cbn; rewrite ?Ek in *; try done. by rewrite He.
  - destruct (cs_socket s) as [k|] eqn:Ek; [|done]. unfold on_connect_error, reject_waiting.
    apply service_ok_calls; [intros c; by destruct (waiting_on _ c)|].
    eapply service_ok_core; [apply call_listeners_core|]. apply service_ok_socket; try done.
    by destruct active.
  - destruct (cs_socket s) as [k|] eqn:Ek; [|done]. destruct state as [state|]; [|done].
    destruct He as [-> He]. destruct Hs as [S1 S2 S3 S4].
    split; unfold socket_connected in *; cbn; rewrite ?Ek in *; done.
  - destruct (cs_socket s) as [k|] eqn:Ek; [|done]. by apply (service_ok_core s).
  - repeat case_match; try done; by apply service_ok_settle.
  - repeat case_match; try done; apply service_ok_settle; try done. by apply (service_ok_core s).
Qed.

Lemma service_ok_serve s events : service_ok s → honest_run s events → service_ok (foldl service_step s events).
Proof.
  revert s. induction events as [|e events IH]; intros s Hs He; [done|]. cbn.
  destruct He as [He Hr]. apply IH; [|done]. by apply service_ok_step.
Qed.

Lemma service_ok_new : service_ok new_service.
Proof. by split. Qed.

(** ** What goes on the wire at a reconnection *)

Lemma seq_S_end n : seq 0 (S n) = seq 0 n ++ [n].
Proof. by rewrite seq_S. Qed.

Lemma waiting_emissions_sent k s e :
  cs_calls s !! cs_next s = None → (∀ id c, cs_calls s !! id = Some c → (id < cs_next s)%nat) →
  waiting_emissions k (new_call (mkSocketCall k e WaitingForAck) [(k, e)] s) = waiting_emissions k s.
Proof.
  intros Hn Hlt. unfold waiting_emissions. cbn [cs_next new_call]. rewrite seq_S_end, omap_app.
  replace (omap _ [cs_next s]) with (@nil (nat * Emission)).
  - rewrite app_nil_r. apply list_omap_ext. apply Forall2_same_length_lookup_2; [done|].
    intros i x y Hx Hy. assert (x = y) as <- by congruence.
    assert (x ≠ cs_next s).
    { apply list_elem_of_lookup_2 in Hx. apply elem_of_seq in Hx. lia. }
    cbn. by rewrite lookup_insert_ne.
  - cbn. rewrite lookup_insert_eq. cbn. unfold waiting_on. cbn. by rewrite andb_false_r.
Qed.

(** Numbers of calls are fresh. *)
Definition calls_fresh (s : ChatSocketService) : Prop :=
  ∀ id c, cs_calls s !! id = Some c → (id < cs_next s)%nat.

Lemma calls_fresh_new c wire s : calls_fresh s → calls_fresh (new_call c wire s).
Proof.
  intros Hs id c0. cbn. intros [[<- <-]|[_ Hc]]%lookup_insert_Some; [lia|]. apply Hs in Hc. lia.
Qed.

Lemma calls_fresh_emit e s : calls_fresh s → calls_fresh (emitWithAck e s).
Proof.
  intros Hs. unfold emitWithAck. repeat case_match; by apply calls_fresh_new.
Qed.

Lemma calls_fresh_call e s : calls_fresh s → calls_fresh (call e s).
Proof. intros Hs. unfold call. destruct e; try by apply calls_fresh_emit. apply calls_fresh_emit. by case_match. Qed.

Lemma calls_fresh_map (f : SocketCall → SocketCall) wire s :
  calls_fresh s → calls_fresh (with_calls (f <$> cs_calls s) wire s).
Proof. intros Hs id c. cbn. rewrite lookup_fmap. intros (c0 & Hc & _)%fmap_Some. by eapply Hs. Qed.

Lemma calls_fresh_settle id st s : calls_fresh s → calls_fresh (settle_call id st s).
Proof.
  intros Hs i c. cbn. rewrite lookup_alter. case_decide; [subst i|apply Hs].
  intros (c0 & Hc & _)%fmap_Some. by eapply Hs.
Qed.

Lemma calls_fresh_step e s : calls_fresh s → calls_fresh (service_step s e).
Proof.
  intros Hs. destruct e; cbn [service_step]; try exact Hs.
  - unfold connect. by repeat case_match.
  - unfold subscribe. by repeat case_match.
  - by apply calls_fresh_call.
  - destruct (cs_socket s); [|done]. unfold on_connect, release_waiting. apply calls_fresh_map.
    repeat case_match; try done. by apply calls_fresh_call.
  - destruct (cs_socket s); [|done]. by apply calls_fresh_map.
  - by case_match.
  - destruct (cs_socket s); [|done]. by apply calls_fresh_map.
  - by repeat case_match.
  - by case_match.
  - repeat case_match; try done; by apply calls_fresh_settle.
  - repeat case_match; try done; by apply calls_fresh_settle.
Qed.

Lemma calls_fresh_serve events : calls_fresh (serve events).
Proof.
  unfold serve. induction events as [|e events IH] using rev_ind.
  - intros id c. cbn. by rewrite lookup_empty.
  - rewrite foldl_snoc. by apply calls_fresh_step.
Qed.

(** What goes on the wire when the socket connects. *)
Lemma connect_wire s k :
  calls_fresh s → cs_socket s = Some k →
  cs_wire (service_step s SocketConnect) =
    cs_wire s ++
    (match cs_activeConversationId s with
     | Some c => if truthy c then [(sk_id k, join_conversation c)] else []
     | None => []
     end) ++ waiting_emissions (sk_id k) s.
Proof.
  intros Hf Hk. cbn [service_step]. rewrite Hk. unfold on_connect. set (s1 := setConnectionState _ _).
  change (cs_activeConversationId s) with (cs_activeConversationId s1).
  change (waiting_emissions (sk_id k) s) with (waiting_emissions (sk_id k) s1).
  change (cs_wire s) with (cs_wire s1). change (calls_fresh s) with (calls_fresh s1) in Hf.
  assert (cs_socket s1 = Some (mkSocket (sk_id k) true true)) as Hk1 by done.
  clearbody s1. clear s Hk.
  destruct (cs_activeConversationId s1) as [c|] eqn:Ec; [|done].
  destruct (truthy c); [|done]. unfold call, emitWithAck. cbn [cs_socket with_active]. rewrite Hk1.
  cbn [sk_connected sk_id]. unfold release_waiting at 1. cbn [cs_wire with_calls].
  set (s2 := with_active (Some c) s1).
  change (waiting_emissions (sk_id k) s1) with (waiting_emissions (sk_id k) s2).
  rewrite waiting_emissions_sent.
  - cbn. by rewrite <-app_assoc.
  - apply eq_None_not_Some. intros [c0 Hc]. apply Hf in Hc. cbn in Hc. lia.
  - exact Hf.
Qed.

(** The calls that wait for socket [k], with their numbers. *)
Definition waiting_calls_of (k : nat) (calls : gmap nat SocketCall) (ids : list nat)
    : list (nat * Emission) :=
  omap (λ id, c ← calls !! id; if waiting_on k c then Some (id, sc_emission c) else None) ids.
Definition waiting_calls (k : nat) (s : ChatSocketService) : list (nat * Emission) :=
  waiting_calls_of k (cs_calls s) (seq 0 (cs_next s)).

Lemma waiting_calls_emissions k s : waiting_emissions k s = (λ x, (k, x.2)) <$> waiting_calls k s.
Proof.
  unfold waiting_emissions, waiting_calls, waiting_calls_of.
  induction (seq 0 (cs_next s)) as [|id ids IH]; [done|]. cbn. rewrite IH.
  destruct (cs_calls s !! id) as [c|]; [|done]. cbn. by destruct (waiting_on k c).
Qed.

(** Only the calls that wait matter. *)
Lemma waiting_calls_of_ext k calls calls' ids :
  (∀ id, id ∈ ids → calls' !! id = calls !! id) →
  waiting_calls_of k calls' ids = waiting_calls_of k calls ids.
Proof.
  intros E. unfold waiting_calls_of. induction ids as [|id ids IH]; [done|]. cbn.
  rewrite (E id) by left. rewrite IH; [done|]. intros id' Hin. apply E. by right.
Qed.

(** A call that waits is the last of those that wait. *)
Lemma waiting_calls_called k e s :
  waiting_calls k (new_call (mkSocketCall k e WaitingForConnection) [] s)
  = waiting_calls k s ++ [(cs_next s, e)].
Proof.
  unfold waiting_calls, waiting_calls_of. cbn [cs_next new_call]. rewrite seq_S_end, omap_app. f_equal.
  - apply waiting_calls_of_ext. intros id Hid%elem_of_seq. cbn. rewrite lookup_insert_ne by lia. done.
  - cbn. rewrite lookup_insert_eq. cbn. unfold waiting_on. cbn. by rewrite bool_decide_eq_true_2.
Qed.

(** When those that wait are refused, none does; when one is timed out, it does not. *)
Lemma waiting_calls_rejected k error s : waiting_calls k (reject_waiting k error s) = [].
Proof.
  unfold waiting_calls. generalize (seq 0 (cs_next (reject_waiting k error s))). intros ids.
  unfold waiting_calls_of. induction ids as [|id ids IH]; [done|]. cbn -[reject_waiting]. rewrite IH.
  cbn. rewrite lookup_fmap. destruct (cs_calls s !! id) as [c|]; [|done]. cbn.
  destruct (waiting_on k c) eqn:E; [|by rewrite E]. unfold waiting_on. cbn. by rewrite andb_false_r.
Qed.

Lemma waiting_calls_timeout k id s :
  waiting_calls k (service_step s (CallTimeout id)) = filter (λ x, x.1 ≠ id) (waiting_calls k s).
Proof.
  assert (∀ st, st ≠ WaitingForConnection →
    waiting_calls k (settle_call id st s) = filter (λ x, x.1 ≠ id) (waiting_calls k s)) as Hset.
  { intros st Hst. unfold waiting_calls, waiting_calls_of. cbn [cs_next cs_calls settle_call with_calls].
    induction (seq 0 (cs_next s)) as [|i ids IH]; [done|]. cbn. rewrite lookup_alter.
    destruct (decide (id = i)) as [->|Hne].
    - destruct (cs_calls s !! i) as [c|]; [|done]. cbn. unfold waiting_on at 1. cbn.
      replace (match st with WaitingForConnection => true | _ => false end) with false by by destruct st.
      rewrite andb_false_r. destruct (waiting_on k c); [|done].
      rewrite filter_cons_False by (cbn; tauto). done.
    - destruct (cs_calls s !! i) as [c|]; [|done]. cbn. destruct (waiting_on k c); [|done].
      rewrite filter_cons_True by done. by rewrite IH. }
  assert (sc_state <$> cs_calls s !! id ≠ Some WaitingForConnection →
    waiting_calls k s = filter (λ x, x.1 ≠ id) (waiting_calls k s)) as Hnot.
  { intros Hn. unfold waiting_calls, waiting_calls_of.
    induction (seq 0 (cs_next s)) as [|i ids IH]; [done|]. cbn.
    destruct (cs_calls s !! i) as [c|] eqn:Ec; [|done]. cbn. destruct (waiting_on k c) eqn:Ew; [|done].
    rewrite filter_cons_True; [by rewrite <-IH|]. cbn. intros ->. apply Hn. rewrite Ec. cbn.
    unfold waiting_on in Ew. apply andb_true_iff in Ew as [_ Ew]. by destruct (sc_state c). }
  cbn [service_step]. destruct (sc_state <$> cs_calls s !! id) as [[]|] eqn:E;
    solve [by apply Hset | by apply Hnot].
Qed.

(** C24: Reconnection.  Whatever the page and the network did before, when the socket connects
    the first thing it asks is to join the conversation that the page joined last and has
    neither left nor given up since, and nothing if there is none; then the calls that
    waited for the connection go out, oldest first, each once. *)
Theorem rejoins_open_conversation events k :
  cs_socket (serve events) = Some k →
  let s := serve events in
  cs_wire (service_step s SocketConnect) =
    cs_wire s ++
    (match wanted events with
     | Some c => if truthy c then [(sk_id k, join_conversation c)] else []
     | None => []
     end) ++ waiting_emissions (sk_id k) s.
Proof.
  intros Hk s. unfold s. rewrite <-active_wanted. by apply connect_wire; [apply calls_fresh_serve|].
Qed.

(** ** Every call ends *)

Definition call_settled (c : SocketCall) : Prop :=
  sc_state c ≠ WaitingForConnection ∧ sc_state c ≠ WaitingForAck.

(** What an event may do to a call that was made before it. *)
Definition call_kept (s s' : ChatSocketService) : Prop :=
  ∀ id c, cs_calls s !! id = Some c → call_settled c → cs_calls s' !! id = Some c.

Lemma call_kept_new c wire s s0 :
  calls_fresh s → cs_calls s0 = cs_calls s → call_kept s0 (new_call c wire s).
Proof.
  intros Hf E id c0 Hc Hset. rewrite E in Hc. cbn. rewrite lookup_insert_ne; [done|].
  apply Hf in Hc. lia.
Qed.

Lemma call_kept_call e s : calls_fresh s → call_kept s (call e s).
Proof.
  intros Hf. unfold call, emitWithAck. repeat case_match; (apply call_kept_new; [exact Hf|done]).
Qed.

Lemma call_kept_map st k wire s :
  call_kept s (with_calls ((λ c, if waiting_on k c then set_call_state st c else c) <$> cs_calls s) wire s).
Proof.
  intros id c Hc [Hw _]. cbn. rewrite lookup_fmap, Hc. cbn. unfold waiting_on.
  destruct (sc_state c); try done; by rewrite ?andb_false_r.
Qed.

Lemma call_kept_settle id st s :
  (sc_state <$> cs_calls s !! id = Some WaitingForConnection ∨
   sc_state <$> cs_calls s !! id = Some WaitingForAck) →
  call_kept s (settle_call id st s).
Proof.
  intros Hw i c Hc [H1 H2]. cbn. rewrite lookup_alter. case_decide; [|done]. subst i.
  rewrite Hc in Hw. cbn in Hw. destruct Hw; congruence.
Qed.

Lemma call_kept_trans s1 s2 s3 : call_kept s1 s2 → call_kept s2 s3 → call_kept s1 s3.
Proof. intros H1 H2 id c Hc Hset. auto. Qed.

Lemma call_kept_same s s' : cs_calls s' = cs_calls s → call_kept s s'.
Proof. intros E id c Hc _. by rewrite E. Qed.

Lemma call_kept_step e s : calls_fresh s → call_kept s (service_step s e).
Proof.
  intros Hf. destruct e; cbn [service_step]; try (by apply call_kept_same).
  - apply call_kept_same. unfold connect. by repeat case_match.
  - apply call_kept_same. unfold subscribe. by repeat case_match.
  - by apply call_kept_call.
  - destruct (cs_socket s) as [k|]; [|by apply call_kept_same]. unfold on_connect, release_waiting.
    eapply call_kept_trans; [|apply call_kept_map]. set (s1 := setConnectionState _ _).
    apply (call_kept_trans s s1); [by apply call_kept_same|].
    repeat case_match; try (by apply call_kept_same). by apply call_kept_call.
  - destruct (cs_socket s); [|by apply call_kept_same]. exact (call_kept_map _ _ _ (setConnectionState _ (with_socket _ s))).
  - apply call_kept_same. by case_match.
  - destruct (cs_socket s); [|by apply call_kept_same]. exact (call_kept_map _ _ _ (emitError _ (setConnectionState _ (with_socket _ s)))).
  - apply call_kept_same. by repeat case_match.
  - apply call_kept_same. by case_match.
  - destruct (sc_state <$> cs_calls s !! id) as [[]|] eqn:E; try (by apply call_kept_same);
      apply call_kept_settle; rewrite E; auto.
  - destruct (sc_state <$> cs_calls s !! id) as [[]|] eqn:E; try (by apply call_kept_same).
    destruct error; [apply (call_kept_settle _ _ (emitError _ s))|apply call_kept_settle];
      cbn; rewrite E; auto.
Qed.

Lemma timeout_settles id s c :
  cs_calls (service_step s (CallTimeout id)) !! id = Some c → call_settled c.
Proof.
  cbn [service_step]. destruct (cs_calls s !! id) as [c0|] eqn:Ec; cbn.
  - destruct (sc_state c0) eqn:Es; cbn; rewrite ?lookup_alter_eq, Ec; cbn; intros [= <-];
      split; cbn; congruence.
  - by rewrite Ec.
Qed.

(** Every call of the page ends: once settled, with a value or an error, it stays so whatever
    happens, and each that is not is settled by its own timer, which nothing cancels
    before that. *)
Theorem socket_calls_end events more :
  let s := serve events in
  (∀ id c, cs_calls s !! id = Some c → call_settled c →
     cs_calls (serve (events ++ more)) !! id = Some c) ∧
  (∀ id c, cs_calls (foldl service_step s (map CallTimeout (seq 0 (cs_next s)))) !! id = Some c →
     (id < cs_next s)%nat → call_settled c).
Proof.
  intros s. split.
  - unfold s, serve. rewrite foldl_app. fold (serve events).
    induction more as [|e more IH] using rev_ind; [done|]. intros id c Hc Hset. rewrite foldl_snoc.
    apply call_kept_step; [|by apply IH|done].
    pose proof (calls_fresh_serve (events ++ more)) as Hf. unfold serve in Hf. by rewrite foldl_app in Hf.
  - intros id c Hc Hid. revert Hc.
    assert (seq 0 (cs_next s) = seq 0 id ++ id :: seq (S id) (cs_next s - S id)) as ->.
    { replace (cs_next s) with (id + S (cs_next s - S id))%nat at 1 by lia. by rewrite seq_app. }
    rewrite map_app, foldl_app. cbn [map foldl].
    set (s1 := foldl service_step s (map CallTimeout (seq 0 id))).
    assert (calls_fresh (service_step s1 (CallTimeout id))) as Hf.
    { apply calls_fresh_step. unfold s1, s. generalize (seq 0 id). intros ids.
      pose proof (calls_fresh_serve (events ++ map CallTimeout ids)) as Hf. unfold serve in Hf.
      by rewrite foldl_app in Hf. }
    pose proof (timeout_settles id s1) as Hset. revert Hf Hset.
    generalize (service_step s1 (CallTimeout id)). generalize (seq (S id) (cs_next s - S id)).
    intros ids. induction ids as [|i ids IH]; intros s2 Hf Hset Hc; [by apply Hset|].
    cbn [map foldl] in Hc. apply (IH (service_step s2 (CallTimeout i))).
    + by apply calls_fresh_step.
    + intros c0 Hc0. destruct (cs_calls s2 !! id) as [c2|] eqn:E2.
      * specialize (Hset c2 eq_refl). rewrite (call_kept_step (CallTimeout i) s2 Hf id c2 E2 Hset) in Hc0.
        by injection Hc0 as <-.
      * cbn [service_step] in Hc0. exfalso.
        assert (cs_calls s2 !! id = None → cs_calls (service_step s2 (CallTimeout i)) !! id = None) as Hn.
        { intros _. cbn [service_step]. destruct (decide (i = id)) as [->|]; [by rewrite E2|].
          destruct (sc_state <$> cs_calls s2 !! i) as [[]|]; try done; cbn;
            by rewrite lookup_alter_ne. }
        cbn [service_step] in Hn. rewrite (Hn E2) in Hc0. done.
    + exact Hc.
Qed.

(** The page is told that it is connected exactly while the socket is, and no call waits for
    a socket that is connected. *)
Theorem connection_agrees events :
  honest_run new_service events →
  let s := serve events in
  (cs_connectionState s = connected ↔ socket_connected s = true) ∧
  (∀ id c, cs_calls s !! id = Some c → sc_state c = WaitingForConnection →
     socket_connected s = true → sc_socket c ≠ cs_sockets s).
Proof.
  intros He s. assert (service_ok s) as Hs by (apply service_ok_serve; [apply service_ok_new|done]).
  split; [apply Hs|]. intros id c. apply (sv_waiting _ Hs).
Qed.

(** ** At concrete inputs: the connection drops while a conversation is open *)

Definition demo_service : list ServiceEvent :=
  [ConnectCalled; SocketConnect; Called (join_conversation (js "B"));
   Called (leave_conversation (js "B")); Called (join_conversation (js "A"));
   SocketDisconnect true; ReconnectAttempt; Called (mark_conversation_read (js "A"))].

Lemma rejoins_open_conversation_witness :
  skipn 3 (cs_wire (service_step (serve demo_service) SocketConnect))
  = [(1%nat, join_conversation (js "A")); (1%nat, mark_conversation_read (js "A"))].
Proof.
  rewrite (rejoins_open_conversation demo_service (mkSocket 1 false true)).
  - vm_compute. reflexivity.
  - vm_compute. reflexivity.
Defined.

Lemma connection_agrees_witness :
  honest_run new_service demo_service ∧
  (cs_connectionState (serve demo_service) = connected ↔
     socket_connected (serve demo_service) = true) ∧
  cs_connectionState (serve demo_service) = reconnecting.
Proof.
  assert (honest_run new_service demo_service) as He by (vm_compute; tauto).
  split; [exact He|]. split; [exact (proj1 (connection_agrees demo_service He))|].
  vm_compute. reflexivity.
Defined.
