(* ===== verification/AiSocket.v ===== *)
(** * The assistant's socket

    [frontend/src/services/ai.service.ts]: a second connection of the chat page, for the
    suggestions and the errors of the assistant.  As in [SocketClient], what socket.io does
    by itself comes as events; here the token that each connection presents is part of the
    state, since the service sets it in two ways. *)

From S2P Require Import Prelude JsText View.
Open Scope Z_scope.

(** ** Data *)

(** [socket.auth]: a function that reads the token when a connection is made, or an object
    with the token in it. *)
Inductive SocketAuth := AskToken | FixedToken (token : option jsstring).

Record AiSocket := mkAiSocket {
  ai_connected : bool;
  ai_auth : SocketAuth;
}.

Record AiError := mkAiError {
  ae_code : jsstring;
  ae_message : jsstring;
  ae_conversationId : option jsstring;
}.

(** A call of [getSuggestions]: waiting for its acknowledgement, or settled. *)
Inductive SuggestionsCall :=
  | Waiting
  | Answered (suggestions : list jsstring)
  | Refused (error : AiError)
  | TimedOut.

Inductive AiNotice :=
  | ModerationNotice (conversationId : jsstring) (result : MessageModerationResult)
  | ErrorNotice (error : AiError).
Definition is_error (n : AiNotice) : bool :=
  match n with ErrorNotice _ => true | ModerationNotice _ _ => false end.

(** [FrontendAiService], with the tokens that its connections have presented, the calls so
    far with what they have put on the wire, and what the listeners were called with. *)
Record FrontendAiService := mkAiService {
  as_socket : option AiSocket;
  as_moderationListeners : list nat;
  as_errorListeners : list nat;
  as_presented : list (option jsstring);
  as_calls : list SuggestionsCall;
  as_wire : list jsstring;
  as_notices : list (nat * AiNotice);
}.
Definition new_ai_service : FrontendAiService := mkAiService None [] [] [] [] [] [].

(** [token] is what [getAccessToken] gives when the event happens. *)
Inductive AiEvent :=
  | ConnectCalled (token : option jsstring)
  | DisconnectCalled
  | Subscribed (errors : bool) (listener : nat)
  | Unsubscribed (errors : bool) (listener : nat)
  | GetSuggestions (conversationId : jsstring)
  (* of the socket *)
  | Handshake (token : option jsstring)
  | Connected
  | Disconnected
  | ServerNotice (notice : AiNotice)
  (* of a call *)
  | AckReceived (id : nat) (response : list jsstring + AiError)
  | AckTimeout (id : nat).

Definition with_ai_socket (socket : option AiSocket) (s : FrontendAiService) : FrontendAiService :=
  mkAiService socket (as_moderationListeners s) (as_errorListeners s) (as_presented s)
    (as_calls s) (as_wire s) (as_notices s).
Definition with_calls (calls : list SuggestionsCall) (wire : list jsstring)
    (s : FrontendAiService) : FrontendAiService :=
  mkAiService (as_socket s) (as_moderationListeners s) (as_errorListeners s) (as_presented s)
    calls wire (as_notices s).

(** ** Operations *)

(** [enabled] is [import.meta.env.VITE_AI_ENABLED !== 'false']. *)
Definition connect (enabled : bool) (token : option jsstring) (s : FrontendAiService)
    : FrontendAiService :=
  if negb enabled then s
  else match as_socket s with
       | Some k =>
           if ai_connected k then s
           else with_ai_socket (Some (mkAiSocket false (FixedToken token))) s
       | None => with_ai_socket (Some (mkAiSocket false AskToken)) s
       end.

Definition add_listener (l : nat) (ls : list nat) : list nat :=
  if bool_decide (l ∈ ls) then ls else ls ++ [l].
Definition remove_listener (l : nat) (ls : list nat) : list nat := filter (λ x, x ≠ l) ls.

Definition on_listeners (errors : bool) (f : list nat → list nat) (s : FrontendAiService)
    : FrontendAiService :=
  mkAiService (as_socket s)
    (if errors then as_moderationListeners s else f (as_moderationListeners s))
    (if errors then f (as_errorListeners s) else as_errorListeners s)
    (as_presented s) (as_calls s) (as_wire s) (as_notices s).

Definition getSuggestions (conversationId : jsstring) (s : FrontendAiService) : FrontendAiService :=
  match as_socket s with
  | Some (mkAiSocket true _) => with_calls (as_calls s ++ [Waiting]) (as_wire s ++ [conversationId]) s
  | _ => with_calls (as_calls s ++ [Answered []]) (as_wire s) s
  end.

(** The handshake of a connection. *)
Definition presented (auth : SocketAuth) (token : option jsstring) : option jsstring :=
  match auth with AskToken => token | FixedToken t => t end.

Definition handshake (token : option jsstring) (k : AiSocket) (s : FrontendAiService)
    : FrontendAiService :=
  mkAiService (as_socket s) (as_moderationListeners s) (as_errorListeners s)
    (as_presented s ++ [presented (ai_auth k) token]) (as_calls s) (as_wire s) (as_notices s).

Definition notify_listeners (n : AiNotice) (s : FrontendAiService) : FrontendAiService :=
  mkAiService (as_socket s) (as_moderationListeners s) (as_errorListeners s) (as_presented s)
    (as_calls s) (as_wire s)
    (as_notices s
     ++ map (λ l, (l, n)) (if is_error n then as_errorListeners s else as_moderationListeners s)).

(** A promise settles once. *)
Definition settle (result : SuggestionsCall) (call : SuggestionsCall) : SuggestionsCall :=
  match call with Waiting => result | _ => call end.

Definition ai_step (enabled : bool) (s : FrontendAiService) (e : AiEvent) : FrontendAiService :=
  match e with
  | ConnectCalled token => connect enabled token s
  | DisconnectCalled => with_ai_socket None s
  | Subscribed errors l => on_listeners errors (add_listener l) s
  | Unsubscribed errors l => on_listeners errors (remove_listener l) s
  | GetSuggestions c => getSuggestions c s
  | Handshake token => match as_socket s with Some k => handshake token k s | None => s end
  | Connected =>
      match as_socket s with
      | Some k => with_ai_socket (Some (mkAiSocket true (ai_auth k))) s
      | None => s
      end
  | Disconnected =>
      match as_socket s with
      | Some k => with_ai_socket (Some (mkAiSocket false (ai_auth k))) s
      | None => s
      end
  | ServerNotice n => match as_socket s with Some _ => notify_listeners n s | None => s end
  | AckReceived id response =>
      let result := match response with inl l => Answered l | inr error => Refused error end in
      with_calls (alter (settle result) id (as_calls s)) (as_wire s) s
  | AckTimeout id => with_calls (alter (settle TimedOut) id (as_calls s)) (as_wire s) s
  end.

Definition run_ai (enabled : bool) (s : FrontendAiService) (events : list AiEvent)
    : FrontendAiService :=
  foldl (ai_step enabled) s events.

(** ** What holds *)

Definition reconnects (e : AiEvent) : bool :=
  match e with ConnectCalled _ | DisconnectCalled => true | _ => false end.

(** While the page neither connects nor disconnects, the way of giving the token stays. *)
Lemma auth_kept enabled s events k :
  as_socket s = Some k → forallb (λ e, negb (reconnects e)) events = true →
  ∃ k', as_socket (run_ai enabled s events) = Some k' ∧ ai_auth k' = ai_auth k.
Proof.
  revert s k. induction events as [|e events IH]; intros s k Hk; [by exists k|].
  intros [He Hes]%andb_true_iff.
  assert (∃ k1, as_socket (ai_step enabled s e) = Some k1 ∧ ai_auth k1 = ai_auth k)
    as (k1 & Hk1 & Ha).
  { destruct e; try done; cbn [ai_step]; rewrite ?Hk; try (by exists k).
    - exists k. split; [|done]. unfold getSuggestions. rewrite Hk. by destruct k as [[] ?].
    - by eexists.
    - by eexists. }
  destruct (IH _ k1 Hk1 Hes) as (k' & Hk' & Ha'). exists k'. split; [exact Hk'|]. congruence.
Qed.

(** The tokens that a run presents. *)
Definition handshakes (events : list AiEvent) : list (option jsstring) :=
  omap (λ e, match e with Handshake token => Some token | _ => None end) events.

Lemma presented_run enabled s events k :
  as_socket s = Some k → forallb (λ e, negb (reconnects e)) events = true →
  as_presented (run_ai enabled s events)
  = as_presented s ++ map (presented (ai_auth k)) (handshakes events).
Proof.
  revert s k. induction events as [|e events IH]; intros s k Hk.
  { intros _. cbn. by rewrite app_nil_r. }
  intros [He Hes]%andb_true_iff.
  destruct (auth_kept enabled s [e] k Hk) as (k1 & Hk1 & Ha); [cbn; by rewrite He|].
  cbn [run_ai foldl] in *. change (foldl (ai_step enabled) (ai_step enabled s e) events)
    with (run_ai enabled (ai_step enabled s e) events).
  rewrite (IH _ k1 Hk1 Hes), Ha. destruct e; try done; cbn [ai_step]; rewrite ?Hk; try done.
  - unfold getSuggestions. rewrite Hk. by destruct k as [[] ?].
  - cbn. by rewrite <-app_assoc.
Qed.

(** Which token a connection presents.  The first [connect] makes a socket that reads the
    session's token at every handshake; but a [connect] that finds the socket disconnected
    fixes the token of that moment, and every later reconnection presents that one, however
    often the session's token has been refreshed since. *)
Theorem token_frozen token s events k :
  as_socket s = Some k → ai_connected k = false →
  forallb (λ e, negb (reconnects e)) events = true →
  as_presented (run_ai true s (ConnectCalled token :: events))
  = as_presented s ++ map (λ _, token) (handshakes events).
Proof.
  intros Hk Hc He.
  change (run_ai true s (ConnectCalled token :: events)) with (run_ai true (connect true token s) events).
  assert (connect true token s = with_ai_socket (Some (mkAiSocket false (FixedToken token))) s) as ->.
  { unfold connect. by rewrite Hk, Hc. }
  by rewrite (presented_run true _ events (mkAiSocket false (FixedToken token))).
Qed.

Theorem token_fresh token s events :
  as_socket s = None → forallb (λ e, negb (reconnects e)) events = true →
  as_presented (run_ai true s (ConnectCalled token :: events)) = as_presented s ++ handshakes events.
Proof.
  intros Hk He.
  change (run_ai true s (ConnectCalled token :: events)) with (run_ai true (connect true token s) events).
  assert (connect true token s = with_ai_socket (Some (mkAiSocket false AskToken)) s) as ->
    by (unfold connect; by rewrite Hk).
  rewrite (presented_run true _ events (mkAiSocket false AskToken)) by done. cbn.
  by rewrite map_id.
Qed.

(** ** The calls *)

Definition waiting (call : SuggestionsCall) : bool := match call with Waiting => true | _ => false end.

Lemma settle_alter i r (l : list SuggestionsCall) j c :
  l !! j = Some c → waiting c = false → alter (settle r) i l !! j = Some c.
Proof.
  intros Hj Hw. destruct (decide (i = j)) as [->|Hne].
  - rewrite list_lookup_alter_eq, Hj. by destruct c.
  - by rewrite list_lookup_alter_ne.
Qed.

Lemma connect_calls enabled token s : as_calls (connect enabled token s) = as_calls s.
Proof. unfold connect. by repeat case_match. Qed.

(** A call that has settled keeps its result whatever comes later: an acknowledgement after
    the timeout is ignored. *)
Theorem suggestions_settle_once enabled s events id c :
  as_calls s !! id = Some c → waiting c = false → as_calls (run_ai enabled s events) !! id = Some c.
Proof.
  revert s. induction events as [|e events IH]; intros s Hid Hw; [done|].
  apply IH; [|done]. destruct e; cbn [ai_step].
  all: try (by destruct (as_socket s)); try exact Hid.
  - by rewrite connect_calls.
  - unfold getSuggestions. destruct (as_socket s) as [[[] ?]|]; cbn; by apply lookup_app_l_Some.
  - cbn. by apply settle_alter.
  - cbn. by apply settle_alter.
Qed.

(** With the assistant switched off the service never has a socket, sends nothing, and every
    call is answered at once with no suggestions. *)
Theorem disabled_is_silent events :
  let s := run_ai false new_ai_service events in
  as_socket s = None ∧ as_wire s = [] ∧ as_presented s = [] ∧ as_notices s = [] ∧
  Forall (λ c, c = Answered []) (as_calls s).
Proof.
  induction events as [|e events IH] using rev_ind; [by split_and!|].
  cbv zeta in *. unfold run_ai in *. rewrite foldl_snoc. revert IH.
  generalize (foldl (ai_step false) new_ai_service events). intros s (Hk & Hw & Hp & Hn & Hc).
  destruct e; cbn [ai_step]; rewrite ?Hk; try by split_and!.
  - unfold getSuggestions. rewrite Hk. split_and!; try done. cbn. apply Forall_app. split; [done|].
    by constructor.
  - split_and!; try done. cbn. apply Forall_alter; [done|]. by intros ? _ ->.
  - split_and!; try done. cbn. apply Forall_alter; [done|]. by intros ? _ ->.
Qed.

(** ** At a concrete input *)

Definition demo_disconnected : FrontendAiService :=
  run_ai true new_ai_service
    [ConnectCalled (Some (js "t1")); Handshake (Some (js "t1")); Connected; Disconnected].

Lemma token_frozen_witness :
  as_presented (run_ai true demo_disconnected
    (ConnectCalled (Some (js "t1")) ::
     [Handshake (Some (js "t1")); Connected; Disconnected; Handshake (Some (js "t2"))]))
  = [Some (js "t1"); Some (js "t1"); Some (js "t1")].
Proof.
  rewrite (token_frozen _ demo_disconnected _ (mkAiSocket false AskToken)); reflexivity.
Defined.
