(* ===== verification/Api.v ===== *)
(** * The HTTP contract between the client and the backend

    The functions of [frontend/src/services/chat.service.ts], [auth.service.ts] and
    [chat-attachment.service.ts] as the requests they make, the routes that the decorators
    of [chat.controller.ts] and [auth.controller.ts] declare, and the theorem that every
    request of the client reaches the endpoint it is meant for with its arguments.

    Express's router is a parameter ([Router]); axios and Express agree on the encoding of
    the query and of the JSON body, which are lists of fields here. *)

From S2P Require Import Prelude JsText View Wire Driver Env Store Model Instance Encryption Auth AuthFacts AuthController Chat Attachment Ai Gateway ChatController.
Open Scope Z_scope.

(** ** Requests *)

Inductive Method := GET | POST | DELETE.
#[export] Instance Method_eq_dec : EqDecision Method.
Proof. solve_decision. Defined.

(** The JSON values of the bodies. *)
Inductive Json :=
  | JString (s : jsstring)
  | JNumber (n : number)
  | JStrings (l : list jsstring).

Record HttpRequest := mkHttpRequest {
  hr_method : Method;
  hr_path : jsstring;
  hr_params : list (jsstring * jsstring);
  hr_body : list (jsstring * Json);
  hr_skipAuthRefresh : bool;
}.

(** ** The client *)

Record CreateConversationRequest := mkCreateRequest {
  cr_type : View.ConversationType;
  cr_title : option jsstring;
  cr_participantIds : list jsstring;
}.

(** A call of a function of the services. *)
Inductive ClientCall :=
  | getChatStatus
  | listConversations
  | createConversation (req : CreateConversationRequest)
  | getMessages (conversationId : jsstring) (before : option jsstring) (limit : option nat)
  | addMember (conversationId userId : jsstring)
  | removeMember (conversationId userId : jsstring)
  | leaveConversation (conversationId : jsstring)
  | deleteConversation (conversationId : jsstring)
  | markConversationRead (conversationId : jsstring)
  | searchMessages (conversationId query : jsstring)
  | getMembershipEvents (conversationId : jsstring)
  | getPresignedUploadUrl (input : GeneratePresignedUploadDto)
  | markAttachmentUploaded (conversationId attachmentId : jsstring)
  | confirmAttachment (conversationId attachmentId : jsstring)
  | getAttachmentStatus (attachmentId : jsstring)
  | getPresignedDownloadUrl (attachmentId : jsstring)
  | listConversationAttachments (conversationId : jsstring) (before : option jsstring) (limit : option nat)
  | getCurrentUser
  | registerLocalAccount (payload : RegisterLocalAuthDto)
  | loginLocalAccount (payload : LoginLocalAuthDto)
  | refreshSession
  | logout
  | searchUsers (query : jsstring).

Definition http_get (url : jsstring) (params : list (jsstring * jsstring)) : HttpRequest :=
  mkHttpRequest GET url params [] false.
Definition http_post (url : jsstring) (body : list (jsstring * Json)) : HttpRequest :=
  mkHttpRequest POST url [] body false.
Definition http_delete (url : jsstring) : HttpRequest := mkHttpRequest DELETE url [] [] false.
Definition skipping_refresh (r : HttpRequest) : HttpRequest :=
  mkHttpRequest (hr_method r) (hr_path r) (hr_params r) (hr_body r) true.

(** [`/chat/conversations/${conversationId}…`]. *)
Definition conversation_url (conversationId rest : jsstring) : jsstring :=
  js "/chat/conversations/" ++ conversationId ++ rest.

Definition type_text (t : View.ConversationType) : jsstring :=
  match t with View.direct => js "direct" | View.group => js "group" end.

(** A field whose value is [undefined] is not in the JSON, nor in the query. *)
Definition optional {A B} (k : jsstring) (f : A → B) (v : option A) : list (jsstring * B) :=
  match v with Some a => [(k, f a)] | None => [] end.

(** [if (query?.before) params.before = …; if (query?.limit) params.limit = …]. *)
Definition messages_params (before : option jsstring) (limit : option nat)
    : list (jsstring * jsstring) :=
  optional (js "before") id (given before)
  ++ match limit with Some 0%nat | None => [] | Some n => [(js "limit", show_nat n)] end.

Definition request_getChatStatus : HttpRequest :=
  http_get (js "/chat/status") [].
Definition request_listConversations : HttpRequest :=
  http_get (js "/chat/conversations") [].
Definition request_createConversation (req : CreateConversationRequest) : HttpRequest :=
  http_post (js "/chat/conversations")
    ((js "type", JString (type_text (cr_type req)))
     :: optional (js "title") JString (cr_title req)
     ++ [(js "participantIds", JStrings (cr_participantIds req))]).
Definition request_getMessages (c : jsstring) (before : option jsstring) (limit : option nat) : HttpRequest :=
  http_get (conversation_url c (js "/messages")) (messages_params before limit).
Definition request_addMember (c : jsstring) (u : jsstring) : HttpRequest :=
  http_post (conversation_url c (js "/members")) [(js "userId", JString u)].
Definition request_removeMember (c : jsstring) (u : jsstring) : HttpRequest :=
  http_delete (conversation_url c (js "/members/" ++ u)).
Definition request_leaveConversation (c : jsstring) : HttpRequest :=
  http_post (conversation_url c (js "/leave")) [].
Definition request_deleteConversation (c : jsstring) : HttpRequest :=
  http_delete (conversation_url c []).
Definition request_markConversationRead (c : jsstring) : HttpRequest :=
  http_post (conversation_url c (js "/read")) [(js "conversationId", JString c)].
Definition request_searchMessages (c : jsstring) (q : jsstring) : HttpRequest :=
  http_get (conversation_url c (js "/messages/search")) [(js "q", q)].
Definition request_getMembershipEvents (c : jsstring) : HttpRequest :=
  http_get (conversation_url c (js "/events")) [].
Definition request_getPresignedUploadUrl (input : GeneratePresignedUploadDto) : HttpRequest :=
  http_post (js "/chat/attachments/presigned-upload")
    [(js "conversationId", JString (gp_conversationId input));
     (js "fileName", JString (gp_fileName input));
     (js "mimeType", JString (gp_mimeType input));
     (js "sizeBytes", JNumber (gp_sizeBytes input))].
Definition request_markAttachmentUploaded (c : jsstring) (a : jsstring) : HttpRequest :=
  http_post (conversation_url c (js "/attachments/uploaded")) [(js "attachmentId", JString a)].
Definition request_confirmAttachment (c : jsstring) (a : jsstring) : HttpRequest :=
  http_post (conversation_url c (js "/attachments")) [(js "attachmentId", JString a)].
Definition request_getAttachmentStatus (a : jsstring) : HttpRequest :=
  http_get (js "/chat/attachments/" ++ a ++ js "/status") [].
Definition request_getPresignedDownloadUrl (a : jsstring) : HttpRequest :=
  http_get (js "/chat/attachments/" ++ a ++ js "/download") [].
Definition request_listConversationAttachments (c : jsstring) (before : option jsstring) (limit : option nat) : HttpRequest :=
  http_get (conversation_url c (js "/attachments"))
    (optional (js "before") id before ++ optional (js "limit") show_nat limit).
Definition request_getCurrentUser : HttpRequest :=
  http_get (js "/auth/me") [].
Definition request_registerLocalAccount (p : RegisterLocalAuthDto) : HttpRequest :=
  http_post (js "/auth/register")
    [(js "email", JString (rg_email p)); (js "username", JString (rg_username p));
     (js "displayName", JString (rg_displayName p)); (js "password", JString (rg_password p));
     (js "confirmPassword", JString (rg_confirmPassword p))].
Definition request_loginLocalAccount (p : LoginLocalAuthDto) : HttpRequest :=
  http_post (js "/auth/login")
    [(js "email", JString (lg_email p)); (js "password", JString (lg_password p))].
Definition request_refreshSession : HttpRequest :=
  skipping_refresh (http_post (js "/auth/refresh") []).
Definition request_logout : HttpRequest :=
  skipping_refresh (http_post (js "/auth/logout") []).
Definition request_searchUsers (q : jsstring) : HttpRequest :=
  http_get (js "/auth/users/search") [(js "q", q)].

Definition request_of (call : ClientCall) : HttpRequest :=
  match call with
  | getChatStatus => request_getChatStatus
  | listConversations => request_listConversations
  | createConversation req => request_createConversation req
  | getMessages c before limit => request_getMessages c before limit
  | addMember c u => request_addMember c u
  | removeMember c u => request_removeMember c u
  | leaveConversation c => request_leaveConversation c
  | deleteConversation c => request_deleteConversation c
  | markConversationRead c => request_markConversationRead c
  | searchMessages c q => request_searchMessages c q
  | getMembershipEvents c => request_getMembershipEvents c
  | getPresignedUploadUrl input => request_getPresignedUploadUrl input
  | markAttachmentUploaded c a => request_markAttachmentUploaded c a
  | confirmAttachment c a => request_confirmAttachment c a
  | getAttachmentStatus a => request_getAttachmentStatus a
  | getPresignedDownloadUrl a => request_getPresignedDownloadUrl a
  | listConversationAttachments c before limit => request_listConversationAttachments c before limit
  | getCurrentUser => request_getCurrentUser
  | registerLocalAccount p => request_registerLocalAccount p
  | loginLocalAccount p => request_loginLocalAccount p
  | refreshSession => request_refreshSession
  | logout => request_logout
  | searchUsers q => request_searchUsers q
  end.

(** The request as it leaves: [baseURL] before the path. *)
Definition sent_to (base : jsstring) (r : HttpRequest) : HttpRequest :=
  mkHttpRequest (hr_method r) (base ++ hr_path r) (hr_params r) (hr_body r) (hr_skipAuthRefresh r).

(** ** The router *)

Definition Params := list (jsstring * jsstring).

(** [route_match pattern path]: the parameters that Express finds, if the pattern matches. *)
Class Router := route_match : jsstring → jsstring → option Params.

(** Characters that no URL encodes and that mean nothing in a path. *)
Definition url_unit (u : Z) : bool :=
  (48 <=? u) && (u <=? 57) || (65 <=? u) && (u <=? 90) || (97 <=? u) && (u <=? 122)
  || (u =? 45) || (u =? 95).
Definition url_word (s : jsstring) : bool := truthy s && forallb url_unit s.

Definition path_of (segments : list jsstring) : jsstring := flat_map (λ s, 47 :: s) segments.

Definition lower_word (s : jsstring) : jsstring :=
  (λ u, if (65 <=? u) && (u <=? 90) then u + 32 else u) <$> s.

(** [:name]. *)
Definition param_name (p : jsstring) : option jsstring :=
  match p with u :: name => if u =? 58 then Some name else None | [] => None end.

(** Segment by segment: [:name] binds, anything else is compared without case. *)
Fixpoint match_segments (pattern segments : list jsstring) : option Params :=
  match pattern, segments with
  | [], [] => Some []
  | p :: pattern, s :: segments =>
      match param_name p with
      | Some name => cons (name, s) <$> match_segments pattern segments
      | None =>
          if bool_decide (lower_word p = lower_word s) then match_segments pattern segments
          else None
      end
  | _, _ => None
  end.

Definition pattern_segments (pattern : jsstring) : list jsstring :=
  filter (λ s, truthy s = true) (split_on 47 pattern).

(** What Express documents, for the paths that need no decoding. *)
Class RouterLaws `{Router} : Prop := {
  route_match_words pattern segments :
    forallb url_word segments = true →
    route_match pattern (path_of segments)
    = match_segments (pattern_segments pattern) segments;
}.

(** ** The routes *)

(** The [data] of a response. *)
Inductive Response :=
  | RStatus (status : jsstring * jsstring)
  | RChatStatus (status : jsstring * jsstring * SessionUser)
  | RConversations (l : list ConversationSummary)
  | RConversation (c : doc Conversation)
  | RMessages (l : list ChatMessagePayload)
  | RHits (l : list MessageSearchPayload)
  | RAlreadyMember (alreadyMember : bool)
  | RDone
  | RRead (r : MarkConversationReadPayload)
  | RUpload (u : PresignedUpload)
  | RAttachment (a : ChatAttachmentPayload)
  | RAttachmentState (s : AttachmentState)
  | RMessage (m : RealtimeMessagePayload)
  | RDownload (d : PresignedDownload)
  | RAttachmentPage (p : AttachmentPage)
  | REvents (l : list (doc MembershipEvent))
  | RUser (u : SessionUser)
  | RUsers (l : list SessionUser)
  | RSession (s : RefreshSessionResponse).

Definition respond {A} (wrap : A → Response) (m : M World A) : M World Response :=
  a ← m; mret (wrap a).

(** [@Body()]: a body whose fields do not have the types of the DTO has no meaning here. *)
Definition body_string (k : jsstring) (r : HttpRequest) : option jsstring :=
  match field k (hr_body r) with Some (JString s) => Some s | _ => None end.
Definition body_number (k : jsstring) (r : HttpRequest) : option number :=
  match field k (hr_body r) with Some (JNumber n) => Some n | _ => None end.
Definition body_strings (k : jsstring) (r : HttpRequest) : option (list jsstring) :=
  match field k (hr_body r) with Some (JStrings l) => Some l | _ => None end.

Definition read_type (s : jsstring) : option ConversationType :=
  if bool_decide (s = js "direct") then Some direct
  else if bool_decide (s = js "group") then Some group else None.

Definition read_create_dto (r : HttpRequest) : option CreateConversationDto :=
  type ← body_string (js "type") r ≫= read_type;
  participantIds ← body_strings (js "participantIds") r;
  Some (mkCreateDto type (body_string (js "title") r) participantIds).
Definition read_upload_dto (r : HttpRequest) : option GeneratePresignedUploadDto :=
  conversationId ← body_string (js "conversationId") r;
  fileName ← body_string (js "fileName") r;
  mimeType ← body_string (js "mimeType") r;
  sizeBytes ← body_number (js "sizeBytes") r;
  Some (mkUploadDto conversationId fileName mimeType sizeBytes).
Definition read_register_dto (r : HttpRequest) : option RegisterLocalAuthDto :=
  email ← body_string (js "email") r;
  username ← body_string (js "username") r;
  displayName ← body_string (js "displayName") r;
  password ← body_string (js "password") r;
  confirmPassword ← body_string (js "confirmPassword") r;
  Some (mkRegisterDto email username displayName password confirmPassword).
Definition read_login_dto (r : HttpRequest) : option LoginLocalAuthDto :=
  email ← body_string (js "email") r;
  password ← body_string (js "password") r;
  Some (mkLoginDto email password).

(** [@Param(k)], which the pattern of the route binds, and [@Query(k)]. *)
Definition param (k : jsstring) (ps : Params) : jsstring := default [] (field k ps).
Definition query (k : jsstring) (r : HttpRequest) : option jsstring := field k (hr_params r).

Record Route := mkRoute {
  rt_method : Method;
  rt_pattern : jsstring;
  rt_handle : Params → HttpRequest → option (M World Response);
}.

Definition getHealth : jsstring * jsstring := (js "ok", js "backend").

Section routes.
Context `{Host} `{Mongo} `{Router}.
(** The cookies, the session and the [Authorization] header of the request. *)
Context (ctx : Request).
#[local] Abbreviation auth := (rq_authorization ctx).
#[local] Abbreviation conversationId ps := (param (js "conversationId") ps).
#[local] Abbreviation attachmentId ps := (param (js "attachmentId") ps).

Definition health_routes : list Route :=
  [mkRoute GET (js "health") (λ _ _, Some (mret (RStatus getHealth)))].

Definition auth_routes : list Route :=
  [mkRoute GET (js "auth/google") (λ _ _, Some (respond (λ _, RDone) startGoogleLogin));
   mkRoute GET (js "auth/google/callback")
     (λ _ _, Some (respond (λ _, RDone) (handleGoogleCallback ctx)));
   mkRoute GET (js "auth/google/failure") (λ _ _, Some (respond (λ _, RDone) handleGoogleFailure));
   mkRoute POST (js "auth/register")
     (λ _ r, (λ dto, respond RSession (registerLocal dto ctx)) <$> read_register_dto r);
   mkRoute POST (js "auth/login")
     (λ _ r, (λ dto, respond RSession (loginLocal dto ctx)) <$> read_login_dto r);
   mkRoute GET (js "auth/me") (λ _ _, Some (respond RUser (AuthController.getCurrentUser auth)));
   mkRoute GET (js "auth/users/search")
     (λ _ r, Some (respond RUsers (search_users auth (query (js "q") r))));
   mkRoute POST (js "auth/refresh") (λ _ _, Some (respond RSession (AuthController.refresh ctx)));
   mkRoute POST (js "auth/logout")
     (λ _ _, Some (respond (λ _, RDone) (AuthController.logout ctx)));
   mkRoute GET (js "auth/status") (λ _ _, Some (mret (RStatus AuthController.getStatus)))].

Definition chat_routes : list Route :=
  [mkRoute GET (js "chat/status") (λ _ _, Some (respond RChatStatus (chat_getStatus auth)));
   mkRoute GET (js "chat/conversations")
     (λ _ _, Some (respond RConversations (api_listConversations auth)));
   mkRoute POST (js "chat/conversations")
     (λ _ r, (λ dto, respond RConversation (api_createConversation auth dto)) <$> read_create_dto r);
   mkRoute GET (js "chat/conversations/:conversationId/messages")
     (λ ps r, Some (respond RMessages (api_getMessages auth (conversationId ps)
       (query (js "before") r) (query (js "limit") r))));
   mkRoute GET (js "chat/conversations/:conversationId/messages/search")
     (λ ps r, Some (respond RHits (api_searchMessages auth (conversationId ps) (query (js "q") r))));
   mkRoute POST (js "chat/conversations/:conversationId/members")
     (λ ps r, (λ u, respond RAlreadyMember (api_addMember auth (conversationId ps) u))
       <$> body_string (js "userId") r);
   mkRoute DELETE (js "chat/conversations/:conversationId/members/:userId")
     (λ ps _, Some (respond (λ _, RDone)
       (api_removeMember auth (conversationId ps) (param (js "userId") ps))));
   mkRoute POST (js "chat/conversations/:conversationId/leave")
     (λ ps _, Some (respond (λ _, RDone) (api_leaveConversation auth (conversationId ps))));
   mkRoute DELETE (js "chat/conversations/:conversationId")
     (λ ps _, Some (respond (λ _, RDone) (api_deleteConversation auth (conversationId ps))));
   mkRoute POST (js "chat/conversations/:conversationId/read")
     (λ ps r, (λ c, respond RRead (api_markConversationRead auth (conversationId ps) c))
       <$> body_string (js "conversationId") r);
   mkRoute POST (js "chat/attachments/presigned-upload")
     (λ _ r, (λ dto, respond RUpload (api_generatePresignedUploadUrl auth dto)) <$> read_upload_dto r);
   mkRoute POST (js "chat/conversations/:conversationId/attachments/uploaded")
     (λ ps r, (λ a, respond RAttachment (api_markAttachmentUploaded auth (conversationId ps) a))
       <$> body_string (js "attachmentId") r);
   mkRoute GET (js "chat/attachments/:attachmentId/status")
     (λ ps _, Some (respond RAttachmentState (api_getAttachmentStatus auth (attachmentId ps))));
   mkRoute POST (js "chat/conversations/:conversationId/attachments")
     (λ ps r, Some (respond RMessage (api_confirmAttachment auth (conversationId ps)
       (body_string (js "attachmentId") r))));
   mkRoute GET (js "chat/attachments/:attachmentId/download")
     (λ ps _, Some (respond RDownload (api_getPresignedDownloadUrl auth (attachmentId ps))));
   mkRoute GET (js "chat/conversations/:conversationId/attachments")
     (λ ps r, Some (respond RAttachmentPage (api_listConversationAttachments auth
       (conversationId ps) (query (js "before") r) (query (js "limit") r))));
   mkRoute GET (js "chat/conversations/:conversationId/events")
     (λ ps _, Some (respond REvents (api_getMembershipEvents auth (conversationId ps))))].

(** The routes in the order in which the modules and their handlers are registered. *)
Definition routes : list Route := health_routes ++ auth_routes ++ chat_routes.

(** [app.setGlobalPrefix(prefix)]. *)
Definition full_pattern (prefix pattern : jsstring) : jsstring := js "/" ++ prefix ++ js "/" ++ pattern.

Fixpoint dispatch (prefix : jsstring) (table : list Route) (r : HttpRequest)
    : option (M World Response) :=
  match table with
  | [] => None
  | route :: table =>
      match (if bool_decide (rt_method route = hr_method r)
             then route_match (full_pattern prefix (rt_pattern route)) (hr_path r) else None) with
      | Some ps => rt_handle route ps r
      | None => dispatch prefix table r
      end
  end.

Definition serve (prefix : jsstring) (r : HttpRequest) : option (M World Response) :=
  dispatch prefix routes r.

(** ** What a call means *)

Definition model_type (t : View.ConversationType) : ConversationType :=
  match t with View.direct => direct | View.group => group end.

(** The endpoint that each function of the client stands for, with its arguments. *)
Definition meant (call : ClientCall) : M World Response :=
  match call with
  | getChatStatus => respond RChatStatus (chat_getStatus auth)
  | listConversations => respond RConversations (api_listConversations auth)
  | createConversation req =>
      respond RConversation (api_createConversation auth
        (mkCreateDto (model_type (cr_type req)) (cr_title req) (cr_participantIds req)))
  | getMessages c before limit =>
      respond RMessages (api_getMessages auth c (given before)
        (show_nat <$> (limit ≫= λ n, if (n =? 0)%nat then None else Some n)))
  | addMember c u => respond RAlreadyMember (api_addMember auth c u)
  | removeMember c u => respond (λ _, RDone) (api_removeMember auth c u)
  | leaveConversation c => respond (λ _, RDone) (api_leaveConversation auth c)
  | deleteConversation c => respond (λ _, RDone) (api_deleteConversation auth c)
  | markConversationRead c => respond RRead (api_markConversationRead auth c c)
  | searchMessages c q => respond RHits (api_searchMessages auth c (Some q))
  | getMembershipEvents c => respond REvents (api_getMembershipEvents auth c)
  | getPresignedUploadUrl input => respond RUpload (api_generatePresignedUploadUrl auth input)
  | markAttachmentUploaded c a => respond RAttachment (api_markAttachmentUploaded auth c a)
  | confirmAttachment c a => respond RMessage (api_confirmAttachment auth c (Some a))
  | getAttachmentStatus a => respond RAttachmentState (api_getAttachmentStatus auth a)
  | getPresignedDownloadUrl a => respond RDownload (api_getPresignedDownloadUrl auth a)
  | listConversationAttachments c before limit =>
      respond RAttachmentPage (api_listConversationAttachments auth c before (show_nat <$> limit))
  | getCurrentUser => respond RUser (AuthController.getCurrentUser auth)
  | registerLocalAccount p => respond RSession (registerLocal p ctx)
  | loginLocalAccount p => respond RSession (loginLocal p ctx)
  | refreshSession => respond RSession (AuthController.refresh ctx)
  | logout => respond (λ _, RDone) (AuthController.logout ctx)
  | searchUsers q => respond RUsers (search_users auth (Some q))
  end.

(** The arguments of a call that go into the path. *)
Definition path_arguments (call : ClientCall) : list jsstring :=
  match call with
  | getMessages c _ _ | addMember c _ | leaveConversation c | deleteConversation c
  | markConversationRead c | searchMessages c _ | getMembershipEvents c
  | markAttachmentUploaded c _ | confirmAttachment c _ | listConversationAttachments c _ _ => [c]
  | removeMember c u => [c; u]
  | getAttachmentStatus a | getPresignedDownloadUrl a => [a]
  | _ => []
  end.
End routes.

(** ** Every call reaches its endpoint *)

Lemma url_word_slash s : url_word s = true → 47 ∉ s.
Proof.
  intros [_ Hs]%andb_prop Hin. rewrite forallb_forall in Hs.
  apply list_elem_of_In, Hs in Hin. discriminate Hin.
Qed.

Lemma pattern_segments_prefix prefix pattern :
  url_word prefix = true →
  pattern_segments (full_pattern prefix pattern) = prefix :: pattern_segments pattern.
Proof.
  intros Hp. unfold pattern_segments, full_pattern.
  change (js "/" ++ ?x) with (47 :: x). cbn [split_on Z.eqb Pos.eqb].
  change (js "/") with [47]. cbn [app]. rewrite split_on_app by by apply url_word_slash.
  rewrite filter_cons_False by done. apply andb_prop in Hp as [Hp _]. by rewrite filter_cons_True.
Qed.

Lemma match_segments_prefix prefix pattern segments :
  url_word prefix = true →
  match_segments (prefix :: pattern) (prefix :: segments) = match_segments pattern segments.
Proof.
  intros Hp. cbn [match_segments]. assert (param_name prefix = None) as ->.
  { destruct prefix as [|u prefix]; [done|]. cbn. destruct (u =? 58) eqn:E; [|done].
    apply Z.eqb_eq in E as ->. discriminate Hp. }
  by rewrite bool_decide_eq_true_2.
Qed.

(** The route that a path of words finds, by its place in the table. *)
Fixpoint find_route (table : list (Method * jsstring)) (m : Method) (segments : list jsstring)
    : option (nat * Params) :=
  match table with
  | [] => None
  | (m', pattern) :: table =>
      match (if bool_decide (m' = m) then match_segments (pattern_segments pattern) segments else None) with
      | Some ps => Some (0%nat, ps)
      | None => (λ x, (S x.1, x.2)) <$> find_route table m segments
      end
  end.

Section contract.
Context `{Host} `{Mongo} `{RouterLaws}.
Context (ctx : Request) (prefix : jsstring) (Hprefix : url_word prefix = true).

Lemma dispatch_find table r segments :
  hr_path r = path_of (prefix :: segments) → forallb url_word segments = true →
  dispatch prefix table r
  = (x ← find_route (map (λ t, (rt_method t, rt_pattern t)) table) (hr_method r) segments;
     route ← table !! x.1; rt_handle route x.2 r).
Proof.
  intros Hpath Hsegs. induction table as [|route table IH]; [done|].
  cbn [dispatch map find_route]. rewrite Hpath, route_match_words, pattern_segments_prefix,
    match_segments_prefix by (done || cbn; by rewrite Hprefix).
  case_bool_decide.
  - destruct (match_segments _ _) as [ps|]; [done|]. rewrite IH. by destruct (find_route _ _ _).
  - rewrite IH. by destruct (find_route _ _ _).
Qed.

(** The words of the path of a call. *)
Definition path_words (call : ClientCall) : list jsstring :=
  let conversation c rest := js "chat" :: js "conversations" :: c :: rest in
  match call with
  | getChatStatus => [js "chat"; js "status"]
  | listConversations | createConversation _ => [js "chat"; js "conversations"]
  | getMessages c _ _ => conversation c [js "messages"]
  | addMember c _ => conversation c [js "members"]
  | removeMember c u => conversation c [js "members"; u]
  | leaveConversation c => conversation c [js "leave"]
  | deleteConversation c => conversation c []
  | markConversationRead c => conversation c [js "read"]
  | searchMessages c _ => conversation c [js "messages"; js "search"]
  | getMembershipEvents c => conversation c [js "events"]
  | getPresignedUploadUrl _ => [js "chat"; js "attachments"; js "presigned-upload"]
  | markAttachmentUploaded c _ => conversation c [js "attachments"; js "uploaded"]
  | confirmAttachment c _ | listConversationAttachments c _ _ => conversation c [js "attachments"]
  | getAttachmentStatus a => [js "chat"; js "attachments"; a; js "status"]
  | getPresignedDownloadUrl a => [js "chat"; js "attachments"; a; js "download"]
  | getCurrentUser => [js "auth"; js "me"]
  | registerLocalAccount _ => [js "auth"; js "register"]
  | loginLocalAccount _ => [js "auth"; js "login"]
  | refreshSession => [js "auth"; js "refresh"]
  | logout => [js "auth"; js "logout"]
  | searchUsers _ => [js "auth"; js "users"; js "search"]
  end.

Lemma path_words_of call :
  hr_path (sent_to (js "/" ++ prefix) (request_of call)) = path_of (prefix :: path_words call).
Proof.
  destruct call; unfold path_of; cbn [flat_map path_words];
    first [reflexivity|rewrite !app_nil_r; reflexivity].
Qed.

Lemma path_words_ok call :
  forallb url_word (path_arguments call) = true → forallb url_word (path_words call) = true.
Proof.
  assert (∀ s l, url_word s = true → forallb url_word l = true → forallb url_word (s :: l) = true)
    as Hcons by (intros s l Hs Hl; cbn [forallb]; by rewrite Hs).
  intros Hargs. destruct call; try (vm_compute; reflexivity); cbn [path_arguments forallb] in Hargs;
    rewrite ?andb_true_iff in Hargs; destruct_and?; cbn [path_words];
    repeat (apply Hcons; [first [assumption|vm_compute; reflexivity]|]); reflexivity.
Qed.

Ltac unfold_request :=
  cbv beta iota delta [
    request_getChatStatus request_listConversations request_createConversation
    request_getMessages request_addMember request_removeMember request_leaveConversation
    request_deleteConversation request_markConversationRead request_searchMessages
    request_getMembershipEvents request_getPresignedUploadUrl
    request_markAttachmentUploaded request_confirmAttachment request_getAttachmentStatus
    request_getPresignedDownloadUrl request_listConversationAttachments
    request_getCurrentUser request_registerLocalAccount request_loginLocalAccount
    request_refreshSession request_logout request_searchUsers request_of].

(** C22: The client and the backend agree.  Whatever a function of the client's services is
    called with, as long as the identifiers it puts into the path are words, its request is
    routed to the endpoint it stands for and to no other, and the endpoint reads from the
    path, the query and the body the arguments that the client wrote there. *)
Theorem client_calls_served call :
  forallb url_word (path_arguments call) = true →
  serve ctx prefix (sent_to (js "/" ++ prefix) (request_of call)) = Some (meant ctx call).
Proof.
  intros Hargs. unfold serve.
  rewrite (dispatch_find _ _ _ (path_words_of call) (path_words_ok call Hargs)).
  destruct call; unfold_request;
    cbn [path_words hr_method sent_to http_get http_post http_delete skipping_refresh].
  all: match goal with |- context [find_route ?l ?m ?s] =>
      let x := eval vm_compute in (find_route l m s) in
      assert (find_route l m s = x) as -> by (vm_compute; reflexivity) end.
  all: try reflexivity.
  - destruct req as [[] [title|] ids]; reflexivity.
  - destruct before as [[|u before]|], limit as [[|n]|]; reflexivity.
  - destruct before, limit; reflexivity.
Qed.
End contract.

(** ** At a concrete input *)

(** The router that compares words. *)
#[local] Instance word_router : Router := λ pattern path,
  match_segments (pattern_segments pattern) (pattern_segments path).

Lemma word_router_laws : RouterLaws.
Proof.
  split. intros pattern segments Hs. unfold route_match, word_router. f_equal.
  induction segments as [|s segments IH]; [done|]. cbn [forallb] in Hs.
  apply andb_prop in Hs as [Hw Hs]. specialize (IH Hs). unfold pattern_segments in *.
  cbn [path_of flat_map app split_on Z.eqb Pos.eqb]. rewrite filter_cons_False by done.
  assert (truthy s = true) as Ht by (apply andb_prop in Hw; tauto).
  destruct segments as [|s' segments].
  - cbn. rewrite app_nil_r, split_on_none by by apply url_word_slash. by rewrite filter_cons_True.
  - cbn [path_of flat_map app]. rewrite split_on_app by by apply url_word_slash.
    rewrite filter_cons_True by done. f_equal. etransitivity; [|exact IH].
    cbn [path_of flat_map app split_on Z.eqb Pos.eqb]. by rewrite filter_cons_False.
Qed.

#[local] Instance demo_host_inst : Host := demo_host demo_env.
#[local] Instance demo_mongo_inst : Mongo := list_mongo.

Definition demo_context : Request := mkReq None (Some (js "Bearer t")) None false None.
Definition demo_call : ClientCall :=
  getMessages (js "65f0c0ffee") (Some (js "2024-01-01")) (Some 10%nat).

Lemma client_calls_served_witness :
  serve demo_context (js "api") (sent_to (js "/api") (request_of demo_call))
  = Some (respond RMessages (api_getMessages (Some (js "Bearer t")) (js "65f0c0ffee")
      (Some (js "2024-01-01")) (Some (js "10")))).
Proof.
  refine (@client_calls_served _ _ _ word_router_laws demo_context (js "api") _ demo_call _);
    vm_compute; reflexivity.
Defined.
