(* ===== verification/Access.v ===== *)
(** * Access: a user who is not in a conversation gets nothing of it

    One theorem over every call of the client's services and every event of the two
    gateways that names a conversation, directly or through one of its attachments: for a
    user who is not an active participant it fails, whatever its other arguments are,
    changes no document and tells nobody; but leave_conversation, which succeeds for
    anybody and changes the rooms of the socket alone.  And when a member who departs is
    such a user. *)

From S2P Require Import Prelude JsText View Wire Driver Env Store Model Instance Encryption Auth AuthFacts AuthController Chat ChatSend ChatFacts Attachment Ai Gateway ChatController Invariants GatewayFacts Api.
Open Scope Z_scope.

(** ** Failing without a trace *)

Definition silent (w w' : World) : Prop :=
  database w' = database w ∧ w_emitted w' = w_emitted w ∧ w_clients w' = w_clients w.

#[export] Instance silent_preorder : PreOrder silent.
Proof.
  split; [by intros w; split_and!|]. intros w1 w2 w3 (? & ? & ?) (? & ? & ?).
  split_and!; congruence.
Qed.

#[export] Instance silent_read w : ReadInvariant (silent w).
Proof. split; [split|..]; by intros f w'. Qed.

Definition refuses {A} (m : M World A) (w : World) : Prop :=
  ∃ e w', m w = (Throw e, w') ∧ silent w w'.

Section refusal.
Context {A B : Type}.
Implicit Types (m : M World A) (f : A → M World B) (w : World).

Lemma refuses_throw (e : Exn) w : refuses (throw (A := A) e) w.
Proof. by exists e, w. Qed.
Lemma refuses_bind m f w : refuses m w → refuses (m ≫= f) w.
Proof. intros (e & w' & E & Hs). exists e, w'. by rewrite run_bind, E. Qed.
Lemma refuses_bind_Ok m f w a w' :
  m w = (Ok a, w') → silent w w' → refuses (f a) w' → refuses (m ≫= f) w.
Proof.
  intros E Hs (e & w2 & E2 & Hs2). exists e, w2. rewrite run_bind, E.
  split; [done|]. by transitivity w'.
Qed.
End refusal.

Lemma refuses_throw_if {B} (b : bool) (e : Exn) (m : M World B) w :
  refuses m w → refuses (throw_if b e ;; m) w.
Proof.
  intros Hm. destruct b; [by apply refuses_bind, refuses_throw|].
  by eapply refuses_bind_Ok; [reflexivity|done|].
Qed.

Lemma refuses_respond {A} (wrap : A → Response) m w : refuses m w → refuses (respond wrap m) w.
Proof. apply refuses_bind. Qed.

(** ** Settling *)

(** A computation that always resolves or throws. *)
Definition settles {A} (m : M World A) : Prop := ∀ w, (m w).1 ≠ Hang.

Lemma settles_bind {A B} (m : M World A) (f : A → M World B) :
  settles m → (∀ a, settles (f a)) → settles (m ≫= f).
Proof.
  intros Hm Hf w. rewrite run_bind. specialize (Hm w). destruct (m w) as [[a|e|] w'].
  - apply Hf.
  - done.
  - done.
Qed.
Lemma settles_throw_if b e : settles (throw_if b e).
Proof. by destruct b. Qed.
Lemma settles_or_throw {A} (x : option A) e : settles (or_throw x e).
Proof. by destruct x. Qed.

Lemma canActivate_settles `{Host} `{Mongo} authorization : settles (canActivate authorization).
Proof.
  assert (∀ s, settles (cast_oid s)) as Hcast by (intros s w; unfold cast_oid; by destruct (oid_parse s)).
  destruct authorization as [a|]; [|done]. unfold canActivate.
  apply settles_bind; [apply settles_throw_if|intros []].
  apply settles_bind; [apply settles_throw_if|intros []].
  apply settles_bind; [|intros user; apply settles_or_throw].
  unfold authenticateAccessToken. apply settles_bind.
  - unfold verifyAccessToken. repeat (apply settles_bind || intros ? || done || case_match).
  - intros [payload|]; [|done]. apply settles_bind; [apply Hcast|intros sid].
    apply settles_bind; [done|intros [[i s]|]; [|done]]. case_match; [done|].
    apply settles_bind; [done|intros t]. case_match; [done|].
    unfold auth_findById. apply settles_bind; [apply Hcast|intros i']. intros w. done.
Qed.

(** ** The outsider *)

Section outsider.
Context `{Host} `{!OidLaws} `{MongoLaws}.
(** The conversation and the user. *)
Context (c u : oid).

(** Whom the guard lets through with this header is the user. *)
Definition signed_in (authorization : option jsstring) (w : World) : Prop :=
  ∀ user w', canActivate authorization w = (Ok user, w') → su_id user = oid_show u.

(** An attachment of the conversation. *)
Definition attachment_of (w : World) (attachmentId : jsstring) : Prop :=
  ∃ i a, oid_parse attachmentId = Some i ∧ w_attachments w !! i = Some a ∧ ca_conversationId a = c.

Lemma no_access_silent w w' : silent w w' → no_access w c u → no_access w' c u.
Proof. intros ([= _ _ _ _ Hp _ _ _] & _) Hno i p. rewrite Hp. apply Hno. Qed.
Lemma attachment_of_silent w w' a : silent w w' → attachment_of w a → attachment_of w' a.
Proof. intros ([= _ _ _ _ _ _ _ Ha] & _). unfold attachment_of. by rewrite Ha. Qed.

Section refused.
Context (w : World) (Hno : no_access w c u).

Lemma no_participant : mg_findOne (active_participant c u) (w_participants w) = None.
Proof. by apply findOne_None. Qed.

Lemma refuses_required {B} (f : doc Participant → M World B) :
  refuses (getRequiredActiveParticipant (oid_show c) (oid_show u) ≫= f) w.
Proof.
  apply refuses_bind. exists not_active_participant, w.
  by rewrite run_getRequired, !oid_parse_show, no_participant.
Qed.

Lemma refuses_active {B} (f : doc Participant → M World B) :
  refuses (requireActiveParticipant (oid_show c) (oid_show u) ≫= f) w.
Proof.
  apply refuses_bind. exists not_active_participant, w.
  destruct (no_access_refused c u (js "text") None false w Hno) as (_ & _ & -> & _); [by left|done].
Qed.

Lemma refuses_admin {B} (f : ParticipantRole → M World B) :
  refuses (requireAdminOrOwner (oid_show c) (oid_show u) ≫= f) w.
Proof.
  apply refuses_bind. exists no_permission, w.
  destruct (no_access_refused c u (js "text") None false w Hno) as (_ & _ & _ & ->); [by left|done].
Qed.

Lemma refuses_conversation {B} (f : oid → M World B) :
  refuses (f c) w → refuses (requireConversationId (oid_show c) ≫= f) w.
Proof.
  intros Hf. eapply refuses_bind_Ok; [|reflexivity|exact Hf].
  unfold requireConversationId, requireObjectId. by rewrite oid_parse_show.
Qed.

(** An attachment id that is looked up before the membership is checked. *)
Lemma refuses_attachment {B} a (f : oid → M World B) :
  (∀ i, oid_parse a = Some i → refuses (f i) w) → refuses (requireAttachmentId a ≫= f) w.
Proof.
  intros Hf. unfold requireAttachmentId, requireObjectId. destruct (oid_parse a) as [i|].
  - eapply refuses_bind_Ok; [reflexivity|reflexivity|by apply Hf].
  - apply refuses_bind, refuses_throw.
Qed.

Lemma refuses_found {B} a i d (f : doc ChatAttachment → M World B) :
  w_attachments w !! i = Some d → refuses (f (i, d)) w →
  refuses (found ← model_findById attachmentModel i; x ← or_throw found a; f x) w.
Proof.
  intros Hd Hf. eapply refuses_bind_Ok; [reflexivity|reflexivity|].
  unfold findById. cbn [m_get attachmentModel]. rewrite Hd. cbn.
  eapply refuses_bind_Ok; [reflexivity|reflexivity|exact Hf].
Qed.

(** Sending. *)
Lemma refuses_sendMessage content a ai {B} (f : SendResult → M World B) :
  refuses (sendMessage (oid_show c) (oid_show u) content a ai ≫= f) w.
Proof.
  apply refuses_bind. unfold sendMessage. apply refuses_throw_if, refuses_required.
Qed.

Lemma refuses_realtime content a ai {B} (f : RealtimeResult → M World B) :
  refuses (sendRealtimeMessage (oid_show c) (oid_show u) content a ai ≫= f) w.
Proof.
  apply refuses_bind. unfold sendRealtimeMessage. repeat case_match; apply refuses_sendMessage.
Qed.

Lemma refuses_deliver content a ai {B} (f : RealtimeMessagePayload → M World B) :
  refuses (send_and_deliver (oid_show c) (oid_show u) content a ai ≫= f) w.
Proof. apply refuses_bind. unfold send_and_deliver. apply refuses_realtime. Qed.
End refused.

(** ** Over HTTP *)

Lemma refuses_guarded {A} authorization (handler : jsstring → M World A) w :
  signed_in authorization w → (∀ w1, silent w w1 → refuses (handler (oid_show u)) w1) →
  refuses (guarded authorization handler) w.
Proof.
  intros Hu Hf. unfold guarded.
  pose proof (keeps_canActivate (silent w) authorization w (reflexivity w)) as Hs.
  pose proof (canActivate_settles authorization w) as Hh.
  destruct (canActivate authorization w) as [[user|e|] w1] eqn:E; cbn [fst snd] in Hs, Hh; [| |done].
  - eapply refuses_bind_Ok; [exact E|exact Hs|].
    rewrite (Hu user w1 E). by apply Hf.
  - apply refuses_bind. by exists e, w1.
Qed.

(** The calls that name the conversation or one of its attachments. *)
Definition concerns (w : World) (call : ClientCall) : Prop :=
  match call with
  | Api.getMessages id _ _ | Api.addMember id _ | Api.removeMember id _ | Api.leaveConversation id
  | Api.deleteConversation id | Api.markConversationRead id | Api.searchMessages id _
  | Api.getMembershipEvents id | Api.markAttachmentUploaded id _ | Api.confirmAttachment id _
  | Api.listConversationAttachments id _ _ => id = oid_show c
  | Api.getPresignedUploadUrl input => gp_conversationId input = oid_show c
  | Api.getAttachmentStatus a | Api.getPresignedDownloadUrl a => attachment_of w a
  | _ => False
  end.

Lemma call_refused ctx call w :
  signed_in (rq_authorization ctx) w → no_access w c u → concerns w call →
  refuses (meant ctx call) w.
Proof.
  intros Hu Hno Hc.
  assert (∀ w1, silent w w1 → no_access w1 c u) as Hno1 by (intros w1 Hs; by apply (no_access_silent w)).
  destruct call; cbn [concerns] in Hc; try contradiction; cbn [meant]; apply refuses_respond;
    apply refuses_guarded; try exact Hu; intros w1 Hs; specialize (Hno1 w1 Hs); subst.
  - by apply refuses_active.
  - by apply refuses_active.
  - by apply refuses_admin.
  - by apply refuses_active.
  - by apply refuses_active.
  - by apply refuses_throw_if, refuses_active.
  - by apply refuses_active.
  - by apply refuses_active.
  - unfold generatePresignedUploadUrl. rewrite Hc. apply refuses_conversation.
    do 3 apply refuses_throw_if. eapply refuses_bind_Ok; [reflexivity|reflexivity|].
    by apply refuses_throw_if, refuses_required.
  - unfold Attachment.markAttachmentUploaded. apply refuses_conversation, refuses_attachment.
    intros i _. by apply refuses_required.
  - unfold send_and_deliver. by apply refuses_realtime.
  - destruct (attachment_of_silent _ _ _ Hs Hc) as (i & d & Hi & Hd & Hdc).
    unfold Attachment.getAttachmentStatus. apply refuses_attachment. intros i' Hi'. simplify_eq.
    eapply refuses_found; [exact Hd|]. cbn [snd]. rewrite Hdc. by apply refuses_required.
  - destruct (attachment_of_silent _ _ _ Hs Hc) as (i & d & Hi & Hd & Hdc).
    unfold generatePresignedDownloadUrl. apply refuses_attachment. intros i' Hi'. simplify_eq.
    eapply refuses_found; [exact Hd|]. cbn [snd]. rewrite Hdc.
    by apply refuses_throw_if, refuses_required.
  - unfold Attachment.listConversationAttachments. apply refuses_conversation. by apply refuses_required.
Qed.

(** ** Over the sockets *)

Definition socket_of (w : World) (k : nat) : Prop :=
  ∃ user, w_clients w !! k ≫= c_user = Some user ∧ su_id user = oid_show u.

(** The acknowledgement is a failure; nobody but the socket itself hears anything, and no
    document and no room changes. *)
Definition fails {A} (k : nat) (m : M World (Ack A)) (w : World) : Prop :=
  ∃ e w' sent, m w = (Ok (Failure e), w') ∧ database w' = database w ∧
    w_clients w' = w_clients w ∧ w_emitted w' = w_emitted w ++ sent ∧
    Forall (λ x, em_to x = ToClient k) sent.

Lemma fails_client {A} k (f : SessionUser → M World (Ack A)) w :
  socket_of w k → (∀ user, su_id user = oid_show u → fails k (f user) w) →
  fails k (user ← getClientUser k; f user) w.
Proof.
  intros (user & Hk & Hu) Hf. unfold fails. rewrite run_bind, run_getClientUser, Hk. by apply Hf.
Qed.

Lemma fails_acknowledged {A} k (m : M World (Ack A)) id w :
  refuses m w → fails k (acknowledged m id) w.
Proof.
  intros (e & w' & E & Hd & He & Hc). unfold acknowledged, try_catch, fails. rewrite E.
  eexists _, w', []. rewrite app_nil_r. by split_and!.
Qed.

Lemma fails_ai {A} k enabled message (body : SessionUser → M World A) w :
  socket_of w k → (∀ user, su_id user = oid_show u → refuses (body user) w) →
  fails k (ai_handler k enabled message body) w.
Proof.
  intros Hk Hb. apply fails_client; [exact Hk|]. intros user Hu. unfold try_catch, fails.
  destruct enabled; cbn [negb].
  - destruct (Hb user Hu) as (e & w' & E & Hd & He & Hc). rewrite run_bind, E.
    unfold emitError. rewrite run_bind. cbn [emit modify mret M_ret].
    do 3 eexists. split_and!; [reflexivity|exact Hd|exact Hc|cbn; by rewrite He|].
    by constructor.
  - unfold emitError. rewrite run_bind. cbn [emit modify mret M_ret].
    do 3 eexists. split_and!; [reflexivity..|]. by constructor.
Qed.

(** [leave_conversation] is the one event that is not guarded: it is acknowledged whoever
    asks, and all it does is take the socket itself out of the conversation's room. *)
Definition only_leaves (k : nat) (w : World) : Prop :=
  ∃ w', handleLeaveConversation k (oid_show c) w = (Ok (Success (oid_show c)), w') ∧
    database w' = database w ∧ w_emitted w' = w_emitted w ∧
    (∀ i, i ≠ k → w_clients w' !! i = w_clients w !! i) ∧
    (∀ cl, w_clients w !! k = Some cl → ∃ cl', w_clients w' !! k = Some cl' ∧
       c_user cl' = c_user cl ∧
       ∀ room, room ∈ c_rooms cl' ↔ room ≠ getConversationRoom (oid_show c) ∧ room ∈ c_rooms cl).

Lemma leave_only_leaves k w : only_leaves k w.
Proof.
  eexists. split; [reflexivity|]. split_and!; try done.
  - intros i Hi. cbn. by rewrite lookup_alter_ne.
  - intros cl Hcl. eexists. cbn. rewrite lookup_alter_eq, Hcl. split; [reflexivity|].
    split; [done|]. intros room. exact (elem_of_leave_room (getConversationRoom (oid_show c)) cl room).
Qed.

(** The answers of the two gateways to the events of socket [k] that name the conversation. *)
Definition gateways_refuse (k : nat) (w : World) : Prop :=
  (∀ payload, sp_conversationId payload = oid_show c →
     ∃ e w', handleSendMessage k payload w = (Ok (Failure e, []), w') ∧ silent w w') ∧
  fails k (handleJoinConversation k (oid_show c)) w ∧
  fails k (handleMarkConversationRead k (oid_show c)) w ∧
  (∀ isTyping, fails k (handleTypingPresence k (oid_show c) isTyping) w) ∧
  (∀ content, fails k (handleAiChat k (oid_show c) content) w) ∧
  fails k (handleSuggestions k (oid_show c)) w ∧
  only_leaves k w.

Lemma gateways_refused k w : no_access w c u → socket_of w k → gateways_refuse k w.
Proof.
  intros Hno Hk. unfold gateways_refuse. split_and!.
  - intros payload Hc. destruct Hk as (user & Hk & Hu). unfold handleSendMessage.
    rewrite run_bind, run_getClientUser, Hk, Hc, Hu. unfold try_catch.
    destruct (refuses_deliver w Hno (trim (sp_content payload)) (sp_attachmentId payload)
      (shouldReply (trim (sp_content payload))) (λ message, mret (Success message,
        started_tasks (rt_messageId message) (trim (sp_content payload)) (oid_show c) (oid_show u))))
      as (e & w' & E & Hs).
    rewrite E. by do 2 eexists.
  - apply fails_client; [exact Hk|]. intros user ->. apply fails_acknowledged. by apply refuses_required.
  - apply fails_client; [exact Hk|]. intros user ->. apply fails_acknowledged.
    apply refuses_bind. unfold Chat.markConversationRead. by apply refuses_required.
  - intros isTyping. apply fails_client; [exact Hk|]. intros user ->. apply fails_acknowledged.
    by apply refuses_required.
  - intros content. apply fails_ai; [exact Hk|]. intros user ->. by apply refuses_required.
  - apply fails_ai; [exact Hk|]. intros user ->. by apply refuses_required.
  - apply leave_only_leaves.
Qed.

(** C13: Access.  For a user who is not an active participant of a conversation, every call
    of the client's services that names the conversation or one of its attachments is
    refused, whatever its arguments and the user's token, and every event of the two
    gateways that names it, but leave_conversation, is answered with a failure; no document
    changes, no message or preview goes to anybody, no assistant work is started, and no
    socket enters a room.  leave_conversation is acknowledged, and does no more than take
    the user's own socket out of the conversation's room. *)
Theorem outsider_refused w :
  no_access w c u →
  (∀ ctx call, signed_in (rq_authorization ctx) w → concerns w call → refuses (meant ctx call) w) ∧
  (∀ k, socket_of w k → gateways_refuse k w).
Proof.
  intros Hno. split; [intros ctx call Hu Hc; by apply call_refused|].
  intros k Hk. by apply gateways_refused.
Qed.

(** ** The departed member *)

(** Only one document of the user is changed. *)
Lemma no_access_was_once st t w w' :
  w_participants w' = updateOne (active_participant c u) (set_gone st t) (w_participants w) →
  no_access w' c u → active_once w c u.
Proof.
  intros Hp Hno i j p q Hi Hj Hpa Hqa. unfold updateOne in Hp.
  destruct (mg_findOne (active_participant c u) (w_participants w)) as [[l r]|] eqn:Ef.
  - assert (∀ i p, w_participants w !! i = Some p → active_participant c u (i, p) = true → i = l) as Hl.
    { intros i' p' Hi' Hp'. destruct (decide (i' = l)) as [->|Hne]; [done|].
      specialize (Hno i' p'). rewrite Hp, lookup_alter_ne in Hno by done. by rewrite Hno in Hp'. }
    rewrite (Hl i p), (Hl j q); done.
  - specialize (Hno i p). rewrite Hp in Hno. by rewrite Hno in Hpa.
Qed.

(** C30: Removing a member, or a member leaving, takes effect at once, exactly if the user
    had at most one active participant document in the conversation: then every call of the
    client's services that names the conversation or one of its attachments is refused to
    that user, and so is every event of the two gateways but leave_conversation; a second
    document, which a member who came back may have, keeps the access. *)
Theorem departed_member_refused actor (leave : bool) w w' :
  (if leave then Chat.leaveConversation (oid_show c) (oid_show u) w
   else Chat.removeMember (oid_show c) (oid_show u) actor w) = (Ok tt, w') →
  (no_access w' c u ↔ active_once w c u) ∧
  (active_once w c u →
   (∀ ctx call, signed_in (rq_authorization ctx) w' → concerns w' call → refuses (meant ctx call) w') ∧
   (∀ k, socket_of w' k → gateways_refuse k w')).
Proof.
  intros E. assert (active_once w c u → no_access w' c u) as Hgone
    by (intros Honce; by eapply departed_no_access).
  split.
  - split; [|done]. destruct (departed_participants c u actor leave w w' E) as (st & t & _ & Hp).
    by eapply no_access_was_once.
  - intros Honce%Hgone. split; [intros ctx call Hu Hc; by apply call_refused|].
    intros k Hk. by apply gateways_refused.
Qed.
End outsider.

(** ** At a concrete input: a member who was removed *)

#[local] Instance demo_host_inst : Host := demo_host demo_env.
#[local] Instance demo_mongo_inst : Mongo := list_mongo.
#[local] Instance demo_laws_inst : MongoLaws := list_mongo_laws.
#[local] Instance demo_oids_inst : OidLaws := demo_oid_laws demo_env.

Definition demo_bearer : Request :=
  mkReq None (app (js "Bearer ") <$> demo_token2) None false None.

Lemma no_access_check w c u :
  forallb (λ x : doc Participant, negb (active_participant c u x)) (map_to_list (w_participants w)) = true →
  no_access w c u.
Proof.
  intros Hl i p Hi. rewrite forallb_forall in Hl. apply negb_true_iff, Hl, list_elem_of_In.
  by apply elem_of_map_to_list.
Qed.

Lemma demo_bearer_signed_in : signed_in (Oid 1010) (rq_authorization demo_bearer) demo_removed.
Proof.
  intros user w' E.
  assert (match (canActivate (rq_authorization demo_bearer) demo_removed).1 with
          | Ok user => bool_decide (su_id user = oid_show (Oid 1010)) | _ => false end = true) as Hu
    by (vm_compute; reflexivity).
  rewrite E in Hu. exact (bool_decide_eq_true_1 _ Hu).
Qed.

Lemma demo_socket_of : socket_of (Oid 1010) demo_removed 1.
Proof.
  destruct (w_clients demo_removed !! 1%nat ≫= c_user) as [user|] eqn:Eu; [|vm_compute in Eu; discriminate Eu].
  assert (match w_clients demo_removed !! 1%nat ≫= c_user with
          | Some user => bool_decide (su_id user = oid_show (Oid 1010)) | None => true end = true) as Hu
    by (vm_compute; reflexivity).
  rewrite Eu in Hu. exists user. split; [exact Eu|exact (bool_decide_eq_true_1 _ Hu)].
Qed.

Lemma outsider_refused_witness :
  refuses (meant demo_bearer (Api.searchMessages (oid_show (Oid 1019)) (js "hello"))) demo_removed ∧
  fails 1 (handleJoinConversation 1 (oid_show (Oid 1019))) demo_removed ∧
  only_leaves (Oid 1019) 1 demo_removed ∧
  is_Some (mg_findOne (active_participant (Oid 1019) (Oid 1010)) (w_participants demo_team)).
Proof.
  destruct (outsider_refused (Oid 1019) (Oid 1010) demo_removed) as [Hhttp Hsocket].
  { apply no_access_check. vm_compute. reflexivity. }
  destruct (Hsocket 1%nat demo_socket_of) as (_ & Hjoin & _ & _ & _ & _ & Hleave).
  split_and!; [|exact Hjoin|exact Hleave|vm_compute; eexists; reflexivity].
  by apply Hhttp; [exact demo_bearer_signed_in|].
Defined.

(** The owner removes the second user, whose socket is in the room, and who then searches
    and sends. *)
Lemma departed_member_refused_witness :
  ∃ w', Chat.removeMember (oid_show (Oid 1019)) (oid_show (Oid 1010)) (oid_show (Oid 1001)) demo_team = (Ok tt, w') ∧
    no_access w' (Oid 1019) (Oid 1010) ∧
    refuses (meant demo_bearer (Api.searchMessages (oid_show (Oid 1019)) (js "hello"))) w' ∧
    ∃ e w2, handleSendMessage 1 demo_payload w' = (Ok (Failure e, []), w2) ∧ silent w' w2.
Proof.
  destruct (Chat.removeMember (oid_show (Oid 1019)) (oid_show (Oid 1010)) (oid_show (Oid 1001)) demo_team)
    as [[[]|e|] w'] eqn:E; [|by vm_compute in E..].
  exists w'. split; [done|].
  destruct (departed_member_refused (Oid 1019) (Oid 1010) _ false demo_team w' E) as [Hiff Hrefused].
  assert (active_once demo_team (Oid 1019) (Oid 1010)) as Honce
    by (apply active_once_check; vm_compute; reflexivity).
  destruct (Hrefused Honce) as [Hhttp Hsocket].
  assert (w' = (Chat.removeMember (oid_show (Oid 1019)) (oid_show (Oid 1010)) (oid_show (Oid 1001)) demo_team).2) as Ew
    by by rewrite E.
  split; [by apply Hiff|]. split.
  - apply Hhttp; [|reflexivity]. intros user w2 Eu.
    assert (match (canActivate (rq_authorization demo_bearer)
        (Chat.removeMember (oid_show (Oid 1019)) (oid_show (Oid 1010)) (oid_show (Oid 1001)) demo_team).2).1 with
      | Ok user => bool_decide (su_id user = oid_show (Oid 1010)) | _ => false end = true) as Hu
      by (vm_compute; reflexivity).
    rewrite <-Ew, Eu in Hu. exact (bool_decide_eq_true_1 _ Hu).
  - destruct (Hsocket 1%nat) as (Hsend & _); [|by apply Hsend].
    destruct (w_clients w' !! 1%nat ≫= c_user) as [user|] eqn:Eu;
      [|rewrite Ew in Eu; vm_compute in Eu; discriminate Eu].
    assert (match w_clients (Chat.removeMember (oid_show (Oid 1019)) (oid_show (Oid 1010)) (oid_show (Oid 1001)) demo_team).2
                !! 1%nat ≫= c_user with
            | Some user => bool_decide (su_id user = oid_show (Oid 1010)) | None => true end = true) as Hu
      by (vm_compute; reflexivity).
    rewrite <-Ew, Eu in Hu. exists user. split; [exact Eu|exact (bool_decide_eq_true_1 _ Hu)].
Defined.
