(* ===== verification/Scroll.v ===== *)
(** * Scrolling through a conversation

    The page of [chat.page.tsx] against the backend's [getMessages]: the first page that
    [selectConversation] asks for, and the older pages that [loadMoreMessages] asks for
    with the time of the oldest message on screen.  While nobody writes, the pages put
    together are the history of the conversation. *)

From S2P Require Import Prelude JsText Store Model Instance Chat ChatController ChatFacts View ViewFacts Page PageFacts.
Open Scope Z_scope.

(** ** The wire *)

(** A date that is printed in ISO form is read back, the empty string is no date, and ten
    is printed in decimal. *)
Class WireLaws `{Host} : Prop := {
  date_parse_show t : date_parse (toISOString t) = Some t;
  date_parse_empty : date_parse [] = None;
  to_number_ten : to_number (js "10") = num 10;
}.

#[export] Instance host_window `{Host} : Window := {|
  View.getTime s := default 0 (date_parse s);
  View.toLowerCase := Model.toLowerCase;
|}.

Section wire.
Context `{Host}.
(** The JSON of a moderation result, which the page only shows. *)
Context (moderation : MessageModeration → option MessageModerationResult).

Definition wire_attachment (a : ChatAttachmentPayload) : View.ChatAttachment :=
  View.mkAttachment (ap_attachmentId a) (ap_fileName a) (ap_mimeType a) (ap_sizeBytes a)
    (ap_isImage a) (ap_uploaderId a) (ap_conversationId a) (ap_messageId a).

(** The JSON of a message, as the page reads it. *)
Definition wire_message (x : ChatMessagePayload) : View.Message :=
  View.mkMessage (oid_show (cm_id x)) (oid_show (cm_conversationId x)) (oid_show (cm_senderId x))
    (cm_senderDisplayName x) (cm_senderAvatarUrl x) (cm_content x) (toISOString (cm_sentAt x))
    (match cm_deliveryStatus x with delivery_sent => View.sent | delivery_failed => View.failed end)
    (Some (match cm_seenState x with Model.seen_sent => View.seen_sent | seen_seen => View.seen end))
    (wire_attachment <$> cm_attachment x) (Some (cm_isTailOfSenderGroup x))
    (cm_decodeErrorCode x)
    (Some (match cm_displayState x with
           | display_ready => View.ready | display_decode_failed => View.decode_failed end))
    (Some (cm_isAIBotMessage x)) (Some (cm_isAICommand x))
    (cm_moderationResult x ≫= moderation).
End wire.

Lemma StronglySorted_filter {A} (R : A → A → Prop) (P : A → Prop) `{∀ x, Decision (P x)} l :
  StronglySorted R l → StronglySorted R (filter P l).
Proof.
  induction 1 as [|a l Hs IH Ha]; [constructor|].
  rewrite filter_cons. case_decide; [|exact IH]. constructor; [exact IH|]. by apply filter_Forall.
Qed.

Section scroll.
Context `{Host} `{!OidLaws} `{MongoLaws} `{!WireLaws}.
Context (moderation : MessageModeration → option MessageModerationResult).
Context (c : oid) (ms : collection Model.Message).

(** What the backend answers to [getMessages(conversationId, { before, limit })]. *)
Definition backend_page (before limit : option jsstring) (w : World)
    (page : list View.Message) : Prop :=
  w_messages w = ms ∧
  ∃ payloads w', getMessages (oid_show c) before (query_limit limit) w = (Ok payloads, w') ∧
                 page = map (wire_message moderation) payloads.

(** The states of the page after [n] loads, while the messages are [ms]: the worlds may
    differ in everything else. *)
Inductive scrolled : nat → ChatState → Prop :=
  | scrolled_first s w page events :
      backend_page None None w page → scrolled 1 (messages_loaded page events s)
  | scrolled_older n s w oldest page :
      scrolled n s → hasMoreMessages s = true → head (messages s) = Some oldest →
      backend_page (Some (View.vm_sentAt oldest)) (Some (js "10")) w page →
      scrolled (S n) (older_loaded page s).

(** The conversation, oldest message first. *)
Definition history : list (doc Model.Message) :=
  reverse (mg_sort (desc m_sentAt) (mg_find (message_in c) ms)).

(** What a message on screen and a document have in common. *)
Definition show_doc (m : doc Model.Message) : jsstring * jsstring * jsstring :=
  (oid_show m.1, oid_show c, toISOString (m_sentAt m.2)).
Definition shown (v : View.Message) : jsstring * jsstring * jsstring :=
  (View.vm_id v, View.vm_conversationId v, View.vm_sentAt v).

(** ** Pages of the history *)

Context (distinct : ∀ i j m m', (i, m) ∈ history → (j, m') ∈ history →
  m_sentAt m = m_sentAt m' → (i, m) = (j, m')).

Lemma history_sorted : StronglySorted (λ a b : doc Model.Message, m_sentAt a.2 <= m_sentAt b.2) history.
Proof.
  apply (StronglySorted_reverse (λ a b : doc Model.Message, m_sentAt b.2 <= m_sentAt a.2)).
  apply sorted_desc.
Qed.

Lemma elem_of_history i m : (i, m) ∈ history ↔ ms !! i = Some m ∧ message_in c (i, m) = true.
Proof. unfold history. rewrite elem_of_reverse. apply elem_of_sorted_find. Qed.

Lemma history_nodup : NoDup history.*1.
Proof. unfold history. rewrite fmap_reverse, reverse_Permutation. apply sorted_find_nodup. Qed.

(** What a query finds is the part of the history that it selects. *)
Lemma history_query (q : doc Model.Message → bool) :
  reverse (mg_sort (desc m_sentAt) (mg_find (λ m, message_in c m && q m) ms))
  = filter (λ m, q m = true) history.
Proof.
  apply (StronglySorted_unique_strong (λ a b : doc Model.Message, m_sentAt a.2 <= m_sentAt b.2)).
  - intros [i m] [j m'] Hi Hj Hle Hge. rewrite elem_of_reverse, elem_of_sorted_find in Hi.
    destruct Hi as [Hi Hq]. apply andb_prop in Hq as [Hq _].
    apply list_elem_of_filter in Hj as [_ Hj]. apply distinct; [by apply elem_of_history|done|].
    cbn in Hle, Hge. lia.
  - apply (StronglySorted_reverse (λ a b : doc Model.Message, m_sentAt b.2 <= m_sentAt a.2)).
    apply sorted_desc.
  - apply StronglySorted_filter, history_sorted.
  - apply NoDup_Permutation.
    + apply NoDup_fmap_1 with (f := fst). rewrite fmap_reverse, reverse_Permutation.
      apply sorted_find_nodup.
    + apply NoDup_filter, NoDup_fmap_1 with (f := fst), history_nodup.
    + intros [i m]. rewrite elem_of_reverse, elem_of_sorted_find, list_elem_of_filter, elem_of_history.
      rewrite andb_true_iff. tauto.
Qed.

Lemma sorted_lt (l1 l2 : list (doc Model.Message)) (x : doc Model.Message) :
  history = l1 ++ x :: l2 → Forall (λ m, m_sentAt m.2 < m_sentAt x.2) l1
                            ∧ Forall (λ m, m_sentAt x.2 <= m_sentAt m.2) (x :: l2).
Proof.
  intros E. pose proof history_sorted as Hs. rewrite E in Hs.
  apply StronglySorted_app in Hs as (Hcross & _ & Hs2).
  split.
  - apply Forall_forall. intros [i m] Hm. destruct x as [j mx].
    assert (m_sentAt m <= m_sentAt mx) by (apply (Hcross (i, m) (j, mx)); [done|left]).
    assert (m_sentAt m ≠ m_sentAt mx); [|cbn; lia]. intros Et.
    assert ((i, m) = (j, mx)) as Eq.
    { apply distinct; [rewrite E; apply elem_of_app; by left| |done].
      rewrite E. apply elem_of_app. right. left. }
    pose proof history_nodup as Hn. rewrite E, fmap_app in Hn. apply NoDup_app in Hn as (_ & Hn & _).
    apply (Hn i); [by apply (list_elem_of_fmap_2 fst _ (i, m))|]. injection Eq as -> _. left.
  - inversion Hs2; subst. by constructor.
Qed.

(** The part of the history before one of its elements. *)
Lemma history_before l1 x l2 :
  history = l1 ++ x :: l2 →
  filter (λ m, is_before (Some (m_sentAt x.2)) (m_sentAt m.2) = true) history = l1.
Proof.
  intros E. apply sorted_lt in E as Hlt. destruct Hlt as [Hlt1 Hlt2]. rewrite E, filter_app.
  rewrite filter_keeps, filter_drops, app_nil_r; [done| |].
  - eapply Forall_impl; [exact Hlt2|]. cbn. intros m Hm. lia.
  - eapply Forall_impl; [exact Hlt1|]. cbn. intros m Hm. lia.
Qed.

(** ** The answers of the backend *)

Lemma backend_page_docs before limit w page :
  backend_page before limit w page → query_limit limit = num 10 →
  ∃ cursor, before_cursor before w = (Ok cursor, w) ∧
    let older := filter (λ m, is_before cursor (m_sentAt m.2) = true) history in
    map shown page = map show_doc (drop (length older - 10) older).
Proof.
  intros (Hms & payloads & w' & E & ->) Hl. apply getMessages_docs in E
    as (c' & cursor & docs & Hc & Hb & Hd & Hlen & Hk).
  rewrite oid_parse_show in Hc. injection Hc as <-. exists cursor. split; [done|]. cbv zeta.
  rewrite Hl, Math_min_num, limit_pos in Hd by lia.
  rewrite reverse_take, Hms, history_query in Hd.
  assert (length (mg_sort (desc m_sentAt) (mg_find (λ m, message_in c m && is_before cursor (m_sentAt m.2)) ms))
          = length (filter (λ m : doc Model.Message, is_before cursor (m_sentAt m.2) = true) history)) as Hl'.
  { rewrite <-history_query. by rewrite length_reverse. }
  rewrite Hl' in Hd. change (Z.to_nat (Z.min 10 50)) with 10%nat in Hd. rewrite <-Hd.
  apply list_eq. intros k. rewrite !list_lookup_fmap.
  destruct (payloads !! k) as [x|] eqn:Ek; cbn.
  - apply Hk in Ek as (m & Hm & Hf). rewrite Hm. cbn. f_equal. unfold shown, show_doc. cbn.
    rewrite (for_id _ _ _ Hf), (for_sentAt _ _ _ Hf), (for_conversation _ _ _ Hf).
    assert (m ∈ history) as Hin.
    { apply list_elem_of_lookup_2 in Hm. rewrite Hd in Hm.
      eapply elem_of_submseteq in Hm; [|apply submseteq_drop].
      by apply list_elem_of_filter in Hm as [_ ?]. }
    destruct m as [i m]. apply elem_of_history in Hin as [_ Hin].
    unfold message_in in Hin. apply bool_decide_eq_true in Hin. cbn in *. by rewrite Hin.
  - apply lookup_ge_None in Ek. by rewrite lookup_ge_None_2 by lia.
Qed.

Lemma first_page w page :
  backend_page None None w page →
  map shown page = map show_doc (drop (length history - 10) history).
Proof.
  intros Hp. apply backend_page_docs in Hp as (cursor & Hb & Hp); [|done].
  injection Hb as <-. cbv zeta in Hp. by rewrite filter_keeps in Hp by by apply Forall_forall.
Qed.

Lemma older_page w l1 x l2 page :
  history = l1 ++ x :: l2 →
  backend_page (Some (toISOString (m_sentAt x.2))) (Some (js "10")) w page →
  map shown page = map show_doc (drop (length l1 - 10) l1).
Proof.
  intros E Hp. apply backend_page_docs in Hp as (cursor & Hb & Hp).
  - unfold before_cursor in Hb. cbn [given] in Hb.
    destruct (toISOString (m_sentAt x.2)) as [|u t] eqn:Et.
    { pose proof (date_parse_show (m_sentAt x.2)) as Hd. rewrite Et, date_parse_empty in Hd. done. }
    rewrite <-Et in Hb. unfold given in Hb. rewrite Et in Hb. cbn in Hb. rewrite <-Et in Hb.
    rewrite date_parse_show in Hb. injection Hb as <-.
    cbv zeta in Hp. by rewrite (history_before l1 x l2) in Hp.
  - change (query_limit (Some (js "10"))) with (Math_min (to_number (js "10")) (num 50)).
    by rewrite to_number_ten, Math_min_num.
Qed.

(** ** Scrolling *)

Lemma scrolled_history n s :
  scrolled n s →
  ∃ l1 l2, history = l1 ++ l2 ∧ map shown (messages s) = map show_doc l2 ∧
    (hasMoreMessages s = true → length l2 = (10 * n)%nat) ∧
    (hasMoreMessages s = false → l1 = []).
Proof.
  assert (∀ (l : list (doc Model.Message)) (page : list View.Message),
    map shown page = map show_doc (drop (length l - 10) l) →
    length page = (length l `min` 10)%nat) as Hlen.
  { intros l page E. apply (f_equal length) in E. rewrite !length_map, length_drop in E. lia. }
  induction 1 as [s w page events Hp|n s w oldest page Hs IH Hmore Hhead Hp].
  - apply first_page in Hp. exists (take (length history - 10) history), (drop (length history - 10) history).
    split; [by rewrite take_drop|]. split; [done|]. cbn [hasMoreMessages messages_loaded].
    apply Hlen in Hp. split; intros E; cbn in E.
    + rewrite length_drop. lia.
    + replace (length history - 10)%nat with 0%nat by lia. done.
  - destruct IH as (l1 & l2 & E & Hshown & Hl2 & _). specialize (Hl2 Hmore).
    destruct (messages s) as [|m rest] eqn:Em; [done|]. injection Hhead as ->.
    destruct l2 as [|x l2]; [done|]. cbn [map] in Hshown. injection Hshown as Hid Hc Hat Hrest.
    rewrite Hat in Hp. apply (older_page w l1 x l2) in Hp; [|done].
    exists (take (length l1 - 10) l1), (drop (length l1 - 10) l1 ++ x :: l2).
    split; [by rewrite app_assoc, take_drop|].
    unfold older_loaded. cbn [messages hasMoreMessages set_messages set_loadingMessages set_hasMoreMessages].
    split.
    { rewrite !map_app, Em, Hp. f_equal. cbn [map]. unfold shown at 1, show_doc at 2. by rewrite Hid, Hc, Hat, Hrest. }
    apply Hlen in Hp. split; intros Em'.
    + rewrite length_app, length_drop, Hl2. lia.
    + replace (length l1 - 10)%nat with 0%nat by lia. done.
Qed.

Lemma shown_in vs ds v :
  map shown vs = map show_doc ds → v ∈ vs → ∃ d, shown v = show_doc d ∧ d ∈ ds.
Proof.
  intros E Hv. apply (list_elem_of_fmap_2 shown) in Hv.
  change (shown <$> vs) with (map shown vs) in Hv. rewrite E in Hv.
  by apply list_elem_of_fmap in Hv.
Qed.

Lemma shown_timeline vs ds :
  map shown vs = map show_doc ds →
  StronglySorted (λ a b : doc Model.Message, m_sentAt a.2 <= m_sentAt b.2) ds → NoDup ds.*1 →
  timeline_ok (oid_show c) vs.
Proof.
  intros E Hs Hn. split.
  - revert vs E. induction Hs as [|d ds Hs IH Hd]; intros [|v vs] E; try done; [constructor|].
    cbn [map] in E. injection E as Hid Hc Hat E. apply NoDup_cons in Hn as [_ Hn].
    constructor; [by apply IH|].
    apply Forall_forall. intros v' Hv'. apply (shown_in _ _ _ E) in Hv' as (d' & Ed & Hd').
    rewrite Forall_forall in Hd. specialize (Hd _ Hd'). injection Ed as _ _ Hat'.
    unfold sent_time. cbn. rewrite Hat, Hat', !date_parse_show. exact Hd.
  - assert (View.vm_id <$> vs = oid_show <$> ds.*1) as ->.
    { transitivity ((λ x, x.1.1) <$> (shown <$> vs)); [by rewrite <-list_fmap_compose|].
      change (shown <$> vs) with (map shown vs). rewrite E. change (map show_doc ds) with (show_doc <$> ds).
      by rewrite <-!list_fmap_compose. }
    apply NoDup_fmap_2_strong; [|done]. intros i j _ _. apply oid_show_inj.
  - apply Forall_forall. intros v Hv. apply (shown_in _ _ _ E) in Hv as (d & Ed & _).
    by injection Ed.
Qed.

End scroll.

(** ** At concrete inputs: twelve messages, two loads *)

#[local] Instance demo_host_inst : Host := demo_host demo_env.
#[local] Instance demo_mongo_inst : Mongo := list_mongo.
#[local] Instance demo_laws_inst : MongoLaws := list_mongo_laws.
#[local] Instance demo_oids_inst : OidLaws := demo_oid_laws demo_env.
#[local] Instance demo_wire_inst : WireLaws.
Proof. split; reflexivity. Defined.

Definition demo_doc (k : Z) : doc Model.Message :=
  (Oid (100 + Z.to_N k),
   Model.mkMessage (Oid 1) (Oid 5) (js "hi") legacy None k delivery_sent Model.seen_sent None false
     false None None).
Definition demo_history : collection Model.Message := list_to_map (map demo_doc (seqZ 1 12)).
Definition demo_scroll_world : World := upd_messages (λ _, demo_history) empty_world.
Definition demo_moderation (_ : MessageModeration) : option MessageModerationResult := None.

(** The page that the backend answers. *)
Definition demo_page_at (before limit : option jsstring) : list View.Message :=
  match (getMessages (oid_show (Oid 1)) before (query_limit limit) demo_scroll_world).1 with
  | Ok payloads => map (wire_message demo_moderation) payloads
  | _ => []
  end.

Definition demo_first : ChatState := messages_loaded (demo_page_at None None) [] initialState.
Definition demo_second : ChatState :=
  older_loaded (demo_page_at (Some (toISOString 3)) (Some (js "10"))) demo_first.

Lemma demo_backend_page before limit :
  match (getMessages (oid_show (Oid 1)) before (query_limit limit) demo_scroll_world).1 with
  | Ok _ => True | _ => False end →
  backend_page demo_moderation (Oid 1) demo_history before limit demo_scroll_world
    (demo_page_at before limit).
Proof.
  unfold backend_page, demo_page_at. intros E. split; [reflexivity|].
  destruct (getMessages _ before _ demo_scroll_world) as [[payloads|e|] w']; [|contradiction..].
  exists payloads, w'. split; reflexivity.
Qed.

(** No two of them were sent in the same millisecond. *)
Lemma demo_history_distinct i j (m m' : Model.Message) :
  (i, m) ∈ history (Oid 1) demo_history → (j, m') ∈ history (Oid 1) demo_history →
  m_sentAt m = m_sentAt m' → (i, m) = (j, m').
Proof.
  intros Hi Hj E.
  assert (bool_decide (NoDup (map (λ m : doc Model.Message, m_sentAt m.2) (history (Oid 1) demo_history))) = true)
    as Hd by (vm_compute; reflexivity).
  apply bool_decide_eq_true in Hd.
  apply list_elem_of_lookup in Hi as [k Hk], Hj as [k' Hk'].
  assert (k = k') as ->; [|congruence]. eapply (NoDup_lookup _ k k' (m_sentAt m)); [exact Hd| |];
    change (map ?f ?l) with (f <$> l); rewrite list_lookup_fmap, ?Hk, ?Hk'; cbn; congruence.
Qed.

