(* ===== verification/ThreadScroll.v ===== *)
(** * The position of the message thread

    The part of [chat.page.tsx] that moves the thread (lines 372-385, 486, 578, 596, 966-973,
    1018-1032, 1149): whether the reader is near the end, the scroll that is pending until
    the messages change, and the scrolls that were asked for.  A step is a step of [Page]
    with what its handler and the effect on [state.messages] do to the position. *)

From S2P Require Import Prelude JsText Store Model Instance Chat ChatController ChatFacts View ViewFacts Page PageFacts.
From S2P Require Import Scroll.
Open Scope Z_scope.

Section position.
Context `{Window}.

(** [ScrollBehavior], of those the page asks for. *)
Inductive ScrollBehavior := smooth | auto_scroll.

(** The page, [shouldStickToBottomRef], [pendingScrollToLatestMessageRef], and the calls of
    [scrollToLatestMessage]. *)
Record ThreadView := mkThreadView {
  tv_page : Page;
  tv_stick : bool;
  tv_pending : bool;
  tv_scrolls : list ScrollBehavior;
}.

Definition open_thread (p : Page) : ThreadView := mkThreadView p true false [].

(** The heights and the position of the thread, in pixels. *)
Definition near_bottom (scrollHeight scrollTop clientHeight : Z) : bool :=
  scrollHeight - scrollTop - clientHeight <? 80.

Inductive ThreadEvent :=
  | PageEvent_ (e : PageEvent)
  | Scrolled (scrollHeight scrollTop clientHeight : Z).

(** The message of the event is the user's own; its conversation is the one on screen. *)
Definition own_delivery (p : Page) (e : PageEvent) : bool :=
  match e with MessageDelivered _ m => is_current_user (rm_senderId m) p | _ => false end.
Definition active_delivery (p : Page) (e : PageEvent) : bool :=
  match e with MessageDelivered _ m => is_selected (rm_conversationId m) (p_state p) | _ => false end.

(** [handleSend] went past its guards. *)
Definition started_sending (p p' : Page) : bool :=
  negb (sendingMessage (p_state p)) && sendingMessage (p_state p').

(** The step stores another array in [state.messages]: every selection and every answer with
    messages does, and so does a moderation result; [upsertMessage] returns the array itself
    when it holds the message. *)
Definition new_array (p : Page) (e : PageEvent) (p' : Page) : bool :=
  negb (bool_decide (selectedConversationId (p_state p') = selectedConversationId (p_state p)))
  || match e with
     | MessageDelivered _ m =>
         is_selected (rm_conversationId m) (p_state p)
         && negb (existsb (λ item, bool_decide (vm_id item = rm_messageId m)) (messages (p_state p)))
     | ModerationResult _ _ | Selected _ => true
     | Answered id answer =>
         match p_tasks p !! id, answer with
         | Some (GetMessages _ _ _ | RereadMessages _ | OlderMessages _ _), Messages _ _ => true
         | Some (LeaveConversation _), Done => true
         | Some (ListAfterCreate _), Conversations _ => true
         | Some (ListAfterDelete c), Conversations _ => is_selected c (p_state p)
         | _, _ => false
         end
     | _ => false
     end.

(** The scrolls that the handler itself asks for. *)
Definition handler_scrolls (v : ThreadView) (e : PageEvent) : list ScrollBehavior :=
  let p := tv_page v in
  match e with
  | MessageDelivered _ _ =>
      if active_delivery p e && (own_delivery p e || tv_stick v) then [smooth] else []
  | Answered id (Messages _ _) =>
      match p_tasks p !! id with Some (GetMessages _ _ _) => [auto_scroll] | _ => [] end
  | _ => []
  end.

Definition thread_page_step (v : ThreadView) (e : PageEvent) : ThreadView :=
  let p := tv_page v in
  let p' := page_step p e in
  let pending := tv_pending v || started_sending p p' || own_delivery p e in
  let scrolls := tv_scrolls v ++ handler_scrolls v e in
  if new_array p e p' && pending
  then mkThreadView p' (tv_stick v) false (scrolls ++ [auto_scroll])
  else mkThreadView p' (tv_stick v) pending scrolls.

(** [handleScroll]: at the top older messages are asked for. *)
Definition handleScroll (scrollHeight scrollTop clientHeight : Z) (v : ThreadView) : ThreadView :=
  let s := p_state (tv_page v) in
  mkThreadView
    (if (scrollTop =? 0) && hasMoreMessages s && negb (loadingMessages s)
     then page_step (tv_page v) ScrolledToTop else tv_page v)
    (near_bottom scrollHeight scrollTop clientHeight) (tv_pending v) (tv_scrolls v).

Definition thread_step (v : ThreadView) (e : ThreadEvent) : ThreadView :=
  match e with
  | PageEvent_ e => thread_page_step v e
  | Scrolled scrollHeight scrollTop clientHeight => handleScroll scrollHeight scrollTop clientHeight v
  end.
Definition run_thread (v : ThreadView) (events : list ThreadEvent) : ThreadView :=
  foldl thread_step v events.

(** ** Facts *)

(** A reader who has scrolled up is not moved by what other people write. *)
Lemma reader_not_moved v eager m :
  p_hasRestored (tv_page v) = true → tv_stick v = false → tv_pending v = false →
  is_current_user (rm_senderId m) (tv_page v) = false →
  tv_scrolls (thread_page_step v (MessageDelivered eager m)) = tv_scrolls v.
Proof.
  intros Hr Hs Hp Hown. unfold thread_page_step, handler_scrolls. cbn [own_delivery active_delivery].
  rewrite Hs, Hp, Hown, andb_false_r, app_nil_r.
  assert (started_sending (tv_page v) (page_step (tv_page v) (MessageDelivered eager m)) = false) as ->.
  { unfold started_sending, page_step. rewrite effects_sending. cbn [handle].
    rewrite incoming_sending, Hown. by destruct (sendingMessage _). }
  by rewrite andb_false_r.
Qed.

Lemma step_input p e : p_inputValue (page_step p e) = p_inputValue (handle e p).
Proof. apply effects_input. Qed.

Lemma incoming_user eager m p :
  p_currentUser (page_step p (MessageDelivered eager m)) = p_currentUser p.
Proof.
  unfold page_step. rewrite (effects_keep p_currentUser) by done. cbn [handle].
  unfold handleIncomingMessage. by repeat case_match.
Qed.

Lemma own_delivery_clears eager m p : is_current_user (rm_senderId m) p = true →
  p_inputValue (page_step p (MessageDelivered eager m)) = [].
Proof. intros Hown. rewrite step_input. cbn [handle]. unfold handleIncomingMessage. by rewrite Hown. Qed.

(** The array that [upsertMessage] returns holds the message. *)
Lemma upsert_holds ms m :
  existsb (λ item, bool_decide (vm_id item = vm_id m)) (upsertMessage ms m) = true.
Proof.
  unfold upsertMessage. destruct (existsb _ ms) eqn:E; [done|].
  apply existsb_exists. exists m. split; [|by rewrite bool_decide_true].
  apply list_elem_of_In. rewrite sort_by_Permutation. apply elem_of_app. right. by apply list_elem_of_singleton.
Qed.

Lemma thread_page v e : tv_page (thread_page_step v e) = page_step (tv_page v) e.
Proof. unfold thread_page_step. by case_match. Qed.

(** The text that is typed changes nothing the thread depends on. *)
Lemma typing_keeps typed p : p_hasRestored p = true →
  let p' := page_step p (InputChanged typed) in
  p_hasRestored p' = true ∧ p_currentUser p' = p_currentUser p ∧
  selectedConversationId (p_state p') = selectedConversationId (p_state p) ∧
  messages (p_state p') = messages (p_state p).
Proof.
  intros Hr p'. unfold p', page_step. cbn [handle].
  assert (p_hasRestored (handleInputChange typed p) = true) as Hr'.
  { unfold handleInputChange. by repeat case_match. }
  rewrite effects_restored, (effects_keep p_currentUser) by done.
  split; [by apply effects_hasRestored|].
  unfold handleInputChange, input_changed. by repeat case_match.
Qed.

(** What [loadMoreMessages] looks at. *)
Definition loads (s : ChatState) : bool * bool := (hasMoreMessages s, loadingMessages s).

Lemma incoming_loads eager m p : p_hasRestored p = true →
  loads (p_state (page_step p (MessageDelivered eager m))) = loads (p_state p).
Proof.
  intros Hr. unfold page_step. cbn [handle].
  rewrite effects_restored; unfold handleIncomingMessage; by repeat case_match.
Qed.

Lemma typing_loads typed p : p_hasRestored p = true →
  loads (p_state (page_step p (InputChanged typed))) = loads (p_state p).
Proof.
  intros Hr. unfold page_step. cbn [handle].
  rewrite effects_restored; unfold handleInputChange, input_changed; by repeat case_match.
Qed.

(** Scrolling to the top asks for the messages before the oldest one. *)
Lemma top_asks p c oldest rest : p_hasRestored p = true →
  selectedConversationId (p_state p) = Some c → messages (p_state p) = oldest :: rest →
  loads (p_state p) = (true, false) →
  page_step p ScrolledToTop =
    ask (OlderMessages c (vm_sentAt oldest)) (setState (set_loadingMessages true) p).
Proof.
  intros Hr Hs Hm [= Hh Hl]. unfold page_step. cbn [handle].
  assert (loadMoreMessages p
    = ask (OlderMessages c (vm_sentAt oldest)) (setState (set_loadingMessages true) p)) as ->.
  { unfold loadMoreMessages. by rewrite Hs, Hm, Hh, Hl. }
  by apply effects_same.
Qed.

(** The answer, with a scroll pending. *)
Lemma older_jumps v h ch c oldest rest older : let p := tv_page v in
  p_hasRestored p = true → selectedConversationId (p_state p) = Some c →
  messages (p_state p) = oldest :: rest → loads (p_state p) = (true, false) → tv_pending v = true →
  let v' := run_thread v [Scrolled h 0 ch; PageEvent_ (Answered (p_next p) (Messages older []))] in
  messages (p_state (tv_page v')) = older ++ messages (p_state p) ∧
  tv_scrolls v' = tv_scrolls v ++ [auto_scroll] ∧ tv_pending v' = false.
Proof.
  intros p Hr Hs Hm Hl Hp v'. pose proof (top_asks p c oldest rest Hr Hs Hm Hl) as Ht.
  injection Hl as Hh Hn. unfold v', run_thread. cbn [foldl thread_step]. unfold handleScroll.
  fold p. rewrite Hh, Hn, Z.eqb_refl. cbn [andb negb]. rewrite Ht, Hp.
  unfold thread_page_step, new_array, handler_scrolls. cbn [tv_page tv_pending tv_scrolls tv_stick].
  unfold page_step. cbn [handle p_tasks ask]. rewrite lookup_insert_eq. cbn [on_answer orb].
  rewrite orb_true_r. cbn [andb tv_page tv_scrolls tv_pending].
  by rewrite effects_restored, app_nil_r.
Qed.

(** A message of one's own that is delivered for the second time, as the backend does to a
    member who has the conversation open, adds nothing to the thread but empties the input
    again, and leaves a scroll pending that no change of the messages consumes: when the
    reader then scrolls to the top, the older messages that come throw the thread back to
    its end. *)
Lemma own_echo_jumps v eager eager' m typed h ch older :
  let p := tv_page v in
  p_hasRestored p = true → is_current_user (rm_senderId m) p = true →
  selectedConversationId (p_state p) = Some (rm_conversationId m) →
  let v1 := thread_page_step v (MessageDelivered eager m) in
  let v2 := thread_page_step (thread_page_step v1 (InputChanged typed)) (MessageDelivered eager' m) in
  let p2 := tv_page v2 in
  messages (p_state p2) = messages (p_state (tv_page v1)) ∧
  p_inputValue p2 = [] ∧ tv_pending v2 = true ∧
  (hasMoreMessages (p_state p) = true → loadingMessages (p_state p) = false →
   let v3 := run_thread v2
     [Scrolled h 0 ch; PageEvent_ (Answered (p_next p2) (Messages older []))] in
   messages (p_state (tv_page v3)) = older ++ messages (p_state p2) ∧
   tv_scrolls v3 = tv_scrolls v2 ++ [auto_scroll]).
Proof.
  intros p Hr Hown Hsel v1 v2 p2.
  destruct (incoming_step eager m p Hr) as (Hr1 & Hs1 & Hm1).
  pose proof (incoming_loads eager m p Hr) as Hl1.
  assert (tv_page v1 = page_step p (MessageDelivered eager m)) as E1 by apply thread_page.
  set (p1 := page_step p (MessageDelivered eager m)) in *.
  destruct (typing_keeps typed p1 Hr1) as (Hrt & Hut & Hst & Hmt).
  pose proof (typing_loads typed p1 Hr1) as Hlt.
  set (pt := page_step p1 (InputChanged typed)) in *.
  assert (tv_page (thread_page_step v1 (InputChanged typed)) = pt) as Et by (by rewrite thread_page, E1).
  destruct (incoming_step eager' m pt Hrt) as (Hr2 & Hs2 & Hm2).
  pose proof (incoming_loads eager' m pt Hrt) as Hl2.
  assert (p2 = page_step pt (MessageDelivered eager' m)) as E2 by (unfold p2, v2; by rewrite thread_page, Et).
  assert (is_selected (rm_conversationId m) (p_state p) = true) as Hin by (by apply bool_decide_eq_true).
  assert (is_selected (rm_conversationId m) (p_state pt) = true) as Hint
    by (apply bool_decide_eq_true; congruence).
  assert (is_current_user (rm_senderId m) pt = true) as Howt.
  { unfold is_current_user in *. rewrite Hut. unfold p1. by rewrite incoming_user. }
  rewrite Hin in Hm1. rewrite Hint, Hmt, Hm1, upsertMessage_twice in Hm2.
  assert (tv_pending v2 = true) as Hp2.
  { unfold v2, thread_page_step at 1. rewrite Et. cbn [own_delivery]. rewrite Howt, orb_true_r.
    assert (new_array pt (MessageDelivered eager' m) (page_step pt (MessageDelivered eager' m)) = false)
      as ->; [|done].
    unfold new_array. rewrite Hs2, bool_decide_true by done. cbn [negb orb]. rewrite Hint, Hmt, Hm1.
    change (rm_messageId m) with (vm_id (mapRealtimeMessage m)). by rewrite upsert_holds. }
  split_and!; [by rewrite E2, Hm2, E1, Hm1| |done|].
  - rewrite E2. by apply own_delivery_clears.
  - intros Hh Hn v3.
    destruct (messages (p_state p2)) as [|oldest rest] eqn:Em.
    { pose proof (upsert_holds (messages (p_state p)) (mapRealtimeMessage m)) as Hu.
      rewrite <-Hm2, <-E2, Em in Hu. done. }
    destruct (older_jumps v2 h ch (rm_conversationId m) oldest rest older) as (Ha & Hb & _);
      [by fold p2; rewrite E2|fold p2; rewrite E2; congruence|exact Em| |exact Hp2|].
    + fold p2. rewrite E2, Hl2, Hlt, Hl1. unfold loads. by rewrite Hh, Hn.
    + fold p2 in Ha, Hb. by rewrite Em in Ha.
Qed.
End position.

(** ** The re-read of a read receipt *)

Section receipt.
Context `{Host} `{!OidLaws} `{MongoLaws} `{!WireLaws}.
Context (moderation : MessageModeration → option MessageModerationResult).
Context (c : oid) (ms : collection Model.Message).
Context (distinct : ∀ i j m m', (i, m) ∈ history c ms → (j, m') ∈ history c ms →
  m_sentAt m = m_sentAt m' → (i, m) = (j, m')).

(** The page asks for the messages again, without [before] and [limit]. *)
Lemma receipt_asks p : p_hasRestored p = true →
  selectedConversationId (p_state p) = Some (oid_show c) →
  page_step p (ConversationRead (oid_show c)) =
    ask (RereadMessages (oid_show c)) (setState (unread_set (oid_show c) 0) p).
Proof.
  intros Hr Hs. unfold page_step. cbn [handle]. unfold handleConversationRead.
  unfold is_selected at 1. rewrite Hs, bool_decide_true by done. by apply effects_same.
Qed.

(** C8: When somebody reads the open conversation, the page asks for its latest messages and
    stores them in place of all it had loaded.  A reader who has scrolled up to the first
    message is left with the last ten, and scrolling up loads nothing, as the page still
    holds that nothing more is there. *)
Theorem read_receipt_cuts_history n p w page events :
  scrolled moderation c ms n (p_state p) → hasMoreMessages (p_state p) = false →
  p_hasRestored p = true → selectedConversationId (p_state p) = Some (oid_show c) →
  backend_page moderation c ms None None w page →
  let p1 := page_step p (ConversationRead (oid_show c)) in
  let p2 := page_step p1 (Answered (p_next p) (Messages page events)) in
  map shown (messages (p_state p)) = map (show_doc c) (history c ms) ∧
  map shown (messages (p_state p2))
    = map (show_doc c) (drop (length (history c ms) - 10) (history c ms)) ∧
  page_step p2 ScrolledToTop = p2.
Proof.
  intros Hscr Hmore Hr Hsel Hpage p1 p2.
  assert (p2 = setState (set_messages page)
    (forget (p_next p) (ask (RereadMessages (oid_show c)) (setState (unread_set (oid_show c) 0) p)))) as E2.
  { unfold p2, p1. rewrite receipt_asks by done. unfold page_step. cbn [handle p_tasks ask].
    rewrite lookup_insert_eq. cbn [on_answer]. by apply effects_same. }
  split_and!.
  - destruct (scrolled_history moderation c ms distinct n _ Hscr) as (l1 & l2 & E & Hshown & _ & Hend).
    by rewrite Hshown, E, (Hend Hmore).
  - rewrite E2. cbn. by eapply (first_page moderation c ms distinct).
  - unfold page_step. cbn [handle].
    assert (loadMoreMessages p2 = p2) as ->.
    { unfold loadMoreMessages. rewrite E2. cbn. rewrite Hsel. destruct page; [done|]. cbn.
      by rewrite Hmore. }
    apply effects_same; [by rewrite E2|done].
Qed.
End receipt.

(** ** At concrete inputs *)

Section demo.
#[local] Existing Instance PageFacts.demo_window.

Definition demo_own_thread : ThreadView := open_thread (demo_page demo_open).
Definition demo_echo : ThreadView :=
  run_thread demo_own_thread
    [PageEvent_ (MessageDelivered true (demo_delivery (js "A") (js "u1") 21));
     PageEvent_ (InputChanged (js "next"));
     PageEvent_ (MessageDelivered true (demo_delivery (js "A") (js "u1") 21))].

Lemma own_echo_jumps_example :
  let older := map (demo_message (js "A") (js "u2")) (seqZ 1 10) in
  let v := run_thread demo_echo
    [Scrolled 1000 0 400; PageEvent_ (Answered (p_next (tv_page demo_echo)) (Messages older []))] in
  p_inputValue (tv_page demo_echo) = [] ∧
  tv_scrolls demo_echo = [smooth; auto_scroll; smooth] ∧
  tv_scrolls v = [smooth; auto_scroll; smooth; auto_scroll] ∧
  length (messages (p_state (tv_page v))) = 21%nat.
Proof.
  cbv zeta.
  edestruct (own_echo_jumps demo_own_thread true true (demo_delivery (js "A") (js "u1") 21)
    (js "next") 1000 400 (map (demo_message (js "A") (js "u2")) (seqZ 1 10)))
    as (_ & Hi & _ & Hold); [vm_compute; reflexivity..|].
  destruct Hold as [_ Hs]; [vm_compute; reflexivity|vm_compute; reflexivity|].
  split; [exact Hi|]. split; [vm_compute; reflexivity|].
  split; [|vm_compute; reflexivity].
  etransitivity; [exact Hs|]. vm_compute. reflexivity.
Defined.

End demo.

#[local] Instance receipt_host_inst : Host := demo_host demo_env.
#[local] Instance receipt_mongo_inst : Mongo := list_mongo.
#[local] Instance receipt_laws_inst : MongoLaws := list_mongo_laws.
#[local] Instance receipt_oids_inst : OidLaws := demo_oid_laws demo_env.
#[local] Instance receipt_wire_inst : WireLaws.
Proof. split; reflexivity. Defined.

(** The twelve messages of [Scroll], in an open page. *)
Definition receipt_first : ChatState :=
  messages_loaded (demo_page_at None None) []
    (set_selectedConversationId (Some (oid_show (Oid 1))) initialState).
Definition receipt_page : Page :=
  setState (λ _, older_loaded (demo_page_at (Some (toISOString 3)) (Some (js "10"))) receipt_first)
    (set_restored (open_page None None)).

Lemma read_receipt_cuts_history_witness :
  let p1 := page_step receipt_page (ConversationRead (oid_show (Oid 1))) in
  let p2 := page_step p1 (Answered (p_next receipt_page) (Messages (demo_page_at None None) [])) in
  length (messages (p_state receipt_page)) = 12%nat ∧
  length (messages (p_state p2)) = 10%nat ∧ page_step p2 ScrolledToTop = p2.
Proof.
  assert (scrolled demo_moderation (Oid 1) demo_history 2 (p_state receipt_page)) as Hs.
  { eapply (scrolled_older _ _ _ 1 receipt_first demo_scroll_world);
      [|vm_compute; reflexivity|vm_compute; reflexivity|].
    - eapply scrolled_first. apply demo_backend_page. vm_compute. exact I.
    - change (backend_page demo_moderation (Oid 1) demo_history (Some (toISOString 3))
        (Some (js "10")) demo_scroll_world (demo_page_at (Some (toISOString 3)) (Some (js "10")))).
      apply demo_backend_page. vm_compute. exact I. }
  destruct (read_receipt_cuts_history demo_moderation (Oid 1) demo_history demo_history_distinct 2
    receipt_page demo_scroll_world (demo_page_at None None) [] Hs) as (_ & _ & Ht);
    [vm_compute; reflexivity..| |].
  { apply demo_backend_page. vm_compute. exact I. }
  split; [vm_compute; reflexivity|]. split; [vm_compute; reflexivity|]. exact Ht.
Defined.
