(* ===== verification/Reconnect.v ===== *)
(** * A lost connection

    The realtime client of [chat-socket.service.ts] composed with the page that listens to
    it ([chat.page.tsx], the effect at 785-846): what a connection that breaks and comes back
    makes the page do. *)

From S2P Require Import Prelude JsText Store Model Instance Chat ChatController ChatFacts View ViewFacts Page PageFacts.
From S2P Require Import Scroll ThreadScroll SocketClient SocketFacts.
Open Scope Z_scope.

(** What the page's listeners make of a notice; the page has one listener of each kind. *)
Definition page_event (n : Notice) : PageEvent :=
  match n with
  | NMessage m => MessageDelivered true m
  | NPreview preview => PreviewUpdated true preview
  | NConnection state => ConnectionState state
  | NRead c => ConversationRead c
  | NTyping typing => TypingPresence typing
  | NModeration c result => ModerationResult c result
  | NError error => Page.SocketError error
  end.

(** What listener [l] has been told between two states of the service. *)
Definition told_since (l : nat) (s s' : ChatSocketService) : list Notice :=
  snd <$> filter (λ x, x.1 = l) (drop (length (cs_notices s)) (cs_notices s')).
Definition sent_since (s s' : ChatSocketService) : list SocketClient.Emission :=
  snd <$> drop (length (cs_wire s)) (cs_wire s').

(** The connection breaks, attempts fail while the page goes on calling and calls time out,
    and one attempt succeeds. *)
Definition during_outage (e : ServiceEvent) : Prop :=
  match e with ReconnectAttempt | ConnectError _ _ _ | Called _ | CallTimeout _ => True | _ => False end.
Definition outage (attempts : list ServiceEvent) : list ServiceEvent :=
  SocketDisconnect true :: attempts ++ [SocketConnect].

(** The calls of the page that neither a failed attempt nor their timer has ended, with their
    numbers; the next call has number [n]. *)
Definition asked_step (x : nat * list (nat * SocketClient.Emission)) (e : ServiceEvent)
    : nat * list (nat * SocketClient.Emission) :=
  match e with
  | Called e => (S x.1, x.2 ++ [(x.1, e)])
  | ConnectError _ _ _ => (x.1, [])
  | CallTimeout id => (x.1, filter (λ c, c.1 ≠ id) x.2)
  | _ => x
  end.
Definition asked (n : nat) (attempts : list ServiceEvent) : list SocketClient.Emission :=
  snd <$> (foldl asked_step (n, []) attempts).2.

(** ** The service during an outage *)

Definition quiet_notice (n : Notice) : Prop :=
  match n with NConnection _ | NError _ => True | _ => False end.

(** Only quiet notices are added. *)
Definition quiet (s s' : ChatSocketService) : Prop :=
  ∃ extra, cs_notices s' = cs_notices s ++ extra ∧ Forall (λ x, quiet_notice x.2) extra.

#[local] Instance quiet_preorder : PreOrder quiet.
Proof.
  split; [intros s; exists []; by rewrite app_nil_r|].
  intros s1 s2 s3 (l & E & Hl) (l' & E' & Hl'). exists (l ++ l').
  rewrite E', E, app_assoc. split; [done|]. by apply Forall_app.
Qed.

Lemma quiet_same s s' : cs_notices s' = cs_notices s → quiet s s'.
Proof. intros E. exists []. by rewrite app_nil_r. Qed.

Lemma quiet_listeners n s : quiet_notice n → quiet s (call_listeners n s).
Proof. intros Hn. eexists. split; [done|]. apply Forall_fmap, Forall_forall. by intros. Qed.

Lemma quiet_call e s : is_Some (cs_socket s) → quiet s (call e s).
Proof.
  intros [k Hk]. apply quiet_same. unfold call.
  assert (∀ s', cs_socket s' = cs_socket s → cs_notices s' = cs_notices s →
    cs_notices (emitWithAck e s') = cs_notices s) as He.
  { intros s' Es En. unfold emitWithAck. rewrite Es, Hk. by repeat case_match. }
  destruct e; apply He; try done; by case_match.
Qed.

(** The socket is down, [calls] wait for it, the next call has number [n], and nothing is sent. *)
Record down (k : nat) (wire : list (nat * SocketClient.Emission))
    (x : nat * list (nat * SocketClient.Emission)) (s : ChatSocketService) : Prop := {
  dn_socket : ∃ active, cs_socket s = Some (mkSocket k false active);
  dn_fresh : calls_fresh s;
  dn_wire : cs_wire s = wire;
  dn_next : cs_next s = x.1;
  dn_waiting : waiting_calls k s = x.2;
}.

Lemma down_rejected k active error s :
  calls_fresh s → cs_socket s = Some (mkSocket k false active) →
  down k (cs_wire s) (cs_next s, []) (reject_waiting k error s).
Proof.
  intros Hf Hs. split; try done; [by exists active|by apply calls_fresh_map|].
  apply waiting_calls_rejected.
Qed.

Lemma down_called k wire x e s : down k wire x s → down k wire (S x.1, x.2 ++ [(x.1, e)]) (call e s).
Proof.
  intros [[active Hk] Hf Hw Hn Hq].
  assert (∀ s' a, cs_socket s' = Some (mkSocket k false a) → cs_calls s' = cs_calls s →
    cs_next s' = cs_next s → cs_wire s' = cs_wire s →
    down k wire (S x.1, x.2 ++ [(x.1, e)]) (new_call (mkSocketCall k e WaitingForConnection) [] s')) as Hd.
  { intros s' a Es Ec En Ew. split; cbn [fst snd].
    - by exists a.
    - apply calls_fresh_new. unfold calls_fresh. by rewrite Ec, En.
    - cbn. by rewrite app_nil_r, Ew.
    - cbn. by rewrite En, Hn.
    - rewrite waiting_calls_called, En, Hn. f_equal. rewrite <-Hq.
      unfold waiting_calls. by rewrite Ec, En. }
  assert (∀ s', cs_socket s' = cs_socket s → cs_calls s' = cs_calls s → cs_next s' = cs_next s →
    cs_wire s' = cs_wire s → down k wire (S x.1, x.2 ++ [(x.1, e)]) (emitWithAck e s')) as He.
  { intros s' Es Ec En Ew. unfold emitWithAck. rewrite Es, Hk. cbn [sk_connected sk_active sk_id].
    destruct active; [apply (Hd s' true)|apply (Hd _ true)]; try done; cbn; congruence. }
  unfold call. destruct e; apply He; cbn; try done; by case_match.
Qed.

Lemma down_timeout k wire x id s :
  down k wire x s → down k wire (x.1, filter (λ c, c.1 ≠ id) x.2) (service_step s (CallTimeout id)).
Proof.
  intros [[active Hk] Hf Hw Hn Hq]. split; cbn [fst snd].
  - exists active. cbn. by repeat case_match.
  - by apply calls_fresh_step.
  - cbn. by repeat case_match.
  - cbn. by repeat case_match.
  - by rewrite waiting_calls_timeout, Hq.
Qed.

Lemma down_step k wire x e s :
  during_outage e → down k wire x s →
  down k wire (asked_step x e) (service_step s e) ∧ quiet s (service_step s e).
Proof.
  intros He Hd. pose proof Hd as [[active Hk] Hf Hw Hn Hq]. destruct e; try done.
  - split; [by apply down_called|]. apply quiet_call. by rewrite Hk.
  - cbn [service_step asked_step]. rewrite Hk.
    split; [|etrans; [|by apply quiet_listeners]; by apply quiet_same]. by split; [exists active|..].
  - cbn [service_step asked_step]. rewrite Hk. unfold on_connect_error. cbn [sk_id]. split.
    + rewrite <-Hw, <-Hn. set (s2 := emitError _ _).
      exact (down_rejected k active0 (connection_error data message) s2 Hf eq_refl).
    + etrans; [|by apply quiet_same]. etrans; [|by apply quiet_listeners].
      etrans; [|by apply quiet_listeners]. by apply quiet_same.
  - split; [by apply down_timeout|]. apply quiet_same. cbn. by repeat case_match.
Qed.

Lemma down_run k wire x attempts s :
  Forall during_outage attempts → down k wire x s →
  down k wire (foldl asked_step x attempts) (foldl service_step s attempts) ∧
  quiet s (foldl service_step s attempts).
Proof.
  intros He. revert x s. induction He as [|e attempts He _ IH]; intros x s Hd; [done|].
  destruct (down_step k wire x e s He Hd) as [Hd1 Hq1].
  destruct (IH _ _ Hd1) as [Hd2 Hq2]. cbn in *. split; [done|]. by etrans.
Qed.

(** The service until the connection is back: what it tells the page, and what waits. *)
Lemma outage_down before attempts k :
  Forall during_outage attempts → cs_socket (serve before) = Some k →
  let s1 := serve (before ++ SocketDisconnect true :: attempts) in
  down (sk_id k) (cs_wire (serve before)) (foldl asked_step (cs_next (serve before), []) attempts) s1 ∧
  quiet (serve before) s1.
Proof.
  intros Ha Hk s1. unfold s1, serve. rewrite foldl_app. fold (serve before).
  pose proof (calls_fresh_serve before) as Hf. revert Hk Hf. generalize (serve before). intros s Hk Hf.
  cbn [foldl service_step]. rewrite Hk. unfold on_disconnect. set (s2 := setConnectionState _ _).
  assert (down (sk_id k) (cs_wire s) (cs_next s, []) (reject_waiting (sk_id k) socket_not_ready s2)) as Hd
    by exact (down_rejected (sk_id k) true socket_not_ready s2 Hf eq_refl).
  destruct (down_run _ _ _ attempts _ Ha Hd) as [Hd' Hq']. split; [done|]. etrans; [|done].
  etrans; [|by apply quiet_same]. etrans; [|by apply quiet_listeners]. by apply quiet_same.
Qed.

Lemma quiet_connected s k : cs_socket s = Some k → quiet s (service_step s SocketConnect).
Proof.
  intros Hs. cbn [service_step]. rewrite Hs. unfold on_connect. set (s2 := setConnectionState _ _).
  transitivity s2.
  { unfold s2, setConnectionState. etrans; [|by apply quiet_listeners]. by apply quiet_same. }
  etrans; [|by apply (quiet_same (match cs_activeConversationId s2 with
    | Some c => if truthy c then call (join_conversation c) s2 else s2 | None => s2 end))].
  destruct (cs_activeConversationId s2) as [c|]; [|done]. destruct (truthy c); [|done].
  apply quiet_call. by eexists.
Qed.

(** The service over a whole outage: what it tells the page, and what it sends. *)
Lemma outage_run before attempts :
  Forall during_outage attempts → is_Some (cs_socket (serve before)) →
  let s := serve before in
  let s' := serve (before ++ outage attempts) in
  quiet s s' ∧
  sent_since s s' =
    (match wanted (before ++ attempts) with
     | Some c => if truthy c then [join_conversation c] else []
     | None => []
     end) ++ asked (cs_next s) attempts.
Proof.
  intros Ha [k Hk] s s'. destruct (outage_down before attempts k Ha Hk) as [Hd Hq].
  set (s1 := serve (before ++ SocketDisconnect true :: attempts)) in *.
  assert (s' = service_step s1 SocketConnect) as ->.
  { unfold s', s1, outage, serve. by rewrite app_comm_cons, app_assoc, foldl_snoc. }
  assert (cs_activeConversationId s1 = wanted (before ++ attempts)) as Hactive.
  { unfold s1. rewrite active_wanted. unfold wanted. by rewrite !foldl_app. }
  destruct Hd as [[active Hs1] Hf Hw _ Hwait]. split.
  - etrans; [exact Hq|]. by eapply quiet_connected.
  - unfold sent_since. rewrite (connect_wire s1 _ Hf Hs1), Hw, drop_app_length, Hactive. cbn [sk_id].
    rewrite waiting_calls_emissions, Hwait, fmap_app. f_equal;
      [destruct (wanted _) as [c|]; [destruct (truthy c)|]; done|].
    unfold asked. rewrite <-list_fmap_compose. done.
Qed.

(** ** The page during an outage *)

Section page.
Context `{Window}.

(** What a page holds of the conversations. *)
Definition content (p : Page) :=
  (p_hasRestored p, messages (p_state p), conversations (p_state p), membershipEvents (p_state p),
   selectedConversationId (p_state p), p_tasks p).

Lemma quiet_content n p : quiet_notice n → p_hasRestored p = true →
  content (page_step p (page_event n)) = content p.
Proof.
  intros Hn Hr. unfold page_step.
  rewrite effects_same; destruct n; try done; cbn [page_event handle]; done.
Qed.

Lemma quiet_run ns p : Forall quiet_notice ns → p_hasRestored p = true →
  content (run_page p (page_event <$> ns)) = content p.
Proof.
  intros Hn. revert p. induction Hn as [|n ns Hn _ IH]; intros p Hr; [done|].
  pose proof (quiet_content n p Hn Hr) as E. cbn. unfold run_page in IH. rewrite IH; [done|].
  by injection E as ->.
Qed.

(** C25: Nothing is made up for after an outage.  When the connection breaks and comes back,
    after whatever failed attempts and whatever the page asked meanwhile, the client sends
    the join of the conversation that is open, if there is one, then the calls made since the
    last failed attempt that have not timed out, in order, and nothing else; and the page asks
    the backend for nothing and keeps the messages it had.  A message that was sent in the meantime stays
    missing although later ones are shown. *)
Theorem outage_leaves_gap before attempts l p missed later :
  Forall during_outage attempts → is_Some (cs_socket (serve before)) → p_hasRestored p = true →
  let s := serve before in
  let s' := serve (before ++ outage attempts) in
  let p' := run_page p (page_event <$> told_since l s s') in
  sent_since s s' =
    (match wanted (before ++ attempts) with
     | Some c => if truthy c then [join_conversation c] else []
     | None => []
     end) ++ asked (cs_next s) attempts ∧
  p_tasks p' = p_tasks p ∧ messages (p_state p') = messages (p_state p) ∧
  (missed ∉ vm_id <$> messages (p_state p) → rm_messageId later ≠ missed →
   selectedConversationId (p_state p) = Some (rm_conversationId later) →
   let shown := messages (p_state (page_step p' (page_event (NMessage later)))) in
   rm_messageId later ∈ vm_id <$> shown ∧ missed ∉ vm_id <$> shown).
Proof.
  intros Ha Hs Hr s s' p'. destruct (outage_run before attempts Ha Hs) as [(extra & En & Hq) Hsent].
  fold s s' in En, Hsent.
  assert (content p' = content p) as E.
  { apply quiet_run; [|done]. unfold told_since. rewrite En, drop_app_length.
    apply Forall_fmap, Forall_forall. intros x [_ Hx]%list_elem_of_filter.
    rewrite Forall_forall in Hq. by apply Hq. }
  injection E as Er Em _ _ Esel Et. split_and!; [done..|].
  intros Hmiss Hne Hsel shown. cbn [page_event] in shown.
    destruct (incoming_step true later p') as (_ & _ & Hm); [congruence|].
    unfold shown. rewrite Hm. unfold is_selected. rewrite Esel, Hsel, bool_decide_true by done.
    rewrite Em. change (rm_messageId later) with (vm_id (mapRealtimeMessage later)).
    split; [apply upsertMessage_in|]. rewrite upsertMessage_Permutation.
    case_bool_decide; [done|]. rewrite fmap_app, elem_of_app. intros [Hin|Hin]; [done|].
    apply list_elem_of_singleton in Hin. done.
Qed.
End page.

(** ** At a concrete input: the page of [PageFacts] misses message 22 *)

Section demo.
#[local] Existing Instance PageFacts.demo_window.

Definition demo_before : list ServiceEvent :=
  [ConnectCalled; SocketConnect; Subscribed KConnection 0; Subscribed KMessage 0;
   Called (join_conversation (js "A"))].
Definition demo_attempts : list ServiceEvent :=
  [ReconnectAttempt; Called (typing_presence_updated (js "A") true);
   ConnectError true None (js "timeout"); Called (typing_presence_updated (js "A") false);
   CallTimeout 2; ReconnectAttempt; Called (mark_conversation_read (js "A"))].

Lemma outage_leaves_gap_witness :
  let s' := serve (demo_before ++ outage demo_attempts) in
  let p' := run_page (demo_page demo_open) (page_event <$> told_since 0 (serve demo_before) s') in
  let shown := messages (p_state (page_step p' (page_event (NMessage (demo_delivery (js "A") (js "u2") 23))))) in
  sent_since (serve demo_before) s' = [join_conversation (js "A"); mark_conversation_read (js "A")] ∧
  told_since 0 (serve demo_before) s'
    = [NConnection disconnected; NConnection reconnecting; NConnection reconnecting;
       NConnection reconnecting; NConnection connected] ∧
  js "A" ++ [23] ∈ vm_id <$> shown ∧ js "A" ++ [22] ∉ vm_id <$> shown.
Proof.
  cbv zeta.
  destruct (outage_leaves_gap demo_before demo_attempts 0 (demo_page demo_open) (js "A" ++ [22])
    (demo_delivery (js "A") (js "u2") 23)) as (Hsent & _ & _ & Hgap).
  - repeat constructor.
  - vm_compute. by eexists.
  - vm_compute. reflexivity.
  - split; [rewrite Hsent; vm_compute; reflexivity|]. split; [vm_compute; reflexivity|].
    apply Hgap; [|discriminate|vm_compute; reflexivity].
    apply (bool_decide_unpack _). vm_compute. exact I.
Defined.
End demo.
