(* ===== verification/Delivery.v ===== *)
(** * A message, from the composer to the other pages

    The gateway's [handleSendMessage] composed with the processor, with socket.io's rooms
    and with the page of every member: what the sender typed is what they see. *)

From S2P Require Import Prelude JsText Wire Driver Store Model Instance Encryption Chat ChatSend Ai Invariants Gateway GatewayFacts View ViewFacts Page PageFacts Scroll.
Open Scope Z_scope.

(** ** Trimming twice *)

Definition starts_plain (s : jsstring) : Prop :=
  match s with u :: _ => is_space u = false | [] => True end.

Lemma trim_start_plain s : starts_plain (trim_start s).
Proof. induction s as [|u s IH]; cbn; [done|]. destruct (is_space u) eqn:E; [exact IH|exact E]. Qed.
Lemma trim_start_id s : starts_plain s → trim_start s = s.
Proof. destruct s as [|u s]; cbn; [done|]. by intros ->. Qed.
Lemma trim_start_suffix s : ∃ spaces, s = spaces ++ trim_start s.
Proof.
  induction s as [|u s [spaces IH]]; cbn; [by exists []|]. destruct (is_space u); [|by exists []].
  exists (u :: spaces). cbn. by rewrite <-IH.
Qed.

Lemma trim_idem s : trim (trim s) = trim s.
Proof.
  unfold trim at 1. rewrite (trim_start_id (trim s)).
  - unfold trim. rewrite reverse_involutive. by rewrite (trim_start_id (trim_start _)) by apply trim_start_plain.
  - unfold trim. destruct (trim_start_suffix (reverse (trim_start s))) as [spaces E].
    apply (f_equal reverse) in E. rewrite reverse_involutive, reverse_app in E.
    pose proof (trim_start_plain s) as Hp. rewrite E in Hp.
    by destruct (reverse (trim_start _)).
Qed.

(** ** The payload of a text message *)

Section payload.
Context `{Host} `{!OidLaws} `{MongoLaws}.

(** A text that was sent is stored in its form, and the processor has been asked once. *)
Lemma send_text_Ok c sender content kept att isAICommand w r w' :
  truthy (trim content) = true → survives (trim content) (oid_show c) kept w →
  given att = None →
  sendMessage (oid_show c) sender content att isAICommand w = (Ok r, w') →
  m_content (sr_message r).2 = st_content (stored_form kept) ∧
  m_reverseEncryptionState (sr_message r).2 = st_reverseEncryptionState (stored_form kept) ∧
  m_conversationId (sr_message r).2 = c ∧
  w_chat_next_id w' = w_chat_next_id (consulted w).
Proof.
  intros Htruthy Hsurvives Hatt E.
  pose proof (sendMessage_cases (oid_show c) sender content att isAICommand w) as Hs.
  rewrite E in Hs. destruct Hs as (c' & s & me & a & st & t1 & t2 & S).
  pose proof (sent_conversation _ _ _ _ _ _ _ _ _ _ _ _ _ _ _ S) as Hc'.
  pose proof (sent_sender _ _ _ _ _ _ _ _ _ _ _ _ _ _ _ S) as Hs.
  pose proof (sent_me _ _ _ _ _ _ _ _ _ _ _ _ _ _ _ S) as Hme. clear S.
  rewrite oid_parse_show in Hc'. injection Hc' as <-.
  destruct (run_restore (oid_show c) sender c w (oid_parse_show c)) as [l El].
  pose proof (run_encryptForStorage (trim content) kept (mkContext sender (oid_show c))
    (put_participants (restore_peers w c sender) w) Hsurvives) as Henc.
  set (w1 := consulted _) in Henc.
  unfold sendMessage in E. rewrite Htruthy, Hatt in E. cbn [negb andb throw_if given] in E.
  rewrite run_bind in E. cbn [mret M_ret] in E.
  rewrite run_bind, run_getRequired, oid_parse_show, Hs, Hme in E.
  rewrite run_bind, El, run_bind in E. cbn [mret M_ret] in E. rewrite run_bind in E.
  cbn [mret M_ret] in E. rewrite run_bind, Henc in E.
  apply bind_Ok_inv in E as (message & w2 & Ecommit & E). injection E as <- <-.
  pose proof (run_commit_send (oid_show c) sender c s me None
    (stored_form kept) isAICommand w1
    (oid_parse_show c) Hs) as Hm.
  assert (preserves (λ w, w_chat_next_id w = w_chat_next_id w1)
    (commit_send (oid_show c) sender me None
       (stored_form kept) isAICommand)) as Hkeep.
  { unfold commit_send, parse_oid, model_create, model_insert, new_oid, now, tick,
      touch_conversation, incrementUnreadForOtherParticipants, model_save, model_updateOne,
      model_updateMany, now, tick, parse_oid.
    rewrite Hs, !oid_parse_show. intros w0 Hw0. run_simpl. cbn. by case_bool_decide. }
  specialize (Hkeep w1 eq_refl). rewrite Ecommit in Hm, Hkeep. cbn [snd] in Hkeep.
  destruct Hm as (t & _ & _ & Hm & _). cbn [sr_message]. rewrite Hm. split_and!; try done.
  rewrite Hkeep. unfold w1, consulted. by destruct isEnabled.
Qed.

(** What was stored is in the clear in the payload. *)
Lemma realtime_text content kept i m w r w' :
  survives content (oid_show (m_conversationId m)) kept w →
  m_content m = st_content (stored_form kept) →
  m_reverseEncryptionState m = st_reverseEncryptionState (stored_form kept) →
  toRealtimeMessagePayload (i, m) w = (Ok r, w') → rt_content r = kept.
Proof.
  intros Hsurvives Hm Hst E.
  pose proof (run_decryptForDisplay content kept (message_context m) w Hsurvives) as Hd.
  unfold toRealtimeMessagePayload, try_catch in E. cbn [snd] in E. rewrite Hm, Hst in E.
  rewrite run_bind, Hd, run_bind in E.
  match type of E with context [buildSenderPresentation ?s ?w1] =>
    destruct (run_sender s w1) as [p Hp]; rewrite Hp in E end.
  cbn [mret M_ret] in E. by injection E as <- _.
Qed.

(** The payload of a text that was sent carries the text. *)
Lemma sendRealtime_text c sender content kept att isAICommand w r w' :
  truthy (trim content) = true →
  survives (trim content) (oid_show c) kept w → w_chat_next_id w ≠ 0xFFFFFFFF → given att = None →
  sendRealtimeMessage (oid_show c) sender content att isAICommand w = (Ok r, w') →
  rt_content (rr_message r) = kept.
Proof.
  intros Htruthy Hsurvives Hid Hatt E.
  assert (∃ a, given a = None ∧ sendRealtimeMessage (oid_show c) sender content att isAICommand
    = (sent ← sendMessage (oid_show c) sender content a isAICommand;
       message ← toRealtimeMessagePayload (sr_message sent);
       previews ← buildConversationPreviewPayloads (oid_show c);
       mret (mkRealtimeResult message previews (sr_restoredParticipants sent)))) as (a & Ha & Eq).
  { unfold sendRealtimeMessage. case_bool_decide; [by exists att|].
    by destruct isAICommand; eexists; (split; [|reflexivity]). }
  rewrite Eq in E. apply bind_Ok_inv in E as (sent & w1 & Esend & E).
  apply bind_Ok_inv in E as (message & w2 & Epayload & E).
  apply bind_Ok_inv in E as (previews & w3 & _ & E). injection E as <- _. cbn [rr_message].
  eapply send_text_Ok in Esend as (Hm & Hst & Hcv & Hnext); try done.
  destruct (sr_message sent) as [i m]. cbn [snd] in *. subst c.
  refine (realtime_text (trim content) kept _ _ w1 _ _ _ Hm Hst Epayload). revert Hsurvives Hnext. unfold survives, consulted, word.
  destruct isEnabled; [|done]. cbn. intros (? & ? & ? & ? & ?) ->. split_and!; try done; lia.
Qed.
End payload.

(** ** From the composer to the pages *)

Section delivery.
Context `{Host} `{!OidLaws} `{MongoLaws} `{!WireLaws}.
Context (moderation : MessageModeration → option MessageModerationResult).

(** The JSON of [message_delivered], as the page reads it. *)
Definition wire_realtime (r : RealtimeMessagePayload) : View.RealtimeMessage :=
  View.mkRealtime (rt_messageId r) (rt_conversationId r) (rt_senderId r)
    (rt_senderDisplayName r) (rt_senderAvatarUrl r) (rt_content r) (rt_sentAt r)
    (Some (match rt_seenState r with Model.seen_sent => View.seen_sent | seen_seen => View.seen end))
    (wire_attachment <$> rt_attachment r) (Some (rt_isTailOfSenderGroup r))
    (rt_decodeErrorCode r)
    (Some (match rt_displayState r with
           | display_ready => View.ready | display_decode_failed => View.decode_failed end))
    (Some (rt_isAIBotMessage r)) (Some (rt_isAICommand r))
    (rt_moderationResult r ≫= moderation).

(** The emissions of a step reach a socket. *)
Definition told (w w' : World) (r : RealtimeMessagePayload) (k : nat) : Prop :=
  ∃ to, mkEmission to (message_delivered r) ∈ drop (length (w_emitted w)) (w_emitted w') ∧
        reaches (w_clients w') to k = true.

(** A successful send, with what it emitted. *)
Lemma handleSend_Success client payload w r tasks w' :
  handleSendMessage client payload w = (Ok (Success r, tasks), w') →
  ∃ user res w1, w_clients w !! client ≫= c_user = Some user ∧
    let content := trim (sp_content payload) in
    sendRealtimeMessage (sp_conversationId payload) (su_id user) content (sp_attachmentId payload)
      (shouldReply content) w = (Ok res, w1) ∧ r = rr_message res ∧
    w_clients w' = w_clients w ∧ w_participants w' = w_participants w1 ∧
    drop (length (w_emitted w)) (w_emitted w')
    = deliveries (sp_conversationId payload) (rr_previewByUserId res) r.
Proof.
  intros E. apply handleSend_run in E as (user & Hu & E). exists user. cbv zeta in E.
  pose proof (sendRealtime_sockets (sp_conversationId payload) (su_id user) (trim (sp_content payload))
    (sp_attachmentId payload) (shouldReply (trim (sp_content payload))) w) as [Hcl Hem].
  destruct E as [(res & w1 & Es & [= ->] & ->)|(e & _ & ? & _)]; [|done].
  rewrite Es in Hcl, Hem. cbn [snd] in Hcl, Hem. exists res, w1. split_and!; try done.
  cbn [upd_emitted w_emitted]. by rewrite Hem, drop_app_length.
Qed.

(** The sockets of an active participant are told. *)
Lemma participants_told c client payload w r tasks w' k socket u j p :
  sp_conversationId payload = oid_show c →
  handleSendMessage client payload w = (Ok (Success r, tasks), w') →
  w_clients w !! k = Some socket → c_namespace socket = ns_chat →
  getUserRoom (oid_show u) ∈ c_rooms socket →
  w_participants w' !! j = Some p → active_in c (j, p) = true → p_userId p = u →
  told w w' r k.
Proof.
  intros Hc E Hk Hns Hroom Hj Hp Hu.
  apply handleSend_Success in E as (user & res & w1 & _ & Es & -> & Hcl & Hps & Hd).
  rewrite Hc in Es, Hd.
  pose proof (sendRealtime_cases (oid_show c) (su_id user) (trim (sp_content payload))
    (sp_attachmentId payload) (shouldReply (trim (sp_content payload))) w) as Hs.
  rewrite Es in Hs. destruct Hs as (c' & i & m & Hc' & _ & _ & _ & _ & _ & _ & _ & Hprev).
  rewrite oid_parse_show in Hc'. injection Hc' as <-.
  exists (ToRoom ns_chat (getUserRoom (oid_show u))). split.
  - rewrite Hd, elem_of_deliveries, Hprev, elem_of_users. split; [done|]. right.
    exists j, p. rewrite <-Hps, Hu. done.
  - unfold reaches. rewrite Hcl, Hk. by rewrite !bool_decide_eq_true_2.
Qed.

(** A delivery inserts the message at its place. *)
Lemma delivery_inserts eager m p :
  p_hasRestored p = true → page_ok p →
  selectedConversationId (p_state p) = Some (rm_conversationId m) →
  rm_messageId m ∉ vm_id <$> messages (p_state p) →
  let p' := page_step p (MessageDelivered eager m) in
  page_ok p' ∧
  ∃ before after, messages (p_state p) = before ++ after ∧
    messages (p_state p') = before ++ mapRealtimeMessage m :: after.
Proof.
  intros Hr Hok Hsel Hnew p'.
  destruct (incoming_step eager m p Hr) as (_ & Hs & Hm). fold p' in Hs, Hm.
  unfold page_ok in Hok |- *. rewrite Hs, Hsel. rewrite Hsel in Hok.
  unfold is_selected in Hm. rewrite bool_decide_true in Hm by done. rewrite Hm.
  split; [by apply timeline_upsert|].
  rewrite upsertMessage_new; [|done|apply Hok]. do 2 eexists. split; [|reflexivity].
  apply key_sorted_cut, Hok.
Qed.

(** C3: From composer to pages.  A text that was sent without a file and acknowledged
    reaches every chat socket of every active participant; on a page that has the
    conversation open and not the message, it appears once, between the messages already
    there, which stay as they were; and it unlocks and empties the composer of the page of
    its sender.  What appears is the text as it was typed, less the spaces around it: all of
    it without reverse encryption; with it, while the processor answers, what the frame
    carries of it ([kept]), which is all of a text of at most 511 bytes of UTF-8 without
    NUL, and otherwise the part before. *)
Theorem typed_text_is_shown c client payload kept w r tasks w' :
  truthy (trim (sp_content payload)) = true →
  survives (trim (sp_content payload)) (oid_show c) kept w → w_chat_next_id w ≠ 0xFFFFFFFF →
  sp_conversationId payload = oid_show c → given (sp_attachmentId payload) = None →
  handleSendMessage client payload w = (Ok (Success r, tasks), w') →
  (∀ k socket j p, w_clients w !! k = Some socket → c_namespace socket = ns_chat →
     w_participants w' !! j = Some p → active_in c (j, p) = true →
     getUserRoom (oid_show (p_userId p)) ∈ c_rooms socket → told w w' r k) ∧
  (∀ eager p, p_hasRestored p = true → page_ok p →
     selectedConversationId (p_state p) = Some (oid_show c) →
     rt_messageId r ∉ vm_id <$> messages (p_state p) →
     let p' := page_step p (MessageDelivered eager (wire_realtime r)) in
     page_ok p' ∧
     (∃ before v after, messages (p_state p) = before ++ after ∧
        messages (p_state p') = before ++ v :: after ∧
        vm_id v = rt_messageId r ∧ vm_content v = kept ∧
        vm_senderId v = rt_senderId r) ∧
     (p_currentUser p = Some (rt_senderId r) →
        sendingMessage (p_state p') = false ∧ p_inputValue p' = [])) ∧
  (plain_text (trim (sp_content payload)) →
   (length (utf8_encode (trim (sp_content payload))) <= 511)%nat →
   kept = trim (sp_content payload)).
Proof.
  intros Htruthy Hsurvives Hid Hconv Hatt E. split; [|split; [|by eapply survives_whole]].
  { intros k socket j p Hk Hns Hj Hp Hroom. by eapply participants_told. }
  apply handleSend_Success in E as (user & res & w1 & _ & Es & Hres & _).
  rewrite Hconv in Es.
  pose proof (sendRealtime_cases (oid_show c) (su_id user) (trim (sp_content payload))
    (sp_attachmentId payload) (shouldReply (trim (sp_content payload))) w) as Hs.
  rewrite Es, <-Hres in Hs. destruct Hs as (c' & i & m & Hc' & _ & _ & _ & _ & _ & Hcv & _ & _).
  rewrite oid_parse_show in Hc'. injection Hc' as <-.
  apply (sendRealtime_text c _ _ kept) in Es; try done; [|by rewrite trim_idem..].
  rewrite <-Hres in Es.
  intros eager p Hp Hok Hsel Hnew p'.
  destruct (delivery_inserts eager (wire_realtime r) p) as (Hok' & before & after & Hb & Ha);
    [done|done|by rewrite Hsel; cbn; rewrite Hcv|done|].
  split; [done|]. split; [by exists before, (mapRealtimeMessage (wire_realtime r)), after|].
  intros Hu. unfold p', page_step. rewrite effects_sending, effects_input. cbn [handle].
  unfold handleIncomingMessage, is_current_user. cbn [rm_senderId wire_realtime].
  rewrite Hu. rewrite bool_decide_true by done. by repeat case_match.
Qed.
End delivery.

(** ** At a concrete input: a member of the group reads what another wrote *)

#[local] Instance demo_host_inst : Host := demo_host demo_env.
#[local] Instance demo_mongo_inst : Mongo := list_mongo.
#[local] Instance demo_laws_inst : MongoLaws := list_mongo_laws.
#[local] Instance demo_oids_inst : OidLaws := demo_oid_laws demo_env.
#[local] Instance demo_wire_laws_inst : WireLaws := demo_wire_inst.

Definition demo_spaced : SendMessagePayload :=
  mkSendPayload (oid_show (Oid 1019)) (js " Xin chào ") None.
Definition demo_told : outcome (Ack RealtimeMessagePayload * list Gateway.Task) * World :=
  handleSendMessage 0 demo_spaced demo_team.
Definition demo_reader : Page :=
  run_page (open_page (Some (oid_show (Oid 1010))) None)
    [Mounted; Answered 0 (Conversations []); Selected (oid_show (Oid 1019));
     Answered 1 (Messages [] [])].

(** The row of the second user in the group. *)
Definition demo_row : option (doc Participant) :=
  mg_findOne (active_participant (Oid 1019) (Oid 1010)) (w_participants demo_told.2).

Lemma typed_text_is_shown_witness :
  ∃ r tasks w', demo_told = (Ok (Success r, tasks), w') ∧ told demo_team w' r 1 ∧
    map vm_content (messages (p_state (page_step demo_reader
      (MessageDelivered true (wire_realtime demo_moderation r))))) = [js "Xin chào"].
Proof.
  destruct (success_inv demo_told) as (r & tasks & w' & E); [vm_compute; reflexivity|].
  exists r, tasks, w'. split; [exact E|].
  assert (w_participants w' = w_participants demo_told.2) as Ew by (rewrite E; reflexivity).
  unfold demo_told in E.
  destruct (typed_text_is_shown demo_moderation (Oid 1019) 0 demo_spaced (js "Xin chào") demo_team r tasks w')
    as (Htold & Hshown & _); [vm_compute; reflexivity| | |reflexivity|reflexivity|exact E|].
  - repeat first [ exact demo_serves_processor | exact demo_remote_ready
                 | apply plain_text_check; vm_compute; reflexivity
                 | split | vm_compute; discriminate | vm_compute; reflexivity ].
  - vm_compute. discriminate.
  - split.
    + destruct demo_team_client as (socket & Hk & Hns & _).
      destruct demo_row as [[j p]|] eqn:Er; [|vm_compute in Er; discriminate Er].
      apply findOne_Some in Er as [Hj Hq]. rewrite <-Ew in Hj.
      apply andb_prop in Hq as [Hq Hactive]. apply andb_prop in Hq as [Hin Huser].
      apply bool_decide_eq_true in Huser. cbn in Huser.
      apply (Htold 1%nat socket j p Hk Hns Hj); [apply andb_true_intro; split; assumption|].
      rewrite Huser.
      assert (match w_clients demo_team !! 1%nat with
              | Some socket => bool_decide (getUserRoom (oid_show (Oid 1010)) ∈ c_rooms socket)
              | None => false end = true) as Hroom by (vm_compute; reflexivity).
      rewrite Hk in Hroom. exact (bool_decide_eq_true_1 _ Hroom).
    + destruct (Hshown true demo_reader) as (_ & (before & v & after & Hb & Ha & _ & Hv & _) & _).
      * vm_compute. reflexivity.
      * unfold page_ok. vm_compute. split; constructor.
      * vm_compute. reflexivity.
      * vm_compute. intros Hn. inversion Hn.
      * assert (messages (p_state demo_reader) = []) as Hnil by (vm_compute; reflexivity).
        rewrite Hnil in Hb. symmetry in Hb. apply app_eq_nil in Hb as [-> ->].
        rewrite Ha. cbn [app map]. rewrite Hv. vm_compute. reflexivity.
Defined.
