(* ===== verification/SocketContract.v ===== *)
(** * The socket contract between the clients and the gateways

    The events that [chat-socket.service.ts] and [ai.service.ts] emit against the
    [@SubscribeMessage] decorators of the two gateways, and the events that the gateways
    emit against the listeners of the two clients: by name, with their payloads.

    An event carries its name and the properties of its payload.  socket.io brings an event
    to the handlers of its name, and drops one that has none. *)

From S2P Require Import Prelude JsText View Page SocketClient AiSocket.
From S2P Require Import Wire Driver Env Store Model Instance Encryption Auth AuthController Chat Attachment Ai ChatController Scroll Delivery Gateway Invariants GatewayFacts.
Open Scope Z_scope.

(** ** From the clients to the gateways *)

Record Packet := mkPacket {
  pk_name : jsstring;
  pk_data : list (jsstring * Json);
}.

(** [emitWithAck(event, payload)] of the realtime client; a property that is [undefined] is
    not sent. *)
Definition packet_of (e : SocketClient.Emission) : Packet :=
  match e with
  | join_conversation c => mkPacket (js "join_conversation") [(js "conversationId", JStr c)]
  | leave_conversation c => mkPacket (js "leave_conversation") [(js "conversationId", JStr c)]
  | send_message c content attachmentId =>
      mkPacket (js "send_message")
        ([(js "conversationId", JStr c); (js "content", JStr content)]
         ++ match attachmentId with Some a => [(js "attachmentId", JStr a)] | None => [] end)
  | mark_conversation_read c =>
      mkPacket (js "mark_conversation_read") [(js "conversationId", JStr c)]
  | SocketClient.typing_presence_updated c isTyping =>
      mkPacket (js "typing_presence_updated")
        [(js "conversationId", JStr c); (js "isTyping", JBool isTyping)]
  end.

(** ... and of the assistant's. *)
Definition suggestions_packet (c : jsstring) : Packet :=
  mkPacket (js "ai:suggestions:request") [(js "conversationId", JStr c)].

(** What a handler acknowledges with. *)
Inductive Acknowledgement :=
  | AckConversation (a : Ack jsstring)
  | AckMessage (a : Ack RealtimeMessagePayload) (tasks : list Task)
  | AckRead (a : Ack MarkConversationReadPayload)
  | AckTyping (a : Ack (jsstring * bool))
  | AckChat (a : Ack (jsstring * jsstring))
  | AckSuggestions (a : Ack (jsstring * list jsstring)).

(** A property of the payload.  A payload whose properties do not have the types that the
    handler declares has no meaning here. *)
Definition text_of (k : jsstring) (payload : list (jsstring * Json)) : option jsstring :=
  match field k payload with Some (JStr s) => Some s | _ => None end.
Definition bool_of (k : jsstring) (payload : list (jsstring * Json)) : option bool :=
  match field k payload with Some (JBool b) => Some b | _ => None end.

Definition optional_text_of (k : jsstring) (payload : list (jsstring * Json))
    : option (option jsstring) :=
  match field k payload with
  | None => Some None
  | Some (JStr s) => Some (Some s)
  | Some _ => None
  end.

Definition read_send_payload (payload : list (jsstring * Json)) : option SendMessagePayload :=
  conversationId ← text_of (js "conversationId") payload;
  content ← text_of (js "content") payload;
  attachmentId ← optional_text_of (js "attachmentId") payload;
  Some (mkSendPayload conversationId content attachmentId).

Section subscriptions.
Context `{Host} `{Mongo}.

Definition Handler : Type := nat → list (jsstring * Json) → option (M World Acknowledgement).

Definition with_conversation {A} (wrap : A → Acknowledgement) (handler : nat → jsstring → M World A)
    : Handler := λ client payload,
  c ← text_of (js "conversationId") payload;
  Some (a ← handler client c; mret (wrap a)).

(** [@SubscribeMessage(name)], in the order of the methods. *)
Definition chat_subscriptions : list (jsstring * Handler) :=
  [(js "join_conversation", with_conversation AckConversation handleJoinConversation);
   (js "leave_conversation", with_conversation AckConversation handleLeaveConversation);
   (js "send_message", λ client payload,
      message ← read_send_payload payload;
      Some (a ← handleSendMessage client message; mret (AckMessage a.1 a.2)));
   (js "mark_conversation_read", with_conversation AckRead handleMarkConversationRead);
   (js "typing_presence_updated", λ client payload,
      c ← text_of (js "conversationId") payload;
      isTyping ← bool_of (js "isTyping") payload;
      Some (a ← handleTypingPresence client c isTyping; mret (AckTyping a)))].

Definition ai_subscriptions : list (jsstring * Handler) :=
  [(js "ai:chat", λ client payload,
      c ← text_of (js "conversationId") payload;
      content ← text_of (js "content") payload;
      Some (a ← handleAiChat client c content; mret (AckChat a)));
   (js "ai:suggestions:request", with_conversation AckSuggestions handleSuggestions)].

(** The handler that an event of a client reaches. *)
Definition serve_packet (ns : Namespace) (client : nat) (p : Packet)
    : option (M World Acknowledgement) :=
  handler ← field (pk_name p) (match ns with ns_chat => chat_subscriptions | ns_ai => ai_subscriptions end);
  handler client (pk_data p).

(** ** The events of the realtime client are served *)

(** The operation of the backend that a call of the client is meant to be. *)
Definition op_of (client : nat) (e : SocketClient.Emission) : Op :=
  match e with
  | join_conversation c => JoinConversation client c
  | leave_conversation c => LeaveRoom client c
  | send_message c content attachmentId => Send client (mkSendPayload c content attachmentId)
  | mark_conversation_read c => SocketRead client c
  | SocketClient.typing_presence_updated c isTyping => Typing client c isTyping
  end.

Lemma dispatched_ext ns k (m m' : M World ()) w :
  (∀ w, m w = m' w) → dispatched ns k m w = dispatched ns k m' w.
Proof.
  intros Hm. unfold dispatched. rewrite !run_bind. cbn [gets].
  destruct (_ !! k) as [c|]; [|done]. by case_bool_decide.
Qed.
Lemma drop_wrapped {A B} (m : M World A) (wrap : A → B) w :
  (m ;; mret tt) w = ((a ← m; mret (wrap a)) ;; mret tt) w.
Proof. rewrite !run_bind. by destruct (m w) as [[?|?|] ?]. Qed.

(** Each event that the client emits has a handler of its name, which reads back the
    arguments of the call. *)
Lemma client_packets_served client e :
  ∃ m, serve_packet ns_chat client (packet_of e) = Some m ∧
       ∀ w, run_op (op_of client e) w = dispatched ns_chat client (m ;; mret tt) w.
Proof.
  destruct e as [c|c|c content [a|]|c|c isTyping]; eexists; (split; [reflexivity|]);
    intros w; apply dispatched_ext; intros w'; apply drop_wrapped.
Qed.

Lemma suggestions_packet_served client c :
  ∃ m, serve_packet ns_ai client (suggestions_packet c) = Some m ∧
       ∀ w, run_op (AiSuggestions client c) w = dispatched ns_ai client (m ;; mret tt) w.
Proof.
  eexists; (split; [reflexivity|]). intros w. apply dispatched_ext. intros w'. apply drop_wrapped.
Qed.
End subscriptions.

(** ** From the gateways to the clients *)

(** The first argument of [emit], and the namespace of the gateway that has it. *)
Definition event_name (e : Event) : jsstring :=
  match e with
  | connection_status_changed => js "connection_status_changed"
  | conversation_preview_updated _ => js "conversation_preview_updated"
  | message_delivered _ => js "message_delivered"
  | conversation_read_updated _ => js "conversation_read_updated"
  | typing_presence_updated _ _ _ _ => js "typing_presence_updated"
  | ai_moderation_result _ _ _ => js "ai:moderation:result"
  | ai_response _ _ => js "ai:response"
  | ai_error _ _ => js "ai:error"
  end.

Section listeners.
(** The JSON of a moderation, as the page reads it: the code never checks its fields. *)
Context (moderation : MessageModeration → option MessageModerationResult).
Context (moderation_with_id : MessageModeration → jsstring → MessageModerationResult).

(** The JSON of the other payloads. *)
Definition wire_preview (p : ConversationPreviewPayload) : ConversationPreviewUpdate :=
  mkPreviewUpdate (pv_conversationId p) (pv_lastMessagePreview p) (pv_lastMessageAt p)
    (Some (pv_unreadCount p)) (Some (pv_hasUnread p)).

(** What a listener of the realtime client calls its subscribers with, given the payload of
    the event that it is registered for. *)
Definition chat_listeners : list (jsstring * (Event → option ServiceEvent)) :=
  [(js "message_delivered", λ e, match e with
      | message_delivered m => Some (ServerEvent (NMessage (wire_realtime moderation m)))
      | _ => None end);
   (js "conversation_preview_updated", λ e, match e with
      | conversation_preview_updated p => Some (ServerEvent (NPreview (wire_preview p)))
      | _ => None end);
   (js "conversation_read_updated", λ e, match e with
      | conversation_read_updated r => Some (ServerEvent (NRead (mr_conversationId r)))
      | _ => None end);
   (js "typing_presence_updated", λ e, match e with
      | typing_presence_updated c u isTyping expiresAt =>
          Some (ServerEvent (NTyping (mkTyping c u isTyping (Some expiresAt))))
      | _ => None end);
   (js "ai:moderation:result", λ e, match e with
      | ai_moderation_result c m messageId =>
          Some (ServerEvent (NModeration c (moderation_with_id m messageId)))
      | _ => None end);
   (js "connection_status_changed", λ e, match e with
      | connection_status_changed => Some (ConnectionStatusChanged (Some connected))
      | _ => None end)].

(** ... and one of the assistant's. *)
Definition ai_listeners : list (jsstring * (Event → option AiEvent)) :=
  [(js "ai:moderation:result", λ e, match e with
      | ai_moderation_result c m messageId =>
          Some (ServerNotice (ModerationNotice c (moderation_with_id m messageId)))
      | _ => None end);
   (js "ai:error", λ e, match e with
      | ai_error code message => Some (ServerNotice (ErrorNotice (mkAiError code message None)))
      | _ => None end)].

(** What an event that arrives is to the client; an event without a listener is lost. *)
Definition heard_by_chat (e : Event) : option ServiceEvent :=
  listener ← field (event_name e) chat_listeners; listener e.
Definition heard_by_ai (e : Event) : option AiEvent :=
  listener ← field (event_name e) ai_listeners; listener e.
End listeners.

(** ** What an operation emits *)

(** The gateway of an event, and the only place where [ai:response] goes. *)
Definition event_namespace (e : Event) : Namespace :=
  match e with ai_response _ _ | ai_error _ _ => ns_ai | _ => ns_chat end.

Definition well_addressed (ns : Namespace) (client : option nat) (em : Emission) : Prop :=
  event_namespace (em_event em) = ns ∧
  match em_to em with
  | ToRoom ns' _ => ns' = ns
  | ToRoomExcept k _ | ToClient k => client = Some k
  end ∧
  match em_event em with
  | ai_response c _ => em_to em = ToRoom ns_ai (getConversationRoom c)
  | _ => True
  end.

(** While a handler of the gateway of [ns] runs, for the socket [client] when it has one:
    what it has emitted since [es0], and the namespace of the socket. *)
Definition emitting (es0 : list Emission) (ns : Namespace) (client : option nat) (w : World) : Prop :=
  (∃ new, w_emitted w = es0 ++ new ∧ Forall (well_addressed ns client) new) ∧
  ∀ k c, client = Some k → w_clients w !! k = Some c → c_namespace c = ns.

Section emissions.
Context `{Host} `{Mongo} (es0 : list Emission) (ns : Namespace) (client : option nat).
#[local] Abbreviation I := (emitting es0 ns client).

#[export] Instance emitting_read : ReadInvariant I.
Proof. split; [split|..]; by intros f w. Qed.
#[export] Instance emitting_store : IgnoresStore I.
Proof. split; by intros f w. Qed.
#[export] Instance emitting_http : IgnoresHttp I.
Proof. by intros f w. Qed.

Lemma emitting_emit to e : well_addressed ns client (mkEmission to e) → preserves I (emit to e).
Proof.
  intros Hok. apply preserves_modify. intros w [(new & E & Hnew) Hk]. split; [|done].
  exists (new ++ [mkEmission to e]). cbn. rewrite E, app_assoc. split; [done|].
  apply Forall_app. split; [done|by constructor].
Qed.

Lemma emitting_on_client k f :
  (∀ c, c_namespace (f c) = c_namespace c) → preserves I (on_client k f).
Proof.
  intros Hf. apply preserves_modify. intros w [Hnew Hk]. split; [done|].
  intros k' c Hc. cbn. rewrite lookup_alter. case_decide as E; [|by apply Hk].
  subst k'. intros (c' & Hc' & ->)%fmap_Some. rewrite Hf. by apply (Hk k).
Qed.
End emissions.

#[local] Hint Extern 0 (preserves _ (emit _ _)) => apply emitting_emit; split_and!; done : inv.
#[local] Hint Extern 0 (preserves _ (on_client _ _)) => apply emitting_on_client; done : inv.

Section operations.
Context `{Host} `{Mongo} (es0 : list Emission).

(** The operations of no socket: the endpoints emit nothing, the promises emit for the chat. *)
Lemma emitting_guarded {A} ns client auth (handler : jsstring → M World A) :
  (∀ u, preserves (emitting es0 ns client) (handler u)) →
  preserves (emitting es0 ns client) (guarded auth handler).
Proof.
  intros Hh. unfold guarded. apply preserves_bind; [|intros ?; apply Hh]. keep_solve.
Qed.

Lemma emitting_messages client c l m :
  preserves (emitting es0 ns_chat client) (emitRealtimeMessage c l m).
Proof. unfold emitRealtimeMessage. keep_solve. Qed.
Lemma emitting_previews client l :
  preserves (emitting es0 ns_chat client) (emitConversationPreviews l).
Proof. unfold emitConversationPreviews. keep_solve. Qed.
#[local] Hint Resolve emitting_messages emitting_previews : inv.

Lemma emitting_deliver client c u t a ai :
  preserves (emitting es0 ns_chat client) (send_and_deliver c u t a ai).
Proof. unfold send_and_deliver, sendRealtimeMessage. keep_solve. Qed.
#[local] Hint Resolve emitting_deliver : inv.

Lemma emitting_task t : preserves (emitting es0 ns_chat None) (run_task t).
Proof. unfold run_task. keep_solve. Qed.

(** The handlers of a socket. *)
Lemma emitting_ai_handler {A} k b m (body : SessionUser → M World A) :
  (∀ u, preserves (emitting es0 ns_ai (Some k)) (body u)) →
  preserves (emitting es0 ns_ai (Some k)) (ai_handler k b m body).
Proof.
  intros Hb. unfold ai_handler, emitError.
  apply preserves_bind; [apply preserves_getClientUser|intros u].
  apply preserves_try; [|intros ?; keep_solve].
  destruct (negb b); [keep_solve|]. apply preserves_bind; [done|intros ?; apply preserves_ret].
Qed.

Lemma joined_namespace id c : c_namespace (markConversationJoined id c) = c_namespace c.
Proof. unfold markConversationJoined. by case_bool_decide. Qed.

Definition handler_of (o : Op) : option (Namespace * nat * M World ()) :=
  match o with
  | ChatConnection k => Some (ns_chat, k, handleConnection k)
  | JoinConversation k c => Some (ns_chat, k, handleJoinConversation k c ;; mret tt)
  | LeaveRoom k c => Some (ns_chat, k, handleLeaveConversation k c ;; mret tt)
  | Send k payload => Some (ns_chat, k, handleSendMessage k payload ;; mret tt)
  | SocketRead k c => Some (ns_chat, k, handleMarkConversationRead k c ;; mret tt)
  | Typing k c isTyping => Some (ns_chat, k, handleTypingPresence k c isTyping ;; mret tt)
  | AiConnection k => Some (ns_ai, k, ai_handleConnection k)
  | AiChat k c content => Some (ns_ai, k, handleAiChat k c content ;; mret tt)
  | AiSuggestions k c => Some (ns_ai, k, handleSuggestions k c ;; mret tt)
  | _ => None
  end.

Lemma emitting_handler o ns k m :
  handler_of o = Some (ns, k, m) →
  run_op o = dispatched ns k m ∧ preserves (emitting es0 ns (Some k)) m.
Proof.
  destruct o; try done; intros [= <- <- <-]; (split; [done|]);
    try (apply preserves_bind; [|intros ?; apply preserves_ret]).
  - unfold handleConnection. keep_solve.
  - unfold handleJoinConversation, acknowledged. keep_solve.
    apply emitting_on_client. intros cl. by rewrite joined_namespace.
  - unfold handleLeaveConversation. keep_solve.
  - unfold handleSendMessage. keep_solve.
  - unfold handleMarkConversationRead, acknowledged. keep_solve.
  - unfold handleTypingPresence, acknowledged. keep_solve.
  - unfold ai_handleConnection. keep_solve.
  - apply emitting_ai_handler. intros u. keep_solve.
  - apply emitting_ai_handler. intros u. keep_solve.
Qed.

(** Every other operation, as one that has no socket. *)
Lemma emitting_no_socket f :
  preserves (emitting es0 ns_chat None) (modify (upd_clients f)).
Proof. apply preserves_modify. by intros w [Hnew _]. Qed.
#[local] Hint Resolve emitting_no_socket : inv.

Lemma emitting_other o :
  handler_of o = None → preserves (emitting es0 ns_chat None) (run_op o).
Proof.
  pose proof (preserves_auth_op (emitting es0 ns_chat None) o) as Hauth.
  destruct o; try done; intros _; try exact Hauth; clear Hauth; cbn [run_op];
    try (apply preserves_bind; [|intros ?; apply preserves_ret]).
  1-16: apply emitting_guarded; intros ?; try solve [keep_solve].
  all: try solve [unfold leaveConversation, deleteConversationForUser; keep_solve].
  - unfold connect, authenticateSocketClient. keep_solve.
  - unfold handleDisconnect, on_client. keep_solve.
  - apply emitting_task.
Qed.
End operations.

(** What an operation emits is addressed to sockets of the gateway of its events. *)
Lemma op_emits `{Host} `{Mongo} o w :
  ∃ ns client, emitting (w_emitted w) ns client (run_op o w).2.
Proof.
  assert (emitting (w_emitted w) ns_chat None w) as Hquiet.
  { split; [|done]. exists []. by rewrite app_nil_r. }
  destruct (handler_of o) as [[[ns k] m]|] eqn:Eo.
  - destruct (emitting_handler (w_emitted w) o ns k m Eo) as [-> Hm].
    unfold dispatched. rewrite run_bind. cbn [gets].
    destruct (w_clients w !! k) as [c|] eqn:Ec; [|by exists ns_chat, None].
    case_bool_decide as Hns; [|by exists ns_chat, None]. exists ns, (Some k). apply Hm. split.
    + exists []. by rewrite app_nil_r.
    + intros k' c' [= <-]. rewrite Ec. by intros [= <-].
  - exists ns_chat, None. by apply emitting_other.
Qed.

(** ** Every event that reaches a socket is heard *)

Section heard.
Context `{Host} `{Mongo}.
Context (moderation : MessageModeration → option MessageModerationResult).
Context (moderation_with_id : MessageModeration → jsstring → MessageModerationResult).

(** What the page is meant to learn from an event of the chat gateway. *)
Definition meant (e : Event) : option Notice :=
  match e with
  | connection_status_changed => Some (NConnection connected)
  | conversation_preview_updated p => Some (NPreview (wire_preview p))
  | message_delivered m => Some (NMessage (wire_realtime moderation m))
  | conversation_read_updated r => Some (NRead (mr_conversationId r))
  | typing_presence_updated c u isTyping expiresAt =>
      Some (NTyping (mkTyping c u isTyping (Some expiresAt)))
  | ai_moderation_result c m messageId => Some (NModeration c (moderation_with_id m messageId))
  | ai_response _ _ | ai_error _ _ => None
  end.

(** The subscribers of a kind that a service calls with a notice. *)
Definition subscribers (n : Notice) (s : ChatSocketService) : list (nat * Notice) :=
  (λ l, (l.2, n)) <$> filter (λ l : ListenerKind * nat, l.1 = kind_of n) (cs_listeners s).

Lemma chat_event_heard e :
  event_namespace e = ns_chat →
  ∃ n se, meant e = Some n ∧ heard_by_chat moderation moderation_with_id e = Some se ∧
    ∀ s, is_Some (cs_socket s) → cs_notices (service_step s se) = cs_notices s ++ subscribers n s.
Proof.
  destruct e; try done; intros _; do 2 eexists; (split_and!; [reflexivity..|]);
    intros s [k Hk]; cbn [service_step]; by rewrite Hk.
Qed.

(** The rooms and the names agree. *)
Lemma reaches_namespace w ns client em k c :
  (∀ k c, client = Some k → w_clients w !! k = Some c → c_namespace c = ns) →
  well_addressed ns client em →
  w_clients w !! k = Some c → reaches (w_clients w) (em_to em) k = true → c_namespace c = ns.
Proof.
  intros Hc (_ & Hto & _) Hk. unfold reaches. rewrite Hk. destruct (em_to em) as [ns' room|j room|j].
  - subst ns'. by intros [->%bool_decide_eq_true _]%andb_prop.
  - intros [_ Hj]%andb_prop. destruct (w_clients w !! j) as [c'|] eqn:Ej; [|done].
    apply bool_decide_eq_true in Hj. rewrite Hj. by apply (Hc j).
  - intros ->%bool_decide_eq_true. by apply (Hc j).
Qed.

(** C23: no event that reaches a socket is lost for want of a listener.  Whatever the backend
    does in a reachable state, an event that it emits and that reaches a chat socket has a
    listener of its name in the realtime client, which calls exactly the subscribers meant
    for it, with its payload; and all that ever reaches an assistant socket is [ai:error],
    which its client hears, so that neither [ai:response] nor the [ai:moderation:result]
    that this client listens for ever comes to it. *)
Theorem emitted_events_heard w0 w o em k c :
  w_clients w0 = ∅ → reachable w0 w →
  let w' := (run_op o w).2 in
  em ∈ drop (length (w_emitted w)) (w_emitted w') →
  w_clients w' !! k = Some c → reaches (w_clients w') (em_to em) k = true →
  match c_namespace c with
  | ns_chat =>
      ∃ n se, meant (em_event em) = Some n ∧
        heard_by_chat moderation moderation_with_id (em_event em) = Some se ∧
        ∀ s, is_Some (cs_socket s) →
          cs_notices (service_step s se) = cs_notices s ++ subscribers n s
  | ns_ai =>
      ∃ code message ae, em_event em = ai_error code message ∧
        heard_by_ai moderation_with_id (em_event em) = Some ae ∧
        ∀ enabled s, is_Some (as_socket s) →
          as_notices (ai_step enabled s ae)
          = as_notices s ++ ((λ l, (l, ErrorNotice (mkAiError code message None)))
                               <$> as_errorListeners s)
  end.
Proof.
  intros Hempty Hr w' Hem Hk Hreach.
  destruct (op_emits o w) as (ns & client & (new & E & Hnew) & Hc). fold w' in E, Hc.
  rewrite E, drop_app_length in Hem. rewrite Forall_forall in Hnew. specialize (Hnew em Hem).
  rewrite (reaches_namespace w' ns client em k c) by done. destruct Hnew as (Hns & _ & Hai).
  destruct ns; [by apply chat_event_heard|].
  destruct (em_event em) as [| | | | | |c' content|code message]; try done.
  - rewrite Hai in Hreach. rewrite no_ai_conversation_room in Hreach; [done|].
    eapply reachable_sockets_ok; [done|]. by apply reachable_step.
  - do 3 eexists. split_and!; [reflexivity..|]. intros enabled s [sk Hsk]. cbn [ai_step].
    by rewrite Hsk.
Qed.
End heard.

(** ** At a concrete input: a message of the group reaches the second user's socket *)

#[local] Instance demo_host_inst : Host := demo_host demo_env.
#[local] Instance demo_mongo_inst : Mongo := list_mongo.

Definition demo_after : World := (run_op (Send 0 demo_payload) demo_team).2.
Definition demo_reaching : option Emission :=
  List.find (λ em, reaches (w_clients demo_after) (em_to em) 1)
    (drop (length (w_emitted demo_team)) (w_emitted demo_after)).
Definition demo_with_id (m : MessageModeration) (messageId : jsstring) : MessageModerationResult :=
  View.mkModerationResult messageId None None None None None.

Definition demo_meant (em : Emission) : option Notice :=
  meant demo_moderation demo_with_id (em_event em).
Definition demo_listening : ChatSocketService :=
  serve [SocketClient.ConnectCalled; SocketClient.Subscribed KPreview 7;
         SocketClient.Subscribed KMessage 8].

Lemma emitted_events_heard_witness :
  ∃ em n se, demo_reaching = Some em ∧ demo_meant em = Some n ∧
    heard_by_chat demo_moderation demo_with_id (em_event em) = Some se ∧
    cs_notices (service_step demo_listening se) = [(7%nat, n)].
Proof.
  assert (kind_of <$> (demo_reaching ≫= demo_meant) = Some KPreview) as Hkind
    by (vm_compute; reflexivity).
  assert (is_Some demo_reaching) as [em Hem] by (vm_compute; eexists; reflexivity).
  pose proof (List.find_some _ _ Hem) as [Hin Hreach]. apply list_elem_of_In in Hin.
  assert (∃ c, w_clients demo_after !! 1%nat = Some c ∧ c_namespace c = ns_chat) as (c & Hc & Hns).
  { destruct (w_clients demo_after !! 1%nat) as [c|] eqn:Ec; vm_compute in Ec; [|discriminate Ec].
    injection Ec as <-. eexists. split; reflexivity. }
  pose proof (emitted_events_heard demo_moderation demo_with_id empty_world demo_team
    (Send 0 demo_payload) em 1 c eq_refl demo_team_reachable Hin Hc Hreach) as Hheard.
  rewrite Hns in Hheard. destruct Hheard as (n & se & Hn & Hse & Hs).
  rewrite Hem in Hkind. cbn [mbind option_bind] in Hkind. unfold demo_meant in Hkind.
  rewrite Hn in Hkind. injection Hkind as Hkind.
  exists em, n, se. split; [exact Hem|]. split; [exact Hn|]. split; [exact Hse|].
  rewrite Hs; [|eexists; reflexivity]. unfold subscribers. rewrite Hkind. reflexivity.
Defined.
