(* ===== verification/Search.v ===== *)
(** * The search boxes of the chat page

    [chat.page.tsx], lines 875-957 and the handlers and markup of the two dialogs: the
    search for a user to write to, and the search in the open conversation.  Both ask the
    backend 300 ms after the last change, from an effect whose clean-up cancels the timer
    and makes a late answer be ignored.  A step is an event of the user, of a timer or of a
    request, followed by the effect when one of its dependencies has changed. *)

From S2P Require Import Prelude JsText View.
Open Scope Z_scope.

(** ** The runs of an effect *)

(** A run that asks for [question]: its timer, its request, and how the request ended. *)
Inductive Phase (R : Type) :=
  | Waiting
  | Asked
  | Answered (results : option (list R)).
Arguments Waiting {R}.
Arguments Asked {R}.
Arguments Answered {R} _.

Record Run (Q R : Type) := mkRun {
  run_question : Q;
  run_cancelled : bool;
  run_phase : Phase R;
}.
Arguments mkRun {Q R} _ _ _.
Arguments run_question {Q R} _.
Arguments run_cancelled {Q R} _.
Arguments run_phase {Q R} _.

(** Every run so far, and the one whose clean-up React holds. *)
Record Runs (Q R : Type) := mkRuns {
  rs_runs : gmap nat (Run Q R);
  rs_next : nat;
  rs_cleanup : option nat;
}.
Arguments mkRuns {Q R} _ _ _.
Arguments rs_runs {Q R} _.
Arguments rs_next {Q R} _.
Arguments rs_cleanup {Q R} _.

Section runs.
Context {Q R : Type}.

Definition no_runs : Runs Q R := mkRuns ∅ 0 None.

Definition cancelled_run (r : Run Q R) : Run Q R := mkRun (run_question r) true (run_phase r).

(** The clean-up of the last run: [cancelled = true; window.clearTimeout(timer)]. *)
Definition clean (rs : Runs Q R) : Runs Q R :=
  match rs_cleanup rs with
  | Some n => mkRuns (alter cancelled_run n (rs_runs rs)) (rs_next rs) None
  | None => rs
  end.

(** [window.setTimeout(async () => ..., 300)], and the clean-up that is returned. *)
Definition start (question : Q) (rs : Runs Q R) : Runs Q R :=
  mkRuns (<[rs_next rs := mkRun question false Waiting]> (rs_runs rs)) (S (rs_next rs))
    (Some (rs_next rs)).

Definition set_phase (n : nat) (phase : Phase R) (rs : Runs Q R) : Runs Q R :=
  mkRuns (alter (λ r, mkRun (run_question r) (run_cancelled r) phase) n (rs_runs rs)) (rs_next rs)
    (rs_cleanup rs).

(** The timer of run [n] fires, unless it was cleared: the request is sent. *)
Definition fire (n : nat) (rs : Runs Q R) : Runs Q R :=
  match rs_runs rs !! n with
  | Some (mkRun _ false Waiting) => set_phase n Asked rs
  | _ => rs
  end.

(** The request of run [n] ends; the second component says whether the run may still speak. *)
Definition answered (n : nat) (results : option (list R)) (rs : Runs Q R) : Runs Q R * bool :=
  match rs_runs rs !! n with
  | Some (mkRun _ cancelled Asked) => (set_phase n (Answered results) rs, negb cancelled)
  | _ => (rs, false)
  end.
End runs.

(** ** Searching for a user *)

Record SearchableUser := mkSearchable {
  su_id : jsstring;
  su_email : jsstring;
  su_username : jsstring;
  su_displayName : jsstring;
  su_avatarUrl : option jsstring;
}.

(** What a dialog shows under its input. *)
Inductive Shown (R : Type) :=
  | ShowError (text : jsstring)
  | ShowHint
  | ShowSpinner
  | ShowNothing
  | ShowResults (results : list R).
Arguments ShowError {R} _.
Arguments ShowHint {R}.
Arguments ShowSpinner {R}.
Arguments ShowNothing {R}.
Arguments ShowResults {R} _.

Definition too_short (query : jsstring) : bool := (length (trim query) <? 2)%nat.

Record UserSearch := mkUserSearch {
  us_open : bool;
  us_query : jsstring;
  us_results : list SearchableUser;
  us_selected : option SearchableUser;
  us_searching : bool;
  us_runs : Runs jsstring SearchableUser;
}.

Definition closed_user_search : UserSearch := mkUserSearch false [] [] None false no_runs.

Definition us_set (results : list SearchableUser) (searching : bool) (s : UserSearch) : UserSearch :=
  mkUserSearch (us_open s) (us_query s) results (us_selected s) searching (us_runs s).
Definition us_set_runs (runs : Runs jsstring SearchableUser) (s : UserSearch) : UserSearch :=
  mkUserSearch (us_open s) (us_query s) (us_results s) (us_selected s) (us_searching s) runs.

(** [setIsNewChatModalOpen(true)] of the button. *)
Definition open_new_chat (s : UserSearch) : UserSearch :=
  mkUserSearch true (us_query s) (us_results s) (us_selected s) (us_searching s) (us_runs s).

(** The input's [onChange]. *)
Definition user_query_changed (query : jsstring) (s : UserSearch) : UserSearch :=
  mkUserSearch (us_open s) query (us_results s) None (us_searching s) (us_runs s).

(** [resetNewChatModal]. *)
Definition resetNewChatModal (s : UserSearch) : UserSearch :=
  mkUserSearch false [] [] None false (us_runs s).

(** The body of the effect, after the clean-up of the run before. *)
Definition user_search_effect (s : UserSearch) : UserSearch :=
  if negb (us_open s) then s
  else if too_short (us_query s) then us_set [] false s
  else us_set_runs (start (trim (us_query s)) (us_runs s)) (us_set (us_results s) true s).

(** The end of the request: the [try], [catch] and [finally] of the timer's function. *)
Definition users_found (n : nat) (results : option (list SearchableUser)) (s : UserSearch)
    : UserSearch :=
  let '(runs, speaks) := answered n results (us_runs s) in
  let s := us_set_runs runs s in
  if speaks then us_set (default [] results) false s else s.

(** The markup under the input. *)
Definition user_shown (s : UserSearch) : Shown SearchableUser :=
  if too_short (us_query s) then ShowHint
  else if us_searching s then ShowSpinner
  else match us_results s with [] => ShowNothing | results => ShowResults results end.

Inductive UserSearchEvent :=
  | NewChatOpened
  | UserQueryChanged (query : jsstring)
  | UserClicked (user : SearchableUser)
  | NewChatClosed
  | UserTimer (n : nat)
  | UsersAnswered (n : nat) (results : option (list SearchableUser)).

Definition user_handle (e : UserSearchEvent) (s : UserSearch) : UserSearch :=
  match e with
  | NewChatOpened => open_new_chat s
  | UserQueryChanged query => user_query_changed query s
  | UserClicked user =>
      mkUserSearch (us_open s) (us_query s) (us_results s) (Some user) (us_searching s) (us_runs s)
  | NewChatClosed => resetNewChatModal s
  | UserTimer n => us_set_runs (fire n (us_runs s)) s
  | UsersAnswered n results => users_found n results s
  end.

(** The events the markup allows: the dialog covers the page, React reports a change of the
    input only when its value differs, and a user is clicked where shown. *)
Definition user_possible (e : UserSearchEvent) (s : UserSearch) : Prop :=
  match e with
  | NewChatOpened => us_open s = false
  | UserQueryChanged query => us_open s = true ∧ query ≠ us_query s
  | NewChatClosed => us_open s = true
  | UserClicked user =>
      us_open s = true ∧ ∃ users, user_shown s = ShowResults users ∧ user ∈ users
  | _ => True
  end.

Definition user_step (s : UserSearch) (e : UserSearchEvent) : UserSearch :=
  let s' := user_handle e s in
  if bool_decide ((us_open s', us_query s') = (us_open s, us_query s)) then s'
  else user_search_effect (us_set_runs (clean (us_runs s')) s').

(** ** Searching in the open conversation *)

Record MessageSearchResult := mkSearchResult {
  sr_messageId : jsstring;
  sr_conversationId : jsstring;
  sr_senderId : jsstring;
  sr_senderDisplayName : option jsstring;
  sr_senderAvatarUrl : option jsstring;
  sr_content : jsstring;
  sr_encryptedContent : option jsstring;
  sr_sentAt : jsstring;
  sr_decodeErrorCode : option jsstring;
  sr_displayState : option MessageDisplayState;
}.

(** The dialog, the selection of the page, the highlighted message, and the timers that
    will clear a highlight, all of the same delay, in the order they fire. *)
Record MessageSearch := mkMessageSearch {
  ms_open : bool;
  ms_query : jsstring;
  ms_conversation : option jsstring;
  ms_results : list MessageSearchResult;
  ms_searching : bool;
  ms_error : option jsstring;
  ms_highlighted : option jsstring;
  ms_highlights : list jsstring;
  ms_runs : Runs (jsstring * jsstring) MessageSearchResult;
}.

Definition closed_message_search : MessageSearch :=
  mkMessageSearch false [] None [] false None None [] no_runs.

Definition ms_set (results : list MessageSearchResult) (searching : bool) (error : option jsstring)
    (s : MessageSearch) : MessageSearch :=
  mkMessageSearch (ms_open s) (ms_query s) (ms_conversation s) results searching error
    (ms_highlighted s) (ms_highlights s) (ms_runs s).
Definition ms_set_dialog (open : bool) (query : jsstring) (s : MessageSearch) : MessageSearch :=
  mkMessageSearch open query (ms_conversation s) (ms_results s) (ms_searching s) (ms_error s)
    (ms_highlighted s) (ms_highlights s) (ms_runs s).
Definition ms_set_highlight (id : option jsstring) (timers : list jsstring) (s : MessageSearch)
    : MessageSearch :=
  mkMessageSearch (ms_open s) (ms_query s) (ms_conversation s) (ms_results s) (ms_searching s)
    (ms_error s) id timers (ms_runs s).
Definition ms_set_runs (runs : Runs (jsstring * jsstring) MessageSearchResult) (s : MessageSearch)
    : MessageSearch :=
  mkMessageSearch (ms_open s) (ms_query s) (ms_conversation s) (ms_results s) (ms_searching s)
    (ms_error s) (ms_highlighted s) (ms_highlights s) runs.
Definition ms_select (conversation : option jsstring) (s : MessageSearch) : MessageSearch :=
  mkMessageSearch (ms_open s) (ms_query s) conversation (ms_results s) (ms_searching s)
    (ms_error s) (ms_highlighted s) (ms_highlights s) (ms_runs s).

Definition no_conversation_text : jsstring :=
  js "Hãy mở một đoạn chat trước khi tìm kiếm tin nhắn.".
Definition search_failed_text : jsstring := js "Không thể tìm kiếm tin nhắn lúc này.".

(** [!state.selectedConversationId] is false: the conversation searched. *)
Definition searched_conversation (s : MessageSearch) : option jsstring :=
  match ms_conversation s with Some [] => None | c => c end.

Definition handleOpenMessageSearch (s : MessageSearch) : MessageSearch :=
  match searched_conversation s with
  | None =>
      ms_set_dialog true (ms_query s)
        (ms_set [] (ms_searching s) (Some no_conversation_text) s)
  | Some _ => ms_set_dialog true [] (ms_set [] (ms_searching s) None s)
  end.

Definition message_query_changed (query : jsstring) (s : MessageSearch) : MessageSearch :=
  ms_set_dialog (ms_open s) query (ms_set (ms_results s) (ms_searching s) None s).

Definition resetMessageSearch (s : MessageSearch) : MessageSearch :=
  ms_set_highlight None (ms_highlights s) (ms_set_dialog false [] (ms_set [] false None s)).

(** [handleOpenSearchResult] once its conversation is selected: the dialog closes, the
    message is highlighted, and a timer of 2200 ms will clear that. *)
Definition search_result_opened (messageId : jsstring) (s : MessageSearch) : MessageSearch :=
  ms_set_highlight (Some messageId) (ms_highlights s ++ [messageId]) (resetMessageSearch s).
Definition highlight_timeout (s : MessageSearch) : MessageSearch :=
  match ms_highlights s with
  | messageId :: timers =>
      ms_set_highlight
        (if bool_decide (ms_highlighted s = Some messageId) then None else ms_highlighted s)
        timers s
  | [] => s
  end.

(** The body of the effect, after the clean-up of the run before. *)
Definition message_search_effect (s : MessageSearch) : MessageSearch :=
  match searched_conversation s with
  | Some c =>
      if negb (ms_open s) then ms_set [] false None s
      else if too_short (ms_query s) then ms_set [] false None s
      else ms_set_runs (start (c, trim (ms_query s)) (ms_runs s)) (ms_set (ms_results s) true None s)
  | None => ms_set [] false None s
  end.

Definition messages_found (n : nat) (results : option (list MessageSearchResult)) (s : MessageSearch)
    : MessageSearch :=
  let '(runs, speaks) := answered n results (ms_runs s) in
  let s := ms_set_runs runs s in
  if speaks then
    match results with
    | Some results => ms_set results false (ms_error s) s
    | None => ms_set [] false (Some search_failed_text) s
    end
  else s.

Definition message_shown (s : MessageSearch) : Shown MessageSearchResult :=
  match ms_error s with
  | Some text => ShowError text
  | None =>
      if too_short (ms_query s) then ShowHint
      else if ms_searching s then ShowSpinner
      else match ms_results s with [] => ShowNothing | results => ShowResults results end
  end.

Inductive MessageSearchEvent :=
  | SearchOpened
  | MessageQueryChanged (query : jsstring)
  | SearchClosed
  | ConversationSelected (conversation : option jsstring)
  | ResultOpened (messageId : jsstring)
  | HighlightTimer
  | MessageTimer (n : nat)
  | MessagesAnswered (n : nat) (results : option (list MessageSearchResult)).

Definition message_handle (e : MessageSearchEvent) (s : MessageSearch) : MessageSearch :=
  match e with
  | SearchOpened => handleOpenMessageSearch s
  | MessageQueryChanged query => message_query_changed query s
  | SearchClosed => resetMessageSearch s
  | ConversationSelected c => ms_select c s
  | ResultOpened messageId => search_result_opened messageId s
  | HighlightTimer => highlight_timeout s
  | MessageTimer n => ms_set_runs (fire n (ms_runs s)) s
  | MessagesAnswered n results => messages_found n results s
  end.

(** The dialog covers the button that opens it. *)
Definition message_possible (e : MessageSearchEvent) (s : MessageSearch) : Prop :=
  match e with
  | SearchOpened => ms_open s = false
  | MessageQueryChanged query => ms_open s = true ∧ query ≠ ms_query s
  | SearchClosed => ms_open s = true
  | _ => True
  end.

Definition message_deps (s : MessageSearch) : bool * jsstring * option jsstring :=
  (ms_open s, ms_query s, ms_conversation s).

Definition message_step (s : MessageSearch) (e : MessageSearchEvent) : MessageSearch :=
  let s' := message_handle e s in
  if bool_decide (message_deps s' = message_deps s) then s'
  else message_search_effect (ms_set_runs (clean (ms_runs s')) s').
