(* ===== verification/SearchFacts.v ===== *)
(** * The search boxes: what they show

    Both boxes refine one machine, [move]: its runs, the question the dialog stands for, and
    whether it is searching.  The machine's invariant [settled] says that what is stored is
    the answer to that question; the theorems on the boxes follow from it. *)

From S2P Require Import Prelude JsText View Search.
Open Scope Z_scope.

(** ** Runs *)

Section machine.
Context {Q R : Type}.
Implicit Types (rs : Runs Q R) (r : Run Q R).

(** Only the run whose clean-up is held may still speak. *)
Record tidy (rs : Runs Q R) : Prop := {
  tidy_next n r : rs_runs rs !! n = Some r → (n < rs_next rs)%nat;
  tidy_cancelled n r : rs_runs rs !! n = Some r →
    (run_cancelled r = false ↔ rs_cleanup rs = Some n);
  tidy_cleanup n : rs_cleanup rs = Some n → is_Some (rs_runs rs !! n);
}.

Definition live (rs : Runs Q R) : option (Run Q R) := rs_cleanup rs ≫= λ n, rs_runs rs !! n.

Lemma tidy_no_runs : tidy (no_runs : Runs Q R).
Proof. split; [by intros n r|by intros n r|done]. Qed.

Lemma tidy_clean rs : tidy rs → tidy (clean rs) ∧ rs_cleanup (clean rs) = None.
Proof.
  intros Ht. pose proof Ht as [Hn Hc Hs]. unfold clean.
  destruct (rs_cleanup rs) as [k|] eqn:E; [|done].
  split; [|done]. split; simpl; [| |done].
  - intros n r. rewrite lookup_alter_Some. intros [(-> & r' & Hr & _)|[_ Hr]]; by eapply Hn.
  - intros n r. rewrite lookup_alter_Some. intros [(-> & r' & Hr & ->)|[Hne Hr]]; [by split|].
    destruct (Hc n r Hr) as [Hf _]. split; [|done]. intros Hr'. specialize (Hf Hr'). congruence.
Qed.

Lemma tidy_start q rs : tidy rs → rs_cleanup rs = None → tidy (start q rs).
Proof.
  intros [Hn Hc Hs] E. split; simpl.
  - intros n r. rewrite lookup_insert_Some. intros [[<- _]|[_ Hr]]; [lia|].
    specialize (Hn _ _ Hr). lia.
  - intros n r. rewrite lookup_insert_Some. intros [[<- <-]|[Hne Hr]]; [done|].
    rewrite (Hc _ _ Hr), E. naive_solver.
  - intros n [= <-]. by rewrite lookup_insert_eq.
Qed.

Lemma tidy_phase n phase rs : tidy rs → tidy (set_phase n phase rs).
Proof.
  intros [Hn Hc Hs]. split; simpl.
  - intros k r. rewrite lookup_alter_Some. intros [(-> & r' & Hr & _)|[_ Hr]]; by eapply Hn.
  - intros k r. rewrite lookup_alter_Some. intros [(-> & r' & Hr & ->)|[_ Hr]]; [|by apply Hc].
    by apply (Hc _ _ Hr).
  - intros k Hk. by apply lookup_alter_is_Some, Hs.
Qed.

Lemma live_start q rs : live (start q rs) = Some (mkRun q false Waiting).
Proof. unfold live. simpl. by rewrite lookup_insert_eq. Qed.

Lemma live_phase n phase rs :
  live (set_phase n phase rs) =
  if bool_decide (rs_cleanup rs = Some n)
  then (λ r, mkRun (run_question r) (run_cancelled r) phase) <$> live rs else live rs.
Proof.
  unfold live. simpl. destruct (rs_cleanup rs) as [k|]; [|done]. simpl.
  destruct (decide (k = n)) as [->|Hne].
  - rewrite bool_decide_true by done. by rewrite lookup_alter_eq.
  - rewrite bool_decide_false by congruence. by rewrite lookup_alter_ne.
Qed.

(** ** The machine *)

Record Abs := mkAbs {
  a_runs : Runs Q R;
  a_wanted : option Q;
  a_searching : bool;
  a_results : list R;
}.

(** A move, with the answer it brings. *)
Inductive move : Abs → option (nat * option (list R)) → Abs → Prop :=
  | move_stay a : move a None a
  | move_rerun a wanted results :
      move a None
        (mkAbs (match wanted with Some q => start q (clean (a_runs a)) | None => clean (a_runs a) end)
           wanted (bool_decide (is_Some wanted)) results)
  | move_idle a results :
      a_wanted a = None → move a None (mkAbs (a_runs a) None false results)
  | move_timer a n :
      move a None (mkAbs (fire n (a_runs a)) (a_wanted a) (a_searching a) (a_results a))
  | move_ignored a n results :
      (answered n results (a_runs a)).2 = false →
      move a (Some (n, results))
        (mkAbs (answered n results (a_runs a)).1 (a_wanted a) (a_searching a) (a_results a))
  | move_answered a n results :
      (answered n results (a_runs a)).2 = true →
      move a (Some (n, results))
        (mkAbs (answered n results (a_runs a)).1 (a_wanted a) false (default [] results)).

(** What is stored is the answer to the question the dialog stands for; [answers] are those
    that have come. *)
Definition settled (answers : list (nat * option (list R))) (a : Abs) : Prop :=
  tidy (a_runs a) ∧
  match live (a_runs a) with
  | None => a_wanted a = None ∧ a_searching a = false
  | Some r =>
      a_wanted a = Some (run_question r) ∧
      match run_phase r with
      | Answered results =>
          a_searching a = false ∧ a_results a = default [] results ∧
          ∃ n, rs_cleanup (a_runs a) = Some n ∧ (n, results) ∈ answers
      | _ => a_searching a = true
      end
  end.

Lemma settled_init results : settled [] (mkAbs no_runs None false results).
Proof. by split; [apply tidy_no_runs|]. Qed.

Lemma settled_more answers answers' a :
  settled answers a → settled (answers' ++ answers) a.
Proof.
  intros [Ht Hl]. split; [done|]. destruct (live _) as [[q c [| |res]]|]; simpl in *; [done..| |done].
  destruct Hl as (? & ? & ? & n & ? & Hin). split; [done|]. do 2 (split; [done|]).
  exists n. split; [done|]. apply elem_of_app. by right.
Qed.

(** The run that may speak is the live one. *)
Lemma answered_speaks n results rs : tidy rs → (answered n results rs).2 = true →
  ∃ r, live rs = Some r ∧ run_phase r = Asked ∧ rs_cleanup rs = Some n ∧
    (answered n results rs).1 = set_phase n (Answered results) rs.
Proof.
  intros Ht. unfold answered. destruct (rs_runs rs !! n) as [[q [] [| |res]]|] eqn:E; simpl; try done.
  intros _. assert (rs_cleanup rs = Some n) as Hc by by apply (tidy_cancelled _ Ht _ _ E).
  exists (mkRun q false Asked). unfold live. rewrite Hc. by split.
Qed.

Lemma answered_ignored n results rs : tidy rs → (answered n results rs).2 = false →
  tidy (answered n results rs).1 ∧ live (answered n results rs).1 = live rs ∧
  rs_cleanup (answered n results rs).1 = rs_cleanup rs.
Proof.
  intros Ht. unfold answered. destruct (rs_runs rs !! n) as [[q [] [| |res]]|] eqn:E; simpl; try done.
  intros _. split_and!; [by apply tidy_phase| |done]. rewrite live_phase.
  rewrite bool_decide_false; [done|]. intros Hc. by apply (tidy_cancelled _ Ht _ _ E) in Hc.
Qed.

Lemma fire_live n rs : tidy rs →
  tidy (fire n rs) ∧ rs_cleanup (fire n rs) = rs_cleanup rs ∧
  (live (fire n rs) = live rs ∨
   ∃ r, live rs = Some r ∧ run_phase r = Waiting ∧ rs_cleanup rs = Some n ∧
     live (fire n rs) = Some (mkRun (run_question r) (run_cancelled r) Asked)).
Proof.
  intros Ht. unfold fire. destruct (rs_runs rs !! n) as [[q [] [| |res]]|] eqn:E;
    try (split_and!; [done|done|by left]).
  split_and!; [by apply tidy_phase|done|right].
  assert (rs_cleanup rs = Some n) as Hc by by apply (tidy_cancelled _ Ht _ _ E).
  assert (live rs = Some (mkRun q false Waiting)) as Hl by (unfold live; by rewrite Hc).
  exists (mkRun q false Waiting). by rewrite live_phase, bool_decide_true, Hl.
Qed.

Theorem settled_move answers a o a' :
  settled answers a → move a o a' → settled (option_list o ++ answers) a'.
Proof.
  intros [Ht Hl] Hm. destruct Hm as [a|a wanted results|a results Hw|a n|a n results Hs|a n results Hs].
  - by split.
  - destruct (tidy_clean _ Ht) as [Ht' Hc]. destruct wanted as [q|].
    + split; [by apply tidy_start|]. cbn [a_runs]. by rewrite live_start.
    + split; [done|]. cbn [a_runs]. unfold live. by rewrite Hc.
  - split; [done|]. simpl. destruct (live _); [|done]. destruct Hl as [Hl _]. congruence.
  - destruct (fire_live n _ Ht) as (Ht' & Hc & Hlive). split; [done|]. simpl.
    destruct Hlive as [->|(r & Er & Hw & _ & ->)]; [by rewrite Hc|].
    rewrite Er, Hw in Hl. by destruct Hl as [-> ->].
  - destruct (answered_ignored _ _ _ Ht Hs) as (Ht' & Hlive & Hc).
    apply (settled_more _ [_]). split; [done|]. simpl. by rewrite Hlive, Hc.
  - destruct (answered_speaks _ _ _ Ht Hs) as (r & Er & Hp & Hc & E).
    rewrite Er in Hl. destruct Hl as [Hw _]. unfold settled. simpl. rewrite E.
    split; [by apply tidy_phase|]. rewrite live_phase, bool_decide_true, Er by done. simpl.
    split_and!; [done..|]. exists n. split; [done|]. by left.
Qed.
(** The run that stands for the question, and how far it is. *)
Lemma settled_question answers a q : settled answers a → a_wanted a = Some q →
  ∃ n r, rs_cleanup (a_runs a) = Some n ∧ rs_runs (a_runs a) !! n = Some r ∧
    run_question r = q ∧ run_cancelled r = false ∧
    match run_phase r with
    | Answered results =>
        a_searching a = false ∧ a_results a = default [] results ∧ (n, results) ∈ answers
    | _ => a_searching a = true
    end.
Proof.
  intros [Ht Hl] Hw. unfold live in Hl. destruct (rs_cleanup (a_runs a)) as [n|] eqn:Hc; simpl in Hl.
  2: { rewrite Hw in Hl. by destruct Hl. }
  destruct (tidy_cleanup _ Ht n Hc) as [r Hr]. rewrite Hr in Hl. destruct Hl as [Hw' Hp].
  exists n, r. split_and!; [done|done|congruence|by apply (tidy_cancelled _ Ht _ _ Hr)|].
  destruct (run_phase r); [done|done|]. destruct Hp as (? & ? & m & [= <-] & ?). done.
Qed.

(** Once its timer has fired and its request has ended, the run is answered. *)
Lemma pending_answered n q phase results rs :
  rs_runs rs !! n = Some (mkRun q false phase) → (∀ l, phase ≠ Answered l) →
  let rs' := (answered n results (fire n rs)).1 in
  rs_runs rs' !! n = Some (mkRun q false (Answered results)) ∧ rs_cleanup rs' = rs_cleanup rs.
Proof.
  intros Hr Hp. unfold fire. rewrite Hr.
  destruct phase as [| |l]; [| |by destruct (Hp l)]; unfold answered; simpl.
  - by rewrite lookup_alter_eq, Hr; simpl; rewrite !lookup_alter_eq, Hr.
  - by rewrite Hr; simpl; rewrite lookup_alter_eq, Hr.
Qed.
End machine.
Arguments Abs : clear implicits.

(** ** Searching for a user *)

(** The states that a sequence of events, the latest first, leads to. *)
Inductive user_reach : list UserSearchEvent → UserSearch → Prop :=
  | user_reach_init : user_reach [] closed_user_search
  | user_reach_step es s e :
      user_reach es s → user_possible e s → user_reach (e :: es) (user_step s e).

Definition user_wanted (s : UserSearch) : option jsstring :=
  if us_open s && negb (too_short (us_query s)) then Some (trim (us_query s)) else None.
Definition user_abs (s : UserSearch) : Abs jsstring SearchableUser :=
  mkAbs (us_runs s) (user_wanted s) (us_searching s) (us_results s).
Definition user_answer (e : UserSearchEvent) : option (nat * option (list SearchableUser)) :=
  match e with UsersAnswered n results => Some (n, results) | _ => None end.

(** A change of the dialog or of its query runs the effect again. *)
Lemma user_effect_move s s' :
  us_runs s' = us_runs s → us_open s' = true ∨ us_searching s' = false →
  move (user_abs s) None (user_abs (user_search_effect (us_set_runs (clean (us_runs s')) s'))).
Proof.
  intros Hr Hs. rewrite Hr. destruct s' as [open query results selected searching runs].
  simpl in *. unfold user_search_effect. simpl. destruct open; simpl.
  - destruct (too_short query) eqn:E; unfold user_abs at 2, user_wanted; simpl; rewrite E.
    + apply (move_rerun (user_abs s) None).
    + apply (move_rerun (user_abs s) (Some (trim query))).
  - destruct Hs as [|Hs]; [done|]. subst searching. apply (move_rerun (user_abs s) None).
Qed.

Lemma user_step_move s e : user_possible e s →
  move (user_abs s) (user_answer e) (user_abs (user_step s e)).
Proof.
  intros Hp. unfold user_step. case_bool_decide as Hd.
  - destruct e as [|query|user| |n|n results]; simpl in Hp, Hd.
    + injection Hd. intros. congruence.
    + destruct Hp as [_ Hne]. congruence.
    + apply move_stay.
    + injection Hd. intros. congruence.
    + apply (move_timer (user_abs s)).
    + simpl. unfold users_found. destruct (answered n results (us_runs s)) as [runs speaks] eqn:E.
      destruct speaks.
      * pose proof (move_answered (user_abs s) n results) as Hm. simpl in Hm. rewrite E in Hm.
        by apply Hm.
      * pose proof (move_ignored (user_abs s) n results) as Hm. simpl in Hm. rewrite E in Hm.
        by apply Hm.
  - destruct e as [|query|user| |n|n results]; simpl in Hp.
    + by apply user_effect_move; [|left].
    + apply user_effect_move; [done|left; by destruct Hp].
    + by destruct Hd.
    + by apply user_effect_move; [|right].
    + by destruct Hd.
    + destruct Hd. simpl. unfold users_found. by destruct (answered _ _ _) as [? []].
Qed.

Lemma user_settled es s : user_reach es s → settled (omap user_answer es) (user_abs s).
Proof.
  induction 1 as [|es s e _ IH Hp]; [apply settled_init|].
  replace (omap user_answer (e :: es)) with (option_list (user_answer e) ++ omap user_answer es)
    by (simpl; by destruct (user_answer e)).
  eapply settled_move; [done|by apply user_step_move].
Qed.

(** A user can only be selected while it is shown. *)
Lemma user_selected_shown es s u : user_reach es s → us_selected s = Some u →
  us_open s = true ∧ ∃ users, user_shown s = ShowResults users ∧ u ∈ users.
Proof.
  intros Hreach. revert u. induction Hreach as [|es s e Hreach IH Hp]; [done|].
  intros u. unfold user_step. case_bool_decide as Hd.
  - destruct e as [|query|user| |n|n results]; simpl in Hp |- *.
    + intros Hu. destruct (IH u Hu). congruence.
    + done.
    + intros [= <-]. apply Hp.
    + done.
    + apply IH.
    + unfold users_found. destruct (answered n results (us_runs s)) as [runs speaks] eqn:E.
      destruct speaks; simpl; [|apply IH]. intros Hu. destruct (IH u Hu) as (_ & users & Hs & _).
      destruct (user_settled _ _ Hreach) as [Ht Hl].
      destruct (answered_speaks n results (us_runs s) Ht) as (r & Er & Hph & _); [by rewrite E|].
      simpl in Hl. rewrite Er, Hph in Hl. simpl in Hl. destruct Hl as [_ Hl].
      unfold user_shown in Hs. rewrite Hl in Hs. by destruct (too_short _).
  - destruct e as [|query|user| |n|n results]; simpl in Hp, Hd |- *; unfold user_search_effect; simpl.
    + destruct (too_short (us_query s)); simpl; intros Hu; destruct (IH u Hu) as [Ho _]; congruence.
    + by destruct (us_open s), (too_short query).
    + by destruct Hd.
    + done.
    + by destruct Hd.
    + destruct Hd. unfold users_found. by destruct (answered _ _ _) as [? []].
Qed.

(** Whatever the user types, and in whatever order the timers fire and the answers come,
    a conversation can only be started with a user whom the backend returned for the text
    that the box now holds, trimmed: an answer to an earlier text is never offered. *)
Lemma selected_user_answers_query es s u :
  user_reach es s → us_selected s = Some u →
  ∃ n users, UsersAnswered n (Some users) ∈ es ∧ u ∈ users ∧
    rs_runs (us_runs s) !! n = Some (mkRun (trim (us_query s)) false (Answered (Some users))).
Proof.
  intros Hreach Hu. destruct (user_selected_shown _ _ _ Hreach Hu) as (Ho & users & Hs & Hin).
  assert (user_wanted s = Some (trim (us_query s)) ∧ us_searching s = false ∧ us_results s = users)
    as (Hw & Hq & Hres).
  { unfold user_wanted, user_shown in *. rewrite Ho. destruct (too_short (us_query s)); [done|].
    destruct (us_searching s); [done|]. destruct (us_results s); [done|]. by simplify_eq. }
  destruct (settled_question _ _ _ (user_settled _ _ Hreach) Hw)
    as (n & [q c phase] & _ & Hr & Heq & Hc & Hph).
  simpl in *. subst q c. destruct phase as [| |[users'|]]; [congruence|congruence| |].
  - destruct Hph as (_ & E & Hans). simpl in E. exists n, users'. split_and!; [|congruence|done].
    apply list_elem_of_omap in Hans as (e & He & E'). by destruct e; simplify_eq/=.
  - destruct Hph as (_ & E & _). simpl in E. rewrite E in Hres. subst users.
    by apply not_elem_of_nil in Hin.
Qed.

(** ** Searching in the conversation *)

Inductive message_reach : list MessageSearchEvent → MessageSearch → Prop :=
  | message_reach_init : message_reach [] closed_message_search
  | message_reach_step es s e :
      message_reach es s → message_possible e s → message_reach (e :: es) (message_step s e).

Definition message_wanted (s : MessageSearch) : option (jsstring * jsstring) :=
  match searched_conversation s with
  | Some c => if ms_open s && negb (too_short (ms_query s)) then Some (c, trim (ms_query s)) else None
  | None => None
  end.
Definition message_abs (s : MessageSearch) : Abs (jsstring * jsstring) MessageSearchResult :=
  mkAbs (ms_runs s) (message_wanted s) (ms_searching s) (ms_results s).
Definition message_answer (e : MessageSearchEvent)
    : option (nat * option (list MessageSearchResult)) :=
  match e with MessagesAnswered n results => Some (n, results) | _ => None end.

Lemma message_effect_move s s' : ms_runs s' = ms_runs s →
  move (message_abs s) None
    (message_abs (message_search_effect (ms_set_runs (clean (ms_runs s')) s'))).
Proof.
  intros Hr. rewrite Hr. set (s1 := ms_set_runs (clean (ms_runs s)) s').
  assert (message_wanted s1 = None → move (message_abs s) None (message_abs (ms_set [] false None s1)))
    as Hnone.
  { intros Hw. unfold message_abs at 2.
    replace (message_wanted (ms_set [] false None s1)) with (message_wanted s1) by done.
    rewrite Hw. apply (move_rerun (message_abs s) None). }
  unfold message_search_effect, message_wanted in *.
  destruct (searched_conversation s1) as [c|] eqn:E; [|by apply Hnone].
  destruct (ms_open s1) eqn:Eo; [|by apply Hnone].
  destruct (too_short (ms_query s1)) eqn:Eq; [by apply Hnone|].
  set (s2 := ms_set_runs _ _).
  assert (message_wanted s2 = Some (c, trim (ms_query s1))) as Hw.
  { unfold message_wanted, s2. change (searched_conversation (ms_set_runs _ _)) with (searched_conversation s1).
    rewrite E. change (ms_open (ms_set_runs _ _)) with (ms_open s1). rewrite Eo.
    change (ms_query (ms_set_runs _ _)) with (ms_query s1). by rewrite Eq. }
  simpl. unfold message_abs at 2. rewrite Hw.
  apply (move_rerun (message_abs s) (Some (c, trim (ms_query s1)))).
Qed.

(** An event that changes what the effect depends on leaves the runs to it. *)
Lemma message_handle_runs s e : message_deps (message_handle e s) ≠ message_deps s →
  ms_runs (message_handle e s) = ms_runs s.
Proof.
  intros Hd. destruct e as [|query| |c|id| |n|n results]; simpl in *; try done.
  - unfold handleOpenMessageSearch. by destruct (searched_conversation s).
  - unfold highlight_timeout. by destruct (ms_highlights s).
  - unfold messages_found in Hd. destruct Hd.
    destruct (answered _ _ _) as [? []]; by destruct results.
Qed.

Lemma message_step_move s e : message_possible e s →
  move (message_abs s) (message_answer e) (message_abs (message_step s e)).
Proof.
  intros Hp. unfold message_step. case_bool_decide as Hd.
  - destruct e as [|query| |c|id| |n|n results]; simpl in Hp; unfold message_deps in Hd.
    + simpl in Hd. unfold handleOpenMessageSearch in Hd.
      destruct (searched_conversation s); simpl in Hd; injection Hd; congruence.
    + simpl in Hd. injection Hd. destruct Hp. congruence.
    + simpl in Hd. injection Hd. congruence.
    + simpl in Hd. injection Hd as ->. by destruct s; apply move_stay.
    + simpl in *. injection Hd as Ho Hq. unfold message_abs at 2. simpl.
      replace (message_wanted (search_result_opened id s)) with (None : option (jsstring * jsstring)).
      2: { unfold message_wanted. simpl. by destruct (searched_conversation _). }
      apply (move_idle (message_abs s)). unfold message_abs, message_wanted. simpl. rewrite <-Ho.
      by destruct (searched_conversation s).
    + simpl. unfold highlight_timeout. destruct (ms_highlights s); apply move_stay.
    + apply (move_timer (message_abs s)).
    + simpl. unfold messages_found. destruct (answered n results (ms_runs s)) as [runs speaks] eqn:E.
      destruct speaks.
      * pose proof (move_answered (message_abs s) n results) as Hm. simpl in Hm. rewrite E in Hm.
        destruct results; by apply Hm.
      * pose proof (move_ignored (message_abs s) n results) as Hm. simpl in Hm. rewrite E in Hm.
        by apply Hm.
  - replace (message_answer e) with (None : option (nat * option (list MessageSearchResult))).
    + by apply message_effect_move, message_handle_runs.
    + destruct e; try done. destruct Hd. simpl. unfold messages_found.
      destruct (answered _ _ _) as [? []]; by destruct results.
Qed.

Lemma message_settled es s :
  message_reach es s → settled (omap message_answer es) (message_abs s).
Proof.
  induction 1 as [|es s e _ IH Hp]; [apply settled_init|].
  replace (omap message_answer (e :: es))
    with (option_list (message_answer e) ++ omap message_answer es)
    by (simpl; by destruct (message_answer e)).
  eapply settled_move; [done|by apply message_step_move].
Qed.

(** An error is shown exactly when the live run has failed. *)
Definition live_error (s : MessageSearch) : option jsstring :=
  match live (ms_runs s) with
  | Some (mkRun _ _ (Answered None)) => Some search_failed_text
  | _ => None
  end.

Lemma message_effect_error s : tidy (ms_runs s) → rs_cleanup (ms_runs s) = None →
  ms_error (message_search_effect s) = live_error (message_search_effect s).
Proof.
  intros Ht Hc. assert (live (ms_runs s) = None) as Hl by (unfold live; by rewrite Hc).
  unfold message_search_effect, live_error. destruct (searched_conversation s) as [c|]; simpl;
    [|by rewrite Hl].
  destruct (ms_open s); simpl; [|by rewrite Hl].
  destruct (too_short (ms_query s)); simpl; [by rewrite Hl|]. by rewrite live_start.
Qed.

Lemma message_error_live es s : message_reach es s → ms_error s = live_error s.
Proof.
  induction 1 as [|es s e Hreach IH Hp]; [done|].
  destruct (message_settled _ _ Hreach) as [Ht Hl]. simpl in Ht, Hl.
  unfold message_step. case_bool_decide as Hd.
  - destruct e as [|query| |c|id| |n|n results]; simpl in Hp; unfold message_deps in Hd.
    + simpl in Hd. unfold handleOpenMessageSearch in Hd.
      destruct (searched_conversation s); simpl in Hd; injection Hd; congruence.
    + simpl in Hd. injection Hd. destruct Hp. congruence.
    + simpl in Hd. injection Hd. congruence.
    + done.
    + simpl in Hd. injection Hd as Ho _. unfold live_error. simpl.
      assert (message_wanted s = None) as Hw
        by (unfold message_wanted; rewrite <-Ho; by destruct (searched_conversation s)).
      destruct (live (ms_runs s)); [|done]. destruct Hl as [Hl _]. congruence.
    + simpl. unfold highlight_timeout. by destruct (ms_highlights s).
    + simpl. unfold live_error in *. simpl.
      destruct (fire_live n _ Ht) as (_ & _ & [->|(r & Er & Hw & _ & ->)]); [done|].
      rewrite Er in IH. destruct r. simpl in Hw. by subst.
    + simpl. unfold messages_found. destruct (answered n results (ms_runs s)) as [runs speaks] eqn:E.
      unfold live_error in *. destruct speaks; simpl.
      * destruct (answered_speaks n results (ms_runs s) Ht) as (r & Er & Hph & Hc & Er'); [by rewrite E|].
        rewrite E in Er'. simpl in Er'. subst runs. rewrite Er in IH. destruct r as [q b phase].
        simpl in Hph. subst phase.
        destruct results; simpl; rewrite live_phase, bool_decide_true, Er by done; done.
      * destruct (answered_ignored n results (ms_runs s) Ht) as (_ & Hlive & _); [by rewrite E|].
        rewrite E in Hlive. simpl in Hlive. by rewrite Hlive.
  - assert (tidy (ms_runs (message_handle e s))) as Ht'
      by by rewrite message_handle_runs.
    destruct (tidy_clean _ Ht') as [Ht2 Hc]. by apply message_effect_error.
Qed.

(** What the dialog shows, read off how far its run is. *)
Definition phase_shown (phase : Phase MessageSearchResult) : Shown MessageSearchResult :=
  match phase with
  | Waiting | Asked => ShowSpinner
  | Answered (Some []) => ShowNothing
  | Answered (Some results) => ShowResults results
  | Answered None => ShowError search_failed_text
  end.

Lemma message_shown_phase es s c : message_reach es s →
  ms_open s = true → searched_conversation s = Some c → too_short (ms_query s) = false →
  ∃ n phase, rs_cleanup (ms_runs s) = Some n ∧
    rs_runs (ms_runs s) !! n = Some (mkRun (c, trim (ms_query s)) false phase) ∧
    message_shown s = phase_shown phase ∧
    (∀ results, phase = Answered results → MessagesAnswered n results ∈ es).
Proof.
  intros Hreach Ho Hconv Hlong. pose proof (message_settled _ _ Hreach) as Hset.
  assert (a_wanted (message_abs s) = Some (c, trim (ms_query s))) as Hw.
  { simpl. unfold message_wanted. by rewrite Hconv, Ho, Hlong. }
  destruct (settled_question _ _ _ Hset Hw) as (n & [q b phase] & Hc & Hr & Eq & Eb & Hph).
  simpl in Hc, Hr, Eq, Eb, Hph. subst q b. exists n, phase. split_and!; [done|done| |].
  - unfold message_shown. rewrite (message_error_live _ _ Hreach).
    unfold live_error, live. rewrite Hc. simpl. rewrite Hr, Hlong.
    destruct phase as [| |[l|]]; [by rewrite Hph..| |done].
    destruct Hph as (-> & -> & _). by destruct l.
  - intros results ->. destruct Hph as (_ & _ & Hin).
    apply list_elem_of_omap in Hin as (e & He & Ee). by destruct e; simplify_eq/=.
Qed.

Lemma message_step_timer s n :
  message_step s (MessageTimer n) = ms_set_runs (fire n (ms_runs s)) s.
Proof. unfold message_step. by rewrite bool_decide_true. Qed.

Lemma message_step_answered s n results :
  message_step s (MessagesAnswered n results) = messages_found n results s.
Proof.
  unfold message_step. rewrite bool_decide_true; [done|]. simpl. unfold messages_found.
  destruct (answered _ _ _) as [? []]; by destruct results.
Qed.

(** C12: whatever is typed, selected and answered, and in whatever order, an open dialog shows
    what became of the last question, which is the text in the box, trimmed, in the selected
    conversation: a spinner while it is out, then the backend's results or the failure.  When
    its timer has fired and its answer has come, it shows that answer. *)
Theorem message_search_shows es s c :
  message_reach es s → ms_open s = true → searched_conversation s = Some c →
  too_short (ms_query s) = false →
  ∃ n phase, rs_runs (ms_runs s) !! n = Some (mkRun (c, trim (ms_query s)) false phase) ∧
    match phase with
    | Answered results =>
        MessagesAnswered n results ∈ es ∧
        message_shown s = phase_shown (Answered results)
    | _ =>
        message_shown s = ShowSpinner ∧
        ∀ results,
          message_shown (message_step (message_step s (MessageTimer n)) (MessagesAnswered n results))
          = phase_shown (Answered results)
    end.
Proof.
  intros Hreach Ho Hconv Hlong.
  destruct (message_shown_phase _ _ _ Hreach Ho Hconv Hlong) as (n & phase & Hc & Hr & Hshown & Hin).
  exists n, phase. split; [done|].
  assert ((∀ l, phase ≠ Answered l) → ∀ results,
    message_shown (message_step (message_step s (MessageTimer n)) (MessagesAnswered n results))
    = phase_shown (Answered results)) as Hsettles.
  { intros Hp results. destruct (pending_answered n _ phase results _ Hr Hp) as [Hr' Hc'].
    rewrite message_step_timer, message_step_answered.
    set (s' := messages_found n results _).
    assert (message_reach (MessagesAnswered n results :: MessageTimer n :: es) s') as Hreach'.
    { unfold s'. rewrite <-message_step_answered, <-message_step_timer.
      by do 2 (apply message_reach_step; [|done]). }
    assert (ms_runs s' = (answered n results (fire n (ms_runs s))).1
      ∧ message_deps s' = message_deps s) as [Eruns Edeps].
    { unfold s', messages_found. simpl. destruct (answered _ _ _) as [? []]; by destruct results. }
    injection Edeps as E1 E2 E3.
    destruct (message_shown_phase _ _ c Hreach') as (n' & phase' & Hcl & Hr2 & -> & _);
      [congruence|unfold searched_conversation in *; by rewrite E3|by rewrite E2|].
    rewrite Eruns in Hcl, Hr2. rewrite Hc', Hc in Hcl. injection Hcl as <-.
    rewrite Hr' in Hr2. by injection Hr2 as _ <-. }
  destruct phase as [| |results]; [by split; [|apply Hsettles]..|].
  by split; [apply Hin|].
Qed.

(** Two texts typed in a row, the answers coming the wrong way round. *)
Definition ann : SearchableUser := mkSearchable (js "1") (js "ann@x") (js "ann") (js "Ann") None.
Definition bob : SearchableUser := mkSearchable (js "2") (js "bob@x") (js "bob") (js "Bob") None.
Definition user_events : list UserSearchEvent :=
  [NewChatOpened; UserQueryChanged (js "an"); UserTimer 0; UserQueryChanged (js "bo");
   UserTimer 1; UsersAnswered 1 (Some [bob]); UsersAnswered 0 (Some [ann]); UserClicked bob].

Lemma selected_user_answers_query_example :
  let s := foldl user_step closed_user_search user_events in
  us_selected s = Some bob ∧
  ∃ n users, UsersAnswered n (Some users) ∈ reverse user_events ∧ bob ∈ users ∧
    rs_runs (us_runs s) !! n = Some (mkRun (trim (us_query s)) false (Answered (Some users))).
Proof.
  intros s. split; [vm_compute; reflexivity|].
  apply selected_user_answers_query; [|vm_compute; reflexivity].
  unfold s, user_events. cbn [foldl reverse rev_append].
  repeat (apply user_reach_step; [|solve [exact I | vm_compute; reflexivity
    | split; vm_compute; [reflexivity|discriminate]
    | split; [vm_compute; reflexivity|exists [bob]; split; [vm_compute; reflexivity|by left]]]]).
  apply user_reach_init.
Defined.

(** A query whose request fails after an earlier one was answered. *)
Definition hit : MessageSearchResult :=
  mkSearchResult (js "m1") (js "c1") (js "u1") None None (js "hello") None (js "t") None None.
Definition message_events : list MessageSearchEvent :=
  [ConversationSelected (Some (js "c1")); SearchOpened; MessageQueryChanged (js "he");
   MessageTimer 0; MessagesAnswered 0 (Some [hit]); MessageQueryChanged (js " hel ")].

Lemma message_search_shows_witness :
  let s := foldl message_step closed_message_search message_events in
  ∃ n phase, rs_runs (ms_runs s) !! n = Some (mkRun (js "c1", trim (ms_query s)) false phase) ∧
    match phase with
    | Answered results =>
        MessagesAnswered n results ∈ reverse message_events ∧
        message_shown s = phase_shown (Answered results)
    | _ =>
        message_shown s = ShowSpinner ∧
        ∀ results,
          message_shown (message_step (message_step s (MessageTimer n)) (MessagesAnswered n results))
          = phase_shown (Answered results)
    end.
Proof.
  intros s. apply (message_search_shows (reverse message_events) s (js "c1")); try (vm_compute; reflexivity).
  unfold s, message_events. cbn [foldl reverse rev_append].
  repeat (apply message_reach_step; [|solve [exact I | vm_compute; reflexivity
    | split; vm_compute; [reflexivity|discriminate]]]).
  apply message_reach_init.
Defined.

(** With no conversation selected the handler asks the user to open one, but the effect that
    the opening runs clears the text at once; whatever is typed then "matches nothing",
    though nothing was searched. *)
Lemma search_without_conversation s query :
  ms_open s = false → searched_conversation s = None → too_short query = false →
  ms_error (handleOpenMessageSearch s) = Some no_conversation_text ∧
  let opened := message_step s SearchOpened in
  message_shown opened ≠ ShowError no_conversation_text ∧
  (query ≠ ms_query opened →
   message_shown (message_step opened (MessageQueryChanged query)) = ShowNothing).
Proof.
  intros Ho Hconv Hlong.
  assert (∀ b, searched_conversation b = None → message_search_effect b = ms_set [] false None b) as Heff.
  { intros b Hb. unfold message_search_effect. by rewrite Hb. }
  assert (message_step s SearchOpened
    = ms_set [] false None (ms_set_runs (clean (ms_runs s))
        (ms_set_dialog true (ms_query s) (ms_set [] (ms_searching s) (Some no_conversation_text) s)))) as E.
  { unfold message_step. simpl. unfold handleOpenMessageSearch, message_deps. rewrite Hconv. simpl.
    rewrite bool_decide_false by congruence. by apply Heff. }
  split; [unfold handleOpenMessageSearch; by rewrite Hconv|]. rewrite E. split.
  - unfold message_shown. simpl. destruct (too_short (ms_query s)); discriminate.
  - intros Hne. unfold message_step, message_deps. rewrite bool_decide_false by (simpl in *; congruence).
    rewrite Heff by done. unfold message_shown. simpl. by rewrite Hlong.
Qed.
