(* ===== verification/Media.v ===== *)
(** * Attachments on screen

    The image viewer of [chat.page.tsx] (lines 1034-1084 and the element at 1826) with
    [image-viewer.tsx], the picture inside a message of [message-bubble.tsx], and the texts
    of [file-card.tsx].  Each asks the backend for a link and shows the file once it comes;
    a step is an event of the user or the end of such a request. *)

From Stdlib Require Import QArith_base.
From S2P Require Import Prelude JsText View.
Open Scope Z_scope.

(** ** The image viewer *)

(** [imageViewer], with its scale in quarters (every scale is a multiple of 0.25, which
    binary fractions hold exactly); the requests for a link; the downloads that were started
    and the errors that were shown. *)
Record ImageViewerState := mkViewer {
  iv_isOpen : bool;
  iv_attachment : option ChatAttachment;
  iv_imageUrl : jsstring;
  iv_quarters : Z;
  iv_loading : bool;
}.

Inductive MediaRequest :=
  | OpenRequest (attachment : ChatAttachment)
  | DownloadRequest (attachment : ChatAttachment).

Record Media := mkMedia {
  md_viewer : ImageViewerState;
  md_next : nat;
  md_requests : gmap nat MediaRequest;
  md_downloads : list (jsstring * jsstring);
  md_errors : list jsstring;
}.

Definition closed_viewer : ImageViewerState := mkViewer false None [] 4 false.
Definition no_media : Media := mkMedia closed_viewer 0 ∅ [] [].

Definition set_viewer (v : ImageViewerState) (m : Media) : Media :=
  mkMedia v (md_next m) (md_requests m) (md_downloads m) (md_errors m).
Definition media_error (text : jsstring) (m : Media) : Media :=
  mkMedia (md_viewer m) (md_next m) (md_requests m) (md_downloads m) (md_errors m ++ [text]).
Definition media_ask (r : MediaRequest) (m : Media) : Media :=
  mkMedia (md_viewer m) (S (md_next m)) (<[md_next m := r]> (md_requests m)) (md_downloads m)
    (md_errors m).

(** [handleOpenImageAttachment] up to its [await]. *)
Definition handleOpenImageAttachment (attachment : ChatAttachment) (m : Media) : Media :=
  if negb (truthy (va_attachmentId attachment)) then m
  else media_ask (OpenRequest attachment) (set_viewer (mkViewer true (Some attachment) [] 4 true) m).

Definition open_failed_text : jsstring := js "Không thể mở ảnh lúc này.".
Definition download_failed_text : jsstring := js "Không thể tải tệp lúc này.".

(** ... and after it. *)
Definition image_opened (attachment : ChatAttachment) (url : option jsstring) (m : Media) : Media :=
  match url with
  | Some url => set_viewer (mkViewer true (Some attachment) url 4 false) m
  | None =>
      media_error open_failed_text (set_viewer (mkViewer true (Some attachment) [] 4 false) m)
  end.

(** [handleDownloadAttachment]; the browser is told the link and the name the backend gives. *)
Definition handleDownloadAttachment (attachment : ChatAttachment) (m : Media) : Media :=
  if negb (truthy (va_attachmentId attachment)) then m
  else media_ask (DownloadRequest attachment) m.
Definition download_answered (link : option (jsstring * jsstring)) (m : Media) : Media :=
  match link with
  | Some link =>
      mkMedia (md_viewer m) (md_next m) (md_requests m) (md_downloads m ++ [link]) (md_errors m)
  | None => media_error download_failed_text m
  end.

Definition with_scale (f : Z → Z) (v : ImageViewerState) : ImageViewerState :=
  mkViewer (iv_isOpen v) (iv_attachment v) (iv_imageUrl v) (f (iv_quarters v)) (iv_loading v).

(** [Math.min(scale + 0.25, 3)] and [Math.max(scale - 0.25, 0.5)]. *)
Definition zoom_in : ImageViewerState → ImageViewerState := with_scale (λ q, Z.min (q + 1) 12).
Definition zoom_out : ImageViewerState → ImageViewerState := with_scale (λ q, Z.max (q - 1) 2).
Definition zoom_reset : ImageViewerState → ImageViewerState := with_scale (λ _, 4).

Inductive MediaEvent :=
  | ImageClicked (attachment : ChatAttachment)
  | FileDownloadClicked (attachment : ChatAttachment)
  | LinkAnswered (n : nat) (link : option (jsstring * jsstring))
  | ViewerClosed
  | ZoomedIn
  | ZoomedOut
  | ZoomReset
  | ViewerDownloadClicked.

Definition media_step (m : Media) (e : MediaEvent) : Media :=
  match e with
  | ImageClicked attachment => handleOpenImageAttachment attachment m
  | FileDownloadClicked attachment => handleDownloadAttachment attachment m
  | LinkAnswered n link =>
      match md_requests m !! n with
      | Some request =>
          let m := mkMedia (md_viewer m) (md_next m) (delete n (md_requests m)) (md_downloads m)
                     (md_errors m) in
          match request with
          | OpenRequest attachment => image_opened attachment (fst <$> link) m
          | DownloadRequest _ => download_answered link m
          end
      | None => m
      end
  | ViewerClosed => set_viewer closed_viewer m
  | ZoomedIn => set_viewer (zoom_in (md_viewer m)) m
  | ZoomedOut => set_viewer (zoom_out (md_viewer m)) m
  | ZoomReset => set_viewer (zoom_reset (md_viewer m)) m
  | ViewerDownloadClicked =>
      match iv_attachment (md_viewer m) with
      | Some attachment => handleDownloadAttachment attachment m
      | None => m
      end
  end.

Definition run_media (events : list MediaEvent) : Media := foldl media_step no_media events.

(** What the dialog shows: its title, the percentage, and the image or a spinner. *)
Inductive ViewerShown := ViewerSpinner | ViewerImage (url : jsstring).
Definition viewer_title (v : ImageViewerState) : jsstring :=
  match iv_attachment v with Some a => va_fileName a | None => js "Xem ảnh" end.
Definition viewer_percent (v : ImageViewerState) : jsstring := js_number (25 * iv_quarters v) ++ js "%".
Definition viewer_shown (v : ImageViewerState) : ViewerShown :=
  if iv_loading v || negb (truthy (iv_imageUrl v)) then ViewerSpinner else ViewerImage (iv_imageUrl v).

(** ** The picture in a message *)

(** The attachment of the message, the link that is shown, the runs of the effect with the
    attachment each asked for, and the run that is still [active]. *)
Record Bubble := mkBubble {
  bb_attachment : option ChatAttachment;
  bb_imageUrl : option jsstring;
  bb_next : nat;
  bb_asked : gmap nat jsstring;
  bb_active : option nat;
}.

(** The effect of [MessageBubble]; the page always passes [resolveAttachmentUrl]. *)
Definition bubble_effect (b : Bubble) : Bubble :=
  match bb_attachment b with
  | Some a =>
      if negb (va_isImage a) || negb (truthy (va_attachmentId a))
      then mkBubble (bb_attachment b) None (bb_next b) (bb_asked b) None
      else mkBubble (bb_attachment b) (bb_imageUrl b) (S (bb_next b))
             (<[bb_next b := va_attachmentId a]> (bb_asked b)) (Some (bb_next b))
  | None => mkBubble None None (bb_next b) (bb_asked b) None
  end.

(** [then] and [catch] of run [n]. *)
Definition bubble_answered (n : nat) (url : option jsstring) (b : Bubble) : Bubble :=
  if bool_decide (bb_active b = Some n) && bool_decide (is_Some (bb_asked b !! n))
  then mkBubble (bb_attachment b) url (bb_next b) (delete n (bb_asked b)) (bb_active b)
  else mkBubble (bb_attachment b) (bb_imageUrl b) (bb_next b) (delete n (bb_asked b)) (bb_active b).

(** What the effect depends on. *)
Definition bubble_deps (a : option ChatAttachment) : option jsstring * option bool :=
  (va_attachmentId <$> a, va_isImage <$> a).

Inductive BubbleEvent :=
  | BubbleRendered (attachment : option ChatAttachment)
  | BubbleLink (n : nat) (url : option jsstring).

Definition bubble_step (b : Bubble) (e : BubbleEvent) : Bubble :=
  match e with
  | BubbleRendered a =>
      let b' := mkBubble a (bb_imageUrl b) (bb_next b) (bb_asked b) (bb_active b) in
      if bool_decide (bubble_deps a = bubble_deps (bb_attachment b)) then b'
      else bubble_effect b'
  | BubbleLink n url => bubble_answered n url b
  end.

(** The bubble when it is mounted. *)
Definition bubble_mounted (a : option ChatAttachment) : Bubble :=
  bubble_effect (mkBubble a None 0 ∅ None).

(** The picture, its stand-in with the file's name, a card, or nothing. *)
Inductive BubbleShown :=
  | BubbleImage (url fileName : jsstring)
  | BubbleFallback (fileName : jsstring)
  | BubbleCard (attachment : ChatAttachment)
  | BubbleNoFile.
Definition bubble_shown (b : Bubble) : BubbleShown :=
  match bb_attachment b with
  | Some a =>
      if va_isImage a then
        match bb_imageUrl b with
        | Some url => if truthy url then BubbleImage url (va_fileName a) else BubbleFallback (va_fileName a)
        | None => BubbleFallback (va_fileName a)
        end
      else BubbleCard a
  | None => BubbleNoFile
  end.

(** ** The file card *)

Inductive FileIcon := FileImage | FileText | FileArchive | FileIconPlain.

Definition renderFileIcon (mimeType : jsstring) : FileIcon :=
  if startsWith mimeType (js "image/") then FileImage
  else if includes mimeType (js "pdf") || includes mimeType (js "text") || includes mimeType (js "word")
  then FileText
  else if includes mimeType (js "zip") || includes mimeType (js "rar") || includes mimeType (js "tar")
  then FileArchive
  else FileIconPlain.

(** [(n / d).toFixed(1)] of integers: tenths, the larger of two equally near ones. *)
Definition tenths (n d : Z) : Z := (20 * n + d) / (2 * d).
Definition toFixed1 (n d : Z) : jsstring :=
  js_number (tenths n d / 10) ++ js "." ++ js_number (tenths n d mod 10).

Definition formatFileSize (sizeBytes : Z) : jsstring :=
  if sizeBytes <? 1024 then js_number sizeBytes ++ js " B"
  else if sizeBytes <? 1024 * 1024 then toFixed1 sizeBytes 1024 ++ js " KB"
  else toFixed1 sizeBytes (1024 * 1024) ++ js " MB".

Definition card_info (mimeType : jsstring) (sizeBytes : Z) : jsstring :=
  (if truthy mimeType then mimeType else js "Tệp") ++ js " · " ++ formatFileSize sizeBytes.

(** ** Facts *)

(** Whatever is clicked and answered, the scale stays between 50 and 300 per cent. *)
Definition viewer_ok (v : ImageViewerState) : Prop := 2 <= iv_quarters v <= 12.

Lemma media_step_ok m e : viewer_ok (md_viewer m) → viewer_ok (md_viewer (media_step m e)).
Proof.
  unfold viewer_ok. intros Hm. destruct e as [a|a|n link| | | | |]; simpl.
  - unfold handleOpenImageAttachment. destruct (truthy _); simpl; [lia|done].
  - unfold handleDownloadAttachment. by destruct (truthy _).
  - destruct (md_requests m !! n) as [[a|a]|]; [| |done].
    + destruct link; simpl; lia.
    + by destruct link.
  - lia.
  - lia.
  - lia.
  - lia.
  - destruct (iv_attachment _) as [a|]; [|done]. unfold handleDownloadAttachment.
    by destruct (truthy _).
Qed.

Lemma viewer_scale_bounded events : viewer_ok (md_viewer (run_media events)).
Proof.
  unfold run_media. assert (viewer_ok (md_viewer no_media)) as H0 by (unfold viewer_ok; simpl; lia).
  revert H0. generalize no_media. induction events as [|e events IH]; intros m Hm; [done|].
  by apply IH, media_step_ok.
Qed.

(** A request id is used once. *)
Definition media_fresh (m : Media) : Prop := ∀ n, is_Some (md_requests m !! n) → (n < md_next m)%nat.

Lemma media_step_fresh m e : media_fresh m → media_fresh (media_step m e).
Proof.
  intros Hm. assert (∀ r v, media_fresh (media_ask r (set_viewer v m))) as Hask.
  { intros r v n. simpl. rewrite lookup_insert_is_Some. intros [<-|[_ Hn]]; [lia|].
    specialize (Hm n Hn). lia. }
  assert (∀ a, media_fresh (handleDownloadAttachment a m)) as Hdl.
  { intros a. unfold handleDownloadAttachment. destruct (truthy _); [|done].
    apply (Hask (DownloadRequest a) (md_viewer m)). }
  destruct e as [a|a|n link| | | | |]; simpl; try done.
  - unfold handleOpenImageAttachment. destruct (truthy _); [apply Hask|done].
  - destruct (md_requests m !! n) as [r|] eqn:E; [|done].
    assert (∀ m', md_next m' = md_next m → md_requests m' = delete n (md_requests m) →
      media_fresh m') as Hd.
    { intros m' E1 E2 k. rewrite E1, E2, lookup_delete_is_Some. intros [_ Hk]. by apply Hm. }
    destruct r as [a|a]; destruct link; by apply Hd.
  - destruct (iv_attachment _); [apply Hdl|done].
Qed.

Lemma run_media_fresh events : media_fresh (run_media events).
Proof.
  unfold run_media. assert (media_fresh no_media) as H0 by by intros n [].
  revert H0. generalize no_media. induction events as [|e events IH]; intros m Hm; [done|].
  by apply IH, media_step_fresh.
Qed.

(** The handler that opens an image does not look, when its link comes, whether the viewer
    still shows that image: closing the viewer while the link is on its way opens it again,
    and of two images opened in a row the one whose link comes last is shown, which may be
    the first. *)
Theorem late_link_reopens events a b url_a url_b name_a name_b :
  truthy (va_attachmentId a) = true → truthy (va_attachmentId b) = true → truthy url_a = true →
  let m := run_media events in
  let n := md_next m in
  let closed := foldl media_step m [ImageClicked a; ViewerClosed; LinkAnswered n (Some (url_a, name_a))] in
  let swapped := foldl media_step m
    [ImageClicked a; ImageClicked b; LinkAnswered (S n) (Some (url_b, name_b));
     LinkAnswered n (Some (url_a, name_a))] in
  (iv_isOpen (md_viewer closed) = true ∧ viewer_shown (md_viewer closed) = ViewerImage url_a) ∧
  (iv_attachment (md_viewer swapped) = Some a ∧ viewer_shown (md_viewer swapped) = ViewerImage url_a).
Proof.
  intros Ha Hb Hu. set (m := run_media events). intros n closed swapped.
  unfold closed, swapped. simpl. unfold handleOpenImageAttachment. rewrite Ha. simpl. rewrite Hb. simpl.
  fold n. rewrite !lookup_insert_eq. simpl.
  rewrite lookup_delete_ne, lookup_insert_ne, lookup_insert_eq by lia. simpl.
  unfold viewer_shown. simpl. by rewrite Hu.
Qed.

(** In the message the same race is excluded: an answer that is not the active run's changes
    nothing that is shown. *)
Lemma bubble_ignores_stale b n url : bb_active b ≠ Some n →
  bb_imageUrl (bubble_answered n url b) = bb_imageUrl b ∧
  bubble_shown (bubble_answered n url b) = bubble_shown b.
Proof. intros Hn. unfold bubble_answered. by rewrite bool_decide_false. Qed.

(** The active run asks for the attachment that the message has now. *)
Definition bubble_ok (b : Bubble) : Prop :=
  (∀ n, is_Some (bb_asked b !! n) → (n < bb_next b)%nat) ∧
  ∀ n, bb_active b = Some n → (n < bb_next b)%nat ∧
    ∃ a, bb_attachment b = Some a ∧ va_isImage a = true ∧
      ∀ id, bb_asked b !! n = Some id → id = va_attachmentId a.

Lemma bubble_effect_ok b : (∀ n, is_Some (bb_asked b !! n) → (n < bb_next b)%nat) →
  bubble_ok (bubble_effect b).
Proof.
  intros Hb. unfold bubble_effect. destruct (bb_attachment b) as [a|]; [|by split].
  destruct (va_isImage a) eqn:Ei; [|by split]. destruct (truthy (va_attachmentId a)); [|by split].
  simpl. split; simpl.
  - intros n. rewrite lookup_insert_is_Some. intros [<-|[_ Hn]]; [lia|]. specialize (Hb n Hn). lia.
  - intros n [= <-]. split; [lia|]. exists a. split_and!; [done|done|].
    intros id. rewrite lookup_insert_eq. by intros [= <-].
Qed.

Lemma bubble_step_ok b e : bubble_ok b → bubble_ok (bubble_step b e).
Proof.
  intros [Hf Ha]. destruct e as [a|n url]; simpl.
  - case_bool_decide as Hd; [|by apply bubble_effect_ok]. split; [done|]. simpl.
    intros n Hn. destruct (Ha n Hn) as (Hlt & a' & Ea & Ei & Hid). split; [done|].
    rewrite Ea in Hd. unfold bubble_deps in Hd. destruct a as [a|]; [|done]. simpl in Hd.
    injection Hd as E1 E2. exists a. split_and!; [done|congruence|].
    intros id Hi. rewrite E1. by apply Hid.
  - unfold bubble_answered.
    assert (∀ u, bubble_ok (mkBubble (bb_attachment b) u (bb_next b) (delete n (bb_asked b))
      (bb_active b))) as Hok; [|by destruct (_ && _)].
    intros u. split; simpl.
    + intros k. rewrite lookup_delete_is_Some. intros [_ Hk]. by apply Hf.
    + intros k Hk. destruct (Ha k Hk) as (Hlt & a & Ea & Ei & Hid). split; [done|].
      exists a. split_and!; [done|done|]. intros id. rewrite lookup_delete_Some.
      intros [_ Hi]. by apply Hid.
Qed.

(** The size on a card is off by at most a twentieth of its unit. *)
Lemma tenths_near n d : 0 < d → Z.abs (10 * n - d * tenths n d) * 2 <= d.
Proof.
  intros Hd. unfold tenths. pose proof (Z.div_mod (20 * n + d) (2 * d) ltac:(lia)).
  pose proof (Z.mod_pos_bound (20 * n + d) (2 * d) ltac:(lia)). nia.
Qed.

(** A file one byte short of a megabyte is said to have 1024.0 KB. *)
Example size_boundaries :
  formatFileSize 1023 = js "1023 B" ∧ formatFileSize 1024 = js "1.0 KB" ∧
  formatFileSize 1048575 = js "1024.0 KB" ∧ formatFileSize 1048576 = js "1.0 MB" ∧
  formatFileSize 26214400 = js "25.0 MB".
Proof. split_and!; vm_compute; reflexivity. Qed.

Definition demo_image : ChatAttachment :=
  mkAttachment (js "a1") (js "a.png") (js "image/png") (num 10) true None None None.
Definition demo_image_2 : ChatAttachment :=
  mkAttachment (js "a2") (js "b.png") (js "image/png") (num 20) true None None None.

Lemma late_link_reopens_witness :
  let m := run_media [ImageClicked demo_image] in
  viewer_shown (md_viewer (foldl media_step m
    [ImageClicked demo_image; ViewerClosed; LinkAnswered 1 (Some (js "u", js "n"))]))
  = ViewerImage (js "u").
Proof.
  exact (proj2 (proj1 (late_link_reopens [ImageClicked demo_image] demo_image demo_image_2
    (js "u") (js "v") (js "n") (js "n") eq_refl eq_refl eq_refl))).
Defined.
