(* ===== verification/Render.v ===== *)
(** * What the chat page shows

    The decisions of the markup of [chat.page.tsx] and its components: the rows of the
    conversation list, the header, the thread with its bubbles, the texts of the composer,
    the notification of a message, and the search results with the query marked in them.
    Layout and styles are left out: a view is the data that the elements are given. *)

From S2P Require Import Prelude JsText Page Browser View Search.
From stdpp Require Import pretty.
Open Scope Z_scope.

(** What the browser knows of languages and of the local time zone: upper case, the folding
    of a code unit by the [i] flag, the time of day and the date of a text, and the time at
    which the local day of a time began. *)
Class Locale := {
  toUpperCase : jsstring → jsstring;
  canonicalize : Z → Z;
  timeOfDay : jsstring → jsstring;
  dateOfDay : jsstring → jsstring;
  midnight : Z → Z;
}.

(** [a ?? b] and [a || b] of strings, and [s.charAt(0)]. *)
Definition or_else (a b : option jsstring) : option jsstring := match a with Some _ => a | None => b end.
Definition or_given (a b : option jsstring) : option jsstring :=
  match given_token a with Some s => Some s | None => b end.
Definition charAt0 (s : jsstring) : jsstring := take 1 s.

Section render.
Context `{Window} `{Locale}.

(** ** The conversation list *)

Inductive AvatarView := GroupAvatar | AvatarPicture (url : jsstring) | AvatarLetter (letter : jsstring)
  | AvatarIcon.

Record RowView := mkRow {
  rw_id : jsstring;
  rw_active : bool;
  rw_avatar : AvatarView;
  rw_title : jsstring;
  rw_time : option jsstring;
  rw_badge : option Z;
  rw_preview : jsstring;
}.

Definition DirectAvatar (c : Conversation) : AvatarView :=
  match given_token (vc_displayAvatarUrl c) with
  | Some url => AvatarPicture url
  | None => match vc_displayTitle c with
            | Some t => AvatarLetter (toUpperCase (charAt0 t))
            | None => AvatarIcon
            end
  end.

Definition formatConversationTime (value : option jsstring) : jsstring :=
  match given_token value with Some v => timeOfDay v | None => [] end.

Definition row_title (c : Conversation) : jsstring :=
  default (js "Đoạn chat mới") (or_else (vc_displayTitle c) (vc_title c)).

Definition conversation_row (selectedId : option jsstring) (c : Conversation) : RowView :=
  let title := row_title c in
  let time := formatConversationTime (vc_lastMessageAt c) in
  let unreadCount := or_zero (vc_unreadCount c) in
  mkRow (vc_id c) (bool_decide (selectedId = Some (vc_id c)))
    (match vc_type c with group => GroupAvatar | direct => DirectAvatar c end)
    title
    (if truthy time then Some time else None)
    (if 0 <? unreadCount then Some unreadCount else None)
    (default
       (match vc_type c with
        | direct => js "Chào " ++ title ++ js " ngay"
        | group => js "Bắt đầu cuộc trò chuyện ngay"
        end)
       (given_token (vc_lastMessagePreview c))).

(** The sidebar: a spinner until the list has come. *)
Definition conversation_list (s : ChatState) : option (list RowView) :=
  if loadingConversations s then None
  else Some (conversation_row (selectedConversationId s) <$> conversations s).

(** ** The user's own profile *)

Record ProfileView := mkProfile {
  pf_avatarUrl : option jsstring;
  pf_letter : jsstring;
  pf_name : jsstring;
  pf_status : jsstring;
}.
Definition profile_view (currentUser : option AuthUser) : ProfileView :=
  mkProfile (currentUser ≫= us_avatarUrl)
    (default (js "U") ((λ u, toUpperCase (charAt0 (us_displayName u))) <$> currentUser))
    (default (js "Người dùng") (us_displayName <$> currentUser))
    (js "@" ++ default (js "unknown") (us_username <$> currentUser) ++ js " · "
     ++ default [] (us_email <$> currentUser)).

(** ** The header *)

Definition headerTitle (s : ChatState) : jsstring :=
  default (js "Chọn một đoạn chat")
    (or_given (selectedConversation s ≫= vc_displayTitle)
       (given_token (selectedConversation s ≫= vc_title))).
Definition headerAvatarUrl (s : ChatState) : option jsstring :=
  or_given (selectedConversation s ≫= vc_displayAvatarUrl)
    ((selectedConversation s ≫= vc_directPeer) ≫= pe_avatarUrl).
Definition headerSubtitle (s : ChatState) : jsstring :=
  default [] ((selectedConversation s ≫= vc_directPeer) ≫= pe_email).
Definition activeTypingPresence (s : ChatState) : option TypingPresenceUpdate :=
  given_token (selectedConversationId s) ≫= λ id, typingByConversationId s !! id.
Definition ai_notice (s : ChatState) : bool := aiEnabled s && aiUnavailable s.

Record HeaderView := mkHeader {
  hd_avatarUrl : option jsstring;
  hd_letter : jsstring;
  hd_title : jsstring;
  hd_subtitle : option jsstring;
  hd_aiNotice : option jsstring;
  hd_aiButton : jsstring;
}.
Definition header_view (s : ChatState) : HeaderView :=
  mkHeader (headerAvatarUrl s) (toUpperCase (charAt0 (headerTitle s))) (headerTitle s)
    (if truthy (headerSubtitle s) then Some (headerSubtitle s) else None)
    (if ai_notice s then Some (js "AI tạm thời không khả dụng") else None)
    (if aiEnabled s then js "Tắt AI phiên này" else js "Bật AI phiên này").

(** ** A message *)

Definition buildAvatarFallbackLabel (authorName : jsstring) : jsstring :=
  let label := toUpperCase (charAt0 (trim authorName)) in
  if truthy label then label else js "U".

(** The tag of a toxic message. *)
Definition moderation_tag (result : option MessageModerationResult) : option jsstring :=
  match result with
  | Some r =>
      if is_true (mo_isToxic r)
      then Some (default (js "Nội dung nhạy cảm") (given_token (mo_warningMessage r)))
      else None
  | None => None
  end.

Inductive BubbleKind := aiBubble | outgoing | incoming.

Record MessageView := mkMessageView {
  mv_anchor : jsstring;
  mv_highlighted : bool;
  mv_isMine : bool;
  mv_kind : BubbleKind;
  mv_avatar : option (option jsstring * jsstring);
  mv_author : option (jsstring * jsstring);
  mv_commandTag : bool;
  mv_text : option jsstring;
  mv_moderation : option jsstring;
  mv_status : option jsstring;
}.

Definition is_mine (currentUser : option AuthUser) (m : Message) : bool :=
  bool_decide (us_id <$> currentUser = Some (vm_senderId m)).

(** [authorName] and [authorAvatarUrl] that the page passes. *)
Definition author_name (currentUser : option AuthUser) (c : Conversation) (m : Message) : jsstring :=
  if is_mine currentUser m
  then default (js "Bạn") (or_else (vm_senderDisplayName m) (us_displayName <$> currentUser))
  else default (js "Người dùng")
         (or_else (vm_senderDisplayName m)
            (or_else (pe_displayName <$> vc_directPeer c) (vc_displayTitle c))).
Definition author_avatar (currentUser : option AuthUser) (m : Message) : option jsstring :=
  if is_true (vm_isAIBotMessage m) then None
  else if is_mine currentUser m
  then or_else (vm_senderAvatarUrl m) (currentUser ≫= us_avatarUrl)
  else vm_senderAvatarUrl m.

Definition message_anchor (id : jsstring) : jsstring := js "message-" ++ id.

Definition MessageBubble (currentUser : option AuthUser) (highlightedMessageId : option jsstring)
    (c : Conversation) (m : Message) : MessageView :=
  let isMine := is_mine currentUser m in
  let ai := is_true (vm_isAIBotMessage m) in
  let authorName := author_name currentUser c m in
  mkMessageView (message_anchor (vm_id m))
    (bool_decide (highlightedMessageId = Some (vm_id m)))
    isMine
    (if ai then aiBubble else if isMine then outgoing else incoming)
    (if isMine then None
     else Some (if ai then None else author_avatar currentUser m,
                if ai then js "AI" else buildAvatarFallbackLabel authorName))
    (if isMine then None
     else Some (if ai then js "ChatAI" else authorName, timeOfDay (vm_sentAt m)))
    (is_true (vm_isAICommand m))
    (if truthy (trim (vm_content m)) then Some (vm_content m) else None)
    (moderation_tag (vm_moderationResult m))
    (if isMine && is_true (vm_isTailOfSenderGroup m)
     then Some (match vm_seenState m with Some seen => js "Đã xem" | _ => js "Đã gửi" end)
     else None).

Definition EventBubble (type : MembershipEventType) : jsstring :=
  match type with
  | added => js "Một thành viên mới đã được thêm vào cuộc trò chuyện."
  | left_ => js "Một thành viên đã rời cuộc trò chuyện."
  | removed => js "Một thành viên đã bị quản trị viên xóa khỏi cuộc trò chuyện."
  | joined => js "Một người tham gia mới vừa tham gia đoạn hội thoại."
  end.

(** ** The thread *)

Inductive ItemView := EventView (text : jsstring) | BubbleView (view : MessageView).

Inductive Thread :=
  | NoConversation
  | ThreadLoading
  | ThreadItems (items : list ItemView) (typing : option jsstring) (aiWaiting : bool).

Definition item_view (currentUser : option AuthUser) (highlighted : option jsstring)
    (c : Conversation) (i : TimelineItem) : ItemView :=
  match i with
  | EventItem e => EventView (EventBubble (me_type e))
  | MessageItem m => BubbleView (MessageBubble currentUser highlighted c m)
  end.

Definition thread (currentUser : option AuthUser) (highlighted : option jsstring) (s : ChatState)
    : Thread :=
  match selectedConversation s with
  | None => NoConversation
  | Some c =>
      let timeline := combinedTimeline s in
      if loadingMessages s && (length timeline =? 0)%nat then ThreadLoading
      else
        ThreadItems (item_view currentUser highlighted c <$> timeline)
          (match activeTypingPresence s with
           | Some t =>
               if ty_isTyping t
               then Some (toUpperCase (charAt0 (default (js "N") (pe_displayName <$> vc_directPeer c))))
               else None
           | None => None
           end)
          (bool_decide (waitingForAiConversationId s = Some (vc_id c)))
  end.

(** ** The composer and the suggestions *)

Definition draft_status_text (d : DraftAttachment) : jsstring :=
  match da_status d with
  | pending => js "Đang chờ gửi"
  | uploading => js "Đang upload " ++ js_number (da_progress d) ++ js "%"
  | uploaded => js "Đã upload, đang gửi tin nhắn"
  | upload_failed => default (js "Upload thất bại") (given_token (da_error d))
  end.
(** The button that removes the draft, and the progress bar. *)
Definition draft_removable (d : DraftAttachment) : bool :=
  match da_status d with pending | upload_failed => true | _ => false end.
Definition draft_bar (d : DraftAttachment) : option Z :=
  match da_status d with uploading => Some (da_progress d) | _ => None end.
Definition attach_button_disabled (s : ChatState) : bool :=
  bool_decide (selectedConversationId s = None) || sendingMessage s
  || bool_decide (is_Some (draftAttachment s)).
Definition input_disabled (s : ChatState) : bool :=
  bool_decide (selectedConversationId s = None) || sendingMessage s.

(** [handleAttachmentClick] opens the file dialog. *)
Definition handleAttachmentClick (s : ChatState) : bool := negb (input_disabled s).

Record ComposerView := mkComposer {
  cp_draft : option (jsstring * jsstring * bool * option Z);
  cp_attachDisabled : bool;
  cp_value : jsstring;
  cp_inputDisabled : bool;
  cp_sendLoading : bool;
  cp_sendDisabled : bool;
}.
Definition composer_view (p : Page.Page) : ComposerView :=
  let s := Page.p_state p in
  mkComposer
    ((λ d, (fl_name (da_file d), draft_status_text d, draft_removable d, draft_bar d))
       <$> draftAttachment s)
    (attach_button_disabled s) (Page.p_inputValue p) (input_disabled s) (sendingMessage s)
    (Page.send_button_disabled p).

(** The panel of slash commands, if one matches. *)
Definition slash_panel (s : ChatState) : list (jsstring * jsstring) :=
  (λ c, (sl_command c, sl_description c)) <$> filteredSlashCommands s.

Inductive SuggestionsView := SuggestionsSkeleton | NoSuggestions | SuggestionChips (texts : list jsstring).
Definition SmartReplySuggestions (suggestions : list jsstring) (loading disabled : bool)
    : SuggestionsView :=
  if loading then SuggestionsSkeleton
  else if disabled || (length suggestions =? 0)%nat then NoSuggestions
  else SuggestionChips suggestions.
Definition suggestions_view (s : ChatState) : SuggestionsView :=
  SmartReplySuggestions (aiSuggestions s) (loadingAiSuggestions s)
    (negb (bool_decide (is_Some (given_token (selectedConversationId s)))) || negb (aiEnabled s)
     || aiUnavailable s).

(** ** The window's title *)

(** The title while the page is mounted; the page's own one otherwise. *)
Definition document_title (mounted : bool) (s : ChatState) (defaultTitle : jsstring) : jsstring :=
  if mounted then formatUnreadTitle (unreadSummary s) defaultTitle else defaultTitle.

(** ** Notifications and errors *)

Inductive Permission := unsupported | permission_default | granted | denied.

(** [ensureNotificationPermission], with what the user answers if asked. *)
Definition ensureNotificationPermission (current answer : Permission) : Permission :=
  match current with permission_default => answer | _ => current end.

Record NotificationView := mkNotification {
  nt_title : jsstring;
  nt_body : jsstring;
  nt_icon : option jsstring;
  nt_tag : jsstring;
}.

Definition showBrowserNotification (current answer : Permission) (m : RealtimeMessage)
    : option NotificationView :=
  match ensureNotificationPermission current answer with
  | granted =>
      Some (mkNotification (default FALLBACK_SENDER_NAME (rm_senderDisplayName m))
              (if truthy (trim (rm_content m)) then trim (rm_content m) else js "Bạn có tin nhắn mới")
              (if is_true (rm_isAIBotMessage m) then None else rm_senderAvatarUrl m)
              (rm_messageId m))
  | _ => None
  end.

(** The toast of [handleSocketError]. *)
Definition socket_error_toast (connection : ChatConnectionState) (e : ChatSocketError)
    : option jsstring :=
  if bool_decide (er_code e = js "SOCKET_NOT_READY") && negb (bool_decide (connection = connected))
  then None
  else if truthy (er_message e) then Some (er_message e) else None.

(** ** Search results *)

(** [pat] is what [s] starts with, under the [i] flag. *)
Fixpoint matches_ci (s pat : jsstring) : bool :=
  match pat, s with
  | [], _ => true
  | p :: pat, u :: s => bool_decide (canonicalize u = canonicalize p) && matches_ci s pat
  | _, [] => false
  end.

(** [s.split(/(query)/ig)] of an escaped, non-empty query: the text before a match, the match,
    and so on; [cur] is the text since the last match, reversed.  A step consumes a unit. *)
Fixpoint split_capture (fuel : nat) (query cur s : jsstring) : list jsstring :=
  match fuel, s with
  | S fuel, u :: s' =>
      if matches_ci s query
      then reverse cur :: take (length query) s
             :: split_capture fuel query [] (drop (length query) s)
      else split_capture fuel query (u :: cur) s'
  | _, _ => [reverse cur ++ s]
  end.

(** The parts of the text, each with whether it is marked. *)
Definition renderHighlightedSearchText (content query : jsstring) : list (bool * jsstring) :=
  let trimmedQuery := trim query in
  if negb (truthy trimmedQuery) then [(false, content)]
  else
    (λ part, (bool_decide (toLowerCase part = toLowerCase trimmedQuery), part))
      <$> split_capture (S (length content)) trimmedQuery [] content.

Definition ms_per_day : Z := 86400000.

(** [Math.round(diffMs / 86400000)], of the midnights of the two days. *)
Definition days_between (sentAt now : Z) : Z :=
  (2 * (midnight now - midnight sentAt) + ms_per_day) / (2 * ms_per_day).

Definition formatRelativeSentDate (value : jsstring) (now : Z) : jsstring :=
  let diffDays := days_between (getTime value) now in
  if diffDays <=? 0 then js "Hôm nay"
  else if diffDays <=? 7 then js_number diffDays ++ js " ngày trước"
  else dateOfDay value.

(** A row of the dialog that searches messages, with the query of its input. *)
Record ResultView := mkResult {
  rv_key : jsstring;
  rv_avatarUrl : option jsstring;
  rv_letter : jsstring;
  rv_name : jsstring;
  rv_date : jsstring;
  rv_text : list (bool * jsstring);
  rv_encrypted : jsstring;
}.
Definition result_row (query : jsstring) (now : Z) (r : MessageSearchResult) : ResultView :=
  mkResult (sr_messageId r ++ js "-" ++ sr_sentAt r) (sr_senderAvatarUrl r)
    (toUpperCase (charAt0 (default (js "U") (sr_senderDisplayName r))))
    (default (js "Người dùng") (sr_senderDisplayName r))
    (formatRelativeSentDate (sr_sentAt r) now ++ js " · " ++ timeOfDay (sr_sentAt r))
    (renderHighlightedSearchText (sr_content r) query)
    (js "Mã hoá: " ++ default (js "Không có") (sr_encryptedContent r)).

(** A row of the dialog that searches users. *)
Record UserRowView := mkUserRow {
  uv_key : jsstring;
  uv_active : bool;
  uv_letter : jsstring;
  uv_name : jsstring;
  uv_username : jsstring;
  uv_email : jsstring;
}.
Definition user_row (selected : option SearchableUser) (u : SearchableUser) : UserRowView :=
  mkUserRow (su_id u) (bool_decide (su_id <$> selected = Some (su_id u)))
    (toUpperCase (charAt0 (su_displayName u))) (su_displayName u) (js "@" ++ su_username u)
    (su_email u).

(** The body of a dialog: a text, a spinner, or its rows. *)
Inductive DialogBody (R : Type) := DialogText (text : jsstring) | DialogSpinner | DialogRows (rows : list R).
Arguments DialogText {R} _.
Arguments DialogSpinner {R}.
Arguments DialogRows {R} _.

Definition user_dialog (s : UserSearch) : DialogBody UserRowView :=
  match user_shown s with
  | ShowError text => DialogText text
  | ShowHint => DialogText (js "Nhập ít nhất 2 ký tự để tìm người dùng.")
  | ShowSpinner => DialogSpinner
  | ShowNothing => DialogText (js "Không tìm thấy người dùng phù hợp.")
  | ShowResults users => DialogRows (user_row (us_selected s) <$> users)
  end.
Definition message_dialog (now : Z) (s : MessageSearch) : DialogBody ResultView :=
  match message_shown s with
  | ShowError text => DialogText text
  | ShowHint => DialogText (js "Nhập ít nhất 2 ký tự để tìm tin nhắn.")
  | ShowSpinner => DialogSpinner
  | ShowNothing => DialogText (js "Không tìm thấy tin nhắn phù hợp.")
  | ShowResults results => DialogRows (result_row (ms_query s) now <$> results)
  end.

(** ** The menu of a conversation *)

(** The conversation that was right-clicked and the place of the menu. *)
Record ContextMenu := mkContextMenu {
  cx_conversationId : jsstring;
  cx_x : Z;
  cx_y : Z;
}.
Inductive ContextMenuEvent :=
  | RowRightClicked (c : Conversation) (x y : Z)
  | WindowClicked
  | DeleteChosen.
(** The menu, and the conversation that is given to [handleDeleteConversation]; a click on the
    menu does not reach the window. *)
Definition context_menu_step (menu : option ContextMenu) (e : ContextMenuEvent)
    : option ContextMenu * option jsstring :=
  match e with
  | RowRightClicked c x y => (Some (mkContextMenu (vc_id c) x y), None)
  | WindowClicked => (None, None)
  | DeleteChosen => (None, cx_conversationId <$> menu)
  end.
End render.
