(* ===== verification/RenderFacts.v ===== *)
(** * What the chat page shows: facts

    The title of the window agrees with the badges of the list; the marked parts of a search
    result are its text; the thread highlights the message that a search result names when,
    and only when, that message is loaded; the relative dates survive a change of clocks. *)

From S2P Require Import Prelude JsText Browser View ViewFacts Render.
Open Scope Z_scope.

Section facts.
Context `{Window} `{Locale}.

(** ** Badges and title *)

Lemma badges_unread selected (cs : list Conversation) :
  omap rw_badge (conversation_row selected <$> cs) = unread_of <$> filter (λ c, is_unread c = true) cs.
Proof.
  induction cs as [|c cs IH]; [done|]. csimpl. rewrite IH, filter_cons.
  destruct (decide (is_unread c = true)) as [Hu|Hu]; unfold is_unread in Hu.
  - rewrite Hu. csimpl. unfold unread_of at 2. f_equal. lia.
  - by destruct (0 <? or_zero (vc_unreadCount c)).
Qed.

Lemma unread_sum (cs : list Conversation) :
  foldr (λ c total, unread_of c + total) 0 cs
  = foldr Z.add 0 (unread_of <$> filter (λ c, is_unread c = true) cs).
Proof.
  induction cs as [|c cs IH]; [done|]. csimpl. rewrite IH, filter_cons.
  destruct (decide (is_unread c = true)) as [Hu|Hu]; [done|].
  unfold is_unread in Hu. unfold unread_of at 1. lia.
Qed.

(** The number in the window's title is the sum of the badges in the conversation list:
    without a badge it is the page's own title, with one badge the title names who sent, and
    with more it gives their sum. *)
Theorem title_counts_badges s selected defaultTitle :
  let rows := conversation_row selected <$> conversations s in
  let badges := omap rw_badge rows in
  formatUnreadTitle (unreadSummary s) defaultTitle =
    match badges with
    | [] => defaultTitle
    | [n] => js "Bạn có " ++ js_number n ++ js " tin nhắn mới từ "
             ++ default [] (resolveConversationSenderName
                              <$> head (filter (λ c, is_unread c = true) (conversations s)))
    | _ => js "Bạn có " ++ js_number (foldr Z.add 0 badges) ++ js " tin nhắn chưa đọc"
    end.
Proof.
  intros rows badges. unfold badges, rows. rewrite badges_unread.
  destruct (unread_title (conversations s) defaultTitle) as (_ & _ & _ & Ht).
  unfold unreadSummary. rewrite Ht, unread_sum.
  destruct (filter _ (conversations s)) as [|c [|c' l]]; [done| |done].
  simpl. by rewrite Z.add_0_r.
Qed.

(** ** The marks of a search result *)

Lemma matches_ci_app s t pat : matches_ci s pat = true → matches_ci (s ++ t) pat = true.
Proof.
  revert s. induction pat as [|p pat IH]; intros [|u s] E; try done; [by destruct t|].
  simpl in *. apply andb_true_iff in E as [-> E]. by apply IH.
Qed.

Lemma matches_ci_take s pat : matches_ci s pat = true →
  canonicalize <$> take (length pat) s = canonicalize <$> pat.
Proof.
  revert s. induction pat as [|p pat IH]; intros [|u s] E; try done.
  simpl in *. apply andb_true_iff in E as [E1 E]. apply bool_decide_eq_true in E1.
  csimpl. by rewrite E1, IH.
Qed.

Lemma split_capture_concat fuel query cur s :
  concat (split_capture fuel query cur s) = reverse cur ++ s.
Proof.
  revert cur s. induction fuel as [|fuel IH]; intros cur [|u s]; cbn [split_capture];
    [by cbn; rewrite ?app_nil_r..|].
  destruct (matches_ci (u :: s) query); cbn [concat].
  - by rewrite IH, reverse_nil, (app_nil_l (drop _ _)), take_drop.
  - by rewrite IH, reverse_cons, <-app_assoc.
Qed.

(** Text without a match, a match, text without a match, ... *)
Definition match_free (query part : jsstring) : Prop := ∀ i, matches_ci (drop i part) query = false.
Definition ci_equal (s t : jsstring) : Prop := canonicalize <$> s = canonicalize <$> t.

Inductive captured (query : jsstring) : list jsstring → Prop :=
  | captured_end gap : match_free query gap → captured query [gap]
  | captured_more gap hit parts :
      match_free query gap → ci_equal hit query → captured query parts →
      captured query (gap :: hit :: parts).

Lemma matches_ci_nil query : query ≠ [] → matches_ci [] query = false.
Proof. by destruct query. Qed.

Lemma split_capture_captured fuel query cur s :
  query ≠ [] → (length s < fuel)%nat →
  (∀ i, (i < length cur)%nat → matches_ci (drop i (reverse cur ++ s)) query = false) →
  captured query (split_capture fuel query cur s).
Proof.
  intros Hq. revert cur s. induction fuel as [|fuel IH]; intros cur s Hfuel Hcur; [lia|].
  assert (match_free query (reverse cur)) as Hgap.
  { intros i. destruct (decide (i < length cur)%nat) as [Hi|Hi].
    - apply not_true_iff_false. intros E. apply (matches_ci_app _ s) in E.
      specialize (Hcur i Hi). rewrite drop_app_le in Hcur by (rewrite length_reverse; lia). congruence.
    - rewrite drop_ge by (rewrite length_reverse; lia). by apply matches_ci_nil. }
  destruct s as [|u s]; cbn [split_capture].
  { rewrite app_nil_r. by constructor. }
  destruct (matches_ci (u :: s) query) eqn:E.
  - constructor; [done|by apply matches_ci_take|].
    apply IH; [|simpl; lia]. rewrite length_drop. destruct query; [done|]. simpl in *. lia.
  - apply IH; [simpl in Hfuel; lia|]. intros i Hi. rewrite reverse_cons, <-app_assoc. simpl.
    destruct (decide (i = length cur)) as [->|Hne].
    + by rewrite drop_app_length' by (by rewrite length_reverse).
    + apply Hcur. simpl in Hi. lia.
Qed.

Lemma captured_part query parts part : captured query parts → part ∈ parts →
  match_free query part ∨ ci_equal part query.
Proof.
  induction 1 as [gap Hg|gap hit parts Hg Hh _ IH]; rewrite ?elem_of_cons, ?elem_of_nil; naive_solver.
Qed.

(** A search result is shown in parts that are, one after the other, exactly its text; and
    if lower case identifies what the [i] flag does, the marked parts are the occurrences of
    the trimmed query: no unmarked part contains one. *)
Theorem highlight_lossless content query :
  let parts := renderHighlightedSearchText content query in
  concat (snd <$> parts) = content ∧
  ((∀ s t, ci_equal s t → toLowerCase s = toLowerCase t) → truthy (trim query) = true →
   ∀ marked part, (marked, part) ∈ parts →
     if (marked : bool) then toLowerCase part = toLowerCase (trim query)
     else match_free (trim query) part).
Proof.
  unfold renderHighlightedSearchText. destruct (truthy (trim query)) eqn:Hq; cbn [negb].
  2: { split; [by simpl; rewrite app_nil_r|done]. }
  split.
  - rewrite <-list_fmap_compose.
    rewrite (list_fmap_ext _ id), list_fmap_id by done. apply split_capture_concat.
  - intros Hfold _ marked part. rewrite list_elem_of_fmap. intros (part' & [= -> ->] & Hin).
    case_bool_decide as Hb; [done|].
    destruct (captured_part (trim query) _ part' (split_capture_captured (S (length content))
      (trim query) [] content ltac:(by destruct (trim query)) ltac:(lia) ltac:(simpl; lia)) Hin)
      as [Hf|Hc]; [done|]. by destruct Hb; apply Hfold.
Qed.

(** ** The message a search result names *)

Lemma timeline_messages s m : MessageItem m ∈ combinedTimeline s ↔ m ∈ messages s.
Proof.
  unfold combinedTimeline. rewrite sort_by_Permutation, elem_of_app.
  assert (MessageItem m ∈ map MessageItem (messages s) ↔ m ∈ messages s) as Hm.
  { rewrite list_elem_of_fmap. split; [by intros (? & [= <-] & ?)|by exists m]. }
  rewrite Hm. split; [|by right]. intros [Hin|]; [|done].
  destruct (selectedConversation s) as [c|]; [|by apply not_elem_of_nil in Hin].
  case_bool_decide; [|by apply not_elem_of_nil in Hin].
  apply list_elem_of_fmap in Hin as (? & ? & ?). done.
Qed.

(** Once the thread is shown, it has a highlighted bubble with the anchor to scroll to
    exactly when the message that was picked is among the loaded ones; a hit of the search,
    which looks further back than a page, may be none of them, and then nothing happens. *)
Theorem hit_highlighted_iff_loaded currentUser id s items typing waiting :
  thread currentUser (Some id) s = ThreadItems items typing waiting →
  (∃ v, BubbleView v ∈ items ∧ mv_highlighted v = true ∧ mv_anchor v = message_anchor id) ↔
  id ∈ vm_id <$> messages s.
Proof.
  unfold thread. destruct (selectedConversation s) as [c|]; [|done].
  destruct (_ && _); [done|]. intros [= <- _ _]. rewrite list_elem_of_fmap. split.
  - intros (v & Hv & Hh & _). apply list_elem_of_fmap in Hv as ([e|m] & [= ->] & Hin).
    exists m. split; [|by apply timeline_messages].
    simpl in Hh. apply bool_decide_eq_true in Hh. by injection Hh.
  - intros (m & -> & Hin). exists (MessageBubble currentUser (Some (vm_id m)) c m).
    split_and!; [|simpl; by rewrite bool_decide_true|done].
    apply list_elem_of_fmap. exists (MessageItem m). split; [done|]. by apply timeline_messages.
Qed.

(** ** Relative dates *)

(** Midnights that are [k] days apart, give or take less than half a day of clock changes. *)
Lemma days_between_near sentAt now k :
  2 * Z.abs (midnight now - midnight sentAt - k * ms_per_day) < ms_per_day →
  days_between sentAt now = k.
Proof.
  unfold days_between, ms_per_day. intros Hk. symmetry.
  apply (Z.div_unique_pos _ _ _ (2 * (midnight now - midnight sentAt) + 86400000 - 172800000 * k)); lia.
Qed.

Lemma relative_date value now k :
  2 * Z.abs (midnight now - midnight (getTime value) - k * ms_per_day) < ms_per_day →
  formatRelativeSentDate value now =
    if k <=? 0 then js "Hôm nay"
    else if k <=? 7 then js_number k ++ js " ngày trước" else dateOfDay value.
Proof. intros Hk. unfold formatRelativeSentDate. by rewrite (days_between_near _ _ k). Qed.
End facts.

(** ** A page *)

Definition fold_up (u : Z) : Z := if (97 <=? u) && (u <=? 122) then u - 32 else u.
Definition fold_down (u : Z) : Z := if (65 <=? u) && (u <=? 90) then u + 32 else u.

Definition demo_locale_window : Window := {|
  getTime s := match s with [t] => t | _ => 0 end;
  View.toLowerCase s := fold_down <$> s;
|}.
Definition demo_locale : Locale := {|
  toUpperCase s := fold_up <$> s;
  canonicalize := fold_up;
  timeOfDay s := s;
  dateOfDay s := s;
  midnight t := t - t mod ms_per_day;
|}.

Lemma fold_agrees (s t : jsstring) : fold_up <$> s = fold_up <$> t → fold_down <$> s = fold_down <$> t.
Proof.
  revert t. induction s as [|u s IH]; intros [|v t] E; try done.
  injection E as E1 E2. csimpl. rewrite (IH t E2). f_equal. unfold fold_up, fold_down in *.
  repeat match goal with
  | H : context [if ?b then _ else _] |- _ => destruct b eqn:?
  | |- context [if ?b then _ else _] => destruct b eqn:?
  end; lia.
Qed.

Definition demo_parts : list (bool * jsstring) :=
  @renderHighlightedSearchText demo_locale_window demo_locale (js "Hello, hELp") (js " hel ").

Lemma highlight_lossless_witness :
  demo_parts = [(false, []); (true, js "Hel"); (false, js "lo, "); (true, js "hEL"); (false, js "p")] ∧
  concat (snd <$> demo_parts) = js "Hello, hELp" ∧
  ∀ marked part, (marked, part) ∈ demo_parts →
    if (marked : bool) then fold_down <$> part = js "hel"
    else @match_free demo_locale (js "hel") part.
Proof.
  destruct (@highlight_lossless demo_locale_window demo_locale (js "Hello, hELp") (js " hel "))
    as [Hc Hm].
  split; [vm_compute; reflexivity|]. split; [exact Hc|].
  exact (Hm fold_agrees eq_refl).
Defined.

Definition demo_message (id : jsstring) : Message :=
  mkMessage id (js "c1") (js "u2") None None (js "hello") [1] sent None None None None None None
    None None.
Definition demo_direct : Conversation :=
  mkConversation (js "c1") direct None (js "u2") None [1] [1] (Some (js "Bob")) None None None None None.
Definition demo_state : ChatState :=
  set_messages [demo_message (js "m1"); demo_message (js "m2")]
    (set_conversations [demo_direct] (set_selectedConversationId (Some (js "c1")) initialState)).

Lemma hit_highlighted_iff_loaded_witness :
  match @thread demo_locale_window demo_locale None (Some (js "m2")) demo_state with
  | ThreadItems items _ _ =>
      ∃ v, BubbleView v ∈ items ∧ mv_highlighted v = true ∧ mv_anchor v = js "message-m2"
  | _ => False
  end.
Proof.
  destruct (@thread demo_locale_window demo_locale None (Some (js "m2")) demo_state)
    as [| |items typing waiting] eqn:E; [discriminate E|discriminate E|].
  apply (proj2 (@hit_highlighted_iff_loaded demo_locale_window demo_locale _ _ _ _ _ _ E)).
  vm_compute. right. left.
Defined.
