(* ===== verification/SignIn.v ===== *)
(** * Signing in

    [features/auth/auth.page.tsx], [app/providers.tsx], [app/protected-route.tsx] and the
    texts of [services/auth.service.ts]: the page that asks for an account, on top of the
    session of [Browser].  A step is an event of the user or of the session, followed by the
    rest of the handlers whose calls have ended and by the route that the store selects. *)

From S2P Require Import Prelude JsText Wire Driver Env Store Model Instance Encryption Auth.
From S2P Require Import Browser BrowserFacts.
Open Scope Z_scope.

(** ** The route *)

Inductive Route := BlankRoute | AuthRoute | ChatRoute.

(** [ProtectedRoute]. *)
Definition route (b : Browser) : Route :=
  if b_isHydrating b then BlankRoute else if negb (b_isAuthenticated b) then AuthRoute else ChatRoute.

#[export] Instance Route_eq_dec : EqDecision Route.
Proof. solve_decision. Defined.

(** ** The texts of a failure *)

(** [toAuthErrorMessage(readAuthErrorFromLocation(search))], of the parameter's value. *)
Definition toAuthErrorMessage (authError : option jsstring) : option jsstring :=
  match authError with
  | Some e =>
      if bool_decide (e = js "google_auth_cancelled")
      then Some (js "Google login was cancelled. Please try again.")
      else if bool_decide (e = js "oauth_failed")
      then Some (js "Google login failed. Please try again.")
      else None
  | None => None
  end.

(** [readSubmitErrorMessage], of [error.response?.data?.message]. *)
Definition readSubmitErrorMessage (message : option jsstring) (fallbackMessage : jsstring) : jsstring :=
  default fallbackMessage message.

Definition register_fallback : jsstring := js "Không thể đăng ký tài khoản thường.".
Definition login_fallback : jsstring := js "Không thể đăng nhập bằng tài khoản thường.".

(** ** The forms *)

Inductive AuthFormMode := google | login | register.

#[export] Instance AuthFormMode_eq_dec : EqDecision AuthFormMode.
Proof. solve_decision. Defined.

(** [required]: antd refuses the empty text and nothing else. *)
Definition required (value message : jsstring) : list jsstring := if truthy value then [] else [message].

Definition login_rules (v : LoginLocalAuthDto) : list jsstring :=
  required (lg_email v) (js "Vui lòng nhập email") ++ required (lg_password v) (js "Vui lòng nhập mật khẩu").

Definition register_rules (v : RegisterLocalAuthDto) : list jsstring :=
  required (rg_email v) (js "Vui lòng nhập email")
  ++ required (rg_username v) (js "Vui lòng nhập username")
  ++ required (rg_displayName v) (js "Vui lòng nhập tên hiển thị")
  ++ required (rg_password v) (js "Vui lòng nhập mật khẩu")
  ++ required (rg_confirmPassword v) (js "Vui lòng xác nhận mật khẩu")
  ++ (if negb (truthy (rg_confirmPassword v)) || bool_decide (rg_password v = rg_confirmPassword v)
      then [] else [js "Mật khẩu xác nhận không khớp"]).

(** The heading and the description of a form. *)
Definition titleByMode (mode : AuthFormMode) : jsstring :=
  match mode with
  | google => js "Đăng nhập"
  | login => js "Đăng nhập tài khoản thường"
  | register => js "Đăng ký tài khoản thường"
  end.
Definition descriptionByMode (mode : AuthFormMode) : jsstring :=
  match mode with
  | google => js "Tiếp tục với tài khoản Google hoặc chọn tài khoản thường để vào website và khôi phục phiên làm việc của bạn."
  | login => js "Nhập email và mật khẩu để đăng nhập bằng tài khoản thường."
  | register => js "Tạo tài khoản thường mới để vào hệ thống mà không phụ thuộc vào Google login."
  end.

(** Where [startGoogleLogin] sends the window. *)
Definition startGoogleLogin (VITE_API_BASE_URL : jsstring) : jsstring :=
  VITE_API_BASE_URL ++ js "/auth/google".

(** ** The page *)

(** A submission: the text of its failure when the backend gives none, and the page (counted
    from the first) that it was made on. *)
Record Submission := mkSubmission {
  sb_fallback : jsstring;
  sb_page : nat;
}.

(** The session, the page that is mounted, its [useState]s, the submissions that have not
    ended, and the [message] of the last reply to each call. *)
Record SignIn := mkSignIn {
  sn_browser : Browser;
  sn_page : nat;
  sn_mode : AuthFormMode;
  sn_submitting : bool;
  sn_calls : gmap nat Submission;
  sn_texts : gmap nat (option jsstring);
}.

Definition on_browser (f : Browser → Browser) (s : SignIn) : SignIn :=
  mkSignIn (f (sn_browser s)) (sn_page s) (sn_mode s) (sn_submitting s) (sn_calls s) (sn_texts s).

(** [setErrorMessage] and [clearError] of the store. *)
Definition set_error (message : option jsstring) : SignIn → SignIn :=
  on_browser (λ b, browser_step b (SetErrorMessage message)).

Definition switchMode (mode : AuthFormMode) (s : SignIn) : SignIn :=
  let s := set_error None s in
  mkSignIn (sn_browser s) (sn_page s) mode (sn_submitting s) (sn_calls s) (sn_texts s).

(** [handleRegister] and [handleLogin] up to their [await]. *)
Definition submit (fallback : jsstring) (s : SignIn) : SignIn :=
  let s := set_error None s in
  let id := b_next (sn_browser s) in
  mkSignIn (browser_step (sn_browser s) StartSignIn) (sn_page s) (sn_mode s) true
    (<[id := mkSubmission fallback (sn_page s)]> (sn_calls s)) (sn_texts s).

(** ... and their [catch] and [finally]; the page they were made on may be gone. *)
Definition submission_ended (id : nat) (sub : Submission) (reply : Reply) (s : SignIn) : SignIn :=
  let s :=
    match reply with
    | ReplyOk _ => s
    | ReplyError _ _ =>
        set_error (Some (readSubmitErrorMessage (default None (sn_texts s !! id)) (sb_fallback sub))) s
    end in
  mkSignIn (sn_browser s) (sn_page s) (sn_mode s)
    (if bool_decide (sb_page sub = sn_page s) then false else sn_submitting s)
    (delete id (sn_calls s)) (sn_texts s).

Definition ended_reply (b : Browser) (id : nat) : option Reply :=
  b_calls b !! id ≫= λ c, match ca_phase c with Settled r => Some r | _ => None end.

(** What call [id]'s handler does if the call has ended. *)
Definition continue (s : SignIn) (id : nat) : SignIn :=
  match sn_calls s !! id, ended_reply (sn_browser s) id with
  | Some sub, Some reply => submission_ended id sub reply s
  | _, _ => s
  end.

(** Every handler whose call has ended, two that end in one turn in the order they were made. *)
Definition continue_all (s : SignIn) : SignIn := foldl continue s (seq 0 (b_next (sn_browser s))).

(** The route: a page that is left is unmounted, and the next one starts afresh. *)
Definition reroute (s : SignIn) : SignIn :=
  if bool_decide (route (sn_browser s) = AuthRoute) then s
  else mkSignIn (sn_browser s) (S (sn_page s)) google false (sn_calls s) (sn_texts s).

Inductive SignInEvent :=
  | ModeSwitched (mode : AuthFormMode)
  | AlertClosed
  | LoginSubmitted (values : LoginLocalAuthDto)
  | RegisterSubmitted (values : RegisterLocalAuthDto)
  | Session (e : BrowserEvent) (message : option jsstring).

(** A form is submitted when it is shown, its rules hold and its button is not loading. *)
Definition form_open (mode : AuthFormMode) (s : SignIn) : bool :=
  bool_decide (route (sn_browser s) = AuthRoute) && bool_decide (sn_mode s = mode)
  && negb (sn_submitting s).

Definition no_errors (errors : list jsstring) : bool := match errors with [] => true | _ => false end.

Definition sign_in_handle (e : SignInEvent) (s : SignIn) : SignIn :=
  match e with
  | ModeSwitched mode => switchMode mode s
  | AlertClosed => set_error None s
  | LoginSubmitted v =>
      if form_open login s && no_errors (login_rules v) then submit login_fallback s else s
  | RegisterSubmitted v =>
      if form_open register s && no_errors (register_rules v) then submit register_fallback s else s
  | Session e message =>
      let s := on_browser (λ b, browser_step b e) s in
      match e with
      | NetworkReply id _ =>
          mkSignIn (sn_browser s) (sn_page s) (sn_mode s) (sn_submitting s) (sn_calls s)
            (<[id := message]> (sn_texts s))
      | _ => s
      end
  end.

Definition sign_in_step (s : SignIn) (e : SignInEvent) : SignIn :=
  reroute (continue_all (sign_in_handle e s)).

(** [AuthBootstrap]: the session is hydrated, and the error that the address names is kept. *)
Definition bootstrap (storage authError : option jsstring) : SignIn :=
  let s := mkSignIn (page_load storage) 0 google false ∅ ∅ in
  let s := on_browser (λ b, browser_step b HydrateSession) s in
  match toAuthErrorMessage authError with
  | Some text => set_error (Some text) s
  | None => s
  end.

Definition sign_in (storage authError : option jsstring) (events : list SignInEvent) : SignIn :=
  foldl sign_in_step (bootstrap storage authError) events.

(** What [AuthPage] shows: the form with its texts, the alert, and the loading button. *)
Record AuthPageView := mkAuthPage {
  av_mode : AuthFormMode;
  av_title : jsstring;
  av_description : jsstring;
  av_alert : option jsstring;
  av_loading : bool;
}.
Definition AuthPage (s : SignIn) : AuthPageView :=
  mkAuthPage (sn_mode s) (titleByMode (sn_mode s)) (descriptionByMode (sn_mode s))
    (match b_errorMessage (sn_browser s) with
     | Some text => if truthy text then Some text else None
     | None => None
     end)
    (match sn_mode s with google => false | _ => sn_submitting s end).
