(* ===== verification/SignInFacts.v ===== *)
(** * Signing in: facts

    The button is loading exactly while a submission of the page is out, so it is free again
    once the network is quiet; a refusal is shown with its text on the form it was made from;
    a failed hydration keeps the error that the address named; and what the form lets through
    is never refused for a mistyped confirmation. *)

From S2P Require Import Prelude JsText Wire Driver Env Store Model Instance Encryption Auth.
From S2P Require Import Browser BrowserFacts SignIn.
Open Scope Z_scope.

(** ** Calls are never forgotten *)

Definition kept (b b' : Browser) : Prop :=
  (b_next b <= b_next b')%nat ∧ ∀ id, is_Some (b_calls b !! id) → is_Some (b_calls b' !! id).

#[export] Instance kept_preorder : PreOrder kept.
Proof. split; [by split|]. intros b1 b2 b3 [H1 H2] [H3 H4]. split; [lia|auto]. Qed.

Lemma kept_net b b' b'' : net b' = net b'' → kept b b' → kept b b''.
Proof. intros E [H1 H2]. injection E as _ E2 E3 _ _. split; [lia|]. by rewrite <-E3. Qed.

Lemma kept_start b purpose skip : kept b (start purpose skip b).
Proof.
  split; cbn; [lia|]. intros id Hid. destruct (decide (b_next b = id)) as [<-|Hne].
  - by rewrite lookup_insert_eq.
  - by rewrite lookup_insert_ne.
Qed.

Lemma kept_send b id purpose config : kept b (send id purpose config b).
Proof.
  split; cbn; [lia|]. intros k Hk. destruct (decide (id = k)) as [<-|Hne].
  - by rewrite lookup_insert_eq.
  - by rewrite lookup_insert_ne.
Qed.

Lemma kept_phase b id phase : kept b (set_phase id phase b).
Proof. split; cbn; [lia|]. intros k. by rewrite lookup_alter_is_Some. Qed.

Lemma kept_settle b id purpose r : kept b (settle id purpose r b).
Proof. eapply kept_net; [symmetry; apply net_after_call|apply kept_phase]. Qed.

Lemma kept_catch b id purpose r : kept b (refresh_catch id purpose r b).
Proof.
  unfold refresh_catch. etrans; [|apply kept_settle]. by apply (kept_net b b).
Qed.

Lemma kept_resume token b id : kept b (resume token b id).
Proof.
  unfold resume. destruct (b_calls b !! id) as [[purpose config [|error|]]|]; try done.
  destruct (given_token token); [apply kept_send|].
  etrans; [|apply kept_catch]. by apply (kept_net b b).
Qed.

Lemma kept_resume_all token ids b : kept b (foldl (resume token) b ids).
Proof.
  revert b. induction ids as [|id ids IH]; intros b; [done|]. cbn.
  etrans; [apply kept_resume|apply IH].
Qed.

Lemma kept_refresh_ended owner reply b : kept b (refresh_ended owner reply b).
Proof.
  unfold refresh_ended. pose proof (net_refresh reply b) as E.
  destruct (refreshAccessToken reply b) as [token b1]. simpl in E.
  assert (kept b b1) as Hk by by apply (kept_net b b).
  destruct owner; [| |done].
  - etrans; [exact Hk|]. etrans; [|apply kept_resume_all]. by split.
  - destruct (given_token token); [etrans; [exact Hk|apply kept_start]|].
    by apply (kept_net b b1).
Qed.

Lemma kept_await id c error b : kept b (await_refresh id c error b).
Proof.
  unfold await_refresh, runSharedRefresh.
  assert (∀ b1 call, kept b b1 → kept b (with_calls (b_refreshPromise b1) (b_next b1)
    (<[id := call]> (b_calls b1)) (b_waiting b1 ++ [id]) (b_wire b1) b1)) as Hins.
  { intros b1 call Hk. etrans; [exact Hk|]. split; cbn; [lia|]. intros k Hk'.
    destruct (decide (id = k)) as [<-|Hne]; [by rewrite lookup_insert_eq|by rewrite lookup_insert_ne]. }
  apply Hins. destruct (b_refreshPromise b); [done|]. etrans; [apply (kept_start _ (RefreshRequest SharedRefresh) true)|].
  by split; [cbn; lia|].
Qed.

Lemma kept_step b e : kept b (browser_step b e).
Proof.
  destruct e as [|skip| | | |message|id reply]; cbn [browser_step]; try apply kept_start.
  - etrans; [|apply kept_start]. by apply (kept_net b b).
  - by apply (kept_net b b).
  - destruct (b_calls b !! id) as [c|]; [|done]. destruct (ca_phase c); try done.
    unfold on_reply.
    assert (kept b match reply with
      | ReplyOk _ => settle id (ca_purpose c) reply b
      | ReplyError status code =>
          if cf_skipAuthRefresh (ca_config c) then settle id (ca_purpose c) reply b
          else if cf_retry (ca_config c) then refresh_catch id (ca_purpose c) reply b
          else if negb (token_expired status code) then settle id (ca_purpose c) reply b
          else await_refresh id c (status, code) b
      end) as Hk.
    { destruct reply; [apply kept_settle|].
      repeat case_match; auto using kept_settle, kept_catch, kept_await. }
    destruct (ca_purpose c); try exact Hk.
    etrans; [apply kept_phase|apply kept_refresh_ended].
Qed.

(** ** The invariant *)

(** [own s id]: the submission [id] was made on the page that is mounted. *)
Definition own (s : SignIn) (id : nat) : Prop :=
  ∃ sub, sn_calls s !! id = Some sub ∧ sb_page sub = sn_page s.

Record sign_in_ok (s : SignIn) : Prop := {
  so_calls : calls_ok [] (sn_browser s);
  so_known id sub : sn_calls s !! id = Some sub →
    is_Some (b_calls (sn_browser s) !! id) ∧ (sb_page sub <= sn_page s)%nat;
  so_submitting : sn_submitting s = true ↔ ∃ id, own s id;
  so_one id id' : own s id → own s id' → id = id';
}.

Lemma ok_on_browser f s : (kept (sn_browser s) (f (sn_browser s))) →
  calls_ok [] (f (sn_browser s)) → sign_in_ok s → sign_in_ok (on_browser f s).
Proof.
  intros [_ Hk] Hc [H1 H2 H3 H4]. split; [done| |exact H3|exact H4].
  intros id sub Hs. destruct (H2 id sub Hs) as [Hi Hp]. split; [by apply Hk|done].
Qed.

Lemma ok_set_error message s : sign_in_ok s → sign_in_ok (set_error message s).
Proof.
  intros Hs. apply ok_on_browser; [apply (kept_step _ (SetErrorMessage _))| |done].
  apply (calls_ok_step (SetErrorMessage _)), Hs.
Qed.

Lemma ok_submit fallback s : sign_in_ok s → sn_submitting s = false → sign_in_ok (submit fallback s).
Proof.
  intros Hs Hn. unfold submit. destruct (ok_set_error None s Hs) as [H1 H2 H3 H4].
  set (s1 := set_error None s) in *.
  assert (∀ id, ¬ own s1 id) as Hnone.
  { intros id Ho. assert (sn_submitting s1 = true) as E by (apply H3; eauto).
    change (sn_submitting s = true) in E. congruence. }
  assert (∀ id sub, <[b_next (sn_browser s1) := mkSubmission fallback (sn_page s)]> (sn_calls s1) !! id
    = Some sub → sb_page sub = sn_page s → id = b_next (sn_browser s1)) as Hown.
  { intros id sub. rewrite lookup_insert_Some. intros [[<- _]|[_ Hl]] Hp; [done|].
    destruct (Hnone id). by exists sub. }
  split; cbn [sn_browser sn_page sn_calls sn_submitting].
  - by apply (calls_ok_step StartSignIn).
  - intros id sub. rewrite lookup_insert_Some. intros [[<- <-]|[_ Hl]].
    + split; [|cbn; lia]. cbn [browser_step]. unfold start. cbn. by rewrite lookup_insert_eq.
    + destruct (H2 id sub Hl) as [Hi Hp]. split; [|done].
      by apply (proj2 (kept_step (sn_browser s1) StartSignIn)).
  - split; [|done]. intros _. exists (b_next (sn_browser s1)). eexists. cbn.
    by rewrite lookup_insert_eq.
  - intros id id' (sub & Hl & Hp) (sub' & Hl' & Hp'). cbn in *.
    rewrite (Hown _ _ Hl Hp). by rewrite (Hown _ _ Hl' Hp').
Qed.

Lemma ok_continue id s : sign_in_ok s → sign_in_ok (continue s id).
Proof.
  intros Hs. unfold continue. destruct (sn_calls s !! id) as [sub|] eqn:El; [|done].
  destruct (ended_reply (sn_browser s) id) as [reply|]; [|done]. unfold submission_ended.
  set (s1 := match reply with ReplyOk _ => s | _ => _ end).
  assert (sign_in_ok s1 ∧ sn_calls s1 = sn_calls s ∧ sn_page s1 = sn_page s
    ∧ sn_submitting s1 = sn_submitting s) as (Hs1 & E1 & E2 & E3).
  { unfold s1. destruct reply; [done|]. split_and!; [by apply ok_set_error|done..]. }
  destruct Hs1 as [H1 H2 H3 H4].
  assert (∀ id', (∃ sub', delete id (sn_calls s1) !! id' = Some sub' ∧ sb_page sub' = sn_page s1)
    ↔ own s1 id' ∧ id' ≠ id) as Hown.
  { intros id'. unfold own. setoid_rewrite lookup_delete_Some. naive_solver. }
  split; cbn [sn_browser sn_page sn_calls sn_submitting].
  - done.
  - intros id' sub'. rewrite lookup_delete_Some. intros [_ Hl]. by apply H2.
  - unfold own. cbn [sn_calls sn_page]. setoid_rewrite Hown.
    case_bool_decide as Hp.
    + split; [done|]. intros (id' & Ho & Hne). destruct Hne. apply H4; [done|].
      exists sub. by rewrite E1.
    + rewrite H3. split; [|naive_solver]. intros (id' & Ho). exists id'. split; [done|].
      intros ->. destruct Ho as (sub' & Hl & Hp'). rewrite E1, El in Hl. by simplify_eq.
  - intros i j Hi Hj. unfold own in Hi, Hj. cbn [sn_calls sn_page] in Hi, Hj.
    apply Hown in Hi as [Hi _]. apply Hown in Hj as [Hj _]. by apply H4.
Qed.

(** ** Handlers whose call has ended run *)

Lemma continue_frame id s :
  net (sn_browser (continue s id)) = net (sn_browser s) ∧
  ∀ k sub, sn_calls (continue s id) !! k = Some sub →
    sn_calls s !! k = Some sub ∧ (k = id → ended_reply (sn_browser s) id = None).
Proof.
  unfold continue. destruct (sn_calls s !! id) as [sub0|] eqn:El.
  2: { split; [done|]. intros k sub Hk. split; [done|]. intros ->. congruence. }
  destruct (ended_reply (sn_browser s) id) as [reply|] eqn:Ee; [|done].
  unfold submission_ended. split; [by destruct reply|].
  intros k sub. destruct reply; cbn [sn_calls]; rewrite lookup_delete_Some; intros [Hne Hk];
    by split.
Qed.

Lemma ended_reply_net b b' id : net b = net b' → ended_reply b id = ended_reply b' id.
Proof. intros E. injection E as _ _ E _ _. unfold ended_reply. by rewrite E. Qed.

Lemma continue_list ids s :
  let s' := foldl continue s ids in
  net (sn_browser s') = net (sn_browser s) ∧
  (sign_in_ok s → sign_in_ok s') ∧
  ∀ k sub, sn_calls s' !! k = Some sub →
    sn_calls s !! k = Some sub ∧ (k ∈ ids → ended_reply (sn_browser s) k = None).
Proof.
  revert s. induction ids as [|id ids IH]; intros s; cbn.
  { split_and!; [done|done|]. intros k sub Hk. split; [done|]. by intros ?%not_elem_of_nil. }
  destruct (IH (continue s id)) as (E & Hok & Hc). destruct (continue_frame id s) as [E' Hc'].
  split_and!; [by rewrite E|intros Hs; by apply Hok, ok_continue|].
  intros k sub Hk. destruct (Hc k sub Hk) as [Hk1 He1]. destruct (Hc' k sub Hk1) as [Hk2 He2].
  split; [done|]. rewrite elem_of_cons. intros [->|Hin]; [by apply He2|].
  rewrite <-(ended_reply_net _ _ _ E'). by apply He1.
Qed.

(** No handler is left that could go on. *)
Definition settled_down (s : SignIn) : Prop :=
  ∀ id sub, sn_calls s !! id = Some sub → ended_reply (sn_browser s) id = None.

Lemma continue_all_ok s : sign_in_ok s →
  sign_in_ok (continue_all s) ∧ settled_down (continue_all s) ∧
  net (sn_browser (continue_all s)) = net (sn_browser s).
Proof.
  intros Hs. unfold continue_all.
  destruct (continue_list (seq 0 (b_next (sn_browser s))) s) as (E & Hok & Hc).
  split_and!; [by apply Hok| |done]. intros id sub Hk. destruct (Hc id sub Hk) as [Hk' He].
  rewrite (ended_reply_net _ _ _ E). apply He, elem_of_seq. split; [lia|].
  destruct (so_known s Hs id sub Hk') as [Hi _]. by apply (co_fresh _ _ (so_calls s Hs)) in Hi.
Qed.

Lemma reroute_ok s : sign_in_ok s → settled_down s →
  sign_in_ok (reroute s) ∧ settled_down (reroute s) ∧ sn_browser (reroute s) = sn_browser s.
Proof.
  intros [H1 H2 H3 H4] Hq. unfold reroute. case_bool_decide; [by split_and!|].
  split_and!; [|exact Hq|done].
  assert (∀ id, ¬ own (mkSignIn (sn_browser s) (S (sn_page s)) google false (sn_calls s) (sn_texts s)) id)
    as Hnone.
  { intros id (sub & Hl & Hp). cbn in *. destruct (H2 id sub Hl) as [_ Hle]. lia. }
  split; cbn [sn_browser sn_page sn_calls sn_submitting].
  - done.
  - intros id sub Hl. destruct (H2 id sub Hl). split; [done|lia].
  - split; [done|]. intros [id Ho]. by destruct (Hnone id).
  - intros id id' Ho. by destruct (Hnone id).
Qed.

Lemma sign_in_handle_ok e s : sign_in_ok s → sign_in_ok (sign_in_handle e s).
Proof.
  intros Hs. destruct e as [mode| |v|v|e message]; cbn [sign_in_handle].
  - unfold switchMode. destruct (ok_set_error None s Hs). by split.
  - by apply ok_set_error.
  - destruct (form_open login s && _) eqn:E; [|done]. apply ok_submit; [done|].
    apply andb_true_iff in E as [E _]. unfold form_open in E.
    apply andb_true_iff in E as [_ E]. by apply negb_true_iff in E.
  - destruct (form_open register s && _) eqn:E; [|done]. apply ok_submit; [done|].
    apply andb_true_iff in E as [E _]. unfold form_open in E.
    apply andb_true_iff in E as [_ E]. by apply negb_true_iff in E.
  - assert (sign_in_ok (on_browser (λ b, browser_step b e) s)) as Hb.
    { apply ok_on_browser; [apply kept_step| |done]. apply calls_ok_step, Hs. }
    destruct e; try exact Hb. destruct Hb. by split.
Qed.

Lemma sign_in_step_ok s e : sign_in_ok s →
  sign_in_ok (sign_in_step s e) ∧ settled_down (sign_in_step s e).
Proof.
  intros Hs. unfold sign_in_step.
  destruct (continue_all_ok _ (sign_in_handle_ok e s Hs)) as (H1 & H2 & _).
  destruct (reroute_ok _ H1 H2) as (H3 & H4 & _). done.
Qed.

Lemma bootstrap_ok storage authError :
  sign_in_ok (bootstrap storage authError) ∧ settled_down (bootstrap storage authError).
Proof.
  unfold bootstrap. set (s := mkSignIn _ 0 google false ∅ ∅).
  assert (sign_in_ok s) as Hs.
  { split; [apply (calls_ok_browse storage [])|done| |].
    - split; [done|]. by intros (id & sub & Hl & _).
    - by intros id id' (sub & Hl & _). }
  assert (sign_in_ok (on_browser (λ b, browser_step b HydrateSession) s)) as Hh.
  { apply ok_on_browser; [apply (kept_step _ HydrateSession)| |done].
    apply (calls_ok_step HydrateSession), Hs. }
  destruct (toAuthErrorMessage authError); [split; [by apply ok_set_error|done]|done].
Qed.

Lemma sign_in_reached storage authError events :
  sign_in_ok (sign_in storage authError events) ∧ settled_down (sign_in storage authError events).
Proof.
  unfold sign_in. pose proof (bootstrap_ok storage authError) as H0.
  revert H0. generalize (bootstrap storage authError).
  induction events as [|e events IH]; intros s [Hs Hq]; [done|]. cbn.
  by apply IH, sign_in_step_ok.
Qed.

(** C11: the button of the form is loading exactly while a submission made on this page is out,
    and there is then only one; when no call is on the wire any more it is free again,
    whatever was typed, answered and refreshed before. *)
Theorem submission_ends storage authError events :
  let s := sign_in storage authError events in
  (sn_submitting s = true ↔
   ∃ id c, own s id ∧ b_calls (sn_browser s) !! id = Some c ∧ ∀ r, ca_phase c ≠ Settled r) ∧
  (∀ id id', own s id → own s id' → id = id') ∧
  ((∀ id c, b_calls (sn_browser s) !! id = Some c → ¬ on_wire c) → sn_submitting s = false).
Proof.
  intros s. destruct (sign_in_reached storage authError events) as [Hs Hq]. fold s in Hs, Hq.
  assert (∀ id, own s id → ∃ c, b_calls (sn_browser s) !! id = Some c ∧ ∀ r, ca_phase c ≠ Settled r)
    as Hout.
  { intros id (sub & Hl & _). destruct (so_known s Hs id sub Hl) as [[c Hc] _].
    exists c. split; [done|]. intros r Hr. specialize (Hq id sub Hl).
    unfold ended_reply in Hq. rewrite Hc in Hq. simpl in Hq. by rewrite Hr in Hq. }
  split_and!; [|apply (so_one s Hs)|].
  - rewrite (so_submitting s Hs). split; [|by intros (id & _ & Ho & _); exists id].
    intros [id Ho]. destruct (Hout id Ho) as (c & Hc & Hr). eauto.
  - intros Hquiet. apply not_true_is_false. intros Hsub. apply (so_submitting s Hs) in Hsub as [id Ho].
    destruct (Hout id Ho) as (c & Hc & Hr).
    destruct (ca_phase c) as [|error|r] eqn:Ep; [by destruct (Hquiet id c)| |by destruct (Hr r)].
    destruct (awaiting_refresh (sn_browser s) id c (so_calls s Hs) Hc) as (rid & c' & Hc' & _ & Hw);
      [by eexists|]. by destruct (Hquiet rid c').
Qed.

(** ** What a refusal shows *)

Lemma continue_idle ids s :
  (∀ k, k ∈ ids → sn_calls s !! k = None ∨ ended_reply (sn_browser s) k = None) →
  foldl continue s ids = s.
Proof.
  revert s. induction ids as [|k ids IH]; intros s Hids; [done|]. cbn.
  assert (continue s k = s) as ->.
  { unfold continue. destruct (Hids k) as [->| ->]; [by left|done|by destruct (sn_calls s !! k)]. }
  apply IH. intros k' Hk'. apply Hids. by right.
Qed.

(** When one submission has ended, only its handler runs. *)
Lemma continue_all_one s id sub :
  sn_calls s !! id = Some sub → (id < b_next (sn_browser s))%nat →
  (∀ k sub', sn_calls s !! k = Some sub' → k ≠ id → ended_reply (sn_browser s) k = None) →
  continue_all s = continue s id.
Proof.
  intros Hl Hlt Hothers. unfold continue_all.
  destruct (list_elem_of_split (seq 0 (b_next (sn_browser s))) id) as (l1 & l2 & E).
  { apply elem_of_seq. lia. }
  pose proof (NoDup_seq 0 (b_next (sn_browser s))) as Hnd. rewrite E in Hnd |- *.
  apply NoDup_app in Hnd as (_ & Hn1 & Hnd). apply NoDup_cons in Hnd as [Hn2 _].
  rewrite foldl_app. rewrite (continue_idle l1).
  2: { intros k Hk. destruct (sn_calls s !! k) as [sub'|] eqn:Ek; [|by left]. right.
    apply (Hothers k sub' Ek). intros ->. by apply (Hn1 id Hk); left. }
  cbn. apply continue_idle. intros k Hk. destruct (continue_frame id s) as [En Hc].
  destruct (sn_calls (continue s id) !! k) as [sub'|] eqn:Ek; [right|by left].
  destruct (Hc k sub' Ek) as [Hk' _]. rewrite (ended_reply_net _ _ _ En).
  apply (Hothers k sub' Hk'). by intros ->.
Qed.

(** C35: a refused submission leaves the user on the form it was made from, signed out and with
    the button free, and the alert shows the message of the backend's answer, or the form's own
    text when there was no answer. *)
Theorem refusal_shown storage authError events id c sub status code message :
  let s := sign_in storage authError events in
  sn_calls s !! id = Some sub → sb_page sub = sn_page s →
  b_calls (sn_browser s) !! id = Some c → on_wire c → ca_purpose c = SignInRequest →
  cf_skipAuthRefresh (ca_config c) = false → cf_retry (ca_config c) = false →
  token_expired status code = false → route (sn_browser s) = AuthRoute →
  let s' := sign_in_step s (Session (NetworkReply id (ReplyError status code)) message) in
  route (sn_browser s') = AuthRoute ∧ sn_page s' = sn_page s ∧ sn_mode s' = sn_mode s ∧
  sn_submitting s' = false ∧
  b_errorMessage (sn_browser s') = Some (default (sb_fallback sub) message) ∧
  b_accessToken (sn_browser s') = b_accessToken (sn_browser s).
Proof.
  intros s Hl Hp Hc Ho Hpur Hskip Hretry Hexp Hroute s'.
  destruct (sign_in_reached storage authError events) as [Hs Hq]. fold s in Hs, Hq.
  set (b' := set_phase id (Settled (ReplyError status code)) (sn_browser s)).
  assert (browser_step (sn_browser s) (NetworkReply id (ReplyError status code)) = b') as Eb.
  { cbn [browser_step]. rewrite Hc. unfold on_wire in Ho. rewrite Ho. unfold on_reply.
    rewrite Hpur, Hskip, Hretry, Hexp. done. }
  set (s1 := mkSignIn b' (sn_page s) (sn_mode s) (sn_submitting s) (sn_calls s)
               (<[id := message]> (sn_texts s))).
  assert (sign_in_handle (Session (NetworkReply id (ReplyError status code)) message) s = s1) as Eh.
  { cbn [sign_in_handle]. unfold on_browser. cbn [sn_browser sn_page sn_mode sn_submitting sn_calls sn_texts].
    by rewrite Eb. }
  assert (∀ k, ended_reply b' k = if decide (k = id) then Some (ReplyError status code)
                                  else ended_reply (sn_browser s) k) as Hended.
  { intros k. unfold ended_reply, b'. rewrite lookup_set_phase. case_decide as Ek; [|done].
    subst k. by rewrite Hc. }
  assert (continue_all s1 = continue s1 id) as Eall.
  { apply (continue_all_one s1 id sub Hl).
    - apply (co_fresh _ _ (so_calls s Hs)). by eexists.
    - intros k sub' Hk Hne. cbn. rewrite Hended, decide_False by done. by apply (Hq k sub'). }
  unfold s', sign_in_step. rewrite Eh, Eall. unfold continue. cbn [sn_calls s1]. rewrite Hl.
  cbn [sn_browser s1]. rewrite Hended, decide_True by done. unfold submission_ended.
  cbn [sn_texts s1]. rewrite lookup_insert_eq.
  unfold reroute. rewrite bool_decide_true by exact Hroute. cbn.
  rewrite bool_decide_true by done. split_and!; done.
Qed.

(** A hydration that fails shows the form with the error that the address named; one that
    succeeds shows the chat page and no error. *)
Lemma oauth_error_kept storage e text status code :
  toAuthErrorMessage (Some e) = Some text →
  let s := sign_in_step (bootstrap storage (Some e)) (Session (NetworkReply 0 (ReplyError status code)) None) in
  route (sn_browser s) = AuthRoute ∧ b_errorMessage (sn_browser s) = Some text.
Proof. intros He s. unfold s, bootstrap. rewrite He. vm_compute. done. Qed.

(** ** What the forms let through *)

Lemma required_nil v m rest : required v m ++ rest = [] → truthy v = true ∧ rest = [].
Proof. unfold required. by destruct (truthy v). Qed.

(** What the registration form lets through, the backend refuses for a field that is only
    white space or for an address without @, and for nothing else that it checks first: the
    refusal of a mistyped confirmation is never seen by a user of this form. *)
Theorem form_then_validation `{Host} (v : RegisterLocalAuthDto) :
  register_rules v = [] →
  match validateRegisterLocalAuthDto v with
  | Valid value =>
      rg_email value = normalizeEmail (rg_email v) ∧ rg_password value = rg_password v ∧
      rg_confirmPassword v = rg_password v
  | Invalid code _ =>
      (code = js "local_auth_invalid_payload" ∧
       (normalizeEmail (rg_email v) = [] ∨ trim (rg_username v) = [] ∨ trim (rg_displayName v) = []))
      ∨ (code = js "local_auth_invalid_email" ∧ includes (normalizeEmail (rg_email v)) (js "@") = false)
  end.
Proof.
  unfold register_rules. intros E.
  apply required_nil in E as [_ E]. apply required_nil in E as [_ E]. apply required_nil in E as [_ E].
  apply required_nil in E as [Hp E]. apply required_nil in E as [Hc E]. rewrite Hc in E. simpl in E.
  case_bool_decide as Heq; [|done].
  unfold validateRegisterLocalAuthDto. rewrite Hp, Hc. simpl.
  assert (∀ s, truthy s = false ↔ s = []) as Htruthy by by intros [].
  unfold normalizeTextField.
  destruct (truthy (normalizeEmail (rg_email v))) eqn:E1;
    [|left; split; [done|left; by apply Htruthy]].
  destruct (truthy (trim (rg_username v))) eqn:E2; [|left; split; [done|right; left; by apply Htruthy]].
  destruct (truthy (trim (rg_displayName v))) eqn:E3; [|left; split; [done|right; right; by apply Htruthy]].
  simpl. destruct (includes _ _) eqn:E4; [|by right]. simpl.
  by rewrite bool_decide_false by auto.
Qed.

(** ** A refused sign-in *)

Definition refused_events : list SignInEvent :=
  [Session (NetworkReply 0 (ReplyError (Some 401) None)) None; ModeSwitched login;
   LoginSubmitted (mkLoginDto (js "a@x") (js "secret"))].

Lemma refusal_shown_witness :
  let s := sign_in None (Some (js "oauth_failed")) refused_events in
  let s' := sign_in_step s (Session (NetworkReply 1 (ReplyError (Some 401)
              (Some (js "local_auth_invalid_credentials")))) (Some (js "Email or password is invalid"))) in
  sn_submitting s = true ∧ sn_submitting s' = false ∧
  b_errorMessage (sn_browser s') = Some (js "Email or password is invalid").
Proof.
  split; [vm_compute; reflexivity|].
  destruct (refusal_shown None (Some (js "oauth_failed")) refused_events 1
    (mkCall SignInRequest (mkConfig false false None) OnWire) (mkSubmission login_fallback 0)
    (Some 401) (Some (js "local_auth_invalid_credentials")) (Some (js "Email or password is invalid")))
    as (_ & _ & _ & H1 & H2 & _); try (vm_compute; reflexivity).
  split; [exact H1|]. etrans; [exact H2|reflexivity].
Defined.

Definition demo_registration : RegisterLocalAuthDto :=
  mkRegisterDto (js " Ann@X ") (js "ann") (js "Ann") (js "secret") (js "secret").

Lemma form_then_validation_witness :
  register_rules demo_registration = [] ∧
  match @validateRegisterLocalAuthDto (demo_host demo_env) demo_registration with
  | Valid value => rg_confirmPassword demo_registration = rg_password demo_registration
  | Invalid _ _ => False
  end.
Proof.
  pose proof (@form_then_validation (demo_host demo_env) demo_registration eq_refl) as H.
  split; [reflexivity|].
  destruct (@validateRegisterLocalAuthDto (demo_host demo_env) demo_registration) as [code m|value] eqn:E.
  - vm_compute in E. discriminate E.
  - exact (proj2 (proj2 H)).
Defined.
